(** * Cosmic Voyager 3D: the particle-field generator and its kinematics

    A shallow embedding of the [GalaxyScene] component.  The repository
    carries three revisions of that component:

    - [V1]: first file of [src/unnamed/part_002] (lines 1-300);
    - [V2]: [src/unnamed/part_001];
    - [V3]: second file of [src/unnamed/part_002] (lines 302-660).

    Each revision has a generation effect ([useEffect] on [params]) that
    fills the typed arrays of [sceneRef.current.stars], and a per-frame
    [animate] callback that mutates them.

    Numbers.  A JavaScript [number] is modelled by [JS.num]: an exact real
    or one of [Infinity], [-Infinity], [NaN].  Arithmetic on finite operands
    is exact (no rounding, no overflow, one unsigned zero); division by
    zero, [0/0], [x % 0], [sqrt] of a negative etc. give the IEEE answer.
    A [Float32Array] is a [list JS.num]; storing into it is the identity.
    The code rounds to doubles, overflows to [Infinity] beyond their range,
    and rounds once more, to 32 bits, when it stores into a [Float32Array].
    Where a property is about which entries are finite (C3), the
    magnitudes are therefore bounded explicitly, far inside both ranges.

    [Math.random] is an explicit stream [rnd : nat -> R] read through a
    counter, so that generation is a function. *)

From Stdlib Require Import Reals Lra Lia String.
From stdpp Require Import base option list.

Open Scope R_scope.

(** ** JavaScript numbers *)

Module JS.

Inductive num : Type :=
| Fin (x : R)
| PInf
| NInf
| NaN.

Definition isFinite (a : num) : bool :=
  match a with Fin _ => true | _ => false end.

Definition isNaN (a : num) : bool :=
  match a with NaN => true | _ => false end.

(** Sign of a real, as a three-way comparison with zero. *)
Definition sgn (x : R) : comparison :=
  if Rlt_dec 0 x then Gt else if Rlt_dec x 0 then Lt else Eq.

Definition neg (a : num) : num :=
  match a with
  | Fin x => Fin (- x)
  | PInf => NInf
  | NInf => PInf
  | NaN => NaN
  end.

Definition add (a b : num) : num :=
  match a, b with
  | NaN, _ | _, NaN => NaN
  | Fin x, Fin y => Fin (x + y)
  | PInf, NInf | NInf, PInf => NaN
  | PInf, _ | _, PInf => PInf
  | NInf, _ | _, NInf => NInf
  end.

Definition sub (a b : num) : num := add a (neg b).

(** An infinity with the sign of [c]; [0 * Infinity] is [NaN]. *)
Definition inf_of (c : comparison) : num :=
  match c with Gt => PInf | Lt => NInf | Eq => NaN end.

Definition mul (a b : num) : num :=
  match a, b with
  | NaN, _ | _, NaN => NaN
  | Fin x, Fin y => Fin (x * y)
  | Fin x, PInf | PInf, Fin x => inf_of (sgn x)
  | Fin x, NInf | NInf, Fin x => inf_of (CompOpp (sgn x))
  | PInf, PInf | NInf, NInf => PInf
  | PInf, NInf | NInf, PInf => NInf
  end.

(** The zero divisor is taken as [+0]. *)
Definition div (a b : num) : num :=
  match a, b with
  | NaN, _ | _, NaN => NaN
  | Fin x, Fin y => if Req_dec_T y 0 then inf_of (sgn x) else Fin (x / y)
  | Fin _, _ => Fin 0
  | PInf, Fin y => if Rlt_dec y 0 then NInf else PInf
  | NInf, Fin y => if Rlt_dec y 0 then PInf else NInf
  | _, _ => NaN
  end.

(** Rounding towards zero. *)
Definition trunc (x : R) : Z :=
  if Rle_dec 0 x then Int_part x else (- Int_part (- x))%Z.

(** The [%] operator: the remainder has the sign of the dividend. *)
Definition rem (a b : num) : num :=
  match a, b with
  | Fin x, Fin y =>
      if Req_dec_T y 0 then NaN else Fin (x - y * IZR (trunc (x / y)))
  | Fin x, (PInf | NInf) => Fin x
  | _, _ => NaN
  end.

(** The [<] operator; every comparison with [NaN] is false. *)
Definition lt (a b : num) : bool :=
  match a, b with
  | NaN, _ | _, NaN => false
  | Fin x, Fin y => if Rlt_dec x y then true else false
  | _, NInf => false
  | NInf, _ => true
  | PInf, _ => false
  | Fin _, PInf => true
  end.

Definition gt (a b : num) : bool := lt b a.

(** [i ** 2] and [Math.pow]: the cases of the ECMAScript definition. *)
Definition is_int (y : R) : bool :=
  if Req_dec_T (IZR (Int_part y)) y then true else false.

Definition pow (a b : num) : num :=
  match b with
  | NaN => NaN
  | Fin y =>
      if Req_dec_T y 0 then Fin 1 else
      match a with
      | NaN => NaN
      | Fin x =>
          match sgn x with
          | Gt => Fin (Rpower x y)
          | Eq => if Rlt_dec 0 y then Fin 0 else PInf
          | Lt =>
              if is_int y
              then Fin ((if Z.even (Int_part y) then 1 else -1) * Rpower (- x) y)
              else NaN
          end
      | PInf => if Rlt_dec 0 y then PInf else Fin 0
      | NInf =>
          if Rlt_dec 0 y
          then (if is_int y && Z.odd (Int_part y) then NInf else PInf)
          else Fin 0
      end
  | PInf =>
      match a with
      | NaN => NaN
      | Fin x =>
          if Rlt_dec 1 (Rabs x) then PInf
          else if Req_dec_T (Rabs x) 1 then NaN else Fin 0
      | _ => PInf
      end
  | NInf =>
      match a with
      | NaN => NaN
      | Fin x =>
          if Rlt_dec 1 (Rabs x) then Fin 0
          else if Req_dec_T (Rabs x) 1 then NaN else PInf
      | _ => Fin 0
      end
  end.

Module Math.

Definition PI : num := Fin Rtrigo1.PI.

Definition sqrt (a : num) : num :=
  match a with
  | Fin x => if Rlt_dec x 0 then NaN else Fin (R_sqrt.sqrt x)
  | PInf => PInf
  | _ => NaN
  end.

Definition sin (a : num) : num :=
  match a with Fin x => Fin (Rtrigo_def.sin x) | _ => NaN end.

Definition cos (a : num) : num :=
  match a with Fin x => Fin (Rtrigo_def.cos x) | _ => NaN end.

Definition acos (a : num) : num :=
  match a with
  | Fin x =>
      if Rle_dec (-1) x then (if Rle_dec x 1 then Fin (Ratan.acos x) else NaN)
      else NaN
  | _ => NaN
  end.

Definition abs (a : num) : num :=
  match a with
  | Fin x => Fin (Rabs x)
  | PInf | NInf => PInf
  | NaN => NaN
  end.

Definition max (a b : num) : num :=
  match a, b with
  | NaN, _ | _, NaN => NaN
  | PInf, _ | _, PInf => PInf
  | NInf, c | c, NInf => c
  | Fin x, Fin y => Fin (Rmax x y)
  end.

Definition pow : num -> num -> num := JS.pow.

End Math.

End JS.

Import JS.

Coercion Fin : R >-> num.

Infix "+." := JS.add (at level 50, left associativity).
Infix "-." := JS.sub (at level 50, left associativity).
Infix "*." := JS.mul (at level 40, left associativity).
Infix "/." := JS.div (at level 40, left associativity).
Infix "%." := JS.rem (at level 40, left associativity).
Infix "<." := JS.lt (at level 70, no associativity).
Infix ">." := JS.gt (at level 70, no associativity).

(** A loop counter or an array length read as a number. *)
Definition Num (n : nat) : num := Fin (INR n).

(** ** Typed arrays

    [new Float32Array(n)] is [n] zeros.  A read past the end yields
    [undefined], which every arithmetic operator turns into [NaN]; a write
    past the end is ignored, which is what [<[i:=v]>] does. *)

Abbreviation Float32Array := (list num) (only parsing).

(** The one [Uint8Array] of the scene, [isGalaxyA], holds the flags 1 and 0
    and is only tested for truth: its entries are booleans. *)
Abbreviation Uint8Array := (list bool) (only parsing).

Definition new_Float32Array (n : nat) : Float32Array := replicate n (Fin 0).
Definition new_Uint8Array (n : nat) : Uint8Array := replicate n false.

Definition rd (a : Float32Array) (i : nat) : num := default NaN (a !! i).
Definition rdb (a : Uint8Array) (i : nat) : bool := default false (a !! i).

(** [for (let i = 0; i < n; i++) s = body i s]. *)
Definition for_ {S : Type} (n : nat) (body : nat -> S -> S) (s : S) : S :=
  fold_left (fun acc i => body i acc) (seq 0 n) s.

(** The number of rounds of [for (i = 0; i < len / 3; i++)]: the least
    integer that is not below [len / 3]. *)
Definition thirds (len : nat) : nat := Nat.div (len + 2) 3.

(** ** Math.random

    [Rand A] reads the stream of samples from a position and returns the
    position after the draws it made. *)

Definition Rand (A : Type) : Type := (nat -> R) -> nat -> A * nat.

Definition ret {A} (a : A) : Rand A := fun _ k => (a, k).

Definition bind {A B} (m : Rand A) (f : A -> Rand B) : Rand B :=
  fun rnd k => let '(a, k') := m rnd k in f a rnd k'.

Definition random : Rand num := fun rnd k => (Fin (rnd k), S k).

Notation "x <~ m ;; k" := (bind m (fun x => k))
  (at level 200, m at level 99, k at level 200, right associativity).

(** A [for] loop whose body draws random numbers. *)
Definition forR {S : Type} (n : nat) (body : nat -> S -> Rand S) (s : S)
  : Rand S :=
  fun rnd k => for_ n (fun i acc => body i (fst acc) rnd (snd acc)) (s, k).

(** ** The part of three.js the scene uses *)

Module THREE.

Module Color.
Record t : Type := mk { r : num; g : num; b : num }.

Definition clone (c : t) : t := c.

(** [this.r += (color.r - this.r) * alpha], and so for [g] and [b]. *)
Definition lerp (c color : t) (alpha : num) : t :=
  {| r := r c +. (r color -. r c) *. alpha;
     g := g c +. (g color -. g c) *. alpha;
     b := b c +. (b color -. b c) *. alpha |}.
End Color.

Module Vector3.
Record t : Type := mk { x : num; y : num; z : num }.

Definition add (v w : t) : t :=
  {| x := x v +. x w; y := y v +. y w; z := z v +. z w |}.

Definition lerp (v w : t) (alpha : num) : t :=
  {| x := x v +. (x w -. x v) *. alpha;
     y := y v +. (y w -. y v) *. alpha;
     z := z v +. (z w -. z v) *. alpha |}.
End Vector3.

End THREE.

(** ** types.ts *)

Inductive GalaxyType : Type :=
| SPIRAL | BARRED_SPIRAL | ELLIPTICAL | IRREGULAR | LENTICULAR.

Inductive CosmicEvent : Type :=
| COLLISION | SUPERNOVA | QUASAR.

(** The enums are string enums: at run time a member is its string. *)
Definition GalaxyType_value (t : GalaxyType) : string :=
  match t with
  | SPIRAL => "مارپیچی"
  | BARRED_SPIRAL => "مارپیچی میله‌ای"
  | ELLIPTICAL => "بیضوی"
  | IRREGULAR => "نامنظم"
  | LENTICULAR => "عدسی"
  end.

Definition CosmicEvent_value (e : CosmicEvent) : string :=
  match e with
  | COLLISION => "برخورد دو کهکشان"
  | SUPERNOVA => "انفجار ابرنواختر"
  | QUASAR => "کوازار (هسته فعال)"
  end.

Coercion GalaxyType_value : GalaxyType >-> string.
Coercion CosmicEvent_value : CosmicEvent >-> string.

(** [starsCount] and [branches] are counts; the other numeric fields are
    finite reals.  The colours are the strings handed to [THREE.Color]. *)
Record GalaxyParams : Type := {
  type : string;
  starsCount : nat;
  radius : R;
  branches : nat;
  spin : R;
  randomness : R;
  randomnessPower : R;
  insideColor : string;
  outsideColor : string;
  isEvent : option bool
}.

(** [a === b] on strings. *)
Definition seq_str (a b : string) : bool := String.eqb a b.
Infix "===" := seq_str (at level 70, no associativity).

(** ** The scene state *)

Record UserData : Type := {
  velocities : option Float32Array;
  initialPositions : option Float32Array;
  isGalaxyA : option Uint8Array
}.

Definition no_userData : UserData :=
  {| velocities := None; initialPositions := None; isGalaxyA := None |}.

(** A [THREE.Points] object: the two buffer attributes of its geometry,
    the geometry's [userData], [rotation.y] and the material's opacity. *)
Record Points : Type := {
  position : Float32Array;
  color : Float32Array;
  userData : UserData;
  rotation_y : num;
  opacity : num
}.

Definition new_Points (pos cols : Float32Array) (ud : UserData) (op : R)
  : Points :=
  {| position := pos; color := cols; userData := ud;
     rotation_y := Fin 0; opacity := Fin op |}.

(** What [sceneRef.current] holds of the main particle set.  The auxiliary
    objects ([additionalParticles]: core glow, black-hole sphere, jets) have
    buffers of their own and are left out. *)
Record Scene : Type := { stars : option Points }.

(** [positions[i3] = a; positions[i3+1] = b; positions[i3+2] = c]. *)
Definition set3 (arr : Float32Array) (i3 : nat) (a b c : num) : Float32Array :=
  <[(i3 + 2)%nat := c]> (<[(i3 + 1)%nat := b]> (<[i3 := a]> arr)).

(** * Revision V3 (second file of part_002) *)

Module V3.
Section GalaxyScene.

(** [new THREE.Color(s)] and [Color.offsetHSL] belong to three.js. *)
Variable new_Color : string -> THREE.Color.t.
Variable offsetHSL : THREE.Color.t -> num -> num -> num -> THREE.Color.t.

(** *** The generation effect *)

Definition supernova_count : nat := N.to_nat 150000.
Definition quasar_count : nat := N.to_nat 200000.
Definition collision_count : nat := N.to_nat 150000.

Definition supernova_body (i : nat) (st : Float32Array * Float32Array)
  : Rand (Float32Array * Float32Array) :=
  let '(cols, vels) := st in
  let i3 := (i * 3)%nat in
  u1 <~ random ;;
  let theta := u1 *. Math.PI *. 2 in
  u2 <~ random ;;
  let phi := Math.acos (u2 *. 2 -. 1) in
  u3 <~ random ;;
  let speed := 0.2 +. Math.pow u3 2 *. 4.0 in
  let vels := set3 vels i3
                (Math.sin phi *. Math.cos theta *. speed)
                (Math.sin phi *. Math.sin theta *. speed)
                (Math.cos phi *. speed) in
  let cols := set3 cols i3 1 1 1 in
  ret (cols, vels).

Definition generate_supernova : Rand Points :=
  let count := supernova_count in
  let pos := new_Float32Array (count * 3) in
  let cols := new_Float32Array (count * 3) in
  let vels := new_Float32Array (count * 3) in
  st <~ forR count supernova_body (cols, vels) ;;
  ret (new_Points pos (fst st)
         {| velocities := Some (snd st); initialPositions := None;
            isGalaxyA := None |} 0.8).

Definition quasar_body (colorInside colorOutside : THREE.Color.t)
  (i : nat) (st : Float32Array * Float32Array)
  : Rand (Float32Array * Float32Array) :=
  let '(pos, cols) := st in
  let i3 := (i * 3)%nat in
  u1 <~ random ;;
  let r := 0.5 +. Math.pow u1 1.2 *. 8.0 in
  u2 <~ random ;;
  let a := u2 *. Math.PI *. 2 in
  u3 <~ random ;;
  let pos := set3 pos i3
               (Math.cos a *. r)
               ((u3 -. 0.5) *. 0.15 *. (1 /. r))
               (Math.sin a *. r) in
  let mix := THREE.Color.lerp (THREE.Color.clone colorInside) colorOutside
               (r /. 8) in
  let cols := set3 cols i3 (THREE.Color.r mix) (THREE.Color.g mix)
                (THREE.Color.b mix) in
  ret (pos, cols).

Definition generate_quasar (colorInside colorOutside : THREE.Color.t)
  : Rand Points :=
  let count := quasar_count in
  let pos := new_Float32Array (count * 3) in
  let cols := new_Float32Array (count * 3) in
  st <~ forR count (quasar_body colorInside colorOutside) (pos, cols) ;;
  ret (new_Points (fst st) (snd st) no_userData 0.8).

Definition collision_body (params : GalaxyParams)
  (colorInside colorOutside : THREE.Color.t) (count : nat)
  (i : nat) (st : Float32Array * Float32Array * Uint8Array)
  : Rand (Float32Array * Float32Array * Uint8Array) :=
  let '(cols, initialPos, isA) := st in
  let i3 := (i * 3)%nat in
  let isGalaxyA := Num i <. Num count *. 0.5 in
  let isA := <[i := isGalaxyA]> isA in
  u1 <~ random ;;
  let r := Math.pow u1 1.5 *. radius params in
  u2 <~ random ;;
  let a := u2 *. Math.PI *. 2 in
  u3 <~ random ;;
  let initialPos := set3 initialPos i3
                      (Math.cos a *. r)
                      ((u3 -. 0.5) *. 0.5)
                      (Math.sin a *. r) in
  let mix := THREE.Color.lerp (THREE.Color.clone colorInside) colorOutside
               (r /. radius params) in
  let mix := if negb isGalaxyA then offsetHSL mix 0.5 0 0 else mix in
  let cols := set3 cols i3 (THREE.Color.r mix) (THREE.Color.g mix)
                (THREE.Color.b mix) in
  ret (cols, initialPos, isA).

(** [pos] is allocated and attached, and no statement writes to it. *)
Definition generate_collision (params : GalaxyParams)
  (colorInside colorOutside : THREE.Color.t) : Rand Points :=
  let count := collision_count in
  let pos := new_Float32Array (count * 3) in
  let cols := new_Float32Array (count * 3) in
  let initialPos := new_Float32Array (count * 3) in
  let isA := new_Uint8Array count in
  st <~ forR count (collision_body params colorInside colorOutside count)
          (cols, initialPos, isA) ;;
  let '(cols, initialPos, isA) := st in
  ret (new_Points pos cols
         {| velocities := None; initialPositions := Some initialPos;
            isGalaxyA := Some isA |} 0.8).

Definition standard_body (params : GalaxyParams)
  (colorInside colorOutside : THREE.Color.t) (count : nat)
  (i : nat) (st : Float32Array * Float32Array)
  : Rand (Float32Array * Float32Array) :=
  let '(pos, cols) := st in
  u0 <~ random ;;
  let r := Math.pow u0 1.5 *. radius params in
  let spin_ := r *. spin params in
  let branch :=
    ((Num i %. Num (branches params)) /. Num (branches params))
    *. Math.PI *. 2 in
  let total := spin_ +. branch in
  ux <~ random ;; sx <~ random ;;
  let rx := Math.pow ux (randomnessPower params)
            *. (if sx <. 0.5 then Fin 1 else Fin (-1))
            *. randomness params *. r in
  uy <~ random ;; sy <~ random ;;
  let ry := Math.pow uy (randomnessPower params)
            *. (if sy <. 0.5 then Fin 1 else Fin (-1))
            *. randomness params *. r in
  uz <~ random ;; sz <~ random ;;
  let rz := Math.pow uz (randomnessPower params)
            *. (if sz <. 0.5 then Fin 1 else Fin (-1))
            *. randomness params *. r in
  pos <~ (if type params === ELLIPTICAL then
            ut <~ random ;;
            let t := ut *. Math.PI *. 2 in
            up <~ random ;;
            let p := Math.acos (up *. 2 -. 1) in
            ret (set3 pos (i * 3)
                   (Math.sin p *. Math.cos t *. r)
                   (Math.sin p *. Math.sin t *. r *. 0.75)
                   (Math.cos p *. r *. 0.9))
          else if type params === LENTICULAR then
            if Num i <. Num count *. 0.4 then
              ub <~ random ;;
              let rb := Math.pow ub 2 *. (radius params *. 0.4) in
              ut <~ random ;;
              let t := ut *. Math.PI *. 2 in
              up <~ random ;;
              let p := Math.acos (up *. 2 -. 1) in
              ret (set3 pos (i * 3)
                     (Math.sin p *. Math.cos t *. rb)
                     (Math.sin p *. Math.sin t *. rb *. 0.8)
                     (Math.cos p *. rb))
            else
              ret (set3 pos (i * 3)
                     (Math.cos total *. r +. rx)
                     (ry *. 0.1)
                     (Math.sin total *. r +. rz))
          else
            ret (set3 pos (i * 3)
                   (Math.cos total *. r +. rx)
                   (ry *. 0.3)
                   (Math.sin total *. r +. rz))) ;;
  let mix := THREE.Color.lerp (THREE.Color.clone colorInside) colorOutside
               (r /. radius params) in
  let cols := set3 cols (i * 3) (THREE.Color.r mix) (THREE.Color.g mix)
                (THREE.Color.b mix) in
  ret (pos, cols).

Definition generate_standard (params : GalaxyParams)
  (colorInside colorOutside : THREE.Color.t) : Rand Points :=
  let count := starsCount params in
  let pos := new_Float32Array (count * 3) in
  let cols := new_Float32Array (count * 3) in
  st <~ forR count (standard_body params colorInside colorOutside count)
          (pos, cols) ;;
  ret (new_Points (fst st) (snd st) no_userData 0.6).

(** The effect on [params]: the value it stores in [sceneRef.current.stars]. *)
Definition generate (params : GalaxyParams) : Rand Points :=
  let colorInside := new_Color (insideColor params) in
  let colorOutside := new_Color (outsideColor params) in
  if type params === SUPERNOVA then generate_supernova
  else if type params === QUASAR then generate_quasar colorInside colorOutside
  else if type params === COLLISION then
    generate_collision params colorInside colorOutside
  else generate_standard params colorInside colorOutside.

(** *** The frame callback [animate], main particle set *)

Definition supernova_step (velocities : Float32Array) (progress : num)
  (i : nat) (st : Float32Array * Float32Array)
  : Float32Array * Float32Array :=
  let '(positions, colors) := st in
  let i3 := (i * 3)%nat in
  let speedFactor := progress *. 15 in
  let positions := <[i3 := rd velocities i3 *. speedFactor]> positions in
  let positions :=
    <[(i3 + 1)%nat := rd velocities (i3 + 1) *. speedFactor]> positions in
  let positions :=
    <[(i3 + 2)%nat := rd velocities (i3 + 2) *. speedFactor]> positions in
  let alpha := Math.max 0 (1 -. progress *. 1.2) in
  let heat := Math.max 0 (1 -. progress *. 1.5) in
  let colors := <[i3 := Fin 1.0]> colors in
  let colors := <[(i3 + 1)%nat := heat]> colors in
  let colors := <[(i3 + 2)%nat := Math.pow heat 2]> colors in
  (positions, colors).

(** [progress = (elapsedTime % duration) / duration], a 10 seconds loop. *)
Definition supernova_progress (elapsedTime : num) : num :=
  let duration := Fin 10 in
  (elapsedTime %. duration) /. duration.

(** [velocities] is read from [userData]; when it is [undefined] the first
    round of the loop throws a TypeError ([None]). *)
Definition animate_supernova (elapsedTime : num) (s : Points)
  : option Points :=
  let positions := position s in
  let colors := color s in
  let progress := supernova_progress elapsedTime in
  let positions :=
    if progress <. 0.01
    then for_ (length positions) (fun i p => <[i := Fin 0]> p) positions
    else positions in
  match velocities (userData s), thirds (length positions) with
  | None, S _ => None
  | vs, n =>
      let '(positions, colors) :=
        for_ n (supernova_step (default [] vs) progress) (positions, colors) in
      Some {| position := positions; color := colors;
              userData := userData s; rotation_y := rotation_y s;
              opacity := Math.max 0 (1 -. progress *. 1.1) |}
  end.

Definition quasar_step (elapsedTime : num) (i : nat)
  (positions : Float32Array) : Float32Array :=
  let i3 := (i * 3)%nat in
  let x := rd positions i3 in
  let z := rd positions (i3 + 2) in
  let r := Math.sqrt (x *. x +. z *. z) in
  let angle := 0.04 *. (4 /. (r +. 0.3)) in
  let positions :=
    <[i3 := x *. Math.cos angle -. z *. Math.sin angle]> positions in
  let positions :=
    <[(i3 + 2)%nat := x *. Math.sin angle +. z *. Math.cos angle]> positions in
  <[(i3 + 1)%nat := Math.sin (elapsedTime *. 4 +. r *. 2) *. 0.01]> positions.

Definition animate_quasar (elapsedTime : num) (s : Points) : option Points :=
  let positions := position s in
  Some {| position :=
            for_ (thirds (length positions)) (quasar_step elapsedTime)
              positions;
          color := color s; userData := userData s;
          rotation_y := rotation_y s; opacity := opacity s |}.

(** [dist = 8 * Math.cos(elapsedTime * 0.4)]. *)
Definition collision_dist (elapsedTime : num) : num :=
  let cycleTime := elapsedTime *. 0.4 in
  8 *. Math.cos cycleTime.

Definition collision_step (elapsedTime : num)
  (initialPositions : Float32Array) (isA : Uint8Array)
  (centerA centerB : THREE.Vector3.t) (dist : num)
  (i : nat) (positions : Float32Array) : Float32Array :=
  let i3 := (i * 3)%nat in
  let targetCenter := if rdb isA i then centerA else centerB in
  let rx := rd initialPositions i3 in
  let rz := rd initialPositions (i3 + 2) in
  let angle := elapsedTime *. 0.5 in
  let rotX := rx *. Math.cos angle -. rz *. Math.sin angle in
  let rotZ := rx *. Math.sin angle +. rz *. Math.cos angle in
  let pull := Math.max 0 (1 -. Math.abs dist /. 5) *. 2 in
  let driftX := if rdb isA i then neg pull else pull in
  let positions :=
    <[i3 := rotX +. THREE.Vector3.x targetCenter +. driftX]> positions in
  let positions :=
    <[(i3 + 1)%nat :=
        rd initialPositions (i3 + 1) +. Math.sin (elapsedTime +. rx) *. 0.2]>
      positions in
  <[(i3 + 2)%nat := rotZ +. THREE.Vector3.z targetCenter]> positions.

(** [initialPositions] and [isGalaxyA] come from [userData]; indexing an
    [undefined] one throws in the first round ([None]). *)
Definition animate_collision (elapsedTime : num) (s : Points)
  : option Points :=
  let positions := position s in
  let dist := collision_dist elapsedTime in
  let centerA := THREE.Vector3.mk dist 0 0 in
  let centerB := THREE.Vector3.mk (neg dist) 0 0 in
  match initialPositions (userData s), isGalaxyA (userData s),
        thirds (length positions) with
  | Some ip, Some isA, n =>
      Some {| position :=
                for_ n (collision_step elapsedTime ip isA centerA centerB dist)
                  positions;
              color := color s; userData := userData s;
              rotation_y := rotation_y s; opacity := opacity s |}
  | _, _, O => Some s
  | _, _, S _ => None
  end.

Definition rotationSpeed (currentParams : GalaxyParams) : num :=
  if (type currentParams === ELLIPTICAL) || (type currentParams === LENTICULAR)
  then 0.02 else 0.05.

Definition animate_stars (elapsedTime : num) (currentParams : GalaxyParams)
  (s : Points) : option Points :=
  if type currentParams === SUPERNOVA then animate_supernova elapsedTime s
  else if type currentParams === QUASAR then animate_quasar elapsedTime s
  else if type currentParams === COLLISION then
    animate_collision elapsedTime s
  else
    Some {| position := position s; color := color s;
            userData := userData s;
            rotation_y := elapsedTime *. rotationSpeed currentParams;
            opacity := opacity s |}.

(** [if (sceneRef.current?.stars) { ... }]. *)
Definition animate (elapsedTime : num) (currentParams : GalaxyParams)
  (sc : Scene) : option Scene :=
  match stars sc with
  | None => Some sc
  | Some s =>
      match animate_stars elapsedTime currentParams s with
      | Some s' => Some {| stars := Some s' |}
      | None => None
      end
  end.

End GalaxyScene.
End V3.

(** * Revision V2 (part_001) *)

Module V2.
Section GalaxyScene.

Variable new_Color : string -> THREE.Color.t.

(** *** The generation effect *)

Definition supernova_count : nat := N.to_nat 100000.
Definition quasar_count : nat := N.to_nat 150000.

Definition supernova_body (i : nat)
  (st : Float32Array * Float32Array * Float32Array)
  : Rand (Float32Array * Float32Array * Float32Array) :=
  let '(positions, colors, vels) := st in
  let i3 := (i * 3)%nat in
  u1 <~ random ;;
  let theta := u1 *. Math.PI *. 2 in
  u2 <~ random ;;
  let phi := Math.acos (u2 *. 2 -. 1) in
  u3 <~ random ;;
  let speed := 0.8 +. Math.pow u3 2 *. 5.0 in
  px <~ random ;; py <~ random ;; pz <~ random ;;
  let positions := set3 positions i3
                     ((px -. 0.5) *. 0.5)
                     ((py -. 0.5) *. 0.5)
                     ((pz -. 0.5) *. 0.5) in
  let vels := set3 vels i3
                (Math.sin phi *. Math.cos theta *. speed)
                (Math.sin phi *. Math.sin theta *. speed)
                (Math.cos phi *. speed) in
  let colors := set3 colors i3 1 1 1 in
  ret (positions, colors, vels).

Definition generate_supernova : Rand Points :=
  let count := supernova_count in
  let positions := new_Float32Array (count * 3) in
  let colors := new_Float32Array (count * 3) in
  let vels := new_Float32Array (count * 3) in
  st <~ forR count supernova_body (positions, colors, vels) ;;
  let '(positions, colors, vels) := st in
  ret (new_Points positions colors
         {| velocities := Some vels; initialPositions := None;
            isGalaxyA := None |} 0.8).

Definition quasar_body (colorInside colorOutside : THREE.Color.t)
  (i : nat) (st : Float32Array * Float32Array)
  : Rand (Float32Array * Float32Array) :=
  let '(pos, cols) := st in
  let i3 := (i * 3)%nat in
  u1 <~ random ;;
  let r := 0.8 +. Math.pow u1 1.5 *. 6.0 in
  u2 <~ random ;;
  let angle := u2 *. Math.PI *. 2 in
  u3 <~ random ;;
  let pos := set3 pos i3
               (Math.cos angle *. r)
               ((u3 -. 0.5) *. 0.1 *. (1 /. r))
               (Math.sin angle *. r) in
  let mix := THREE.Color.lerp (THREE.Color.clone colorInside) colorOutside
               (r /. 6) in
  let cols := set3 cols i3 (THREE.Color.r mix) (THREE.Color.g mix)
                (THREE.Color.b mix) in
  ret (pos, cols).

Definition generate_quasar (colorInside colorOutside : THREE.Color.t)
  : Rand Points :=
  let count := quasar_count in
  let pos := new_Float32Array (count * 3) in
  let cols := new_Float32Array (count * 3) in
  st <~ forR count (quasar_body colorInside colorOutside) (pos, cols) ;;
  ret (new_Points (fst st) (snd st) no_userData 0.7).

Definition collision_body (params : GalaxyParams)
  (colorInside colorOutside : THREE.Color.t) (count : nat)
  (coreA coreB : THREE.Vector3.t)
  (i : nat) (st : Float32Array * Float32Array)
  : Rand (Float32Array * Float32Array) :=
  let '(pos, cols) := st in
  let isGalaxyA := Num i <. Num count *. 0.5 in
  let targetCore := if isGalaxyA then coreA else coreB in
  let otherCore := if isGalaxyA then coreB else coreA in
  u1 <~ random ;;
  let r := Math.pow u1 1.4 *. radius params in
  u2 <~ random ;;
  let angle := u2 *. Math.PI *. 2 in
  u3 <~ random ;;
  let starPos :=
    THREE.Vector3.add
      (THREE.Vector3.mk (Math.cos angle *. r) ((u3 -. 0.5) *. 0.6)
         (Math.sin angle *. r))
      targetCore in
  u4 <~ random ;;
  starPos <~ (if u4 >. 0.75
              then u5 <~ random ;;
                   ret (THREE.Vector3.lerp starPos otherCore (u5 *. 0.7))
              else ret starPos) ;;
  let pos := set3 pos (i * 3) (THREE.Vector3.x starPos)
               (THREE.Vector3.y starPos) (THREE.Vector3.z starPos) in
  let mix := THREE.Color.lerp (THREE.Color.clone colorInside) colorOutside
               (r /. radius params) in
  let cols := set3 cols (i * 3) (THREE.Color.r mix) (THREE.Color.g mix)
                (THREE.Color.b mix) in
  ret (pos, cols).

Definition generate_collision (params : GalaxyParams)
  (colorInside colorOutside : THREE.Color.t) : Rand Points :=
  let count := starsCount params in
  let pos := new_Float32Array (count * 3) in
  let cols := new_Float32Array (count * 3) in
  let coreA := THREE.Vector3.mk (-4) 0 0 in
  let coreB := THREE.Vector3.mk 4 1 2 in
  st <~ forR count
          (collision_body params colorInside colorOutside count coreA coreB)
          (pos, cols) ;;
  ret (new_Points (fst st) (snd st) no_userData 0.8).

Definition standard_body (params : GalaxyParams)
  (colorInside colorOutside : THREE.Color.t) (count : nat)
  (i : nat) (st : Float32Array * Float32Array)
  : Rand (Float32Array * Float32Array) :=
  let '(positions, colors) := st in
  u0 <~ random ;;
  let radius' := Math.pow u0 1.5 *. radius params in
  let spinAngle := radius' *. spin params in
  let branchAngle :=
    ((Num i %. Num (branches params)) /. Num (branches params))
    *. Math.PI *. 2 in
  let totalAngle := spinAngle +. branchAngle in
  ux <~ random ;; sx <~ random ;;
  let rx := Math.pow ux (randomnessPower params)
            *. (if sx <. 0.5 then Fin 1 else Fin (-1))
            *. randomness params *. radius' in
  uy <~ random ;; sy <~ random ;;
  let ry := Math.pow uy (randomnessPower params)
            *. (if sy <. 0.5 then Fin 1 else Fin (-1))
            *. randomness params *. radius' in
  uz <~ random ;; sz <~ random ;;
  let rz := Math.pow uz (randomnessPower params)
            *. (if sz <. 0.5 then Fin 1 else Fin (-1))
            *. randomness params *. radius' in
  positions <~
    (if type params === ELLIPTICAL then
       ut <~ random ;;
       let theta := ut *. Math.PI *. 2 in
       up <~ random ;;
       let phi := Math.acos (up *. 2 -. 1) in
       ret (set3 positions (i * 3)
              (Math.sin phi *. Math.cos theta *. radius')
              (Math.sin phi *. Math.sin theta *. radius' *. 0.7)
              (Math.cos phi *. radius' *. 0.85))
     else if type params === LENTICULAR then
       let isBulge := Num i <. Num count *. 0.4 in
       if isBulge then
         ub <~ random ;;
         let rb := Math.pow ub 2 *. (radius params *. 0.35) in
         ut <~ random ;;
         let theta := ut *. Math.PI *. 2 in
         up <~ random ;;
         let phi := Math.acos (up *. 2 -. 1) in
         ret (set3 positions (i * 3)
                (Math.sin phi *. Math.cos theta *. rb)
                (Math.sin phi *. Math.sin theta *. rb *. 0.8)
                (Math.cos phi *. rb))
       else
         ret (set3 positions (i * 3)
                (Math.cos totalAngle *. radius' +. rx)
                (ry *. 0.12)
                (Math.sin totalAngle *. radius' +. rz))
     else
       ret (set3 positions (i * 3)
              (Math.cos totalAngle *. radius' +. rx)
              (ry *. 0.3)
              (Math.sin totalAngle *. radius' +. rz))) ;;
  let mix := THREE.Color.lerp (THREE.Color.clone colorInside) colorOutside
               (radius' /. radius params) in
  let colors := set3 colors (i * 3) (THREE.Color.r mix) (THREE.Color.g mix)
                  (THREE.Color.b mix) in
  ret (positions, colors).

Definition generate_standard (params : GalaxyParams)
  (colorInside colorOutside : THREE.Color.t) : Rand Points :=
  let count := starsCount params in
  let positions := new_Float32Array (count * 3) in
  let colors := new_Float32Array (count * 3) in
  st <~ forR count (standard_body params colorInside colorOutside count)
          (positions, colors) ;;
  ret (new_Points (fst st) (snd st) no_userData 0.65).

Definition generate (params : GalaxyParams) : Rand Points :=
  let colorInside := new_Color (insideColor params) in
  let colorOutside := new_Color (outsideColor params) in
  if type params === SUPERNOVA then generate_supernova
  else if type params === QUASAR then generate_quasar colorInside colorOutside
  else if type params === COLLISION then
    generate_collision params colorInside colorOutside
  else generate_standard params colorInside colorOutside.

(** *** The frame callback [animate], main particle set *)

(** Continuous supernova: integrate, recolour by heat, recycle. *)
Definition supernova_step (velocities : Float32Array) (i : nat)
  (st : Float32Array * Float32Array) : Float32Array * Float32Array :=
  let '(positions, colors) := st in
  let i3 := (i * 3)%nat in
  let positions :=
    <[i3 := rd positions i3 +. rd velocities i3 *. 0.04]> positions in
  let positions :=
    <[(i3 + 1)%nat :=
        rd positions (i3 + 1) +. rd velocities (i3 + 1) *. 0.04]> positions in
  let positions :=
    <[(i3 + 2)%nat :=
        rd positions (i3 + 2) +. rd velocities (i3 + 2) *. 0.04]> positions in
  let dist :=
    Math.sqrt (JS.pow (rd positions i3) 2
               +. JS.pow (rd positions (i3 + 1)) 2
               +. JS.pow (rd positions (i3 + 2)) 2) in
  let heat := Math.max 0 (1 -. dist /. 18) in
  let colors := <[i3 := Fin 1.0]> colors in
  let colors := <[(i3 + 1)%nat := Math.pow heat 1.2]> colors in
  let colors := <[(i3 + 2)%nat := Math.pow heat 2.5]> colors in
  let positions :=
    if dist >. 25 then set3 positions i3 0 0 0 else positions in
  (positions, colors).

Definition animate_supernova (s : Points) : option Points :=
  let positions := position s in
  let colors := color s in
  match velocities (userData s), thirds (length positions) with
  | None, S _ => None
  | vs, n =>
      let '(positions, colors) :=
        for_ n (supernova_step (default [] vs)) (positions, colors) in
      Some {| position := positions; color := colors;
              userData := userData s; rotation_y := rotation_y s;
              opacity := opacity s |}
  end.

Definition quasar_step (elapsedTime : num) (i : nat)
  (positions : Float32Array) : Float32Array :=
  let i3 := (i * 3)%nat in
  let x := rd positions i3 in
  let z := rd positions (i3 + 2) in
  let r := Math.sqrt (x *. x +. z *. z) in
  let angle := 0.02 *. (5 /. (r +. 0.5)) in
  let positions :=
    <[i3 := x *. Math.cos angle -. z *. Math.sin angle]> positions in
  let positions :=
    <[(i3 + 2)%nat := x *. Math.sin angle +. z *. Math.cos angle]> positions in
  <[(i3 + 1)%nat :=
      rd positions (i3 + 1) +. Math.sin (elapsedTime *. 2 +. r) *. 0.002]>
    positions.

Definition animate_quasar (elapsedTime : num) (s : Points) : option Points :=
  let positions := position s in
  Some {| position :=
            for_ (thirds (length positions)) (quasar_step elapsedTime)
              positions;
          color := color s; userData := userData s;
          rotation_y := rotation_y s; opacity := opacity s |}.

Definition rotationSpeed (currentParams : GalaxyParams) : num :=
  if (type currentParams === ELLIPTICAL) || (type currentParams === LENTICULAR)
  then 0.02 else 0.05.

Definition animate_stars (elapsedTime : num) (currentParams : GalaxyParams)
  (s : Points) : option Points :=
  if type currentParams === SUPERNOVA then animate_supernova s
  else if type currentParams === QUASAR then animate_quasar elapsedTime s
  else
    Some {| position := position s; color := color s;
            userData := userData s;
            rotation_y := elapsedTime *. rotationSpeed currentParams;
            opacity := opacity s |}.

Definition animate (elapsedTime : num) (currentParams : GalaxyParams)
  (sc : Scene) : option Scene :=
  match stars sc with
  | None => Some sc
  | Some s =>
      match animate_stars elapsedTime currentParams s with
      | Some s' => Some {| stars := Some s' |}
      | None => None
      end
  end.

End GalaxyScene.
End V2.

(** * Revision V1 (first file of part_002)

    This revision keeps every event in auxiliary objects.  The main set is
    the "regular galaxy", generated for every type but the collision (for
    which [sceneRef.current.stars] keeps the object it held), and [animate]
    turns it at one rate. *)

Module V1.
Section GalaxyScene.

Variable new_Color : string -> THREE.Color.t.

Definition regular_body (params : GalaxyParams)
  (colorInside colorOutside : THREE.Color.t)
  (i : nat) (st : Float32Array * Float32Array)
  : Rand (Float32Array * Float32Array) :=
  let '(positions, colors) := st in
  u0 <~ random ;;
  let radius' := Math.pow u0 1.5 *. radius params in
  let spinAngle := radius' *. spin params in
  let branchAngle :=
    ((Num i %. Num (branches params)) /. Num (branches params))
    *. Math.PI *. 2 in
  let totalAngle := spinAngle +. branchAngle in
  ux <~ random ;; sx <~ random ;;
  let randomX := Math.pow ux (randomnessPower params)
                 *. (if sx <. 0.5 then Fin 1 else Fin (-1))
                 *. randomness params *. radius' in
  uy <~ random ;; sy <~ random ;;
  let randomY := Math.pow uy (randomnessPower params)
                 *. (if sy <. 0.5 then Fin 1 else Fin (-1))
                 *. randomness params *. radius' in
  uz <~ random ;; sz <~ random ;;
  let randomZ := Math.pow uz (randomnessPower params)
                 *. (if sz <. 0.5 then Fin 1 else Fin (-1))
                 *. randomness params *. radius' in
  let positions := set3 positions (i * 3)
                     (Math.cos totalAngle *. radius' +. randomX)
                     (randomY *. 0.3)
                     (Math.sin totalAngle *. radius' +. randomZ) in
  let mixedColor :=
    THREE.Color.lerp (THREE.Color.clone colorInside) colorOutside
      (radius' /. radius params) in
  let colors := set3 colors (i * 3) (THREE.Color.r mixedColor)
                  (THREE.Color.g mixedColor) (THREE.Color.b mixedColor) in
  ret (positions, colors).

Definition generate_regular (params : GalaxyParams)
  (colorInside colorOutside : THREE.Color.t) : Rand Points :=
  let starCount := starsCount params in
  let positions := new_Float32Array (starCount * 3) in
  let colors := new_Float32Array (starCount * 3) in
  st <~ forR starCount (regular_body params colorInside colorOutside)
          (positions, colors) ;;
  ret (new_Points (fst st) (snd st) no_userData 0.6).

Definition generate (params : GalaxyParams) (sc : Scene) : Rand Scene :=
  let colorInside := new_Color (insideColor params) in
  let colorOutside := new_Color (outsideColor params) in
  if type params === COLLISION then ret sc
  else
    s <~ generate_regular params colorInside colorOutside ;;
    ret {| stars := Some s |}.

(** [if (sceneRef.current?.stars) stars.rotation.y = elapsedTime * 0.05]. *)
Definition animate (elapsedTime : num) (sc : Scene) : Scene :=
  match stars sc with
  | None => sc
  | Some s =>
      {| stars :=
           Some {| position := position s; color := color s;
                   userData := userData s;
                   rotation_y := elapsedTime *. 0.05;
                   opacity := opacity s |} |}
  end.

End GalaxyScene.
End V1.

(** * The additional objects ([additionalParticles])

    The glow of the core, the sphere of the black hole and the two jets are
    objects beside the main set.  The frame callback finds them by name.
    The position array of a geometry lives in a store of typed arrays and an
    object holds its address: [jetT.clone()] makes a second object with the
    geometry of the first ([Points.copy] of three.js assigns
    [source.geometry]), so the two jets read and write one array. *)

Abbreviation Store := (list (list num)) (only parsing).

(** [new Float32Array(...)]: a fresh address, past every one in use. *)
Definition alloc (h : Store) (a : Float32Array) : Store * nat :=
  (h ++ [a], length h).

(** [obj.geometry.attributes.position.array]. *)
Definition array_of (h : Store) (a : nat) : Float32Array := default [] (h !! a).

Module Object3D.
Record t : Type := mk {
  name : string;
  geometry : nat;
  scale : THREE.Vector3.t;
  rotation_x : num;
  material_opacity : num
}.

(** [new THREE.Points(geometry, material)] and [new THREE.Mesh(...)]: no
    name, unit scale, no rotation. *)
Definition new (geometry : nat) (opacity : num) : t :=
  {| name := ""; geometry := geometry;
     scale := THREE.Vector3.mk 1 1 1; rotation_x := 0;
     material_opacity := opacity |}.

Definition set_name (o : t) (n : string) : t :=
  {| name := n; geometry := geometry o; scale := scale o;
     rotation_x := rotation_x o; material_opacity := material_opacity o |}.

Definition set_rotation_x (o : t) (a : num) : t :=
  {| name := name o; geometry := geometry o; scale := scale o;
     rotation_x := a; material_opacity := material_opacity o |}.

(** [obj.scale.set(s, s, s)]. *)
Definition set_scale (o : t) (x y z : num) : t :=
  {| name := name o; geometry := geometry o;
     scale := THREE.Vector3.mk x y z;
     rotation_x := rotation_x o; material_opacity := material_opacity o |}.

Definition set_opacity (o : t) (a : num) : t :=
  {| name := name o; geometry := geometry o; scale := scale o;
     rotation_x := rotation_x o; material_opacity := a |}.

(** [obj.clone()]: a new object with the same name, geometry and material. *)
Definition clone (o : t) : t := o.
End Object3D.

(** [objs.forEach(f)], the callback drawing samples and writing arrays. *)
Fixpoint forEach (f : Object3D.t -> Store -> Rand (Object3D.t * Store))
  (objs : list Object3D.t) (h : Store) : Rand (list Object3D.t * Store) :=
  match objs with
  | [] => ret ([], h)
  | obj :: rest =>
      r <~ f obj h ;;
      rs <~ forEach f rest (snd r) ;;
      ret (fst r :: fst rs, snd rs)
  end.

(** ** Revision V3 *)

Module V3_objects.
Section GalaxyScene.

(** The vertex array of [new THREE.SphereGeometry(r, w, h)] belongs to
    three.js. *)
Variable SphereGeometry : num -> nat -> nat -> Float32Array.

Definition jet_count : nat := N.to_nat 10000.

(** One round of the loop that fills [jPos]. *)
Definition jet_body (i : nat) (jPos : Float32Array) : Rand Float32Array :=
  u1 <~ random ;;
  let jPos := <[(i * 3)%nat := (u1 -. 0.5) *. 0.05]> jPos in
  u2 <~ random ;;
  let jPos := <[(i * 3 + 1)%nat := u2 *. 20]> jPos in
  u3 <~ random ;;
  ret (<[(i * 3 + 2)%nat := (u3 -. 0.5) *. 0.05]> jPos).

(** What the generation effect pushes to [additionalParticles], which it
    has emptied before, and the arrays it allocates. *)
Definition generate_additional (params : GalaxyParams) (h : Store)
  : Rand (list Object3D.t * Store) :=
  if type params === SUPERNOVA then
    let '(h, a) := alloc h [Fin 0; Fin 0; Fin 0] in
    let core := Object3D.set_name (Object3D.new a 1) "supernova_core" in
    ret ([core], h)
  else if type params === QUASAR then
    let '(h, a) := alloc h (SphereGeometry 0.5 32 32) in
    let bh := Object3D.new a 1 in
    let '(h, a) := alloc h [Fin 0; Fin 0; Fin 0] in
    let glow := Object3D.set_name (Object3D.new a 1) "quasar_core_glow" in
    jPos <~ forR jet_count jet_body (new_Float32Array (jet_count * 3)) ;;
    let '(h, a) := alloc h jPos in
    let jetT := Object3D.set_name (Object3D.new a 0.4) "quasar_jet" in
    let jetB := Object3D.set_rotation_x (Object3D.clone jetT) Math.PI in
    ret ([bh; glow; jetT; jetB], h)
  else ret ([], h).

(** One round of the loop over a jet, [i] stepping by 3. *)
Definition jet_round (i : nat) (pts : Float32Array) : Rand Float32Array :=
  let i := (i * 3)%nat in
  let pts := <[(i + 1)%nat := rd pts (i + 1) +. 0.4]> pts in
  if rd pts (i + 1) >. 20 then
    let pts := <[(i + 1)%nat := Fin 0.5]> pts in
    u1 <~ random ;;
    let pts := <[i := (u1 -. 0.5) *. 0.05]> pts in
    u2 <~ random ;;
    ret (<[(i + 2)%nat := (u2 -. 0.5) *. 0.05]> pts)
  else ret pts.

Definition animate_quasar_jet (pts : Float32Array) : Rand Float32Array :=
  forR (thirds (length pts)) jet_round pts.

(** The callback of [additionalParticles.forEach]. *)
Definition animate_object (elapsedTime : num) (obj : Object3D.t) (h : Store)
  : Rand (Object3D.t * Store) :=
  if Object3D.name obj === "quasar_jet" then
    pts <~ animate_quasar_jet (array_of h (Object3D.geometry obj)) ;;
    ret (obj, <[Object3D.geometry obj := pts]> h)
  else if Object3D.name obj === "supernova_core" then
    let duration := Fin 10 in
    let progress := (elapsedTime %. duration) /. duration in
    let s := (1 -. progress) *. 15
             *. (1 +. Math.sin (elapsedTime *. 20) *. 0.2) in
    ret (Object3D.set_opacity (Object3D.set_scale obj s s s)
           (Math.max 0 (1 -. progress *. 1.5)), h)
  else if Object3D.name obj === "quasar_core_glow" then
    let s := 1 +. Math.sin (elapsedTime *. 12) *. 0.25 in
    ret (Object3D.set_scale obj s s s, h)
  else ret (obj, h).

Definition animate_additional (elapsedTime : num)
  (objs : list Object3D.t) (h : Store) : Rand (list Object3D.t * Store) :=
  forEach (animate_object elapsedTime) objs h.

End GalaxyScene.
End V3_objects.

(** ** Revision V2 *)

Module V2_objects.
Section GalaxyScene.

Variable SphereGeometry : num -> nat -> nat -> Float32Array.

Definition jetCount : nat := N.to_nat 8000.

Definition jet_body (i : nat) (jetPos : Float32Array) : Rand Float32Array :=
  u1 <~ random ;;
  let jetPos := <[(i * 3)%nat := (u1 -. 0.5) *. 0.06]> jetPos in
  u2 <~ random ;;
  let jetPos := <[(i * 3 + 1)%nat := u2 *. 15]> jetPos in
  u3 <~ random ;;
  ret (<[(i * 3 + 2)%nat := (u3 -. 0.5) *. 0.06]> jetPos).

Definition generate_additional (params : GalaxyParams) (h : Store)
  : Rand (list Object3D.t * Store) :=
  if type params === SUPERNOVA then
    let '(h, a) := alloc h [Fin 0; Fin 0; Fin 0] in
    let core := Object3D.set_name (Object3D.new a 1) "supernova_core" in
    ret ([core], h)
  else if type params === QUASAR then
    let '(h, a) := alloc h (SphereGeometry 0.6 32 32) in
    let bh := Object3D.new a 1 in
    let '(h, a) := alloc h [Fin 0; Fin 0; Fin 0] in
    let glow := Object3D.set_name (Object3D.new a 0.8) "quasar_core_glow" in
    jetPos <~ forR jetCount jet_body (new_Float32Array (jetCount * 3)) ;;
    let '(h, a) := alloc h jetPos in
    let jetTop := Object3D.set_name (Object3D.new a 0.4) "quasar_jet" in
    let jetBottom :=
      Object3D.set_rotation_x (Object3D.clone jetTop) Math.PI in
    ret ([bh; glow; jetTop; jetBottom], h)
  else ret ([], h).

Definition jet_round (i : nat) (positions : Float32Array)
  : Rand Float32Array :=
  let i := (i * 3)%nat in
  let positions := <[(i + 1)%nat := rd positions (i + 1) +. 0.25]> positions in
  if rd positions (i + 1) >. 15 then
    let positions := <[(i + 1)%nat := Fin 0.5]> positions in
    u1 <~ random ;;
    let positions := <[i := (u1 -. 0.5) *. 0.05]> positions in
    u2 <~ random ;;
    ret (<[(i + 2)%nat := (u2 -. 0.5) *. 0.05]> positions)
  else ret positions.

Definition animate_quasar_jet (positions : Float32Array)
  : Rand Float32Array :=
  forR (thirds (length positions)) jet_round positions.

Definition animate_object (elapsedTime : num) (obj : Object3D.t) (h : Store)
  : Rand (Object3D.t * Store) :=
  if Object3D.name obj === "quasar_jet" then
    positions <~ animate_quasar_jet (array_of h (Object3D.geometry obj)) ;;
    ret (obj, <[Object3D.geometry obj := positions]> h)
  else if (Object3D.name obj === "supernova_core")
          || (Object3D.name obj === "quasar_core_glow") then
    let s := 1 +. Math.sin (elapsedTime *. 8) *. 0.2 in
    ret (Object3D.set_scale obj s s s, h)
  else ret (obj, h).

Definition animate_additional (elapsedTime : num)
  (objs : list Object3D.t) (h : Store) : Rand (list Object3D.t * Store) :=
  forEach (animate_object elapsedTime) objs h.

End GalaxyScene.
End V2_objects.

(** ** Revision V1: the explosion of the supernova

    In V1 the supernova is an additional object, [supernova_explosion], with
    a position, a colour and a size attribute, its velocities in
    [userData], and the opacity of its material. *)

Module V1_objects.
Section GalaxyScene.

(** [new THREE.Color().setHSL(h, s, l)] belongs to three.js. *)
Variable setHSL : num -> num -> num -> THREE.Color.t.

Record Explosion : Type := {
  expPos : Float32Array;
  expColors : Float32Array;
  sizes : Float32Array;
  velocities : Float32Array;
  material_opacity : num
}.

Definition expCount : nat := N.to_nat 25000.

(** One round of the loop that fills the four arrays. *)
Definition explosion_body (i : nat)
  (st : Float32Array * Float32Array * Float32Array * Float32Array)
  : Rand (Float32Array * Float32Array * Float32Array * Float32Array) :=
  let '(expPos, velocities, sizes, expColors) := st in
  u1 <~ random ;;
  let theta := u1 *. Math.PI *. 2 in
  u2 <~ random ;;
  let phi := Math.acos ((u2 *. 2) -. 1) in
  u3 <~ random ;;
  u4 <~ random ;;
  let speed := (u3 *. 6 +. 4) *. (if u4 >. 0.9 then Fin 1.5 else Fin 1) in
  let velocities := set3 velocities (i * 3)
                      (Math.sin phi *. Math.cos theta *. speed)
                      (Math.sin phi *. Math.sin theta *. speed)
                      (Math.cos phi *. speed) in
  let expPos := set3 expPos (i * 3) 2.5 0.5 1.2 in
  u5 <~ random ;;
  let sizes := <[i := u5 *. 0.15 +. 0.05]> sizes in
  u6 <~ random ;;
  let c := setHSL (u6 *. 0.1 +. 0.05) 1 0.6 in
  let expColors := set3 expColors (i * 3) (THREE.Color.r c) (THREE.Color.g c)
                     (THREE.Color.b c) in
  ret (expPos, velocities, sizes, expColors).

(** The object pushed for [CosmicEvent.SUPERNOVA]. *)
Definition generate_explosion : Rand Explosion :=
  let expPos := new_Float32Array (expCount * 3) in
  let velocities := new_Float32Array (expCount * 3) in
  let sizes := new_Float32Array expCount in
  let expColors := new_Float32Array (expCount * 3) in
  st <~ forR expCount explosion_body
          (expPos, velocities, sizes, expColors) ;;
  let '(expPos, velocities, sizes, expColors) := st in
  ret {| expPos := expPos; expColors := expColors; sizes := sizes;
         velocities := velocities; material_opacity := 0.9 |}.

(** One round of the loop of the frame callback, [i] stepping by 3. *)
Definition explosion_round (velocities : Float32Array) (j : nat)
  (st : Float32Array * Float32Array) : Float32Array * Float32Array :=
  let '(positions, sizes) := st in
  let i := (j * 3)%nat in
  let positions := <[i := rd positions i +. rd velocities i *. 0.015]>
                     positions in
  let positions :=
    <[(i + 1)%nat := rd positions (i + 1) +. rd velocities (i + 1) *. 0.015]>
      positions in
  let positions :=
    <[(i + 2)%nat := rd positions (i + 2) +. rd velocities (i + 2) *. 0.015]>
      positions in
  let sizes :=
    if Num i /. 3 <. Num (length sizes)
    then <[j := rd sizes j *. 0.997]> sizes
    else sizes in
  (positions, sizes).

(** The frame on the object named [supernova_explosion]. *)
Definition animate_explosion (e : Explosion) : Explosion :=
  let '(positions, sizes) :=
    for_ (thirds (length (expPos e))) (explosion_round (velocities e))
      (expPos e, sizes e) in
  {| expPos := positions; expColors := expColors e; sizes := sizes;
     velocities := velocities e;
     material_opacity := material_opacity e *. 0.999 |}.

(** *** The two systems of the collision *)

(** [new THREE.Color(s)] belongs to three.js. *)
Variable new_Color : string -> THREE.Color.t.

Record System : Type := {
  pos : Float32Array;
  cols : Float32Array;
  spinDir : num;
  rotation_y : num
}.

(** One round of the loop of [createSystem]. *)
Definition system_body (params : GalaxyParams) (offset spinDir : num)
  (cIn cOut : THREE.Color.t) (i : nat) (st : Float32Array * Float32Array)
  : Rand (Float32Array * Float32Array) :=
  let '(pos, cols) := st in
  u1 <~ random ;;
  let r := Math.pow u1 1.5 *. radius params in
  u2 <~ random ;;
  let angle := u2 *. Math.PI *. 2 in
  let spin := r *. spin params *. spinDir in
  let tidalStretch := Math.pow (r /. radius params) 3 *. 2 in
  let x := Math.cos (angle +. spin) *. r +. offset in
  u3 <~ random ;;
  let y := (u3 -. 0.5) *. 0.4 *. (1 +. tidalStretch) in
  let z := Math.sin (angle +. spin) *. r in
  let pos := set3 pos (i * 3) x y z in
  let mc := THREE.Color.lerp (THREE.Color.clone cIn) cOut
              (r /. radius params) in
  let cols := set3 cols (i * 3) (THREE.Color.r mc) (THREE.Color.g mc)
                (THREE.Color.b mc) in
  ret (pos, cols).

(** [count = params.starsCount / 2] need not be an integer:
    [new Float32Array(count * 3)] takes the integer part of the length, and
    the loop [i < count] runs for every [i] below [count]. *)
Definition createSystem (params : GalaxyParams) (offset spinDir : num)
  (colors : string * string) : Rand System :=
  let length := Nat.div (starsCount params * 3) 2 in
  let rounds := Nat.div (starsCount params + 1) 2 in
  let pos := new_Float32Array length in
  let cols := new_Float32Array length in
  let cIn := new_Color (fst colors) in
  let cOut := new_Color (snd colors) in
  st <~ forR rounds (system_body params offset spinDir cIn cOut)
          (pos, cols) ;;
  ret {| pos := fst st; cols := snd st; spinDir := spinDir;
         rotation_y := 0 |}.

(** What the generation effect pushes for [CosmicEvent.COLLISION]. *)
Definition generate_systems (params : GalaxyParams) : Rand (System * System) :=
  sys1 <~ createSystem params (-4) 1 ("#4cc9f0", "#4361ee")%string ;;
  sys2 <~ createSystem params 4 (-1) ("#f72585", "#b5179e")%string ;;
  ret (sys1, sys2).

(** [a || b] on numbers: [b] when [a] is 0 or [NaN]. *)
Definition or_else (a b : num) : num :=
  match a with
  | NaN => b
  | Fin x => if Req_dec_T x 0 then b else a
  | _ => a
  end.

(** The frame on an object named [collision_system]. *)
Definition animate_system (elapsedTime : num) (s : System) : System :=
  {| pos := pos s; cols := cols s; spinDir := spinDir s;
     rotation_y := elapsedTime *. or_else (spinDir s) 1 *. 0.1 |}.

(** *** The overlays of the quasar *)

(** [new THREE.Color(hex)] belongs to three.js. *)
Variable Color_of_hex : N -> THREE.Color.t.

Definition diskCount : nat := N.to_nat 15000.
Definition jetCount : nat := N.to_nat 4000.

(** One round of the loop that fills [diskPos] and [diskColors]. *)
Definition disk_body (i : nat) (st : Float32Array * Float32Array)
  : Rand (Float32Array * Float32Array) :=
  let '(diskPos, diskColors) := st in
  u1 <~ random ;;
  let r := Math.pow u1 0.5 *. 1.8 +. 0.15 in
  u2 <~ random ;;
  let a := u2 *. Math.PI *. 2 in
  let diskPos := <[(i * 3)%nat := Math.cos a *. r]> diskPos in
  u3 <~ random ;;
  let diskPos := <[(i * 3 + 1)%nat := (u3 -. 0.5) *. 0.02]> diskPos in
  let diskPos := <[(i * 3 + 2)%nat := Math.sin a *. r]> diskPos in
  let c := THREE.Color.lerp (Color_of_hex 16777215) (Color_of_hex 62207)
             (r /. 1.8) in
  let diskColors := set3 diskColors (i * 3) (THREE.Color.r c)
                      (THREE.Color.g c) (THREE.Color.b c) in
  ret (diskPos, diskColors).

Definition generate_disk : Rand (Float32Array * Float32Array) :=
  forR diskCount disk_body
    (new_Float32Array (diskCount * 3), new_Float32Array (diskCount * 3)).

(** The frame on the object named [accretion_disk]: its [rotation.y]. *)
Definition animate_disk (elapsedTime : num) : num := elapsedTime *. 8.

Definition jet_body (i : nat) (jetPos : Float32Array) : Rand Float32Array :=
  u1 <~ random ;;
  let jetPos := <[(i * 3)%nat := (u1 -. 0.5) *. 0.15]> jetPos in
  u2 <~ random ;;
  let jetPos := <[(i * 3 + 1)%nat := u2 *. 12]> jetPos in
  u3 <~ random ;;
  ret (<[(i * 3 + 2)%nat := (u3 -. 0.5) *. 0.15]> jetPos).

Definition generate_jet : Rand Float32Array :=
  forR jetCount jet_body (new_Float32Array (jetCount * 3)).

(** One round of the loop over a jet, [i] stepping by 3. *)
Definition jet_round (elapsedTime : num) (i : nat) (positions : Float32Array)
  : Rand Float32Array :=
  let i := (i * 3)%nat in
  let positions := <[(i + 1)%nat := rd positions (i + 1) +. 0.15]> positions in
  let positions :=
    <[i := rd positions i
           +. Math.sin (elapsedTime *. 5 +. rd positions (i + 1)) *. 0.02]>
      positions in
  let positions :=
    <[(i + 2)%nat :=
        rd positions (i + 2)
        +. Math.cos (elapsedTime *. 5 +. rd positions (i + 1)) *. 0.02]>
      positions in
  if rd positions (i + 1) >. 12 then
    let positions := <[(i + 1)%nat := Fin 0]> positions in
    u1 <~ random ;;
    let positions := <[i := (u1 -. 0.5) *. 0.1]> positions in
    u2 <~ random ;;
    ret (<[(i + 2)%nat := (u2 -. 0.5) *. 0.1]> positions)
  else ret positions.

Definition animate_quasar_jet (elapsedTime : num) (positions : Float32Array)
  : Rand Float32Array :=
  forR (thirds (length positions)) (jet_round elapsedTime) positions.

End GalaxyScene.
End V1_objects.

(** * The audio service ([GeminiService])

    Bytes and 16-bit samples are integers.  An [Int16Array] and a
    [Uint8Array] over one buffer show the same bytes, the low byte of a
    sample first. *)

Module GeminiService.
Section Service.

(** [btoa] and [atob] belong to the browser; [atob] throws on what is not
    base64. *)
Variable btoa : string -> string.
Variable atob : string -> option string.

(** Storing a number in an [Int16Array]: its integer part modulo 2^16, read
    as a signed number; [NaN] and the infinities store 0. *)
Definition ToInt16 (a : num) : Z :=
  match a with
  | Fin x =>
      let m := (trunc x mod 65536)%Z in
      if (32768 <=? m)%Z then (m - 65536)%Z else m
  | _ => 0%Z
  end.

(** [new Uint8Array(int16.buffer)]. *)
Definition Uint8Array_of_buffer (int16 : list Z) : list Z :=
  flat_map (fun v => [v mod 256; (v / 256) mod 256]%Z) int16.

(** [new Int16Array(data.buffer)]; a [RangeError] when the byte length is
    odd. *)
Fixpoint Int16Array_of_buffer (bytes : list Z) : option (list Z) :=
  match bytes with
  | [] => Some []
  | lo :: hi :: rest =>
      let u := (lo + 256 * hi)%Z in
      let v := if (32768 <=? u)%Z then (u - 65536)%Z else u in
      match Int16Array_of_buffer rest with
      | Some l => Some (v :: l)
      | None => None
      end
  | [_] => None
  end.

Definition fromCharCode (b : Z) : string :=
  String (Ascii.ascii_of_N (Z.to_N b)) EmptyString.

Definition charCodeAt (s : string) (i : nat) : Z :=
  match String.get i s with
  | Some c => Z.of_N (Ascii.N_of_ascii c)
  | None => 0%Z
  end.

Definition encode (bytes : list Z) : string :=
  let len := length bytes in
  let binary :=
    for_ len
      (fun i binary =>
         String.append binary (fromCharCode (default 0%Z (bytes !! i))))
      EmptyString in
  btoa binary.

Definition decode (base64 : string) : option (list Z) :=
  match atob base64 with
  | None => None
  | Some binaryString =>
      let len := String.length binaryString in
      Some (for_ len
              (fun i bytes => <[i := charCodeAt binaryString i]> bytes)
              (replicate len 0%Z))
  end.

(** The samples [createBlob] stores in [int16]. *)
Definition createBlob_int16 (data : Float32Array) : list Z :=
  let l := length data in
  for_ l (fun i int16 => <[i := ToInt16 (rd data i *. 32768)]> int16)
    (replicate l 0%Z).

Record Blob : Type := { data : string; mimeType : string }.

Definition createBlob (data : Float32Array) : Blob :=
  {| data := encode (Uint8Array_of_buffer (createBlob_int16 data));
     mimeType := "audio/pcm;rate=16000" |}.

(** One channel of the buffer: [frameCount] entries, entry [i] from
    [dataInt16[i * numChannels + channel] / 32768.0]. *)
Definition channel_of (dataInt16 : list Z) (numChannels frameCount : nat)
  (channel : nat) : Float32Array :=
  for_ (Nat.div (length dataInt16 + numChannels - 1) numChannels)
    (fun i channelData =>
       <[i := match dataInt16 !! (i * numChannels + channel)%nat with
              | Some v => Fin (IZR v) /. 32768.0
              | None => NaN
              end]> channelData)
    (new_Float32Array frameCount).

(** The channels of the decoded buffer.  [ctx.createBuffer] takes the
    integer part of [frameCount] as the length and throws when the number
    of channels or the length is 0. *)
Definition decodeAudioData (data : list Z) (numChannels : nat)
  : option (list Float32Array) :=
  match Int16Array_of_buffer data with
  | None => None
  | Some dataInt16 =>
      let frameCount := Nat.div (length dataInt16) numChannels in
      match numChannels, frameCount with
      | O, _ | _, O => None
      | _, _ =>
          Some (map (channel_of dataInt16 numChannels frameCount)
                  (seq 0 numChannels))
      end
  end.

End Service.
End GeminiService.

(** * The player ([App]) *)

From Stdlib Require Import DecimalString.

Module App.
Section App.

(** [Number.prototype.toString] on what is not an integer below 1e21 (a
    fraction or an exponent) belongs to the engine. *)
Variable toString_other : R -> string.

Definition Math_floor (a : num) : num :=
  match a with
  | Fin x => Fin (IZR (Int_part x))
  | other => other
  end.

(** An integer below 1e21 prints as its decimal digits. *)
Definition toString (a : num) : string :=
  match a with
  | NaN => "NaN"
  | PInf => "Infinity"
  | NInf => "-Infinity"
  | Fin x =>
      if is_int x && (if Rlt_dec (Rabs x) (10 ^ 21) then true else false)
      then NilZero.string_of_int (Z.to_int (Int_part x))
      else toString_other x
  end.

(** [s.padStart(targetLength, padString)]: the pad is repeated and cut to
    fill what [s] lacks. *)
Definition padStart (s : string) (targetLength : nat) (padString : string)
  : string :=
  let fill := (targetLength - String.length s)%nat in
  let pads := for_ fill (fun _ acc => String.append acc padString)
                EmptyString in
  String.append (String.substring 0 fill pads) s.

Definition formatTime (seconds : num) : string :=
  let mins := Math_floor (seconds /. 60) in
  let secs := Math_floor (seconds %. 60) in
  String.append (toString mins)
    (String.append ":" (padStart (toString secs) 2 "0")).

(** ** The audio player

    The state the handlers share: [audioState] and the refs.  [context] and
    [source] tell whether [audioContextRef.current] and
    [sourceNodeRef.current] are set; [buffer] is the duration of
    [currentBufferRef.current].  [captured] is the [audioState.currentTime]
    that the [onended] handler of the source made last closed over.  [now]
    is [audioContext.currentTime] when the handler runs.

    Every handler is a transition of this state.  A handler that stops the
    source ([stopAudio], the pause of [togglePlayPause], [playAudio] over a
    source that [sourceNodeRef] still holds) ends that source, whose
    [onended] then runs once the handler has returned: that event is the
    transition [onended], taken with the time the stopped source closed
    over. *)

Record Player : Type := {
  isPlaying : bool;
  progress : num;
  duration : num;
  currentTime : num;
  context : bool;
  source : bool;
  buffer : option num;
  startedAt : num;
  pausedAt : num;
  captured : num
}.

(** The [<=] operator; every comparison with [NaN] is false. *)
Definition le (a b : num) : bool :=
  match a, b with
  | NaN, _ | _, NaN => false
  | Fin x, Fin y => if Rle_dec x y then true else false
  | NInf, _ => true
  | _, PInf => true
  | _, NInf => false
  | PInf, _ => false
  end.

Definition Math_min (a b : num) : num :=
  match a, b with
  | NaN, _ | _, NaN => NaN
  | NInf, _ | _, NInf => NInf
  | PInf, c | c, PInf => c
  | Fin x, Fin y => Fin (Rmin x y)
  end.

Definition stopAudio (p : Player) : Player :=
  {| isPlaying := false; progress := 0; duration := 0; currentTime := 0;
     context := context p; source := false; buffer := buffer p;
     startedAt := 0; pausedAt := 0; captured := captured p |}.

(** [source.onended], the handler that [playAudio] gives the source it
    makes.  It runs when that source ends, also when [stop()] ends it, and
    compares the time [seen] that it closed over with the duration. *)
Definition onended (seen : num) (p : Player) : Player :=
  match buffer p with
  | Some d =>
      if Math.abs (seen -. d) <. 0.2
      then {| isPlaying := false; progress := 100; duration := duration p;
              currentTime := currentTime p; context := context p;
              source := source p; buffer := buffer p;
              startedAt := startedAt p; pausedAt := pausedAt p;
              captured := captured p |}
      else p
  | None => p
  end.

(** The new source replaces the one that [sourceNodeRef] held, and its
    handler closes over the [audioState] of the caller. *)
Definition playAudio (offset now : num) (p : Player) : Player :=
  match buffer p, context p with
  | None, _ | _, false => p
  | Some _, true =>
      {| isPlaying := true; progress := progress p; duration := duration p;
         currentTime := currentTime p; context := true; source := true;
         buffer := buffer p; startedAt := now -. offset;
         pausedAt := pausedAt p; captured := currentTime p |}
  end.

Definition updateProgress (now : num) (p : Player) : Player :=
  match context p, buffer p, source p with
  | true, Some d, true =>
      let currentTime := now -. startedAt p in
      let duration := d in
      let progress := Math_min ((currentTime /. duration) *. 100) 100 in
      if le currentTime duration
      then {| isPlaying := isPlaying p; progress := progress;
              duration := App.duration p; currentTime := currentTime;
              context := true; source := true; buffer := buffer p;
              startedAt := startedAt p; pausedAt := pausedAt p;
              captured := captured p |}
      else {| isPlaying := false; progress := 100;
              duration := App.duration p; currentTime := duration;
              context := true; source := true; buffer := buffer p;
              startedAt := startedAt p; pausedAt := pausedAt p;
              captured := captured p |}
  | _, _, _ => p
  end.

(** What [togglePlayPause] comes to: a new state, the start of
    [handleLoadAudio] (which fetches the speech), or the [TypeError] of
    [audioContextRef.current!] on a missing context. *)
Inductive Toggled : Type :=
| Done (p : Player)
| Loading
| Throw.

(** [cached] is the duration of [audioCache.current[selectedItem]]. *)
Definition togglePlayPause (cached : option num) (now : num) (p : Player)
  : Toggled :=
  match buffer p, cached with
  | None, None => Loading
  | None, Some d =>
      Done (playAudio 0 now
              {| isPlaying := isPlaying p; progress := progress p;
                 duration := d; currentTime := currentTime p;
                 context := context p; source := source p;
                 buffer := Some d; startedAt := startedAt p;
                 pausedAt := pausedAt p; captured := captured p |})
  | Some _, _ =>
      if isPlaying p then
        if context p then
          Done {| isPlaying := false; progress := progress p;
                  duration := duration p; currentTime := currentTime p;
                  context := true; source := false; buffer := buffer p;
                  startedAt := startedAt p;
                  pausedAt := now -. startedAt p;
                  captured := captured p |}
        else Throw
      else
        let offset := if le 100 (progress p) then Fin 0 else pausedAt p in
        Done (playAudio offset now p)
  end.

End App.
End App.

(** * Properties *)

(** ** Loops *)

Lemma for_S {S : Type} (n : nat) (body : nat -> S -> S) (s : S) :
  for_ (Datatypes.S n) body s = body n (for_ n body s).
Proof.
  unfold for_. rewrite seq_S, fold_left_app. reflexivity.
Qed.

Lemma for_ind {S : Type} (P : nat -> S -> Prop) (n : nat)
  (body : nat -> S -> S) (s : S) :
  P O s ->
  (forall i acc, (i < n)%nat -> P i acc -> P (Datatypes.S i) (body i acc)) ->
  P n (for_ n body s).
Proof.
  intros H0 Hstep. induction n as [|n IH].
  - exact H0.
  - rewrite for_S. apply Hstep; [lia|]. apply IH.
    intros i acc Hi. apply Hstep. lia.
Qed.

Lemma forR_ind {S : Type} (P : nat -> S -> Prop) (n : nat)
  (body : nat -> S -> Rand S) (s : S) (rnd : nat -> R) (k : nat) :
  P O s ->
  (forall i acc k', (i < n)%nat -> P i acc ->
                    P (Datatypes.S i) (fst (body i acc rnd k'))) ->
  P n (fst (forR n body s rnd k)).
Proof.
  intros H0 Hstep. unfold forR.
  apply (for_ind (fun i acc => P i (fst acc))); [exact H0|].
  intros i [acc k'] Hi HP. apply Hstep; assumption.
Qed.

Lemma length_set3 (arr : Float32Array) (i3 : nat) (a b c : num) :
  length (set3 arr i3 a b c) = length arr.
Proof. unfold set3. rewrite !length_insert. reflexivity. Qed.

Lemma length_new_Float32Array (n : nat) : length (new_Float32Array n) = n.
Proof. apply length_replicate. Qed.

(** ** Buffer lengths are fixed at allocation *)

(** Unfolds one round of a generation loop down to its array writes. *)
Ltac run_body :=
  unfold bind, ret, random; cbn [fst snd];
  repeat match goal with
         | |- context [if ?c then _ else _] => destruct c
         end;
  cbn [fst snd].

(** ** Arithmetic on finite numbers *)

Definition finite (a : num) : Prop := exists x : R, a = Fin x.

Lemma finite_Fin (x : R) : finite (Fin x).
Proof. exists x. reflexivity. Qed.

Lemma finite_NaN : ~ finite NaN.
Proof. intros [x Hx]. discriminate Hx. Qed.

Lemma sgn_0 : sgn 0 = Eq.
Proof.
  unfold sgn. destruct (Rlt_dec 0 0) as [H|_]; [lra|].
  destruct (Rlt_dec 0 0) as [H|_]; [lra|reflexivity].
Qed.

Lemma div_Fin (x y : R) : y <> 0 -> Fin x /. Fin y = Fin (x / y).
Proof.
  intros Hy. unfold div. destruct (Req_dec_T y 0) as [E|_]; [contradiction|].
  reflexivity.
Qed.

Lemma div_0_0 : Fin 0 /. Fin 0 = NaN.
Proof.
  unfold div. destruct (Req_dec_T 0 0) as [_|N]; [|contradiction].
  rewrite sgn_0. reflexivity.
Qed.

Lemma rem_Fin (x y : R) :
  y <> 0 -> Fin x %. Fin y = Fin (x - y * IZR (trunc (x / y))).
Proof.
  intros Hy. unfold rem. destruct (Req_dec_T y 0) as [E|_]; [contradiction|].
  reflexivity.
Qed.

Lemma lt_Fin (x y : R) :
  (Fin x <. Fin y) = if Rlt_dec x y then true else false.
Proof. reflexivity. Qed.

Lemma sqrt_Fin (x : R) : 0 <= x -> Math.sqrt (Fin x) = Fin (sqrt x).
Proof.
  intros Hx. unfold Math.sqrt. destruct (Rlt_dec x 0) as [H|_]; [lra|].
  reflexivity.
Qed.

Lemma acos_Fin (x : R) : -1 <= x <= 1 -> Math.acos (Fin x) = Fin (acos x).
Proof.
  intros [H1 H2]. unfold Math.acos.
  destruct (Rle_dec (-1) x) as [_|N]; [|contradiction].
  destruct (Rle_dec x 1) as [_|N]; [|contradiction]. reflexivity.
Qed.

(** [Math.pow] on the unit interval, for a positive exponent. *)
Lemma Rpower_unit (u y : R) : 0 < u < 1 -> 0 < y -> 0 < Rpower u y < 1.
Proof.
  intros [H0 H1] Hy. unfold Rpower. split; [apply exp_pos|].
  rewrite <- exp_0. apply exp_increasing.
  assert (Hl : ln u < 0) by (rewrite <- ln_1; apply ln_increasing; lra).
  nra.
Qed.

Lemma pow_unit (u y : R) :
  0 <= u < 1 -> 0 < y ->
  exists v : R, JS.pow (Fin u) (Fin y) = Fin v /\ 0 <= v < 1.
Proof.
  intros [H0 H1] Hy. unfold JS.pow.
  destruct (Req_dec_T y 0) as [E|_]; [lra|].
  unfold sgn. destruct (Rlt_dec 0 u) as [Hp|Hn].
  - exists (Rpower u y). split; [reflexivity|].
    pose proof (Rpower_unit u y (conj Hp H1) Hy). lra.
  - destruct (Rlt_dec u 0) as [Hm|_]; [lra|].
    destruct (Rlt_dec 0 y) as [_|N]; [|contradiction].
    exists 0. split; [reflexivity|lra].
Qed.

Lemma pow_unit_closed (u y : R) :
  0 <= u <= 1 -> 0 < y ->
  exists v : R, JS.pow (Fin u) (Fin y) = Fin v /\ 0 <= v <= 1.
Proof.
  intros [H0 H1] Hy. destruct (Req_dec_T u 1) as [E|N].
  - subst u. exists (Rpower 1 y). split.
    + unfold JS.pow. destruct (Req_dec_T y 0) as [E|_]; [lra|].
      unfold sgn. destruct (Rlt_dec 0 1) as [_|N]; [reflexivity|lra].
    + unfold Rpower. rewrite ln_1, Rmult_0_r, exp_0. lra.
  - destruct (pow_unit u y) as (v & Hv & Hb); [lra|assumption|].
    exists v. split; [assumption|lra].
Qed.

(** [x ** 2] of a finite number is its square. *)
Lemma pow_2 (x : R) : JS.pow (Fin x) (Fin 2) = Fin (x * x).
Proof.
  unfold JS.pow. destruct (Req_dec_T 2 0) as [E|_]; [lra|].
  assert (H2 : Int_part 2 = 2%Z).
  { symmetry. apply Int_part_spec. lra. }
  assert (Hp : forall z, 0 < z -> Rpower z 2 = z * z).
  { intros z Hz. replace 2 with (INR 2) by (simpl; lra).
    rewrite Rpower_pow by assumption. simpl. lra. }
  unfold sgn. destruct (Rlt_dec 0 x) as [Hpos|Hn].
  - rewrite Hp by assumption. reflexivity.
  - destruct (Rlt_dec x 0) as [Hneg|Hz].
    + unfold is_int. rewrite H2.
      destruct (Req_dec_T 2 2) as [_|N]; [|contradiction].
      cbn [Z.even]. rewrite Hp by lra. f_equal. lra.
    + destruct (Rlt_dec 0 2) as [_|N]; [|lra].
      f_equal. assert (x = 0) by lra. subst. lra.
Qed.

(** ** Loops that work particle by particle

    Round [i] of every kinematics loop reads and writes the three entries of
    particle [i] only.  [view i s] is what a state shows of particle [i]. *)

Section Local_loops.
Context {S V : Type}.
Variable view : nat -> S -> V.
Variable step : nat -> S -> S.

Hypothesis frame :
  forall i j s, i <> j -> view j (step i s) = view j s.
Hypothesis local :
  forall i s s', view i s = view i s' ->
                 view i (step i s) = view i (step i s').

Lemma for_untouched (n i : nat) (s : S) :
  (n <= i)%nat -> view i (for_ n step s) = view i s.
Proof.
  induction n as [|n IH]; intros Hi; [reflexivity|].
  rewrite for_S, frame by lia. apply IH. lia.
Qed.

Lemma for_local (n i : nat) (s : S) :
  (i < n)%nat -> view i (for_ n step s) = view i (step i s).
Proof.
  induction n as [|n IH]; intros Hi; [lia|].
  rewrite for_S. destruct (decide (i = n)) as [->|Hne].
  - apply local. apply for_untouched. lia.
  - rewrite frame by lia. apply IH. lia.
Qed.
(** A postcondition of round [i] on particle [i] holds after the loop. *)
Lemma for_post (Q : nat -> V -> Prop) (n : nat) (s0 : S) :
  (forall i s, (i < n)%nat -> view i s = view i s0 ->
               Q i (view i (step i s))) ->
  forall i, (i < n)%nat -> Q i (view i (for_ n step s0)).
Proof.
  induction n as [|n IH]; intros Hstep i Hi; [lia|].
  rewrite for_S. destruct (decide (i = n)) as [->|Hne].
  - apply Hstep; [lia|]. apply for_untouched. lia.
  - rewrite frame by lia. apply IH; [|lia].
    intros j s Hj. apply Hstep. lia.
Qed.
End Local_loops.

(** ** Loops that draw samples

    Round [i] of a generation loop reads the stream of samples from the
    position at which the rounds before it stopped. *)

(** The position at which round [i] starts, for a loop that starts at [k];
    [draws j kj] is the number of samples round [j] draws when it starts at
    [kj]. *)
Fixpoint round_start (draws : nat -> nat -> nat) (k i : nat) : nat :=
  match i with
  | O => k
  | Datatypes.S j =>
      let kj := round_start draws k j in (kj + draws j kj)%nat
  end.

Lemma round_start_const (d k i : nat) :
  round_start (fun _ _ => d) k i = (k + d * i)%nat.
Proof. induction i as [|i IH]; cbn [round_start]; lia. Qed.

Section Sampled_loops.
Context {S V : Type}.
Variable view : nat -> S -> V.
Variable body : nat -> S -> Rand S.
Variable rnd : nat -> R.
Variable draws : nat -> nat -> nat.

Hypothesis body_draws :
  forall i st k, snd (body i st rnd k) = (k + draws i k)%nat.
Hypothesis body_frame :
  forall i j st k, i <> j -> view j (fst (body i st rnd k)) = view j st.

Lemma forR_counter (n : nat) (s0 : S) (k : nat) :
  snd (forR n body s0 rnd k) = round_start draws k n.
Proof.
  induction n as [|n IH]; [reflexivity|].
  unfold forR in IH. unfold forR. rewrite for_S, body_draws, IH.
  reflexivity.
Qed.

Lemma forR_untouched (n i : nat) (s0 : S) (k : nat) :
  (n <= i)%nat -> view i (fst (forR n body s0 rnd k)) = view i s0.
Proof.
  intros Hi. unfold forR.
  apply (for_untouched (fun i (acc : S * nat) => view i (fst acc))
           (fun i acc => body i (fst acc) rnd (snd acc))); [|assumption].
  intros j j' [st k'] Hj. cbn [fst snd]. apply body_frame. assumption.
Qed.

(** What round [i] does to particle [i], started at its position of the
    stream, holds of particle [i] after the loop. *)
Lemma loop_sampled (Q : nat -> nat -> V -> Prop) (n : nat) (s0 : S)
  (k : nat) :
  (forall i st k', (i < n)%nat -> view i st = view i s0 ->
                   Q i k' (view i (fst (body i st rnd k')))) ->
  forall i, (i < n)%nat ->
    Q i (round_start draws k i) (view i (fst (forR n body s0 rnd k))).
Proof.
  induction n as [|n IH]; intros Hstep i Hi; [lia|].
  assert (E : forR (Datatypes.S n) body s0 rnd k
              = body n (fst (forR n body s0 rnd k)) rnd
                  (snd (forR n body s0 rnd k))).
  { unfold forR. rewrite for_S. reflexivity. }
  rewrite E. destruct (decide (i = n)) as [->|Hne].
  - rewrite forR_counter. apply Hstep; [lia|].
    apply forR_untouched. lia.
  - rewrite body_frame by lia. apply IH; [|lia].
    intros j st k' Hj. apply Hstep. lia.
Qed.
End Sampled_loops.

(** The three entries of particle [i] of one buffer. *)
Definition view3 (i : nat) (arr : list num)
  : option num * option num * option num :=
  (arr !! (i * 3)%nat, arr !! (i * 3 + 1)%nat, arr !! (i * 3 + 2)%nat).

Lemma insert_lookup_agree (l l' : list num) (i j : nat) (x : num) :
  l !! j = l' !! j -> <[i:=x]> l !! j = <[i:=x]> l' !! j.
Proof.
  intros H. rewrite !list_lookup_insert.
  destruct (decide (i = j)) as [->|Hne].
  - destruct (l !! j) as [a|] eqn:E.
    + symmetry in H. apply lookup_lt_Some in E, H.
      rewrite !decide_True by (split; [reflexivity|assumption]). reflexivity.
    + symmetry in H. rewrite H. apply lookup_ge_None in E, H.
      rewrite !decide_False by lia. reflexivity.
  - rewrite !decide_False by tauto. assumption.
Qed.

Lemma rd_agree (l l' : list num) (j : nat) :
  l !! j = l' !! j -> rd l j = rd l' j.
Proof. unfold rd. intros ->. reflexivity. Qed.

Lemma rd_insert_ne (l : list num) (i j : nat) (x : num) :
  i <> j -> rd (<[i:=x]> l) j = rd l j.
Proof. intros H. unfold rd. rewrite list_lookup_insert_ne by assumption. reflexivity. Qed.

Lemma rd_insert_eq (l : list num) (i : nat) (x : num) :
  (i < length l)%nat -> rd (<[i:=x]> l) i = x.
Proof. intros H. unfold rd. rewrite list_lookup_insert_eq by assumption. reflexivity. Qed.

Lemma rd_Some (l : list num) (i : nat) (x : num) :
  l !! i = Some x -> rd l i = x.
Proof. unfold rd. intros ->. reflexivity. Qed.

Lemma view3_inv (i : nat) (a b : list num) :
  view3 i a = view3 i b ->
  a !! (i * 3)%nat = b !! (i * 3)%nat /\
  a !! (i * 3 + 1)%nat = b !! (i * 3 + 1)%nat /\
  a !! (i * 3 + 2)%nat = b !! (i * 3 + 2)%nat.
Proof. unfold view3. intros H. injection H as H1 H2 H3. auto. Qed.

Lemma thirds_lt (i len : nat) : (i * 3 + 2 < len)%nat -> (i < thirds len)%nat.
Proof.
  intros H. unfold thirds.
  assert (Datatypes.S i <= (len + 2) / 3)%nat; [|lia].
  apply Nat.div_le_lower_bound; lia.
Qed.

Lemma thirds_mul (n : nat) : thirds (3 * n) = n.
Proof.
  unfold thirds. symmetry. apply (Nat.div_unique _ 3 n 2); lia.
Qed.

(** ** The quasar step *)

(** [sqrt(x² + z²)] of particle [i], computed as the step computes [r]. *)
Definition planar_radius (arr : list num) (i : nat) : num :=
  let x := rd arr (i * 3) in
  let z := rd arr (i * 3 + 2) in
  Math.sqrt (x *. x +. z *. z).

Lemma rotation_keeps_norm (x z a : R) :
  (x * cos a - z * sin a) * (x * cos a - z * sin a)
  + (x * sin a + z * cos a) * (x * sin a + z * cos a) = x * x + z * z.
Proof.
  pose proof (sin2_cos2 a) as H. unfold Rsqr in H.
  replace ((x * cos a - z * sin a) * (x * cos a - z * sin a)
           + (x * sin a + z * cos a) * (x * sin a + z * cos a))
    with ((x * x + z * z) * (sin a * sin a + cos a * cos a)) by ring.
  rewrite H. ring.
Qed.

Lemma V3_quasar_frame (t : num) (i j : nat) (arr : list num) :
  i <> j -> view3 j (V3.quasar_step t i arr) = view3 j arr.
Proof.
  intros Hij. unfold V3.quasar_step, view3. cbv zeta.
  rewrite !list_lookup_insert_ne by lia. reflexivity.
Qed.

Lemma V3_quasar_local (t : num) (i : nat) (s s' : list num) :
  view3 i s = view3 i s' ->
  view3 i (V3.quasar_step t i s) = view3 i (V3.quasar_step t i s').
Proof.
  intros H. apply view3_inv in H as (H0 & H1 & H2).
  unfold V3.quasar_step. cbv zeta.
  rewrite (rd_agree _ _ _ H0), (rd_agree _ _ _ H2).
  unfold view3. f_equal; [f_equal|]; repeat apply insert_lookup_agree;
    assumption.
Qed.

Lemma V2_quasar_frame (t : num) (i j : nat) (arr : list num) :
  i <> j -> view3 j (V2.quasar_step t i arr) = view3 j arr.
Proof.
  intros Hij. unfold V2.quasar_step, view3. cbv zeta.
  rewrite !list_lookup_insert_ne by lia. reflexivity.
Qed.

Lemma V2_quasar_local (t : num) (i : nat) (s s' : list num) :
  view3 i s = view3 i s' ->
  view3 i (V2.quasar_step t i s) = view3 i (V2.quasar_step t i s').
Proof.
  intros H. apply view3_inv in H as (H0 & H1 & H2).
  unfold V2.quasar_step. cbv zeta.
  rewrite !rd_insert_ne by lia.
  rewrite (rd_agree _ _ _ H0), (rd_agree _ _ _ H1), (rd_agree _ _ _ H2).
  unfold view3. f_equal; [f_equal|]; repeat apply insert_lookup_agree;
    assumption.
Qed.

(** One round on a finite particle: a rotation of [(x, z)] by [angle]. *)
Lemma V3_quasar_step_xz (t : num) (i : nat) (arr : list num) (x z : R) :
  arr !! (i * 3)%nat = Some (Fin x) ->
  arr !! (i * 3 + 2)%nat = Some (Fin z) ->
  let angle := 0.04 * (4 / (sqrt (x * x + z * z) + 0.3)) in
  rd (V3.quasar_step t i arr) (i * 3) = Fin (x * cos angle - z * sin angle) /\
  rd (V3.quasar_step t i arr) (i * 3 + 2)
  = Fin (x * sin angle + z * cos angle).
Proof.
  intros Hx Hz angle.
  assert (Hr : 0 <= sqrt (x * x + z * z)) by apply sqrt_pos.
  assert (Hl0 : (i * 3 < length arr)%nat) by (eapply lookup_lt_Some; eassumption).
  assert (Hl2 : (i * 3 + 2 < length arr)%nat) by (eapply lookup_lt_Some; eassumption).
  unfold V3.quasar_step. cbv zeta.
  rewrite (rd_Some _ _ _ Hx), (rd_Some _ _ _ Hz).
  cbn [mul add]. rewrite sqrt_Fin by nra. cbn [add].
  rewrite div_Fin by lra. cbn [mul Math.cos Math.sin sub add neg].
  split.
  - rewrite !rd_insert_ne by lia. rewrite rd_insert_eq by assumption.
    reflexivity.
  - rewrite rd_insert_ne by lia. rewrite rd_insert_eq
      by (rewrite length_insert; assumption).
    reflexivity.
Qed.

Lemma V2_quasar_step_xz (t : num) (i : nat) (arr : list num) (x z : R) :
  arr !! (i * 3)%nat = Some (Fin x) ->
  arr !! (i * 3 + 2)%nat = Some (Fin z) ->
  let angle := 0.02 * (5 / (sqrt (x * x + z * z) + 0.5)) in
  rd (V2.quasar_step t i arr) (i * 3) = Fin (x * cos angle - z * sin angle) /\
  rd (V2.quasar_step t i arr) (i * 3 + 2)
  = Fin (x * sin angle + z * cos angle).
Proof.
  intros Hx Hz angle.
  assert (Hr : 0 <= sqrt (x * x + z * z)) by apply sqrt_pos.
  assert (Hl0 : (i * 3 < length arr)%nat) by (eapply lookup_lt_Some; eassumption).
  assert (Hl2 : (i * 3 + 2 < length arr)%nat) by (eapply lookup_lt_Some; eassumption).
  unfold V2.quasar_step. cbv zeta.
  rewrite (rd_Some _ _ _ Hx), (rd_Some _ _ _ Hz).
  cbn [mul add]. rewrite sqrt_Fin by nra. cbn [add].
  rewrite div_Fin by lra. cbn [mul Math.cos Math.sin sub add neg].
  split.
  - rewrite !rd_insert_ne by lia. rewrite rd_insert_eq by assumption.
    reflexivity.
  - rewrite rd_insert_ne by lia. rewrite rd_insert_eq
      by (rewrite length_insert; assumption).
    reflexivity.
Qed.

Lemma rd_view3 (i : nat) (a b : list num) :
  view3 i a = view3 i b ->
  rd a (i * 3) = rd b (i * 3) /\ rd a (i * 3 + 1) = rd b (i * 3 + 1) /\
  rd a (i * 3 + 2) = rd b (i * 3 + 2).
Proof.
  intros H. apply view3_inv in H as (H0 & H1 & H2).
  repeat split; apply rd_agree; assumption.
Qed.

Lemma planar_radius_rotated (arr arr' : list num) (i : nat) (x z a : R) :
  rd arr (i * 3) = Fin x -> rd arr (i * 3 + 2) = Fin z ->
  rd arr' (i * 3) = Fin (x * cos a - z * sin a) ->
  rd arr' (i * 3 + 2) = Fin (x * sin a + z * cos a) ->
  planar_radius arr' i = planar_radius arr i /\
  planar_radius arr i = Fin (sqrt (x * x + z * z)).
Proof.
  intros Hx Hz Hx' Hz'. unfold planar_radius. cbv zeta.
  rewrite Hx, Hz, Hx', Hz'. cbn [mul add].
  rewrite rotation_keeps_norm. split; [reflexivity|].
  apply sqrt_Fin. nra.
Qed.

(** C5. One quasar kinematics step, in either revision that has one, leaves
    the planar radius [sqrt(x² + z²)] of every particle with finite [x] and
    [z] unchanged: the step turns [(x, z)] by an angle and does nothing else
    to them. *)
Theorem quasar_step_keeps_planar_radius
  (t : num) (s : Points) (i : nat) (x z : R) :
  position s !! (i * 3)%nat = Some (Fin x) ->
  position s !! (i * 3 + 2)%nat = Some (Fin z) ->
  (exists s2, V2.animate_quasar t s = Some s2 /\
              planar_radius (position s2) i = planar_radius (position s) i) /\
  (exists s3, V3.animate_quasar t s = Some s3 /\
              planar_radius (position s3) i = planar_radius (position s) i) /\
  planar_radius (position s) i = Fin (sqrt (x * x + z * z)).
Proof.
  intros Hx Hz.
  assert (Hi : (i < thirds (length (position s)))%nat).
  { apply thirds_lt. eapply lookup_lt_Some. eassumption. }
  pose proof (rd_Some _ _ _ Hx) as Rx. pose proof (rd_Some _ _ _ Hz) as Rz.
  split; [|split].
  - eexists. split; [reflexivity|]. cbn [position].
    pose proof (for_local view3 (V2.quasar_step t) (V2_quasar_frame t)
                  (V2_quasar_local t) _ _ (position s) Hi) as Hv.
    apply rd_view3 in Hv as (E0 & _ & E2).
    destruct (V2_quasar_step_xz t i _ x z Hx Hz) as [S0 S2].
    rewrite <- E0 in S0. rewrite <- E2 in S2.
    eapply planar_radius_rotated; eassumption.
  - eexists. split; [reflexivity|]. cbn [position].
    pose proof (for_local view3 (V3.quasar_step t) (V3_quasar_frame t)
                  (V3_quasar_local t) _ _ (position s) Hi) as Hv.
    apply rd_view3 in Hv as (E0 & _ & E2).
    destruct (V3_quasar_step_xz t i _ x z Hx Hz) as [S0 S2].
    rewrite <- E0 in S0. rewrite <- E2 in S2.
    eapply planar_radius_rotated; eassumption.
  - unfold planar_radius. cbv zeta. rewrite Rx, Rz. cbn [mul add].
    apply sqrt_Fin. nra.
Qed.

(** ** Collision: the separation of the two centres *)

(** C7. The separation [D(t) = 8 cos(0.4 t)] of the collision step stays
    within [-8, 8] and repeats with period [2 pi / 0.4], for every time. *)
Theorem collision_dist_bounded_periodic (t : R) :
  V3.collision_dist (Fin t) = Fin (8 * cos (t * 0.4)) /\
  -8 <= 8 * cos (t * 0.4) <= 8 /\
  V3.collision_dist (Fin (t + 2 * PI / 0.4)) = V3.collision_dist (Fin t).
Proof.
  split; [reflexivity|]. split.
  - pose proof (COS_bound (t * 0.4)). lra.
  - unfold V3.collision_dist. cbn [mul Math.cos]. do 2 f_equal.
    replace ((t + 2 * PI / 0.4) * 0.4) with (t * 0.4 + 2 * INR 1 * PI)
      by (cbn [INR]; lra).
    apply cos_period.
Qed.

(** ** Rigid rotation *)

Definition set_type (p : GalaxyParams) (ty : string) : GalaxyParams :=
  {| type := ty; starsCount := starsCount p; radius := radius p;
     branches := branches p; spin := spin p; randomness := randomness p;
     randomnessPower := randomnessPower p; insideColor := insideColor p;
     outsideColor := outsideColor p; isEvent := isEvent p |}.

Definition set_rotation_y (s : Points) (a : num) : Points :=
  {| position := position s; color := color s; userData := userData s;
     rotation_y := a; opacity := opacity s |}.

(** The rate the specification gives: 0.02 rad/s for elliptical and
    lenticular, 0.05 rad/s otherwise. *)
Definition spec_rate (g : GalaxyType) : R :=
  match g with
  | ELLIPTICAL | LENTICULAR => 0.02
  | _ => 0.05
  end.

(** C6, as the code has it.  In the revisions whose [animate] looks at the
    type (V2, V3), the step of a non-event galaxy sets the rotation about
    the vertical axis to [t] times 0.02 for elliptical and lenticular and
    [t] times 0.05 otherwise; in V1 the step sets it to [t * 0.05] whatever
    the type. *)
Theorem rigid_rotation_rate (g : GalaxyType) (t : R) (p : GalaxyParams)
  (s : Points) :
  V2.animate (Fin t) (set_type p g) {| stars := Some s |}
  = Some {| stars := Some (set_rotation_y s (Fin (t * spec_rate g))) |} /\
  V3.animate (Fin t) (set_type p g) {| stars := Some s |}
  = Some {| stars := Some (set_rotation_y s (Fin (t * spec_rate g))) |} /\
  V1.animate (Fin t) {| stars := Some s |}
  = {| stars := Some (set_rotation_y s (Fin (t * 0.05))) |}.
Proof.
  destruct g; repeat split.
Qed.

Definition rotation_of (sc : Scene) : option num := rotation_y <$> stars sc.

(** The main set of an elliptical galaxy of two stars, before any step. *)
Definition elliptical_stars : Points :=
  new_Points (new_Float32Array 6) (new_Float32Array 6) no_userData 0.6.

(** C6 as the specification states it fails on V1: the step of an
    elliptical galaxy at [t = 1] sets the rotation to 0.05, not to 0.02. *)
Lemma V1_turns_elliptical_at_spiral_rate :
  rotation_of (V1.animate (Fin 1) {| stars := Some elliptical_stars |})
  <> Some (Fin (1 * spec_rate ELLIPTICAL)).
Proof.
  unfold rotation_of, V1.animate. cbn. intros H. injection H as H. lra.
Qed.

(** ** Supernova, periodic mode (V3) *)

Lemma Int_part_succ (r : R) : Int_part (r + 1) = (Int_part r + 1)%Z.
Proof.
  symmetry. apply Int_part_spec. rewrite plus_IZR.
  pose proof (base_Int_part r). lra.
Qed.

Lemma rem_period (t : R) : 0 <= t -> Fin (t + 10) %. Fin 10 = Fin t %. Fin 10.
Proof.
  intros Ht. rewrite !rem_Fin by lra. f_equal. unfold trunc.
  destruct (Rle_dec 0 ((t + 10) / 10)) as [_|N]; [|exfalso; apply N; lra].
  destruct (Rle_dec 0 (t / 10)) as [_|N]; [|exfalso; apply N; lra].
  replace ((t + 10) / 10) with (t / 10 + 1) by lra.
  rewrite Int_part_succ, plus_IZR. lra.
Qed.

Lemma supernova_progress_period (t : R) :
  0 <= t -> V3.supernova_progress (Fin (t + 10)) = V3.supernova_progress (Fin t).
Proof.
  intros Ht. unfold V3.supernova_progress. cbv zeta.
  rewrite rem_period by assumption. reflexivity.
Qed.

(** Equal writes to buffers that agree on a particle agree on it. *)
Ltac view_eq :=
  repeat match goal with |- (_, _) = (_, _) => f_equal end;
  repeat apply insert_lookup_agree; assumption.

(** What a pair of buffers shows of particle [i]. *)
Definition view6 (i : nat) (st : list num * list num) :=
  (view3 i (fst st), view3 i (snd st)).

Lemma view6_inv (i : nat) (a b : list num * list num) :
  view6 i a = view6 i b ->
  view3 i (fst a) = view3 i (fst b) /\ view3 i (snd a) = view3 i (snd b).
Proof.
  unfold view6. intros H.
  split; [exact (f_equal fst H)|exact (f_equal snd H)].
Qed.

Lemma V3_supernova_frame (v : list num) (pr : num) (i j : nat)
  (st : list num * list num) :
  i <> j -> view6 j (V3.supernova_step v pr i st) = view6 j st.
Proof.
  intros Hij. destruct st as [p c].
  unfold V3.supernova_step, view6, view3. cbn [fst snd]. cbv zeta.
  rewrite !list_lookup_insert_ne by lia. reflexivity.
Qed.

Lemma V3_supernova_local (v : list num) (pr : num) (i : nat)
  (st st' : list num * list num) :
  view6 i st = view6 i st' ->
  view6 i (V3.supernova_step v pr i st)
  = view6 i (V3.supernova_step v pr i st').
Proof.
  intros H. destruct st as [p c], st' as [p' c'].
  apply view6_inv in H as [Hp Hc]. cbn [fst snd] in Hp, Hc.
  apply view3_inv in Hp as (P0 & P1 & P2).
  apply view3_inv in Hc as (C0 & C1 & C2).
  unfold V3.supernova_step, view6, view3. cbn [fst snd]. cbv zeta.
  view_eq.
Qed.

Lemma length_zero_loop (arr : list num) :
  length (for_ (length arr) (fun i p => <[i:=Fin 0]> p) arr) = length arr.
Proof.
  apply (for_ind (fun _ p => length p = length arr)); [reflexivity|].
  intros i acc _ H. rewrite length_insert. assumption.
Qed.

Lemma view3_Some_inv (i : nat) (arr : list num) (a b c : num) :
  view3 i arr = (Some a, Some b, Some c) ->
  arr !! (i * 3)%nat = Some a /\ arr !! (i * 3 + 1)%nat = Some b /\
  arr !! (i * 3 + 2)%nat = Some c.
Proof. unfold view3. intros H. injection H as H0 H1 H2. auto. Qed.

(** A property of every entry, checked particle by particle. *)
Lemma Forall_by_particles (P : num -> Prop) (arr : list num) (n : nat) :
  length arr = (3 * n)%nat ->
  (forall i, (i < n)%nat ->
     exists a b c, view3 i arr = (Some a, Some b, Some c) /\ P a /\ P b /\ P c) ->
  Forall P arr.
Proof.
  intros Hlen H. apply Forall_lookup. intros idx x Hx.
  pose proof (lookup_lt_Some _ _ _ Hx) as Hlt.
  pose proof (Nat.div_mod_eq idx 3) as Hdm.
  pose proof (Nat.mod_upper_bound idx 3 ltac:(lia)) as Hm.
  destruct (H (idx / 3)%nat) as (a & b & c & Hv & Pa & Pb & Pc); [lia|].
  apply view3_Some_inv in Hv as (H0 & H1 & H2).
  destruct (idx mod 3)%nat as [|[|[|m]]] eqn:Em; [| | |lia].
  - replace idx with (idx / 3 * 3)%nat in Hx by lia. congruence.
  - replace idx with (idx / 3 * 3 + 1)%nat in Hx by lia. congruence.
  - replace idx with (idx / 3 * 3 + 2)%nat in Hx by lia. congruence.
Qed.

Lemma particle_of_Forall (P : num -> Prop) (arr : list num) (n i : nat) :
  length arr = (3 * n)%nat -> (i < n)%nat -> Forall P arr ->
  exists a b c, view3 i arr = (Some a, Some b, Some c) /\ P a /\ P b /\ P c.
Proof.
  intros Hlen Hi HF.
  destruct (lookup_lt_is_Some_2 arr (i * 3)%nat) as [a Ha]; [lia|].
  destruct (lookup_lt_is_Some_2 arr (i * 3 + 1)%nat) as [b Hb]; [lia|].
  destruct (lookup_lt_is_Some_2 arr (i * 3 + 2)%nat) as [c Hc]; [lia|].
  exists a, b, c. unfold view3. rewrite Ha, Hb, Hc.
  rewrite Forall_lookup in HF. eauto 10.
Qed.

Lemma V3_supernova_step_len (v : list num) (pr : num) (i : nat)
  (st : list num * list num) :
  length (fst (V3.supernova_step v pr i st)) = length (fst st) /\
  length (snd (V3.supernova_step v pr i st)) = length (snd st).
Proof.
  destruct st as [p c]. unfold V3.supernova_step. cbn [fst snd]. cbv zeta.
  rewrite !length_insert. split; reflexivity.
Qed.

Lemma V3_supernova_loop_len (v : list num) (pr : num) (n : nat)
  (st : list num * list num) :
  length (fst (for_ n (V3.supernova_step v pr) st)) = length (fst st) /\
  length (snd (for_ n (V3.supernova_step v pr) st)) = length (snd st).
Proof.
  apply (for_ind (fun _ acc => length (fst acc) = length (fst st) /\
                               length (snd acc) = length (snd st)));
    [split; reflexivity|].
  intros i acc _ [H1 H2].
  destruct (V3_supernova_step_len v pr i acc) as [L1 L2].
  rewrite L1, L2. split; assumption.
Qed.

(** At progress 0 a round writes [velocity * 0] to its particle. *)
Lemma V3_supernova_step_zero (v p c : list num) (i : nat) :
  (exists a b d, view3 i v = (Some a, Some b, Some d) /\
                 finite a /\ finite b /\ finite d) ->
  (i * 3 + 2 < length p)%nat ->
  view3 i (fst (V3.supernova_step v (Fin 0) i (p, c)))
  = (Some (Fin 0), Some (Fin 0), Some (Fin 0)).
Proof.
  intros (a & b & d & Hv & [x ->] & [y ->] & [z ->]) Hlen.
  apply view3_Some_inv in Hv as (H0 & H1 & H2).
  unfold V3.supernova_step. cbn [fst snd]. cbv zeta.
  rewrite (rd_Some _ _ _ H0), (rd_Some _ _ _ H1), (rd_Some _ _ _ H2).
  cbn [mul]. unfold view3.
  rewrite !Rmult_0_l, !Rmult_0_r.
  f_equal; [f_equal|].
  - rewrite !list_lookup_insert_ne by lia.
    apply list_lookup_insert_eq. lia.
  - rewrite list_lookup_insert_ne by lia.
    apply list_lookup_insert_eq. rewrite length_insert. lia.
  - apply list_lookup_insert_eq. rewrite !length_insert. lia.
Qed.


(** ** Supernova, continuous mode (V2) *)

(** Reads and lookups through the writes of a round. *)
Ltac through_writes :=
  repeat match goal with
         | |- context [rd (<[?i:=?x]> ?l) ?j] =>
             first [ rewrite (rd_insert_ne l i j x) by lia
                   | rewrite (rd_insert_eq l i x)
                       by (rewrite ?length_insert; lia) ]
         | |- context [(<[?i:=?x]> ?l) !! ?j] =>
             first [ rewrite (list_lookup_insert_ne l i j x) by lia
                   | rewrite (list_lookup_insert_eq l i x)
                       by (rewrite ?length_insert; lia) ]
         end.

Lemma V2_supernova_frame (v : list num) (i j : nat)
  (st : list num * list num) :
  i <> j -> view6 j (V2.supernova_step v i st) = view6 j st.
Proof.
  intros Hij. destruct st as [p c].
  unfold V2.supernova_step, view6, view3, set3. cbn [fst snd]. cbv zeta.
  match goal with |- context [if ?b then _ else _] => destruct b end;
    cbn [fst snd]; rewrite !list_lookup_insert_ne by lia; reflexivity.
Qed.

Lemma V2_supernova_step_len (v : list num) (i : nat)
  (st : list num * list num) :
  length (fst (V2.supernova_step v i st)) = length (fst st) /\
  length (snd (V2.supernova_step v i st)) = length (snd st).
Proof.
  destruct st as [p c]. unfold V2.supernova_step, set3. cbn [fst snd].
  cbv zeta.
  match goal with |- context [if ?b then _ else _] => destruct b end;
    cbn [fst snd]; rewrite !length_insert; split; reflexivity.
Qed.

(** The state of a particle after a step: it lies within the
    recycle threshold, its red channel is 1 and its green and blue channels
    are in [0, 1]. *)
Definition recycled_and_hot
  (w : (option num * option num * option num)
       * (option num * option num * option num)) : Prop :=
  exists x y z g b : R,
    w = ((Some (Fin x), Some (Fin y), Some (Fin z)),
         (Some (Fin 1), Some (Fin g), Some (Fin b))) /\
    sqrt (x * x + y * y + z * z) <= 25 /\ 0 <= g <= 1 /\ 0 <= b <= 1.

Lemma V2_supernova_step_good (v : list num) (i : nat)
  (st : list num * list num) (x y z vx vy vz : R) :
  view3 i (fst st) = (Some (Fin x), Some (Fin y), Some (Fin z)) ->
  view3 i v = (Some (Fin vx), Some (Fin vy), Some (Fin vz)) ->
  (i * 3 + 2 < length (snd st))%nat ->
  recycled_and_hot (view6 i (V2.supernova_step v i st)).
Proof.
  destruct st as [p c]. cbn [fst snd]. intros Hp Hv Hc.
  apply view3_Some_inv in Hp as (P0 & P1 & P2).
  apply view3_Some_inv in Hv as (V0 & V1 & V2).
  pose proof (lookup_lt_Some _ _ _ P2) as Lp.
  unfold V2.supernova_step. cbv zeta. through_writes.
  replace (Fin 1.0) with (Fin 1) by (f_equal; lra).
  rewrite (rd_Some _ _ _ P0), (rd_Some _ _ _ P1), (rd_Some _ _ _ P2).
  rewrite (rd_Some _ _ _ V0), (rd_Some _ _ _ V1), (rd_Some _ _ _ V2).
  cbn [mul add]. rewrite !pow_2. cbn [add].
  set (x' := x + vx * 0.04). set (y' := y + vy * 0.04).
  set (z' := z + vz * 0.04).
  assert (Hsq : 0 <= x' * x' + y' * y' + z' * z') by nra.
  rewrite sqrt_Fin by assumption.
  set (d := sqrt (x' * x' + y' * y' + z' * z')).
  assert (Hd : 0 <= d) by apply sqrt_pos.
  rewrite div_Fin by lra. cbn [sub add neg Math.max].
  set (heat := Rmax 0 (1 + - (d / 18))).
  assert (Hh : 0 <= heat <= 1).
  { unfold heat. split; [apply Rmax_l|]. apply Rmax_lub; lra. }
  unfold Math.pow.
  destruct (pow_unit_closed heat 1.2 Hh ltac:(lra)) as (g & -> & Hg).
  destruct (pow_unit_closed heat 2.5 Hh ltac:(lra)) as (b & -> & Hb).
  unfold gt. rewrite lt_Fin.
  destruct (Rlt_dec 25 d) as [Hfar|Hnear].
  - exists 0, 0, 0, g, b. unfold view6, view3, set3. cbn [fst snd].
    through_writes. split; [reflexivity|].
    replace (0 * 0 + 0 * 0 + 0 * 0) with 0 by ring. rewrite sqrt_0.
    split; [lra|split; assumption].
  - exists x', y', z', g, b. unfold view6, view3. cbn [fst snd].
    through_writes. split; [reflexivity|].
    split; [fold d; lra|split; assumption].
Qed.

(** C10. Continuous supernova: after a kinematics step on [n] particles
    with finite positions and velocities, every particle is at distance at
    most 25 from the origin, its red channel is 1 and its green and blue
    channels lie in [0, 1]; the positions stay finite and the velocities
    are kept, so the same holds after every later step. *)
Theorem supernova_continuous_bounds (s : Points) (v : list num) (n : nat) :
  velocities (userData s) = Some v ->
  length v = (3 * n)%nat ->
  length (position s) = (3 * n)%nat ->
  length (color s) = (3 * n)%nat ->
  Forall finite v ->
  Forall finite (position s) ->
  exists s',
    V2.animate_supernova s = Some s' /\
    userData s' = userData s /\
    length (position s') = (3 * n)%nat /\
    length (color s') = (3 * n)%nat /\
    Forall finite (position s') /\
    forall i, (i < n)%nat ->
      recycled_and_hot (view3 i (position s'), view3 i (color s')).
Proof.
  intros Hv Hlv Hlp Hlc Fv Fp.
  unfold V2.animate_supernova. rewrite Hv, Hlp, thirds_mul.
  cbv beta iota. change (default [] (Some v)) with v.
  assert (Hlen : length (fst (for_ n (V2.supernova_step v)
                                (position s, color s))) = (3 * n)%nat /\
                 length (snd (for_ n (V2.supernova_step v)
                                (position s, color s))) = (3 * n)%nat).
  { apply (for_ind (fun _ acc => length (fst acc) = (3 * n)%nat /\
                                 length (snd acc) = (3 * n)%nat));
      [split; assumption|].
    intros i acc _ [H1 H2].
    destruct (V2_supernova_step_len v i acc) as [L1 L2].
    rewrite L1, L2. split; assumption. }
  assert (Hgood : forall i, (i < n)%nat ->
            recycled_and_hot
              (view6 i (for_ n (V2.supernova_step v) (position s, color s)))).
  { apply (for_post view6 (V2.supernova_step v) (V2_supernova_frame v)
             (fun _ w => recycled_and_hot w)).
    intros i st Hi Hview. apply view6_inv in Hview as [Hp Hc].
    cbn [fst snd] in Hp, Hc.
    destruct (particle_of_Forall finite _ n i Hlp Hi Fp)
      as (a & b & c & Ha & [x ->] & [y ->] & [z ->]).
    destruct (particle_of_Forall finite _ n i Hlv Hi Fv)
      as (a' & b' & c' & Hb & [vx ->] & [vy ->] & [vz ->]).
    apply (V2_supernova_step_good v i st x y z vx vy vz);
      [congruence|assumption|].
    apply view3_inv in Hc as (_ & _ & C2).
    destruct (lookup_lt_is_Some_2 (color s) (i * 3 + 2)%nat) as [q Hq];
      [lia|].
    rewrite Hq in C2. eapply lookup_lt_Some. eassumption. }
  destruct (for_ n (V2.supernova_step v) (position s, color s))
    as [pf cf] eqn:Ef.
  cbn [fst snd] in Hlen. destruct Hlen as [L1 L2].
  eexists. split; [reflexivity|]. cbn [position color userData].
  split; [reflexivity|]. split; [assumption|]. split; [assumption|].
  split; [|exact Hgood].
  apply (Forall_by_particles _ _ n); [assumption|].
  intros i Hi. destruct (Hgood i Hi) as (x & y & z & g & b & Hw & _).
  exists (Fin x), (Fin y), (Fin z).
  split; [|repeat split; apply finite_Fin].
  unfold view6 in Hw. cbn [fst snd] in Hw. congruence.
Qed.

(** ** Collision (V3): the position buffer before and after the first step *)

(** Decides the comparisons of [params.type] with the enum members. *)
Ltac dispatch :=
  cbn [type set_type];
  repeat match goal with
         | |- context [seq_str ?a ?b] =>
             let v := eval vm_compute in (seq_str a b) in
             change (seq_str a b) with v
         end;
  cbv iota.

Definition set_position (s : Points) (p : list num) : Points :=
  {| position := p; color := color s; userData := userData s;
     rotation_y := rotation_y s; opacity := opacity s |}.

Lemma lookup_insert_len (l : list num) (i : nat) (x : num) :
  <[i:=x]> l !! i = if decide (i < length l)%nat then Some x else None.
Proof.
  destruct (decide (i < length l)%nat) as [H|H].
  - apply list_lookup_insert_eq. assumption.
  - rewrite list_insert_ge by lia. apply lookup_ge_None. lia.
Qed.

Lemma V3_collision_frame t ip isA cA cB dist (i j : nat) (arr : list num) :
  i <> j ->
  view3 j (V3.collision_step t ip isA cA cB dist i arr) = view3 j arr.
Proof.
  intros Hij. unfold V3.collision_step, view3. cbv zeta.
  rewrite !list_lookup_insert_ne by lia. reflexivity.
Qed.

Lemma V3_collision_local t ip isA cA cB dist (i : nat) (s s' : list num) :
  view3 i s = view3 i s' ->
  view3 i (V3.collision_step t ip isA cA cB dist i s)
  = view3 i (V3.collision_step t ip isA cA cB dist i s').
Proof.
  intros H. apply view3_inv in H as (H0 & H1 & H2).
  unfold V3.collision_step, view3. cbv zeta. view_eq.
Qed.

(** A round reads nothing from the buffer it writes. *)
Lemma V3_collision_overwrites t ip isA cA cB dist (i : nat) (p p' : list num) :
  length p = length p' ->
  view3 i (V3.collision_step t ip isA cA cB dist i p)
  = view3 i (V3.collision_step t ip isA cA cB dist i p').
Proof.
  intros Hlen. unfold V3.collision_step, view3. cbv zeta.
  repeat match goal with |- (_, _) = (_, _) => f_equal end;
    repeat match goal with
           | |- context [(<[?a:=?x]> ?l) !! ?j] =>
               rewrite (list_lookup_insert_ne l a j x) by lia
           end;
    rewrite !lookup_insert_len, ?length_insert, Hlen; reflexivity.
Qed.

Lemma V3_collision_loop_len t ip isA cA cB dist (n : nat) (p : list num) :
  length (for_ n (V3.collision_step t ip isA cA cB dist) p) = length p.
Proof.
  apply (for_ind (fun _ acc => length acc = length p)); [reflexivity|].
  intros i acc _ H. unfold V3.collision_step. cbv zeta.
  rewrite !length_insert. assumption.
Qed.

Lemma lookup_by_view3 (a b : list num) (idx : nat) :
  view3 (idx / 3) a = view3 (idx / 3) b -> a !! idx = b !! idx.
Proof.
  intros H. apply view3_inv in H as (H0 & H1 & H2).
  pose proof (Nat.div_mod_eq idx 3) as Hdm.
  pose proof (Nat.mod_upper_bound idx 3 ltac:(lia)) as Hm.
  remember (idx / 3)%nat as q eqn:Eq. clear Eq.
  destruct (idx mod 3)%nat as [|[|[|m]]] eqn:Em; [| | |lia].
  - replace idx with (q * 3)%nat by lia. assumption.
  - replace idx with (q * 3 + 1)%nat by lia. assumption.
  - replace idx with (q * 3 + 2)%nat by lia. assumption.
Qed.

Lemma thirds_div (idx len : nat) :
  (idx < len)%nat -> (idx / 3 < thirds len)%nat.
Proof.
  intros H. unfold thirds.
  pose proof (Nat.div_mod_eq idx 3) as Hdm.
  pose proof (Nat.mod_upper_bound idx 3 ltac:(lia)) as Hm.
  assert (Datatypes.S (idx / 3) <= (len + 2) / 3)%nat; [|lia].
  apply Nat.div_le_lower_bound; lia.
Qed.

(** ** The standard generation: what one round writes *)

(** The sampled radius [u^e * radius] over [params.radius]: the colour
    fraction.  The exponent is 1.5 but for the collision of V2. *)
Definition fraction_of (e : R) (p : GalaxyParams) (u : R) : num :=
  (Math.pow (Fin u) e *. radius p) /. radius p.

Definition fraction : GalaxyParams -> R -> num := fraction_of 1.5.

Definition write_mix (cols : list num) (i : nat) (mix : THREE.Color.t)
  : list num :=
  set3 cols (i * 3) (THREE.Color.r mix) (THREE.Color.g mix) (THREE.Color.b mix).

Lemma V3_standard_body_color p ci co count i pos cols rnd k :
  snd (fst (V3.standard_body p ci co count i (pos, cols) rnd k))
  = write_mix cols i (THREE.Color.lerp ci co (fraction p (rnd k))).
Proof. unfold V3.standard_body. run_body; reflexivity. Qed.

Lemma V2_standard_body_color p ci co count i pos cols rnd k :
  snd (fst (V2.standard_body p ci co count i (pos, cols) rnd k))
  = write_mix cols i (THREE.Color.lerp ci co (fraction p (rnd k))).
Proof. unfold V2.standard_body. run_body; reflexivity. Qed.

Lemma V1_regular_body_color p ci co i pos cols rnd k :
  snd (fst (V1.regular_body p ci co i (pos, cols) rnd k))
  = write_mix cols i (THREE.Color.lerp ci co (fraction p (rnd k))).
Proof. unfold V1.regular_body. run_body; reflexivity. Qed.

Lemma Fin_if (c : bool) (a b : R) :
  (if c then Fin a else Fin b) = Fin (if c then a else b).
Proof. destruct c; reflexivity. Qed.

(** Brings an expression over finite operands to the form [Fin _]. *)
Ltac to_Fin Hrnd :=
  unfold Math.pow, Math.PI, Num;
  repeat first
    [ progress cbn [add sub neg mul Math.sin Math.cos]
    | rewrite Fin_if
    | match goal with
      | |- context [JS.pow (Fin ?u) (Fin ?y)] =>
          let v := fresh "v" in
          let Hv := fresh "Hv" in
          let E := fresh "E" in
          destruct (pow_unit u y) as (v & E & Hv);
          [ first [apply Hrnd | lra] | first [assumption | lra] | rewrite E ]
      | |- context [Fin ?x %. Fin ?y] =>
          rewrite (rem_Fin x y) by first [assumption | lra]
      | |- context [Fin ?x /. Fin ?y] =>
          rewrite (div_Fin x y) by first [assumption | lra]
      | |- context [Math.acos (Fin ?x)] =>
          match x with
          | context [?r ?k] =>
              rewrite (acos_Fin x) by (pose proof (Hrnd k); lra)
          end
      end ].

(** The parameters the data model calls valid, as far as the arithmetic of
    a round needs them. *)
Definition unit_stream (rnd : nat -> R) : Prop := forall n, 0 <= rnd n < 1.

Lemma branches_nonzero (p : GalaxyParams) :
  (1 <= branches p)%nat -> INR (branches p) <> 0.
Proof. intros H. apply not_0_INR. lia. Qed.

(** ** Magnitudes

    The model computes with exact reals, where the code computes with
    doubles and stores 32-bit floats.  The two agree on what is finite as
    long as no product leaves the range of the doubles and no stored entry
    that of a [Float32Array] (about [3.4e38]); the bounds below keep every
    number the generator forms many orders of magnitude inside both. *)

(** [|x| <= b]. *)
Definition bnd (x b : R) : Prop := Rabs x <= b.

Lemma bnd_add (x y a b : R) : bnd x a -> bnd y b -> bnd (x + y) (a + b).
Proof.
  unfold bnd. intros Hx Hy. pose proof (Rabs_triang x y). lra.
Qed.

Lemma bnd_opp (x a : R) : bnd x a -> bnd (- x) a.
Proof. unfold bnd. rewrite Rabs_Ropp. trivial. Qed.

Lemma bnd_sub (x y a b : R) : bnd x a -> bnd y b -> bnd (x - y) (a + b).
Proof. intros Hx Hy. apply bnd_add; [assumption|apply bnd_opp; assumption]. Qed.

Lemma bnd_mul (x y a b : R) : bnd x a -> bnd y b -> bnd (x * y) (a * b).
Proof.
  unfold bnd. intros Hx Hy. rewrite Rabs_mult.
  apply Rmult_le_compat; try assumption; apply Rabs_pos.
Qed.

Lemma bnd_div (x c a : R) : bnd x a -> 0 < c -> bnd (x / c) (a / c).
Proof.
  unfold bnd, Rdiv. intros Hx Hc. rewrite Rabs_mult.
  rewrite (Rabs_pos_eq (/ c)) by (left; apply Rinv_0_lt_compat; assumption).
  apply Rmult_le_compat_r; [left; apply Rinv_0_lt_compat|]; assumption.
Qed.

Lemma bnd_inv (r lo b : R) : 0 < lo -> lo <= r -> 1 / lo <= b -> bnd (1 / r) b.
Proof.
  unfold bnd. intros Hlo Hr Hb.
  assert (H : 0 < 1 / r) by (apply Rdiv_lt_0_compat; lra).
  rewrite Rabs_pos_eq by lra.
  apply Rle_trans with (1 / lo); [|assumption].
  unfold Rdiv. rewrite !Rmult_1_l. apply Rinv_le_contravar; assumption.
Qed.

Lemma bnd_cos (t : R) : bnd (cos t) 1.
Proof. unfold bnd. apply Rabs_le. pose proof (COS_bound t). lra. Qed.

Lemma bnd_sin (t : R) : bnd (sin t) 1.
Proof. unfold bnd. apply Rabs_le. pose proof (SIN_bound t). lra. Qed.

Lemma bnd_unit (v : R) : 0 <= v < 1 -> bnd v 1.
Proof. unfold bnd. intros H. apply Rabs_le. lra. Qed.

Lemma bnd_pos (c : R) : 0 <= c -> bnd c c.
Proof. unfold bnd. intros H. rewrite Rabs_pos_eq by assumption. lra. Qed.

Lemma bnd_neg (c : R) : c <= 0 -> bnd c (- c).
Proof. unfold bnd. intros H. rewrite Rabs_left1 by assumption. lra. Qed.

Lemma bnd_between (x b : R) : bnd x b -> - b <= x <= b.
Proof.
  unfold bnd. intros H. pose proof (Rle_abs x).
  pose proof (Rle_abs (- x)) as H'. rewrite Rabs_Ropp in H'. lra.
Qed.

(** Expressions without variables. *)
Ltac closedR e :=
  lazymatch e with
  | IZR _ => idtac
  | Q2R _ => idtac
  | ?a + ?b => closedR a; closedR b
  | ?a - ?b => closedR a; closedR b
  | ?a * ?b => closedR a; closedR b
  | ?a / ?b => closedR a; closedR b
  | - ?a => closedR a
  end.

(** Bounds an arithmetic expression from the bounds of its leaves: the
    hypotheses [bnd _ _], the samples and the powers of samples, which are
    below 1, the sines and cosines, and the constants. *)
Ltac bound Hrnd :=
  lazymatch goal with
  | H : bnd ?e _ |- bnd ?e _ => exact H
  | |- bnd (cos _) _ => apply bnd_cos
  | |- bnd (sin _) _ => apply bnd_sin
  | |- bnd ?e _ =>
      first
        [ closedR e; first [apply bnd_pos; lra | apply bnd_neg; lra]
        | apply (bnd_unit _ (Hrnd _))
        | apply bnd_unit; assumption
        | lazymatch e with
          | ?x + ?y => eapply bnd_add; bound Hrnd
          | ?x - ?y => eapply bnd_sub; bound Hrnd
          | ?x * ?y => eapply bnd_mul; bound Hrnd
          | ?x / ?c => closedR c; eapply bnd_div; [bound Hrnd|lra]
          | - ?x => eapply bnd_opp; bound Hrnd
          end ]
  end.

(** A finite number of magnitude at most [b]. *)
Definition within (b : R) (a : num) : Prop :=
  exists x : R, a = Fin x /\ bnd x b.

Definition within3 (d : R) (a b c : num) : Prop :=
  within d a /\ within d b /\ within d c.

Lemma within_Fin (x b b' : R) : bnd x b' -> b' <= b -> within b (Fin x).
Proof.
  intros H Hb. exists x. split; [reflexivity|]. unfold bnd in H. unfold bnd. lra.
Qed.

Lemma within_finite (b : R) (a : num) : within b a -> finite a.
Proof. intros (x & -> & _). apply finite_Fin. Qed.

Lemma within_NaN (b : R) : ~ within b NaN.
Proof. intros (x & E & _). discriminate E. Qed.

(** Closes [within b (Fin e)] for an arithmetic expression [e]. *)
Ltac in_bounds Hrnd :=
  repeat match goal with
         | |- context [if ?c then _ else _] => destruct c
         end;
  (eapply within_Fin; [bound Hrnd|lra]).

(** Parameters of moderate size. *)
Definition moderate (p : GalaxyParams) : Prop :=
  bnd (radius p) 1000 /\ bnd (spin p) 1000 /\ bnd (randomness p) 1000.

Lemma V3_standard_body_position p ci co count i pos cols rnd k :
  unit_stream rnd -> (1 <= branches p)%nat -> 0 < randomnessPower p ->
  moderate p ->
  exists a b c,
    fst (fst (V3.standard_body p ci co count i (pos, cols) rnd k))
    = set3 pos (i * 3) a b c /\ within3 1001000 a b c.
Proof.
  intros Hrnd Hb Hrp (Hrad & Hspin & Hrand).
  pose proof (branches_nonzero p Hb) as Hb0.
  unfold V3.standard_body. unfold bind, ret, random. cbn [fst snd].
  destruct (type p === ELLIPTICAL); [|destruct (type p === LENTICULAR);
    [destruct (_ <. _)|]]; cbn [fst snd];
    eexists _, _, _; (split; [reflexivity|]);
    to_Fin Hrnd; (split; [|split]); in_bounds Hrnd.
Qed.

Lemma V2_standard_body_position p ci co count i pos cols rnd k :
  unit_stream rnd -> (1 <= branches p)%nat -> 0 < randomnessPower p ->
  moderate p ->
  exists a b c,
    fst (fst (V2.standard_body p ci co count i (pos, cols) rnd k))
    = set3 pos (i * 3) a b c /\ within3 1001000 a b c.
Proof.
  intros Hrnd Hb Hrp (Hrad & Hspin & Hrand).
  pose proof (branches_nonzero p Hb) as Hb0.
  unfold V2.standard_body. unfold bind, ret, random. cbn [fst snd].
  destruct (type p === ELLIPTICAL); [|destruct (type p === LENTICULAR);
    [destruct (_ <. _)|]]; cbn [fst snd];
    eexists _, _, _; (split; [reflexivity|]);
    to_Fin Hrnd; (split; [|split]); in_bounds Hrnd.
Qed.

Lemma V1_regular_body_position p ci co i pos cols rnd k :
  unit_stream rnd -> (1 <= branches p)%nat -> 0 < randomnessPower p ->
  moderate p ->
  exists a b c,
    fst (fst (V1.regular_body p ci co i (pos, cols) rnd k))
    = set3 pos (i * 3) a b c /\ within3 1001000 a b c.
Proof.
  intros Hrnd Hb Hrp (Hrad & Hspin & Hrand).
  pose proof (branches_nonzero p Hb) as Hb0.
  unfold V1.regular_body. unfold bind, ret, random. cbn [fst snd].
  eexists _, _, _. split; [reflexivity|].
  to_Fin Hrnd; (split; [|split]); in_bounds Hrnd.
Qed.

(** ** The standard generation: the whole loop *)

Lemma Forall_set3 (P : num -> Prop) (arr : list num) (i3 : nat) (a b c : num) :
  Forall P arr -> P a -> P b -> P c -> Forall P (set3 arr i3 a b c).
Proof.
  intros H Ha Hb Hc. unfold set3. repeat apply Forall_insert; assumption.
Qed.

Lemma view3_set3_ne (arr : list num) (i j : nat) (a b c : num) :
  i <> j -> view3 j (set3 arr (i * 3) a b c) = view3 j arr.
Proof.
  intros H. unfold view3, set3. rewrite !list_lookup_insert_ne by lia.
  reflexivity.
Qed.

Lemma view3_set3_eq (arr : list num) (i : nat) (a b c : num) :
  (i * 3 + 2 < length arr)%nat ->
  view3 i (set3 arr (i * 3) a b c) = (Some a, Some b, Some c).
Proof.
  intros H. unfold view3, set3. through_writes. reflexivity.
Qed.

Section Standard_loop.
Variable body : nat -> list num * list num -> Rand (list num * list num).
Variable rnd : nat -> R.
Variable mix_of : R -> THREE.Color.t.

(** The colour a round writes is the mix at the round's first sample. *)
Hypothesis body_color :
  forall i pos cols k,
    snd (fst (body i (pos, cols) rnd k)) = write_mix cols i (mix_of (rnd k)).

(** The loop leaves in particle [i] the colour mixed in round [i]. *)
Lemma loop_colors (n : nat) (pos0 cols0 : list num) (k : nat) :
  length cols0 = (3 * n)%nat ->
  forall i, (i < n)%nat ->
    exists k',
      view3 i (snd (fst (forR n body (pos0, cols0) rnd k)))
      = (Some (THREE.Color.r (mix_of (rnd k'))),
         Some (THREE.Color.g (mix_of (rnd k'))),
         Some (THREE.Color.b (mix_of (rnd k')))).
Proof.
  intros Hlen i Hi. unfold forR.
  refine (for_post (fun i (acc : list num * list num * nat) =>
                      view3 i (snd (fst acc)))
            (fun i acc => body i (fst acc) rnd (snd acc)) _
            (fun _ w =>
               exists k', w = (Some (THREE.Color.r (mix_of (rnd k'))),
                               Some (THREE.Color.g (mix_of (rnd k'))),
                               Some (THREE.Color.b (mix_of (rnd k')))))
            n (pos0, cols0, k) _ i Hi); clear i Hi.
  - intros i j [[pos cols] k'] Hij. cbn [fst snd].
    rewrite body_color. apply view3_set3_ne. assumption.
  - intros i [[pos cols] k'] Hi Hview. cbn [fst snd] in Hview; cbn [fst snd].
    rewrite body_color. exists k'. unfold write_mix.
    apply view3_set3_eq.
    apply view3_inv in Hview as (_ & _ & H2).
    destruct (lookup_lt_is_Some_2 cols0 (i * 3 + 2)%nat) as [q Hq]; [lia|].
    rewrite Hq in H2. eapply lookup_lt_Some. eassumption.
Qed.

End Standard_loop.

(** A loop whose rounds write three entries of a buffer each. *)
Lemma loop_writes_Forall {S : Type} (proj : S -> list num)
  (body : nat -> S -> Rand S) (rnd : nat -> R) (P : num -> Prop)
  (n : nat) (s0 : S) (k : nat) :
  (forall i st k,
      exists a b c,
        proj (fst (body i st rnd k)) = set3 (proj st) (i * 3) a b c /\
        P a /\ P b /\ P c) ->
  Forall P (proj s0) ->
  Forall P (proj (fst (forR n body s0 rnd k))).
Proof.
  intros Hbody H0.
  apply (forR_ind (fun _ st => Forall P (proj st))); [exact H0|].
  intros i st k' _ H.
  destruct (Hbody i st k') as (a & b & c & -> & Ha & Hb & Hc).
  apply Forall_set3; assumption.
Qed.

(** ** Dispatch on the type *)

Lemma V3_generate_galaxy nc oh (g : GalaxyType) p :
  V3.generate nc oh (set_type p g)
  = V3.generate_standard (set_type p g) (nc (insideColor p))
      (nc (outsideColor p)).
Proof. destruct g; unfold V3.generate; dispatch; reflexivity. Qed.

Lemma V2_generate_galaxy nc (g : GalaxyType) p :
  V2.generate nc (set_type p g)
  = V2.generate_standard (set_type p g) (nc (insideColor p))
      (nc (outsideColor p)).
Proof. destruct g; unfold V2.generate; dispatch; reflexivity. Qed.

Lemma V1_generate_galaxy nc (g : GalaxyType) p sc rnd k :
  stars (fst (V1.generate nc (set_type p g) sc rnd k))
  = Some (fst (V1.generate_regular (set_type p g) (nc (insideColor p))
                 (nc (outsideColor p)) rnd k)).
Proof.
  destruct g; unfold V1.generate; dispatch; unfold bind, ret;
    destruct (V1.generate_regular _ _ _ rnd k); reflexivity.
Qed.

Lemma V3_standard_buffers p ci co rnd k :
  let st := fst (forR (starsCount p) (V3.standard_body p ci co (starsCount p))
                   (new_Float32Array (starsCount p * 3),
                    new_Float32Array (starsCount p * 3)) rnd k) in
  position (fst (V3.generate_standard p ci co rnd k)) = fst st /\
  color (fst (V3.generate_standard p ci co rnd k)) = snd st.
Proof.
  unfold V3.generate_standard, bind, ret. cbv zeta.
  destruct (forR _ _ _ rnd k) as [[pos cols] k']. split; reflexivity.
Qed.

Lemma V2_standard_buffers p ci co rnd k :
  let st := fst (forR (starsCount p) (V2.standard_body p ci co (starsCount p))
                   (new_Float32Array (starsCount p * 3),
                    new_Float32Array (starsCount p * 3)) rnd k) in
  position (fst (V2.generate_standard p ci co rnd k)) = fst st /\
  color (fst (V2.generate_standard p ci co rnd k)) = snd st.
Proof.
  unfold V2.generate_standard, bind, ret. cbv zeta.
  destruct (forR _ _ _ rnd k) as [[pos cols] k']. split; reflexivity.
Qed.

Lemma V1_regular_buffers p ci co rnd k :
  let st := fst (forR (starsCount p) (V1.regular_body p ci co)
                   (new_Float32Array (starsCount p * 3),
                    new_Float32Array (starsCount p * 3)) rnd k) in
  position (fst (V1.generate_regular p ci co rnd k)) = fst st /\
  color (fst (V1.generate_regular p ci co rnd k)) = snd st.
Proof.
  unfold V1.generate_regular, bind, ret. cbv zeta.
  destruct (forR _ _ _ rnd k) as [[pos cols] k']. split; reflexivity.
Qed.

(** ** Colours of the standard generation *)

Definition rgb (r g b : R) : THREE.Color.t :=
  THREE.Color.mk (Fin r) (Fin g) (Fin b).

Definition convex (a b alpha : R) : R := (1 - alpha) * a + alpha * b.

Lemma lerp_rgb (ir ig ib or og ob alpha : R) :
  THREE.Color.lerp (rgb ir ig ib) (rgb or og ob) (Fin alpha)
  = rgb (convex ir or alpha) (convex ig og alpha) (convex ib ob alpha).
Proof.
  unfold THREE.Color.lerp, rgb, convex. cbn [THREE.Color.r THREE.Color.g
    THREE.Color.b add sub neg mul].
  f_equal; f_equal; ring.
Qed.

Lemma add_NaN_r (a : num) : a +. NaN = NaN.
Proof. destruct a; reflexivity. Qed.

Lemma mul_NaN_r (a : num) : a *. NaN = NaN.
Proof. destruct a; reflexivity. Qed.

Lemma lerp_NaN (c c' : THREE.Color.t) :
  THREE.Color.lerp c c' NaN = THREE.Color.mk NaN NaN NaN.
Proof.
  unfold THREE.Color.lerp. rewrite !mul_NaN_r, !add_NaN_r. reflexivity.
Qed.

(** With a positive radius the fraction [r / radius] is the power of the
    sample, a number of the unit interval. *)
Lemma fraction_unit (p : GalaxyParams) (u : R) :
  0 < radius p -> 0 <= u < 1 ->
  exists alpha, fraction p u = Fin alpha /\ 0 <= alpha < 1 /\
                Math.pow (Fin u) 1.5 = Fin alpha.
Proof.
  intros Hr Hu. unfold fraction, fraction_of, Math.pow.
  destruct (pow_unit u 1.5 Hu ltac:(lra)) as (v & -> & Hv).
  exists v. cbn [mul]. rewrite div_Fin by lra.
  split; [f_equal; field; lra|]. split; [assumption|reflexivity].
Qed.

(** With radius 0 the fraction is [0 / 0]. *)
Lemma fraction_of_NaN (e : R) (p : GalaxyParams) (u : R) :
  0 < e -> radius p = 0 -> 0 <= u < 1 -> fraction_of e p u = NaN.
Proof.
  intros He Hr Hu. unfold fraction_of, Math.pow.
  destruct (pow_unit u e Hu He) as (v & -> & Hv).
  rewrite Hr. cbn [mul]. rewrite Rmult_0_r. apply div_0_0.
Qed.

(** The samples one round of the standard loop draws: the radius, three
    offsets with their signs, and the two angles of the elliptical type or
    the radius and the two angles of the bulge of the lenticular one. *)
Definition standard_draws (p : GalaxyParams) (count i : nat) : nat :=
  if type p === ELLIPTICAL then 9
  else if type p === LENTICULAR
       then if Num i <. Num count *. 0.4 then 10 else 7
       else 7.

Lemma V3_standard_body_draws p ci co count i st rnd k :
  snd (V3.standard_body p ci co count i st rnd k)
  = (k + standard_draws p count i)%nat.
Proof.
  destruct st as [pos cols]. unfold V3.standard_body, standard_draws.
  unfold bind, ret, random. cbn [fst snd].
  destruct (type p === ELLIPTICAL); [|destruct (type p === LENTICULAR);
    [destruct (_ <. _)|]]; cbn [fst snd]; lia.
Qed.

Lemma V2_standard_body_draws p ci co count i st rnd k :
  snd (V2.standard_body p ci co count i st rnd k)
  = (k + standard_draws p count i)%nat.
Proof.
  destruct st as [pos cols]. unfold V2.standard_body, standard_draws.
  unfold bind, ret, random. cbn [fst snd].
  destruct (type p === ELLIPTICAL); [|destruct (type p === LENTICULAR);
    [destruct (_ <. _)|]]; cbn [fst snd]; lia.
Qed.

Lemma V1_regular_body_draws p ci co i st rnd k :
  snd (V1.regular_body p ci co i st rnd k) = (k + 7)%nat.
Proof.
  destruct st as [pos cols]. unfold V1.regular_body.
  unfold bind, ret, random. cbn [fst snd]. lia.
Qed.

Lemma view3_set3_agree (a b : list num) (i : nat) (x y z : num) :
  view3 i a = view3 i b ->
  view3 i (set3 a (i * 3) x y z) = view3 i (set3 b (i * 3) x y z).
Proof.
  intros H. apply view3_inv in H as (H0 & H1 & H2).
  unfold view3, set3. view_eq.
Qed.

(** A round writes particle [i] only, and what it writes does not depend on
    what the buffers held. *)
Ltac round_frame body :=
  let pos := fresh "pos" in
  let cols := fresh "cols" in
  intros [pos cols] ?; unfold body; run_body; unfold view6; cbn [fst snd];
  rewrite !view3_set3_ne by assumption; reflexivity.

Ltac round_local body :=
  let pos := fresh "pos" in
  let cols := fresh "cols" in
  let pos' := fresh "pos'" in
  let cols' := fresh "cols'" in
  let H := fresh "H" in
  let Hp := fresh "Hp" in
  let Hc := fresh "Hc" in
  intros [pos cols] [pos' cols'] H;
  apply view6_inv in H as [Hp Hc]; cbn [fst snd] in Hp, Hc;
  unfold body; run_body; unfold view6; cbn [fst snd];
  f_equal; apply view3_set3_agree; assumption.

Lemma V3_standard_body_frame p ci co count i j st rnd k :
  i <> j ->
  view6 j (fst (V3.standard_body p ci co count i st rnd k)) = view6 j st.
Proof. revert st. round_frame V3.standard_body. Qed.

Lemma V2_standard_body_frame p ci co count i j st rnd k :
  i <> j ->
  view6 j (fst (V2.standard_body p ci co count i st rnd k)) = view6 j st.
Proof. revert st. round_frame V2.standard_body. Qed.

Lemma V1_regular_body_frame p ci co i j st rnd k :
  i <> j ->
  view6 j (fst (V1.regular_body p ci co i st rnd k)) = view6 j st.
Proof. revert st. round_frame V1.regular_body. Qed.

Lemma V3_standard_body_local p ci co count i st st' rnd k :
  view6 i st = view6 i st' ->
  view6 i (fst (V3.standard_body p ci co count i st rnd k))
  = view6 i (fst (V3.standard_body p ci co count i st' rnd k)).
Proof. revert st st'. round_local V3.standard_body. Qed.

Lemma V2_standard_body_local p ci co count i st st' rnd k :
  view6 i st = view6 i st' ->
  view6 i (fst (V2.standard_body p ci co count i st rnd k))
  = view6 i (fst (V2.standard_body p ci co count i st' rnd k)).
Proof. revert st st'. round_local V2.standard_body. Qed.

Lemma V1_regular_body_local p ci co i st st' rnd k :
  view6 i st = view6 i st' ->
  view6 i (fst (V1.regular_body p ci co i st rnd k))
  = view6 i (fst (V1.regular_body p ci co i st' rnd k)).
Proof. revert st st'. round_local V1.regular_body. Qed.

(** The colour of a particle whose round drew [u] first: with the sampled
    radius [r = u^1.5 * radius] of the round, the mix of the two colours at
    the fraction [alpha = r / radius]. *)
Definition mixed_at (p : GalaxyParams) (ir ig ib or og ob : R) (u : R)
  (c : option num * option num * option num) : Prop :=
  exists r alpha : R,
    Math.pow (Fin u) 1.5 *. radius p = Fin r /\
    Fin r /. radius p = Fin alpha /\
    0 <= alpha <= 1 /\
    c = (Some (Fin (convex ir or alpha)),
         Some (Fin (convex ig og alpha)),
         Some (Fin (convex ib ob alpha))).

(** Every particle [i] of [s] is the one that round [i] of the loop writes
    when it starts at its position [ki] of the stream: its place is the one
    that round computes, and its colour is the mix at the fraction of the
    radius [r] that the round samples first, from [rnd ki], and places the
    particle with. *)
Definition colored_by_radius
  (body : nat -> list num * list num -> Rand (list num * list num))
  (draws : nat -> nat -> nat) (rnd : nat -> R) (k : nat)
  (p : GalaxyParams) (ir ig ib or og ob : R) (s : Points) : Prop :=
  forall i, (i < starsCount p)%nat ->
    let ki := round_start draws k i in
    let zeros := new_Float32Array (starsCount p * 3) in
    view3 i (position s)
    = view3 i (fst (fst (body i (zeros, zeros) rnd ki))) /\
    mixed_at p ir ig ib or og ob (rnd ki) (view3 i (color s)).

Lemma mixed_at_fraction (p : GalaxyParams) (ir ig ib or og ob : R) (u : R)
  (cols : list num) (i : nat) :
  0 < radius p -> 0 <= u < 1 -> (i * 3 + 2 < length cols)%nat ->
  mixed_at p ir ig ib or og ob u
    (view3 i (write_mix cols i
                (THREE.Color.lerp (rgb ir ig ib) (rgb or og ob)
                   (fraction p u)))).
Proof.
  intros Hr Hu Hlen.
  destruct (fraction_unit p u Hr Hu) as (alpha & Ha & Hb & Hpow).
  exists (alpha * radius p), alpha.
  split; [rewrite Hpow; reflexivity|].
  split; [rewrite div_Fin by lra; f_equal; field; lra|].
  split; [lra|].
  rewrite Ha, lerp_rgb. unfold write_mix. rewrite view3_set3_eq by assumption.
  reflexivity.
Qed.

Lemma loop_colored_by_radius body draws rnd (p : GalaxyParams)
  ir ig ib or og ob k (s : Points) :
  (forall i st k, snd (body i st rnd k) = (k + draws i k)%nat) ->
  (forall i j st k,
      i <> j -> view6 j (fst (body i st rnd k)) = view6 j st) ->
  (forall i st st' k,
      view6 i st = view6 i st' ->
      view6 i (fst (body i st rnd k)) = view6 i (fst (body i st' rnd k))) ->
  (forall i pos cols k,
      snd (fst (body i (pos, cols) rnd k))
      = write_mix cols i
          (THREE.Color.lerp (rgb ir ig ib) (rgb or og ob)
             (fraction p (rnd k)))) ->
  (let st := fst (forR (starsCount p) body
                    (new_Float32Array (starsCount p * 3),
                     new_Float32Array (starsCount p * 3)) rnd k) in
   position s = fst st /\ color s = snd st) ->
  0 < radius p -> unit_stream rnd ->
  colored_by_radius body draws rnd k p ir ig ib or og ob s.
Proof.
  intros Hdraws Hframe Hlocal Hcol [Hpos Hcols] Hr Hrnd i Hi.
  cbv zeta.
  pose proof (loop_sampled view6 body rnd draws Hdraws Hframe
                (fun i k' v =>
                   v = view6 i (fst (body i
                                  (new_Float32Array (starsCount p * 3),
                                   new_Float32Array (starsCount p * 3))
                                  rnd k')))
                (starsCount p) _ k
                (fun i st k' _ Hv => Hlocal i st _ k' Hv) i Hi) as H.
  cbv beta in H. apply view6_inv in H as [H1 H2].
  rewrite Hpos, Hcols. split; [exact H1|].
  rewrite H2, Hcol. apply mixed_at_fraction; [assumption|apply Hrnd|].
  rewrite length_new_Float32Array. lia.
Qed.

(** C8. For every non-event galaxy type with a positive radius, in each
    revision, every generated particle [i] is written by round [i] of the
    loop, which starts at the position [ki] of the stream of samples that
    the rounds before it left (each draws 7 samples, 9 for the elliptical
    type and 10 for the bulge of the lenticular one).  The round samples
    the radius [r = u^1.5 * radius] from [u = rnd ki], places the particle
    with it, and colours it with the convex combination
    [(1 - a) inside + a outside] of the two parsed colours at the fraction
    [a = r / radius], and [0 <= a <= 1]. *)
Theorem standard_colors_are_convex
  (nc : string -> THREE.Color.t)
  (oh : THREE.Color.t -> num -> num -> num -> THREE.Color.t)
  (g : GalaxyType) (p : GalaxyParams) (rnd : nat -> R) (k : nat) (sc : Scene)
  (ir ig ib or og ob : R) :
  0 < radius p ->
  unit_stream rnd ->
  nc (insideColor p) = rgb ir ig ib ->
  nc (outsideColor p) = rgb or og ob ->
  let q := set_type p g in
  let n := starsCount p in
  colored_by_radius
    (V2.standard_body q (rgb ir ig ib) (rgb or og ob) n)
    (fun i _ => standard_draws q n i) rnd k p ir ig ib or og ob
    (fst (V2.generate nc q rnd k)) /\
  colored_by_radius
    (V3.standard_body q (rgb ir ig ib) (rgb or og ob) n)
    (fun i _ => standard_draws q n i) rnd k p ir ig ib or og ob
    (fst (V3.generate nc oh q rnd k)) /\
  exists s1, stars (fst (V1.generate nc q sc rnd k)) = Some s1 /\
             colored_by_radius
               (V1.regular_body q (rgb ir ig ib) (rgb or og ob))
               (fun _ _ => 7%nat) rnd k p ir ig ib or og ob s1.
Proof.
  intros Hr Hrnd Hin Hout q n. unfold q, n. split; [|split].
  - rewrite V2_generate_galaxy, Hin, Hout.
    apply loop_colored_by_radius; try assumption.
    + intros. apply V2_standard_body_draws.
    + intros. apply V2_standard_body_frame. assumption.
    + intros. apply V2_standard_body_local. assumption.
    + intros. rewrite V2_standard_body_color. reflexivity.
    + apply (V2_standard_buffers (set_type p g)).
  - rewrite V3_generate_galaxy, Hin, Hout.
    apply loop_colored_by_radius; try assumption.
    + intros. apply V3_standard_body_draws.
    + intros. apply V3_standard_body_frame. assumption.
    + intros. apply V3_standard_body_local. assumption.
    + intros. rewrite V3_standard_body_color. reflexivity.
    + apply (V3_standard_buffers (set_type p g)).
  - eexists. split; [apply V1_generate_galaxy|]. rewrite Hin, Hout.
    apply loop_colored_by_radius; try assumption.
    + intros. apply V1_regular_body_draws.
    + intros. apply V1_regular_body_frame. assumption.
    + intros. apply V1_regular_body_local. assumption.
    + intros. rewrite V1_regular_body_color. reflexivity.
    + apply (V1_regular_buffers (set_type p g)).
Qed.

(** ** Buffer lengths of the generated sets *)

Definition lens2 (n : nat) (st : list num * list num) : Prop :=
  length (fst st) = n /\ length (snd st) = n.

Lemma forR_lens2 (n m : nat) body (s : list num * list num) rnd k :
  (forall i st k', lens2 n st -> lens2 n (fst (body i st rnd k'))) ->
  lens2 n s -> lens2 n (fst (forR m body s rnd k)).
Proof.
  intros Hbody H0. apply (forR_ind (fun _ st => lens2 n st)); [exact H0|].
  intros i acc k' _ H. apply Hbody. assumption.
Qed.

(** Closes the length goal of one round. *)
Ltac body_lens body :=
  let pos := fresh "pos" in
  let cols := fresh "cols" in
  let H1 := fresh "H1" in
  let H2 := fresh "H2" in
  intros [pos cols] [H1 H2]; cbn [fst snd] in H1, H2;
  unfold body, lens2; run_body; rewrite ?length_set3; split; assumption.

Lemma V3_standard_body_lens p ci co count n i st rnd k :
  lens2 n st -> lens2 n (fst (V3.standard_body p ci co count i st rnd k)).
Proof. revert st. body_lens V3.standard_body. Qed.

Lemma V2_standard_body_lens p ci co count n i st rnd k :
  lens2 n st -> lens2 n (fst (V2.standard_body p ci co count i st rnd k)).
Proof. revert st. body_lens V2.standard_body. Qed.

Lemma V1_regular_body_lens p ci co n i st rnd k :
  lens2 n st -> lens2 n (fst (V1.regular_body p ci co i st rnd k)).
Proof. revert st. body_lens V1.regular_body. Qed.

Lemma V3_quasar_body_lens ci co n i st rnd k :
  lens2 n st -> lens2 n (fst (V3.quasar_body ci co i st rnd k)).
Proof. revert st. body_lens V3.quasar_body. Qed.

Lemma V2_quasar_body_lens ci co n i st rnd k :
  lens2 n st -> lens2 n (fst (V2.quasar_body ci co i st rnd k)).
Proof. revert st. body_lens V2.quasar_body. Qed.

Lemma V2_collision_body_lens p ci co count cA cB n i st rnd k :
  lens2 n st ->
  lens2 n (fst (V2.collision_body p ci co count cA cB i st rnd k)).
Proof. revert st. body_lens V2.collision_body. Qed.

(** The supernova loops carry the velocities as well. *)
Lemma V3_supernova_body_lens n i st rnd k :
  lens2 n st -> lens2 n (fst (V3.supernova_body i st rnd k)).
Proof. revert st. body_lens V3.supernova_body. Qed.

Lemma V2_supernova_body_lens n i (st : list num * list num * list num) rnd k :
  lens2 n (fst st) -> lens2 n (fst (fst (V2.supernova_body i st rnd k))).
Proof.
  destruct st as [[pos cols] vels]. intros [H1 H2]. cbn [fst snd] in H1, H2.
  unfold V2.supernova_body, lens2. run_body. rewrite ?length_set3.
  split; assumption.
Qed.

Lemma V3_collision_body_len p ci co oh count n i
  (st : list num * list num * list bool) rnd k :
  length (fst (fst st)) = n ->
  length (fst (fst (fst (V3.collision_body oh p ci co count i st rnd k)))) = n.
Proof.
  destruct st as [[cols ip] isA]. cbn [fst]. intros H.
  unfold V3.collision_body. run_body; rewrite ?length_set3; assumption.
Qed.

Definition buffer_lengths (s : Points) : nat * nat :=
  (length (position s), length (color s)).

Lemma lens2_new (n : nat) :
  lens2 (3 * n) (new_Float32Array (n * 3), new_Float32Array (n * 3)).
Proof.
  unfold lens2. cbn [fst snd]. rewrite length_new_Float32Array. lia.
Qed.

Lemma buffer_lengths_of (n : nat) (pos cols : list num) ud op :
  lens2 n (pos, cols) -> buffer_lengths (new_Points pos cols ud op) = (n, n).
Proof. intros [H1 H2]. cbn in H1, H2. unfold buffer_lengths. cbn. congruence. Qed.

Lemma V2_standard_lengths p ci co rnd k :
  buffer_lengths (fst (V2.generate_standard p ci co rnd k))
  = ((3 * starsCount p)%nat, (3 * starsCount p)%nat).
Proof.
  unfold V2.generate_standard, bind, ret. cbv zeta.
  pose proof (forR_lens2 (3 * starsCount p) (starsCount p)
                (V2.standard_body p ci co (starsCount p)) _ rnd k
                (fun i st k' => V2_standard_body_lens p ci co _ _ i st rnd k')
                (lens2_new (starsCount p))) as H.
  destruct (forR _ _ _ rnd k) as [[pos cols] k'].
  apply buffer_lengths_of. exact H.
Qed.

Lemma V3_standard_lengths p ci co rnd k :
  buffer_lengths (fst (V3.generate_standard p ci co rnd k))
  = ((3 * starsCount p)%nat, (3 * starsCount p)%nat).
Proof.
  unfold V3.generate_standard, bind, ret. cbv zeta.
  pose proof (forR_lens2 (3 * starsCount p) (starsCount p)
                (V3.standard_body p ci co (starsCount p)) _ rnd k
                (fun i st k' => V3_standard_body_lens p ci co _ _ i st rnd k')
                (lens2_new (starsCount p))) as H.
  destruct (forR _ _ _ rnd k) as [[pos cols] k'].
  apply buffer_lengths_of. exact H.
Qed.

Lemma V1_regular_lengths p ci co rnd k :
  buffer_lengths (fst (V1.generate_regular p ci co rnd k))
  = ((3 * starsCount p)%nat, (3 * starsCount p)%nat).
Proof.
  unfold V1.generate_regular, bind, ret. cbv zeta.
  pose proof (forR_lens2 (3 * starsCount p) (starsCount p)
                (V1.regular_body p ci co) _ rnd k
                (fun i st k' => V1_regular_body_lens p ci co _ i st rnd k')
                (lens2_new (starsCount p))) as H.
  destruct (forR _ _ _ rnd k) as [[pos cols] k'].
  apply buffer_lengths_of. exact H.
Qed.

Lemma V2_collision_lengths p ci co rnd k :
  buffer_lengths (fst (V2.generate_collision p ci co rnd k))
  = ((3 * starsCount p)%nat, (3 * starsCount p)%nat).
Proof.
  unfold V2.generate_collision, bind, ret. cbv zeta.
  match goal with
  | |- context [forR ?n ?body ?s rnd k] =>
      pose proof (forR_lens2 (3 * starsCount p) n body s rnd k
                    (fun i st k' =>
                       V2_collision_body_lens p ci co _ _ _ _ i st rnd k')
                    (lens2_new (starsCount p))) as H
  end.
  destruct (forR _ _ _ rnd k) as [[pos cols] k'].
  apply buffer_lengths_of. exact H.
Qed.

Lemma V2_quasar_lengths ci co rnd k :
  buffer_lengths (fst (V2.generate_quasar ci co rnd k))
  = ((3 * V2.quasar_count)%nat, (3 * V2.quasar_count)%nat).
Proof.
  unfold V2.generate_quasar, bind, ret. cbv zeta.
  pose proof (forR_lens2 (3 * V2.quasar_count) V2.quasar_count _ _ rnd k
                (fun i st k' => V2_quasar_body_lens ci co _ i st rnd k')
                (lens2_new V2.quasar_count)) as H.
  destruct (forR _ _ _ rnd k) as [[pos cols] k'].
  apply buffer_lengths_of. exact H.
Qed.

Lemma V3_quasar_lengths ci co rnd k :
  buffer_lengths (fst (V3.generate_quasar ci co rnd k))
  = ((3 * V3.quasar_count)%nat, (3 * V3.quasar_count)%nat).
Proof.
  unfold V3.generate_quasar, bind, ret. cbv zeta.
  pose proof (forR_lens2 (3 * V3.quasar_count) V3.quasar_count _ _ rnd k
                (fun i st k' => V3_quasar_body_lens ci co _ i st rnd k')
                (lens2_new V3.quasar_count)) as H.
  destruct (forR _ _ _ rnd k) as [[pos cols] k'].
  apply buffer_lengths_of. exact H.
Qed.

Lemma V2_supernova_lengths rnd k :
  buffer_lengths (fst (V2.generate_supernova rnd k))
  = ((3 * V2.supernova_count)%nat, (3 * V2.supernova_count)%nat).
Proof.
  unfold V2.generate_supernova, bind, ret. cbv zeta.
  pose proof (forR_ind
                (fun _ st => lens2 (3 * V2.supernova_count) (fst st))
                V2.supernova_count V2.supernova_body
                (new_Float32Array (V2.supernova_count * 3),
                 new_Float32Array (V2.supernova_count * 3),
                 new_Float32Array (V2.supernova_count * 3)) rnd k
                (lens2_new V2.supernova_count)
                (fun i st k' _ H => V2_supernova_body_lens _ i st rnd k' H))
    as H.
  destruct (forR _ _ _ rnd k) as [[[pos cols] vels] k'].
  apply buffer_lengths_of. exact H.
Qed.

(** In V3 the supernova loop never writes the position buffer. *)
Lemma V3_supernova_lengths rnd k :
  buffer_lengths (fst (V3.generate_supernova rnd k))
  = ((3 * V3.supernova_count)%nat, (3 * V3.supernova_count)%nat).
Proof.
  unfold V3.generate_supernova, bind, ret. cbv zeta.
  pose proof (forR_lens2 (3 * V3.supernova_count) V3.supernova_count _ _ rnd k
                (fun i st k' => V3_supernova_body_lens _ i st rnd k')
                (lens2_new V3.supernova_count)) as [H _].
  destruct (forR _ _ _ rnd k) as [[cols vels] k'].
  cbn [fst snd] in H. unfold buffer_lengths, new_Points. cbn [fst position color].
  rewrite length_new_Float32Array, H, (Nat.mul_comm V3.supernova_count 3).
  reflexivity.
Qed.

Lemma V3_collision_lengths oh p ci co rnd k :
  buffer_lengths (fst (V3.generate_collision oh p ci co rnd k))
  = ((3 * V3.collision_count)%nat, (3 * V3.collision_count)%nat).
Proof.
  unfold V3.generate_collision, bind, ret. cbv zeta.
  pose proof (forR_ind
                (fun _ st => length (fst (fst st))
                             = (3 * V3.collision_count)%nat)
                V3.collision_count
                (V3.collision_body oh p ci co V3.collision_count)
                (new_Float32Array (V3.collision_count * 3),
                 new_Float32Array (V3.collision_count * 3),
                 new_Uint8Array V3.collision_count) rnd k
                ltac:(cbn [fst]; rewrite length_new_Float32Array; lia)
                (fun i st k' _ H =>
                   V3_collision_body_len p ci co oh _ _ i st rnd k' H)) as H.
  destruct (forR _ _ _ rnd k) as [[[cols ip] isA] k'].
  cbn [fst snd] in H. unfold buffer_lengths, new_Points. cbn [fst position color].
  rewrite length_new_Float32Array, H, (Nat.mul_comm V3.collision_count 3).
  reflexivity.
Qed.

(** Inputs for the closed examples: a colour parser that answers white, a
    hue shift that changes nothing, and the stream that always yields 0.5. *)
Definition white : string -> THREE.Color.t := fun _ => rgb 1 1 1.
Definition keep_hue : THREE.Color.t -> num -> num -> num -> THREE.Color.t :=
  fun c _ _ _ => c.

(** A parser that tells the two colours of the examples apart: red for
    [#ff0000], blue for anything else. *)
Definition two_tone : string -> THREE.Color.t :=
  fun c => if c === "#ff0000" then rgb 1 0 0 else rgb 0 0 1.

Definition halves : nat -> R := fun _ => 0.5.

Definition example_params : GalaxyParams :=
  {| type := SPIRAL; starsCount := 2; radius := 5; branches := 3; spin := 1;
     randomness := 0.2; randomnessPower := 3; insideColor := "#ff0000";
     outsideColor := "#0000ff"; isEvent := None |}.

Lemma halves_unit : unit_stream halves.
Proof. intros n. unfold halves. lra. Qed.

(** C1, as the code has it.  For every non-event galaxy type, in each
    revision, and for the collision of V2, the position and colour arrays
    have length exactly 3 * starsCount.  The supernova and the quasar of V2
    and V3 and the collision of V3 allocate for a count fixed in the code
    (100000, 150000; 150000, 200000, 150000), whatever starsCount is. *)
Theorem generated_buffer_lengths
  (nc : string -> THREE.Color.t)
  (oh : THREE.Color.t -> num -> num -> num -> THREE.Color.t)
  (p : GalaxyParams) (rnd : nat -> R) (k : nat) (sc : Scene) :
  let n3 := (3 * starsCount p)%nat in
  (forall g : GalaxyType,
     buffer_lengths (fst (V2.generate nc (set_type p g) rnd k)) = (n3, n3) /\
     buffer_lengths (fst (V3.generate nc oh (set_type p g) rnd k)) = (n3, n3) /\
     exists s1,
       stars (fst (V1.generate nc (set_type p g) sc rnd k)) = Some s1 /\
       buffer_lengths s1 = (n3, n3)) /\
  buffer_lengths (fst (V2.generate nc (set_type p COLLISION) rnd k))
  = (n3, n3) /\
  buffer_lengths (fst (V2.generate nc (set_type p SUPERNOVA) rnd k))
  = ((3 * N.to_nat 100000)%nat, (3 * N.to_nat 100000)%nat) /\
  buffer_lengths (fst (V2.generate nc (set_type p QUASAR) rnd k))
  = ((3 * N.to_nat 150000)%nat, (3 * N.to_nat 150000)%nat) /\
  buffer_lengths (fst (V3.generate nc oh (set_type p SUPERNOVA) rnd k))
  = ((3 * N.to_nat 150000)%nat, (3 * N.to_nat 150000)%nat) /\
  buffer_lengths (fst (V3.generate nc oh (set_type p QUASAR) rnd k))
  = ((3 * N.to_nat 200000)%nat, (3 * N.to_nat 200000)%nat) /\
  buffer_lengths (fst (V3.generate nc oh (set_type p COLLISION) rnd k))
  = ((3 * N.to_nat 150000)%nat, (3 * N.to_nat 150000)%nat).
Proof.
  intros n3. split.
  { intros g. split; [|split].
    - rewrite V2_generate_galaxy. apply V2_standard_lengths.
    - rewrite V3_generate_galaxy. apply V3_standard_lengths.
    - eexists. split; [apply V1_generate_galaxy|].
      apply V1_regular_lengths. }
  split; [|split; [|split; [|split; [|split]]]].
  - unfold V2.generate. dispatch. apply V2_collision_lengths.
  - unfold V2.generate. dispatch. apply V2_supernova_lengths.
  - unfold V2.generate. dispatch. apply V2_quasar_lengths.
  - unfold V3.generate. dispatch. apply V3_supernova_lengths.
  - unfold V3.generate. dispatch. apply V3_quasar_lengths.
  - unfold V3.generate. dispatch. apply V3_collision_lengths.
Qed.

(** C1 as the specification states it fails: a supernova configuration
    with [starsCount = 2] gets 300000 entries, not 6. *)
Lemma supernova_length_ignores_starsCount :
  let p := set_type example_params SUPERNOVA in
  buffer_lengths (fst (V2.generate white p halves 0%nat))
  <> ((3 * starsCount p)%nat, (3 * starsCount p)%nat).
Proof.
  cbv zeta. unfold V2.generate. dispatch. rewrite V2_supernova_lengths.
  cbn [starsCount set_type example_params]. unfold V2.supernova_count.
  intros H. apply (f_equal fst) in H. cbn [fst] in H. lia.
Qed.

(** ** Dispatch falls through to the standard generation *)

Lemma seq_str_false (a b : string) : a <> b -> (a === b) = false.
Proof. intros H. apply String.eqb_neq. assumption. Qed.

(** C2, as the code has it.  The dispatch tests for the three events and,
    inside the standard generation, for elliptical and lenticular; there is
    no failure branch.  Every other type value, one of the enum or not, is
    generated exactly as a spiral is. *)
Theorem other_types_generate_as_spiral
  (nc : string -> THREE.Color.t)
  (oh : THREE.Color.t -> num -> num -> num -> THREE.Color.t)
  (p : GalaxyParams) (ty : string) (sc : Scene) :
  (forall e : CosmicEvent, ty <> e) ->
  ty <> ELLIPTICAL -> ty <> LENTICULAR ->
  V2.generate nc (set_type p ty) = V2.generate nc (set_type p SPIRAL) /\
  V3.generate nc oh (set_type p ty) = V3.generate nc oh (set_type p SPIRAL) /\
  V1.generate nc (set_type p ty) sc = V1.generate nc (set_type p SPIRAL) sc.
Proof.
  intros He Hell Hlen.
  pose proof (seq_str_false _ _ (He SUPERNOVA)) as E1.
  pose proof (seq_str_false _ _ (He QUASAR)) as E2.
  pose proof (seq_str_false _ _ (He COLLISION)) as E3.
  pose proof (seq_str_false _ _ Hell) as E4.
  pose proof (seq_str_false _ _ Hlen) as E5.
  split; [|split].
  - unfold V2.generate, V2.generate_standard, V2.standard_body.
    cbn [type set_type starsCount radius branches spin randomness
         randomnessPower insideColor outsideColor].
    rewrite E1, E2, E3, E4, E5. dispatch. reflexivity.
  - unfold V3.generate, V3.generate_standard, V3.standard_body.
    cbn [type set_type starsCount radius branches spin randomness
         randomnessPower insideColor outsideColor].
    rewrite E1, E2, E3, E4, E5. dispatch. reflexivity.
  - unfold V1.generate, V1.generate_regular, V1.regular_body.
    cbn [type set_type starsCount radius branches spin randomness
         randomnessPower insideColor outsideColor].
    rewrite E3. dispatch. reflexivity.
Qed.

Lemma nebula_is_no_member :
  (forall g : GalaxyType, "nebula"%string <> g) /\
  (forall e : CosmicEvent, "nebula"%string <> e).
Proof.
  split; intros x; apply String.eqb_neq; destruct x; reflexivity.
Qed.

(** C2 as the specification states it fails: for a type value outside
    both enums the generation does not fail; it returns the particle set of
    a spiral, of [3 * starsCount] entries. *)
Lemma unknown_type_is_defaulted :
  let p := set_type example_params "nebula" in
  (forall g : GalaxyType, type p <> g) /\
  (forall e : CosmicEvent, type p <> e) /\
  V3.generate white keep_hue p
  = V3.generate white keep_hue (set_type example_params SPIRAL) /\
  buffer_lengths (fst (V3.generate white keep_hue p halves 0%nat)) = (6%nat, 6%nat).
Proof.
  cbv zeta. destruct nebula_is_no_member as [Hg He].
  split; [exact Hg|]. split; [exact He|]. split.
  - unfold V3.generate, V3.generate_standard, V3.standard_body.
    cbn [type set_type starsCount radius branches spin randomness
         randomnessPower insideColor outsideColor].
    dispatch. reflexivity.
  - unfold V3.generate. dispatch. rewrite V3_standard_lengths. reflexivity.
Qed.

(** ** Degenerate inputs *)

Definition all_NaN (n : nat) (cols : list num) : Prop :=
  forall i, (i < n)%nat -> view3 i cols = (Some NaN, Some NaN, Some NaN).

(** The channels of a parsed colour lie between 0 and 1. *)
Definition unit_color (r g b : R) : Prop := bnd r 1 /\ bnd g 1 /\ bnd b 1.

(** What the standard generation yields for parameters of moderate size
    whose [branches] and [randomnessPower] are valid: buffers of
    [3 * starsCount] entries, positions of magnitude at most
    [1000 + 1000 * 1000], and colours of magnitude at most 1 unless the
    radius is 0, in which case every particle's colour is [NaN]. *)
Definition degenerate_outcome (p : GalaxyParams) (s : Points) : Prop :=
  buffer_lengths s = ((3 * starsCount p)%nat, (3 * starsCount p)%nat) /\
  Forall (within 1001000) (position s) /\
  (radius p <> 0 -> Forall (within 1) (color s)) /\
  (radius p = 0 -> all_NaN (starsCount p) (color s)).

Definition bounded_buffers (bp bc : R) (s : Points) : Prop :=
  Forall (within bp) (position s) /\ Forall (within bc) (color s).

(** The one assumption on [Color.offsetHSL]: channels between 0 and 1 stay
    there. *)
Definition keeps_unit
  (oh : THREE.Color.t -> num -> num -> num -> THREE.Color.t) : Prop :=
  forall c a b d,
    within3 1 (THREE.Color.r c) (THREE.Color.g c) (THREE.Color.b c) ->
    within3 1 (THREE.Color.r (oh c a b d)) (THREE.Color.g (oh c a b d))
      (THREE.Color.b (oh c a b d)).

Lemma Forall_finite_new (n : nat) : Forall finite (new_Float32Array n).
Proof. apply Forall_replicate. apply finite_Fin. Qed.

Lemma Forall_within_new (n : nat) (b : R) :
  0 <= b -> Forall (within b) (new_Float32Array n).
Proof.
  intros Hb. apply Forall_replicate.
  apply (within_Fin 0 b 0); [apply bnd_pos|]; lra.
Qed.

Lemma fraction_of_unit (e : R) (p : GalaxyParams) (u : R) :
  0 < e -> radius p <> 0 -> 0 <= u < 1 ->
  exists alpha, fraction_of e p u = Fin alpha /\ 0 <= alpha < 1.
Proof.
  intros He Hr Hu. unfold fraction_of, Math.pow.
  destruct (pow_unit u e Hu He) as (v & -> & Hv).
  cbn [mul]. rewrite div_Fin by assumption.
  exists v. split; [f_equal; field; assumption|assumption].
Qed.

Lemma convex_bnd (a b alpha : R) :
  bnd a 1 -> bnd b 1 -> 0 <= alpha <= 1 -> bnd (convex a b alpha) 1.
Proof.
  intros Ha Hb Hal. apply bnd_between in Ha, Hb.
  unfold bnd, convex. apply Rabs_le. nra.
Qed.

Lemma lerp_within (ir ig ib or og ob alpha : R) :
  unit_color ir ig ib -> unit_color or og ob -> 0 <= alpha <= 1 ->
  let mix := THREE.Color.lerp (rgb ir ig ib) (rgb or og ob) (Fin alpha) in
  within3 1 (THREE.Color.r mix) (THREE.Color.g mix) (THREE.Color.b mix).
Proof.
  intros (I1 & I2 & I3) (O1 & O2 & O3) Hal. cbv zeta. rewrite lerp_rgb.
  cbn [rgb THREE.Color.r THREE.Color.g THREE.Color.b].
  split; [|split]; (eapply within_Fin; [apply convex_bnd; eassumption|lra]).
Qed.

(** A loop whose rounds write a position and the mix at the fraction of
    their first sample. *)
Lemma loop_degenerate body rnd (e bp : R) (p : GalaxyParams)
  ir ig ib or og ob k :
  (forall i pos cols k,
      snd (fst (body i (pos, cols) rnd k))
      = write_mix cols i
          (THREE.Color.lerp (rgb ir ig ib) (rgb or og ob)
             (fraction_of e p (rnd k)))) ->
  (forall i pos cols k,
      exists a b c,
        fst (fst (body i (pos, cols) rnd k)) = set3 pos (i * 3) a b c /\
        within3 bp a b c) ->
  0 < e -> 0 <= bp ->
  unit_stream rnd ->
  unit_color ir ig ib -> unit_color or og ob ->
  let st := fst (forR (starsCount p) body
                   (new_Float32Array (starsCount p * 3),
                    new_Float32Array (starsCount p * 3)) rnd k) in
  Forall (within bp) (fst st) /\
  (radius p <> 0 -> Forall (within 1) (snd st)) /\
  (radius p = 0 -> all_NaN (starsCount p) (snd st)).
Proof.
  intros Hcol Hpos He Hbp Hrnd Hi Ho st. unfold st. split; [|split].
  - apply (loop_writes_Forall fst); [|apply Forall_within_new; assumption].
    intros i [pos cols] k'. apply Hpos.
  - intros Hr.
    apply (loop_writes_Forall snd); [|apply Forall_within_new; lra].
    intros i [pos cols] k'. rewrite Hcol. unfold write_mix.
    eexists _, _, _. split; [reflexivity|].
    destruct (fraction_of_unit e p (rnd k') He Hr (Hrnd k'))
      as (alpha & -> & Hal).
    apply lerp_within; [assumption|assumption|lra].
  - intros Hr i Hi'.
    destruct (loop_colors body rnd
                (fun u => THREE.Color.lerp (rgb ir ig ib) (rgb or og ob)
                            (fraction_of e p u))
                Hcol (starsCount p) (new_Float32Array (starsCount p * 3))
                (new_Float32Array (starsCount p * 3)) k
                ltac:(rewrite length_new_Float32Array; lia) i Hi') as [k' Hk].
    rewrite Hk, (fraction_of_NaN e p (rnd k') He Hr (Hrnd k')), lerp_NaN.
    reflexivity.
Qed.

Lemma V2_standard_degenerate ci_r ci_g ci_b co_r co_g co_b p rnd k :
  unit_stream rnd -> (1 <= branches p)%nat -> 0 < randomnessPower p ->
  moderate p -> unit_color ci_r ci_g ci_b -> unit_color co_r co_g co_b ->
  degenerate_outcome p
    (fst (V2.generate_standard p (rgb ci_r ci_g ci_b) (rgb co_r co_g co_b)
            rnd k)).
Proof.
  intros Hrnd Hb Hrp Hm Hi Ho. unfold degenerate_outcome.
  split; [apply V2_standard_lengths|].
  destruct (V2_standard_buffers p (rgb ci_r ci_g ci_b) (rgb co_r co_g co_b)
              rnd k) as [-> ->].
  apply (loop_degenerate _ rnd 1.5 1001000 p ci_r ci_g ci_b co_r co_g co_b);
    [| |lra|lra|assumption|assumption|assumption].
  - intros. apply V2_standard_body_color.
  - intros. apply V2_standard_body_position; assumption.
Qed.

Lemma V3_standard_degenerate ci_r ci_g ci_b co_r co_g co_b p rnd k :
  unit_stream rnd -> (1 <= branches p)%nat -> 0 < randomnessPower p ->
  moderate p -> unit_color ci_r ci_g ci_b -> unit_color co_r co_g co_b ->
  degenerate_outcome p
    (fst (V3.generate_standard p (rgb ci_r ci_g ci_b) (rgb co_r co_g co_b)
            rnd k)).
Proof.
  intros Hrnd Hb Hrp Hm Hi Ho. unfold degenerate_outcome.
  split; [apply V3_standard_lengths|].
  destruct (V3_standard_buffers p (rgb ci_r ci_g ci_b) (rgb co_r co_g co_b)
              rnd k) as [-> ->].
  apply (loop_degenerate _ rnd 1.5 1001000 p ci_r ci_g ci_b co_r co_g co_b);
    [| |lra|lra|assumption|assumption|assumption].
  - intros. apply V3_standard_body_color.
  - intros. apply V3_standard_body_position; assumption.
Qed.

Lemma V1_regular_degenerate ci_r ci_g ci_b co_r co_g co_b p rnd k :
  unit_stream rnd -> (1 <= branches p)%nat -> 0 < randomnessPower p ->
  moderate p -> unit_color ci_r ci_g ci_b -> unit_color co_r co_g co_b ->
  degenerate_outcome p
    (fst (V1.generate_regular p (rgb ci_r ci_g ci_b) (rgb co_r co_g co_b)
            rnd k)).
Proof.
  intros Hrnd Hb Hrp Hm Hi Ho. unfold degenerate_outcome.
  split; [apply V1_regular_lengths|].
  destruct (V1_regular_buffers p (rgb ci_r ci_g ci_b) (rgb co_r co_g co_b)
              rnd k) as [-> ->].
  apply (loop_degenerate _ rnd 1.5 1001000 p ci_r ci_g ci_b co_r co_g co_b);
    [| |lra|lra|assumption|assumption|assumption].
  - intros. apply V1_regular_body_color.
  - intros. apply V1_regular_body_position; assumption.
Qed.

(** *** The event generators *)

(** The mix of two parsed colours at the fraction of a disk particle, which
    is not clamped and stays below 1.2. *)
Ltac mix_within Hrnd :=
  unfold THREE.Color.clone; to_Fin Hrnd; rewrite lerp_rgb;
  cbn [rgb THREE.Color.r THREE.Color.g THREE.Color.b]; unfold convex;
  in_bounds Hrnd.

(** The height of a disk particle is divided by its radius, which is at
    least 0.5. *)
Ltac inverse_radius :=
  try match goal with
      | |- context [1 / ?r] =>
          assert (bnd (1 / r) 2) by (apply (bnd_inv r (1 / 2)); lra)
      end.

Lemma V2_quasar_body_within ir ig ib or og ob i (st : list num * list num)
  rnd k :
  unit_stream rnd -> unit_color ir ig ib -> unit_color or og ob ->
  Forall (within 9) (fst st) /\ Forall (within 4) (snd st) ->
  let st' := fst (V2.quasar_body (rgb ir ig ib) (rgb or og ob) i st rnd k) in
  Forall (within 9) (fst st') /\ Forall (within 4) (snd st').
Proof.
  destruct st as [pos cols]. cbn [fst snd].
  intros Hrnd (I1 & I2 & I3) (O1 & O2 & O3) [Hp Hc].
  unfold V2.quasar_body, bind, ret, random. cbn [fst snd].
  split; apply Forall_set3; try assumption.
  1-3: to_Fin Hrnd; inverse_radius; in_bounds Hrnd.
  all: mix_within Hrnd.
Qed.

Lemma V3_quasar_body_within ir ig ib or og ob i (st : list num * list num)
  rnd k :
  unit_stream rnd -> unit_color ir ig ib -> unit_color or og ob ->
  Forall (within 9) (fst st) /\ Forall (within 4) (snd st) ->
  let st' := fst (V3.quasar_body (rgb ir ig ib) (rgb or og ob) i st rnd k) in
  Forall (within 9) (fst st') /\ Forall (within 4) (snd st').
Proof.
  destruct st as [pos cols]. cbn [fst snd].
  intros Hrnd (I1 & I2 & I3) (O1 & O2 & O3) [Hp Hc].
  unfold V3.quasar_body, bind, ret, random. cbn [fst snd].
  split; apply Forall_set3; try assumption.
  1-3: to_Fin Hrnd; inverse_radius; in_bounds Hrnd.
  all: mix_within Hrnd.
Qed.

Lemma V2_supernova_body_within i (st : list num * list num * list num) rnd k :
  unit_stream rnd ->
  Forall (within 1) (fst (fst st)) /\ Forall (within 1) (snd (fst st)) ->
  let st' := fst (V2.supernova_body i st rnd k) in
  Forall (within 1) (fst (fst st')) /\ Forall (within 1) (snd (fst st')).
Proof.
  destruct st as [[pos cols] vels]. cbn [fst snd]. intros Hrnd [Hp Hc].
  unfold V2.supernova_body, bind, ret, random. cbn [fst snd].
  split; apply Forall_set3; try assumption;
    to_Fin Hrnd; in_bounds Hrnd.
Qed.

Lemma V3_supernova_body_within i (st : list num * list num) rnd k :
  Forall (within 1) (fst st) ->
  Forall (within 1) (fst (fst (V3.supernova_body i st rnd k))).
Proof.
  destruct st as [cols vels]. cbn [fst snd]. intros Hc.
  unfold V3.supernova_body, bind, ret, random. cbn [fst snd].
  apply Forall_set3; try assumption;
    (apply (within_Fin 1 1 1); [apply bnd_pos|]; lra).
Qed.

Lemma V2_collision_body_position p ci co count i pos cols rnd k :
  unit_stream rnd -> moderate p ->
  exists a b c,
    fst (fst (V2.collision_body p ci co count
                (THREE.Vector3.mk (-4) 0 0) (THREE.Vector3.mk 4 1 2)
                i (pos, cols) rnd k))
    = set3 pos (i * 3) a b c /\ within3 2000 a b c.
Proof.
  intros Hrnd (Hrad & Hspin & Hrand).
  unfold V2.collision_body, bind, ret, random. cbn [fst snd].
  destruct (_ <. _); destruct (_ >. _); cbn [fst snd];
    eexists _, _, _; (split; [reflexivity|]);
    unfold THREE.Vector3.lerp, THREE.Vector3.add;
    cbn [THREE.Vector3.x THREE.Vector3.y THREE.Vector3.z];
    to_Fin Hrnd; (split; [|split]); in_bounds Hrnd.
Qed.

Lemma V2_collision_body_color p ci co count cA cB i pos cols rnd k :
  snd (fst (V2.collision_body p ci co count cA cB i (pos, cols) rnd k))
  = write_mix cols i (THREE.Color.lerp ci co (fraction_of 1.4 p (rnd k))).
Proof. unfold V2.collision_body. run_body; reflexivity. Qed.

Lemma V3_collision_body_within oh p ir ig ib or og ob count i
  (st : list num * list num * list bool) rnd k :
  unit_stream rnd -> keeps_unit oh -> radius p <> 0 ->
  unit_color ir ig ib -> unit_color or og ob ->
  Forall (within 1) (fst (fst st)) ->
  Forall (within 1)
    (fst (fst (fst (V3.collision_body oh p (rgb ir ig ib) (rgb or og ob)
                      count i st rnd k)))).
Proof.
  destruct st as [[cols ip] isA]. cbn [fst snd].
  intros Hrnd Hoh Hr Hi Ho Hc.
  unfold V3.collision_body, bind, ret, random. cbn [fst snd].
  unfold THREE.Color.clone.
  destruct (fraction_of_unit 1.5 p (rnd k) ltac:(lra) Hr (Hrnd k))
    as (alpha & Hal & Hb).
  pose proof (lerp_within ir ig ib or og ob alpha Hi Ho ltac:(lra)) as Hmix.
  cbv zeta in Hmix. rewrite <- Hal in Hmix.
  fold (fraction_of 1.5 p (rnd k)).
  destruct (negb _).
  - destruct (Hoh _ 0.5 0 0 Hmix) as (H1 & H2 & H3).
    apply Forall_set3; assumption.
  - destruct Hmix as (H1 & H2 & H3). apply Forall_set3; assumption.
Qed.

Lemma V2_supernova_bounded rnd k :
  unit_stream rnd -> bounded_buffers 1 1 (fst (V2.generate_supernova rnd k)).
Proof.
  intros Hrnd. unfold V2.generate_supernova, bind, ret. cbv zeta.
  pose proof (forR_ind
                (fun _ st => Forall (within 1) (fst (fst st)) /\
                             Forall (within 1) (snd (fst st)))
                V2.supernova_count V2.supernova_body
                (new_Float32Array (V2.supernova_count * 3),
                 new_Float32Array (V2.supernova_count * 3),
                 new_Float32Array (V2.supernova_count * 3)) rnd k
                (conj (Forall_within_new _ 1 ltac:(lra))
                   (Forall_within_new _ 1 ltac:(lra)))
                (fun i st k' _ H => V2_supernova_body_within i st rnd k' Hrnd H))
    as H.
  destruct (forR _ _ _ rnd k) as [[[pos cols] vels] k']. exact H.
Qed.

Lemma V3_supernova_bounded rnd k :
  bounded_buffers 1 1 (fst (V3.generate_supernova rnd k)).
Proof.
  unfold V3.generate_supernova, bind, ret. cbv zeta.
  pose proof (forR_ind (fun _ st => Forall (within 1) (fst st))
                V3.supernova_count V3.supernova_body
                (new_Float32Array (V3.supernova_count * 3),
                 new_Float32Array (V3.supernova_count * 3)) rnd k
                (Forall_within_new _ 1 ltac:(lra))
                (fun i st k' _ H => V3_supernova_body_within i st rnd k' H))
    as H.
  destruct (forR _ _ _ rnd k) as [[cols vels] k'].
  split; [apply Forall_within_new; lra|exact H].
Qed.

Lemma V2_quasar_bounded ir ig ib or og ob rnd k :
  unit_stream rnd -> unit_color ir ig ib -> unit_color or og ob ->
  bounded_buffers 9 4
    (fst (V2.generate_quasar (rgb ir ig ib) (rgb or og ob) rnd k)).
Proof.
  intros Hrnd Hi Ho. unfold V2.generate_quasar, bind, ret. cbv zeta.
  pose proof (forR_ind
                (fun _ st => Forall (within 9) (fst st) /\
                             Forall (within 4) (snd st))
                V2.quasar_count
                (V2.quasar_body (rgb ir ig ib) (rgb or og ob))
                (new_Float32Array (V2.quasar_count * 3),
                 new_Float32Array (V2.quasar_count * 3)) rnd k
                (conj (Forall_within_new _ 9 ltac:(lra))
                   (Forall_within_new _ 4 ltac:(lra)))
                (fun i st k' _ H =>
                   V2_quasar_body_within ir ig ib or og ob i st rnd k'
                     Hrnd Hi Ho H))
    as H.
  destruct (forR _ _ _ rnd k) as [[pos cols] k']. exact H.
Qed.

Lemma V3_quasar_bounded ir ig ib or og ob rnd k :
  unit_stream rnd -> unit_color ir ig ib -> unit_color or og ob ->
  bounded_buffers 9 4
    (fst (V3.generate_quasar (rgb ir ig ib) (rgb or og ob) rnd k)).
Proof.
  intros Hrnd Hi Ho. unfold V3.generate_quasar, bind, ret. cbv zeta.
  pose proof (forR_ind
                (fun _ st => Forall (within 9) (fst st) /\
                             Forall (within 4) (snd st))
                V3.quasar_count
                (V3.quasar_body (rgb ir ig ib) (rgb or og ob))
                (new_Float32Array (V3.quasar_count * 3),
                 new_Float32Array (V3.quasar_count * 3)) rnd k
                (conj (Forall_within_new _ 9 ltac:(lra))
                   (Forall_within_new _ 4 ltac:(lra)))
                (fun i st k' _ H =>
                   V3_quasar_body_within ir ig ib or og ob i st rnd k'
                     Hrnd Hi Ho H))
    as H.
  destruct (forR _ _ _ rnd k) as [[pos cols] k']. exact H.
Qed.

(** The collision of V2 mixes its colours as the standard generation does,
    with exponent 1.4, and places its particles within the radius of one
    of two cores, or on the way to the other one. *)
Definition collision_outcome (p : GalaxyParams) (s : Points) : Prop :=
  Forall (within 2000) (position s) /\
  (radius p <> 0 -> Forall (within 1) (color s)) /\
  (radius p = 0 -> all_NaN (starsCount p) (color s)).

Lemma V2_collision_degenerate ir ig ib or og ob p rnd k :
  unit_stream rnd -> moderate p ->
  unit_color ir ig ib -> unit_color or og ob ->
  collision_outcome p
    (fst (V2.generate_collision p (rgb ir ig ib) (rgb or og ob) rnd k)).
Proof.
  intros Hrnd Hm Hi Ho. unfold V2.generate_collision, bind, ret. cbv zeta.
  match goal with
  | |- context [forR ?n ?body ?s rnd k] =>
      pose proof (loop_degenerate body rnd 1.4 2000 p ir ig ib or og ob k)
        as H
  end.
  cbv zeta in H.
  destruct (forR _ _ _ rnd k) as [[pos cols] k'].
  apply H; [| |lra|lra|assumption|assumption|assumption].
  - intros. apply V2_collision_body_color.
  - intros. apply V2_collision_body_position; assumption.
Qed.

Lemma V3_collision_degenerate oh ir ig ib or og ob p rnd k :
  unit_stream rnd -> keeps_unit oh ->
  unit_color ir ig ib -> unit_color or og ob ->
  let s := fst (V3.generate_collision oh p (rgb ir ig ib) (rgb or og ob)
                  rnd k) in
  Forall (within 0) (position s) /\
  (radius p <> 0 -> Forall (within 1) (color s)).
Proof.
  intros Hrnd Hoh Hi Ho. unfold V3.generate_collision, bind, ret. cbv zeta.
  split.
  - destruct (forR _ _ _ rnd k) as [[[cols ip] isA] k'].
    apply Forall_within_new. lra.
  - intros Hr.
    pose proof (forR_ind (fun _ st => Forall (within 1) (fst (fst st)))
                  V3.collision_count
                  (V3.collision_body oh p (rgb ir ig ib) (rgb or og ob)
                     V3.collision_count)
                  (new_Float32Array (V3.collision_count * 3),
                   new_Float32Array (V3.collision_count * 3),
                   new_Uint8Array V3.collision_count) rnd k
                  (Forall_within_new _ 1 ltac:(lra))
                  (fun i st k' _ H =>
                     V3_collision_body_within oh p ir ig ib or og ob _ i st
                       rnd k' Hrnd Hoh Hr Hi Ho H)) as H.
    destruct (forR _ _ _ rnd k) as [[[cols ip] isA] k']. exact H.
Qed.


Definition zero_radius_params : GalaxyParams :=
  {| type := SPIRAL; starsCount := 1; radius := 0; branches := 1; spin := 1;
     randomness := 0.2; randomnessPower := 3; insideColor := "#ff0000";
     outsideColor := "#0000ff"; isEvent := None |}.

Lemma white_is_unit : unit_color 1 1 1.
Proof. repeat split; apply bnd_pos; lra. Qed.

Lemma zero_radius_is_moderate : moderate zero_radius_params.
Proof.
  unfold moderate, zero_radius_params. cbn [radius spin randomness].
  repeat split; unfold bnd; apply Rabs_le; lra.
Qed.


Lemma keep_hue_keeps_unit : keeps_unit keep_hue.
Proof. intros c a b d H. exact H. Qed.


(** ** The generated supernova meets what the steps assume *)

(** A supernova set of [n] particles as the steps of both modes take it:
    finite positions and velocities, three buffers of [3 n] entries. *)
Definition supernova_ready (n : nat) (s : Points) : Prop :=
  exists v,
    velocities (userData s) = Some v /\
    length v = (3 * n)%nat /\
    length (position s) = (3 * n)%nat /\
    length (color s) = (3 * n)%nat /\
    Forall finite v /\
    Forall finite (position s).

Definition ready3 (n : nat) (pos cols vels : list num) : Prop :=
  length pos = (3 * n)%nat /\ length cols = (3 * n)%nat /\
  length vels = (3 * n)%nat /\ Forall finite pos /\ Forall finite vels.

Lemma ready3_new (n : nat) :
  ready3 n (new_Float32Array (n * 3)) (new_Float32Array (n * 3))
    (new_Float32Array (n * 3)).
Proof.
  unfold ready3. rewrite !length_new_Float32Array.
  repeat split; try lia; apply Forall_finite_new.
Qed.

Lemma V2_supernova_body_ready n i (st : list num * list num * list num) rnd k :
  unit_stream rnd ->
  ready3 n (fst (fst st)) (snd (fst st)) (snd st) ->
  let st' := fst (V2.supernova_body i st rnd k) in
  ready3 n (fst (fst st')) (snd (fst st')) (snd st').
Proof.
  destruct st as [[pos cols] vels]. cbn [fst snd].
  intros Hrnd (L1 & L2 & L3 & F1 & F2).
  unfold V2.supernova_body, bind, ret, random, ready3. cbn [fst snd].
  rewrite !length_set3.
  repeat split; try assumption; apply Forall_set3; try assumption;
    to_Fin Hrnd; apply finite_Fin.
Qed.

Lemma V2_generated_supernova_ready rnd k :
  unit_stream rnd ->
  supernova_ready V2.supernova_count (fst (V2.generate_supernova rnd k)).
Proof.
  intros Hrnd. unfold V2.generate_supernova, bind, ret. cbv zeta.
  pose proof (forR_ind
                (fun _ st => ready3 V2.supernova_count (fst (fst st))
                               (snd (fst st)) (snd st))
                V2.supernova_count V2.supernova_body
                (new_Float32Array (V2.supernova_count * 3),
                 new_Float32Array (V2.supernova_count * 3),
                 new_Float32Array (V2.supernova_count * 3)) rnd k
                (ready3_new _)
                (fun i st k' _ H =>
                   V2_supernova_body_ready _ i st rnd k' Hrnd H)) as H.
  destruct (forR _ _ _ rnd k) as [[[pos cols] vels] k'].
  destruct H as (L1 & L2 & L3 & F1 & F2). cbn [fst snd] in L1, L2, L3, F1, F2.
  exists vels. unfold new_Points. cbn [fst userData velocities position color].
  repeat split; assumption.
Qed.

Lemma V3_supernova_body_ready n i (st : list num * list num) rnd k :
  unit_stream rnd ->
  length (fst st) = n /\ length (snd st) = n /\ Forall finite (snd st) ->
  let st' := fst (V3.supernova_body i st rnd k) in
  length (fst st') = n /\ length (snd st') = n /\ Forall finite (snd st').
Proof.
  destruct st as [cols vels]. cbn [fst snd]. intros Hrnd (L1 & L2 & F).
  unfold V3.supernova_body, bind, ret, random. cbn [fst snd].
  rewrite !length_set3.
  repeat split; try assumption; apply Forall_set3; try assumption;
    to_Fin Hrnd; apply finite_Fin.
Qed.

Lemma V3_supernova_loop_ready (n : nat) rnd k :
  unit_stream rnd ->
  let st := fst (forR n V3.supernova_body
                   (new_Float32Array (n * 3), new_Float32Array (n * 3))
                   rnd k) in
  length (fst st) = (3 * n)%nat /\ length (snd st) = (3 * n)%nat /\
  Forall finite (snd st).
Proof.
  intros Hrnd.
  apply (forR_ind
           (fun _ st => length (fst st) = (3 * n)%nat /\
                        length (snd st) = (3 * n)%nat /\
                        Forall finite (snd st))).
  - cbn [fst snd]. rewrite !length_new_Float32Array.
    repeat split; try lia. apply Forall_finite_new.
  - intros i st k' _ H. apply V3_supernova_body_ready; assumption.
Qed.

Lemma V3_generated_supernova_ready rnd k :
  unit_stream rnd ->
  supernova_ready V3.supernova_count (fst (V3.generate_supernova rnd k)).
Proof.
  intros Hrnd. unfold V3.generate_supernova, bind, ret. cbv zeta.
  pose proof (V3_supernova_loop_ready V3.supernova_count rnd k Hrnd) as H.
  cbv zeta in H.
  destruct (forR _ _ _ rnd k) as [[cols vels] k'].
  destruct H as (L1 & L2 & F). cbn [fst snd] in L1, L2, F.
  exists vels. unfold new_Points. cbn [fst userData velocities position color].
  rewrite length_new_Float32Array, (Nat.mul_comm V3.supernova_count 3).
  repeat split; try assumption. apply Forall_finite_new.
Qed.

(** ** The theorems at concrete inputs *)

Definition empty_scene : Scene := {| stars := None |}.

(** One particle at [(3, 0, 4)], white, moving along [x]. *)
Definition one_particle : Points :=
  {| position := [Fin 3; Fin 0; Fin 4];
     color := [Fin 1; Fin 1; Fin 1];
     userData := {| velocities := Some [Fin 1; Fin 0; Fin 0];
                    initialPositions := None; isGalaxyA := None |};
     rotation_y := Fin 0;
     opacity := Fin 0.8 |}.

Lemma Forall_finite_3 (a b c : R) : Forall finite [Fin a; Fin b; Fin c].
Proof. repeat constructor; apply finite_Fin. Defined.

Lemma supernova_progress_0 : V3.supernova_progress (Fin 0) = Fin 0.
Proof.
  unfold V3.supernova_progress. cbv zeta. rewrite rem_Fin by lra.
  rewrite div_Fin by lra. f_equal. unfold trunc.
  destruct (Rle_dec 0 (0 / 10)) as [_|N]; [|exfalso; apply N; lra].
  replace (0 / 10) with (INR 0) by (cbn [INR]; lra).
  rewrite Int_part_INR. change (Z.of_nat 0) with 0%Z. lra.
Qed.


Lemma other_types_generate_as_spiral_witness :
  (forall e : CosmicEvent, "nebula"%string <> e) /\
  "nebula"%string <> ELLIPTICAL /\
  "nebula"%string <> LENTICULAR /\
  V2.generate white (set_type example_params "nebula")
  = V2.generate white (set_type example_params SPIRAL).
Proof.
  split; [exact (proj2 nebula_is_no_member)|].
  split; [exact (proj1 nebula_is_no_member ELLIPTICAL)|].
  split; [exact (proj1 nebula_is_no_member LENTICULAR)|].
  apply (other_types_generate_as_spiral white keep_hue example_params
           "nebula" empty_scene).
  - exact (proj2 nebula_is_no_member).
  - exact (proj1 nebula_is_no_member ELLIPTICAL).
  - exact (proj1 nebula_is_no_member LENTICULAR).
Defined.


Lemma quasar_step_keeps_planar_radius_witness :
  position one_particle !! (0 * 3)%nat = Some (Fin 3) /\
  position one_particle !! (0 * 3 + 2)%nat = Some (Fin 4) /\
  (exists s2, V2.animate_quasar (Fin 1) one_particle = Some s2 /\
              planar_radius (position s2) 0
              = planar_radius (position one_particle) 0) /\
  (exists s3, V3.animate_quasar (Fin 1) one_particle = Some s3 /\
              planar_radius (position s3) 0
              = planar_radius (position one_particle) 0) /\
  planar_radius (position one_particle) 0 = Fin (sqrt (3 * 3 + 4 * 4)).
Proof.
  split; [reflexivity|]. split; [reflexivity|].
  apply (quasar_step_keeps_planar_radius (Fin 1) one_particle 0 3 4);
    reflexivity.
Defined.

Lemma standard_colors_are_convex_witness :
  0 < radius example_params /\
  unit_stream halves /\
  two_tone (insideColor example_params) = rgb 1 0 0 /\
  two_tone (outsideColor example_params) = rgb 0 0 1 /\
  colored_by_radius
    (V3.standard_body (set_type example_params SPIRAL) (rgb 1 0 0)
       (rgb 0 0 1) (starsCount example_params))
    (fun i _ => standard_draws (set_type example_params SPIRAL)
                  (starsCount example_params) i)
    halves 0%nat example_params 1 0 0 0 0 1
    (fst (V3.generate two_tone keep_hue (set_type example_params SPIRAL)
            halves 0%nat)).
Proof.
  split; [cbn; lra|]. split; [exact halves_unit|].
  split; [reflexivity|]. split; [reflexivity|].
  apply (standard_colors_are_convex two_tone keep_hue SPIRAL example_params
           halves 0%nat empty_scene 1 0 0 0 0 1);
    [cbn; lra|exact halves_unit|reflexivity|reflexivity].
Defined.

Lemma supernova_continuous_bounds_witness :
  velocities (userData one_particle) = Some [Fin 1; Fin 0; Fin 0] /\
  length [Fin 1; Fin 0; Fin 0] = (3 * 1)%nat /\
  length (position one_particle) = (3 * 1)%nat /\
  length (color one_particle) = (3 * 1)%nat /\
  Forall finite [Fin 1; Fin 0; Fin 0] /\
  Forall finite (position one_particle) /\
  exists s',
    V2.animate_supernova one_particle = Some s' /\
    userData s' = userData one_particle /\
    length (position s') = (3 * 1)%nat /\
    length (color s') = (3 * 1)%nat /\
    Forall finite (position s') /\
    forall i, (i < 1)%nat ->
      recycled_and_hot (view3 i (position s'), view3 i (color s')).
Proof.
  split; [reflexivity|]. split; [reflexivity|]. split; [reflexivity|].
  split; [reflexivity|]. split; [apply Forall_finite_3|].
  split; [apply Forall_finite_3|].
  apply (supernova_continuous_bounds one_particle [Fin 1; Fin 0; Fin 0] 1);
    [reflexivity|reflexivity|reflexivity|reflexivity
    |apply Forall_finite_3|apply Forall_finite_3].
Defined.

(** * Further properties of the generator *)

(** ** Loops that write one particle per round *)

(** Every one of the [n] particles of a buffer is written and satisfies
    [Q]. *)
Definition particles (n : nat) (arr : list num)
  (Q : nat -> num -> num -> num -> Prop) : Prop :=
  forall i, (i < n)%nat ->
    exists a b c, view3 i arr = (Some a, Some b, Some c) /\ Q i a b c.

Section Particle_loop.
Context {S : Type}.
Variable proj : S -> list num.
Variable body : nat -> S -> Rand S.
Variable rnd : nat -> R.
Variable Q : nat -> num -> num -> num -> Prop.

Hypothesis body_writes :
  forall i st k,
    exists a b c,
      proj (fst (body i st rnd k)) = set3 (proj st) (i * 3) a b c /\ Q i a b c.

(** After the loop, particle [i] holds what round [i] wrote. *)
Lemma loop_particles (n : nat) (s0 : S) (k : nat) :
  length (proj s0) = (3 * n)%nat ->
  particles n (proj (fst (forR n body s0 rnd k))) Q.
Proof.
  intros Hlen i Hi. unfold forR.
  refine (for_post (fun i (acc : S * nat) => view3 i (proj (fst acc)))
            (fun i acc => body i (fst acc) rnd (snd acc)) _
            (fun i w => exists a b c, w = (Some a, Some b, Some c) /\ Q i a b c)
            n (s0, k) _ i Hi); clear i Hi.
  - intros i j [st k'] Hij. cbn [fst snd].
    destruct (body_writes i st k') as (a & b & c & -> & _).
    apply view3_set3_ne. assumption.
  - intros i [st k'] Hi Hview. cbn [fst snd] in Hview; cbn [fst snd].
    destruct (body_writes i st k') as (a & b & c & -> & HQ).
    exists a, b, c. split; [|assumption].
    apply view3_set3_eq.
    apply view3_inv in Hview as (_ & _ & H2).
    destruct (lookup_lt_is_Some_2 (proj s0) (i * 3 + 2)%nat) as [q Hq]; [lia|].
    rewrite Hq in H2. eapply lookup_lt_Some. eassumption.
Qed.
End Particle_loop.

(** The same, for a property of what round [i] writes that depends on the
    position [ki] of the stream at which the round starts. *)
Definition particles_at (n : nat) (arr : list num) (start : nat -> nat)
  (Q : nat -> nat -> num -> num -> num -> Prop) : Prop :=
  forall i, (i < n)%nat ->
    exists a b c,
      view3 i arr = (Some a, Some b, Some c) /\ Q i (start i) a b c.

Section Sampled_particle_loop.
Context {S : Type}.
Variable proj : S -> list num.
Variable body : nat -> S -> Rand S.
Variable rnd : nat -> R.
Variable draws : nat -> nat -> nat.
Variable Q : nat -> nat -> num -> num -> num -> Prop.

Hypothesis body_draws :
  forall i st k, snd (body i st rnd k) = (k + draws i k)%nat.
Hypothesis body_writes :
  forall i st k,
    exists a b c,
      proj (fst (body i st rnd k)) = set3 (proj st) (i * 3) a b c /\
      Q i k a b c.

Lemma loop_particles_at (n : nat) (s0 : S) (k : nat) :
  length (proj s0) = (3 * n)%nat ->
  particles_at n (proj (fst (forR n body s0 rnd k))) (round_start draws k) Q.
Proof.
  intros Hlen i Hi.
  refine (loop_sampled (fun i st => view3 i (proj st)) body rnd draws
            body_draws _
            (fun i k' w =>
               exists a b c, w = (Some a, Some b, Some c) /\ Q i k' a b c)
            n s0 k _ i Hi); clear i Hi.
  - intros i j st k' Hij.
    destruct (body_writes i st k') as (a & b & c & -> & _).
    apply view3_set3_ne. assumption.
  - intros i st k' Hi Hview.
    destruct (body_writes i st k') as (a & b & c & -> & HQ).
    exists a, b, c. split; [|assumption].
    apply view3_set3_eq.
    apply view3_inv in Hview as (_ & _ & H2).
    destruct (lookup_lt_is_Some_2 (proj s0) (i * 3 + 2)%nat) as [q Hq]; [lia|].
    rewrite Hq in H2. eapply lookup_lt_Some. eassumption.
Qed.
End Sampled_particle_loop.

(** ** Elliptical galaxies lie in a flattened ellipsoid *)

Lemma sphere_point (p t r : R) :
  (sin p * cos t * r) * (sin p * cos t * r)
  + (sin p * sin t * r) * (sin p * sin t * r)
  + (cos p * r) * (cos p * r) = r * r.
Proof.
  pose proof (sin2_cos2 p) as Hp. pose proof (sin2_cos2 t) as Ht.
  unfold Rsqr in Hp, Ht.
  replace (sin p * cos t * r * (sin p * cos t * r)
           + sin p * sin t * r * (sin p * sin t * r)
           + cos p * r * (cos p * r))
    with (r * r * (sin p * sin p * (sin t * sin t + cos t * cos t)
                   + cos p * cos p)) by ring.
  rewrite Ht, Rmult_1_r, Hp. ring.
Qed.

(** A point of the ellipsoid with semi-axes [r], [ky r], [kz r] for a
    sampled [r] between 0 and the radius. *)
Definition in_ellipsoid (rad ky kz : R) (a b c : num) : Prop :=
  exists x y z r : R,
    a = Fin x /\ b = Fin y /\ c = Fin z /\ 0 <= r <= rad /\
    x * x + (y / ky) * (y / ky) + (z / kz) * (z / kz) = r * r.

Lemma ellipsoid_point (p t r ky kz : R) :
  ky <> 0 -> kz <> 0 ->
  (sin p * cos t * r) * (sin p * cos t * r)
  + (sin p * sin t * r * ky / ky) * (sin p * sin t * r * ky / ky)
  + (cos p * r * kz / kz) * (cos p * r * kz / kz) = r * r.
Proof.
  intros Hy Hz. rewrite <- (sphere_point p t r). field. split; assumption.
Qed.

Lemma V3_elliptical_body p ci co count i st rnd k :
  (type p === ELLIPTICAL) = true -> unit_stream rnd -> 0 <= radius p ->
  exists a b c,
    fst (fst (V3.standard_body p ci co count i st rnd k))
    = set3 (fst st) (i * 3) a b c /\
    in_ellipsoid (radius p) 0.75 0.9 a b c.
Proof.
  intros Ht Hrnd HR. destruct st as [pos cols].
  unfold V3.standard_body, bind, ret, random. cbn [fst snd]. rewrite Ht.
  cbn [fst snd]. eexists _, _, _. split; [reflexivity|].
  to_Fin Hrnd.
  match goal with
  | Hv : 0 <= ?v < 1 |- _ => eexists _, _, _, (v * radius p)
  end.
  split; [reflexivity|]. split; [reflexivity|]. split; [reflexivity|].
  split; [nra|]. apply ellipsoid_point; lra.
Qed.

Lemma V2_elliptical_body p ci co count i st rnd k :
  (type p === ELLIPTICAL) = true -> unit_stream rnd -> 0 <= radius p ->
  exists a b c,
    fst (fst (V2.standard_body p ci co count i st rnd k))
    = set3 (fst st) (i * 3) a b c /\
    in_ellipsoid (radius p) 0.7 0.85 a b c.
Proof.
  intros Ht Hrnd HR. destruct st as [pos cols].
  unfold V2.standard_body, bind, ret, random. cbn [fst snd]. rewrite Ht.
  cbn [fst snd]. eexists _, _, _. split; [reflexivity|].
  to_Fin Hrnd.
  match goal with
  | Hv : 0 <= ?v < 1 |- _ => eexists _, _, _, (v * radius p)
  end.
  split; [reflexivity|]. split; [reflexivity|]. split; [reflexivity|].
  split; [nra|]. apply ellipsoid_point; lra.
Qed.

Lemma length_new3 (n : nat) : length (new_Float32Array (n * 3)) = (3 * n)%nat.
Proof. rewrite length_new_Float32Array. lia. Qed.

(** X1. Every particle of a generated elliptical galaxy lies on an
    ellipsoid [x² + (y/ky)² + (z/kz)² = r²] for a sampled [0 <= r <= radius]:
    the galaxy fills the flattened ellipsoid of semi-axes radius,
    [ky] radius, [kz] radius ([ky, kz] = 0.7, 0.85 in V2 and 0.75, 0.9 in
    V3) and never leaves it. *)
Theorem elliptical_fills_ellipsoid
  (nc : string -> THREE.Color.t)
  (oh : THREE.Color.t -> num -> num -> num -> THREE.Color.t)
  (p : GalaxyParams) (rnd : nat -> R) (k : nat) :
  unit_stream rnd -> 0 <= radius p ->
  particles (starsCount p)
    (position (fst (V2.generate nc (set_type p ELLIPTICAL) rnd k)))
    (fun _ => in_ellipsoid (radius p) 0.7 0.85) /\
  particles (starsCount p)
    (position (fst (V3.generate nc oh (set_type p ELLIPTICAL) rnd k)))
    (fun _ => in_ellipsoid (radius p) 0.75 0.9).
Proof.
  intros Hrnd HR. split.
  - rewrite V2_generate_galaxy.
    destruct (V2_standard_buffers (set_type p ELLIPTICAL) (nc (insideColor p))
                (nc (outsideColor p)) rnd k) as [-> _].
    apply (loop_particles fst); [|apply length_new3].
    intros i st k'.
    exact (V2_elliptical_body (set_type p ELLIPTICAL) _ _ _ i st rnd k'
             eq_refl Hrnd HR).
  - rewrite V3_generate_galaxy.
    destruct (V3_standard_buffers (set_type p ELLIPTICAL) (nc (insideColor p))
                (nc (outsideColor p)) rnd k) as [-> _].
    apply (loop_particles fst); [|apply length_new3].
    intros i st k'.
    exact (V3_elliptical_body (set_type p ELLIPTICAL) _ _ _ i st rnd k'
             eq_refl Hrnd HR).
Qed.

(** ** Spiral arms *)

(** [i % branches] on counters is the remainder of the division. *)
Lemma trunc_INR_div (i b : nat) :
  (1 <= b)%nat -> trunc (INR i / INR b) = Z.of_nat (i / b).
Proof.
  intros Hb.
  assert (Hb0 : 0 < INR b) by (apply lt_0_INR; lia).
  pose proof (Nat.div_mod_eq i b) as Hdm.
  pose proof (Nat.mod_upper_bound i b ltac:(lia)) as Hm.
  assert (Hi : INR i = INR b * INR (i / b) + INR (i mod b)).
  { rewrite <- mult_INR, <- plus_INR. f_equal. exact Hdm. }
  assert (Hm0 : 0 <= INR (i mod b)) by apply pos_INR.
  assert (Hm1 : INR (i mod b) < INR b) by (apply lt_INR; exact Hm).
  assert (Hq : INR i / INR b = INR (i / b) + INR (i mod b) / INR b).
  { rewrite Hi. field. lra. }
  assert (Hf : 0 <= INR (i mod b) / INR b < 1).
  { split.
    - apply Rmult_le_pos; [assumption|]. left. apply Rinv_0_lt_compat. lra.
    - apply (Rmult_lt_reg_r (INR b)); [assumption|].
      replace (INR (i mod b) / INR b * INR b) with (INR (i mod b))
        by (field; lra).
      lra. }
  unfold trunc.
  destruct (Rle_dec 0 (INR i / INR b)) as [_|N].
  - symmetry. apply Int_part_spec. rewrite <- INR_IZR_INZ. lra.
  - exfalso. apply N. rewrite Hq. pose proof (pos_INR (i / b)). lra.
Qed.

Lemma rem_nat (i b : nat) : (1 <= b)%nat -> Num i %. Num b = Num (i mod b).
Proof.
  intros Hb. unfold Num.
  assert (Hb0 : INR b <> 0) by (apply not_0_INR; lia).
  rewrite rem_Fin by assumption. f_equal.
  rewrite trunc_INR_div by assumption. rewrite <- INR_IZR_INZ.
  pose proof (Nat.div_mod_eq i b) as Hdm.
  assert (Hi : INR i = INR b * INR (i / b) + INR (i mod b)).
  { rewrite <- mult_INR, <- plus_INR. f_equal. exact Hdm. }
  lra.
Qed.

(** The jitter of one axis: at most [randomness * r] either way. *)
Lemma jitter_bound (v rho r : R) (c : bool) :
  0 <= v < 1 -> 0 <= rho -> 0 <= r ->
  - (rho * r) <= v * (if c then 1 else -1) * rho * r <= rho * r.
Proof.
  intros Hv Hrho Hr.
  assert (H0 : 0 <= rho * r) by (apply Rmult_le_pos; assumption).
  assert (H1 : 0 <= v * (rho * r) <= rho * r) by nra.
  destruct c; lra.
Qed.

(** A particle of arm [i mod branches]: the point at radius [r] and angle
    [r * spin + 2 pi (i mod branches) / branches], moved by at most
    [randomness * r] along each axis, the vertical offset scaled by
    [flat]. *)
Definition on_arm (p : GalaxyParams) (flat : R) (i : nat) (a b c : num)
  : Prop :=
  exists r jx jy jz : R,
    0 <= r <= radius p /\
    - (randomness p * r) <= jx <= randomness p * r /\
    - (randomness p * r) <= jy <= randomness p * r /\
    - (randomness p * r) <= jz <= randomness p * r /\
    let theta := r * spin p
                 + INR (i mod branches p) / INR (branches p) * PI * 2 in
    a = Fin (cos theta * r + jx) /\
    b = Fin (jy * flat) /\
    c = Fin (sin theta * r + jz).

Definition valid_arms (p : GalaxyParams) : Prop :=
  0 <= radius p /\ (1 <= branches p)%nat /\ 0 <= randomness p /\
  0 < randomnessPower p.

(** Solves [on_arm] once the round is in the form [Fin _]. *)
Ltac arm_point p :=
  match goal with
  | |- context [Fin (cos _ * (?v * _) + ?vx * (if ?cx then 1 else -1) * _ * _)] =>
      match goal with
      | |- context [Fin (?vy * (if ?cy then 1 else -1) * _ * _ * _)] =>
          match goal with
          | |- context [Fin (sin _ * _ + ?vz * (if ?cz then 1 else -1) * _ * _)] =>
              exists (v * radius p),
                (vx * (if cx then 1 else -1) * randomness p * (v * radius p)),
                (vy * (if cy then 1 else -1) * randomness p * (v * radius p)),
                (vz * (if cz then 1 else -1) * randomness p * (v * radius p));
              assert (0 <= v * radius p <= radius p) by nra
          end
      end
  end;
  split; [assumption|];
  repeat (split; [apply jitter_bound; solve [assumption|lra]|]);
  cbv zeta; repeat split; reflexivity.

Lemma V3_default_body p ci co count i st rnd k :
  (type p === ELLIPTICAL) = false -> (type p === LENTICULAR) = false ->
  unit_stream rnd -> valid_arms p ->
  exists a b c,
    fst (fst (V3.standard_body p ci co count i st rnd k))
    = set3 (fst st) (i * 3) a b c /\ on_arm p 0.3 i a b c.
Proof.
  intros He Hl Hrnd (HR & Hb & Hrho & Hrp). destruct st as [pos cols].
  pose proof (branches_nonzero p Hb) as Hb0.
  unfold V3.standard_body, bind, ret, random. cbn [fst snd]. rewrite He, Hl.
  cbn [fst snd]. eexists _, _, _. split; [reflexivity|].
  rewrite rem_nat by assumption. to_Fin Hrnd.
  unfold on_arm. arm_point p.
Qed.

Lemma V2_default_body p ci co count i st rnd k :
  (type p === ELLIPTICAL) = false -> (type p === LENTICULAR) = false ->
  unit_stream rnd -> valid_arms p ->
  exists a b c,
    fst (fst (V2.standard_body p ci co count i st rnd k))
    = set3 (fst st) (i * 3) a b c /\ on_arm p 0.3 i a b c.
Proof.
  intros He Hl Hrnd (HR & Hb & Hrho & Hrp). destruct st as [pos cols].
  pose proof (branches_nonzero p Hb) as Hb0.
  unfold V2.standard_body, bind, ret, random. cbn [fst snd]. rewrite He, Hl.
  cbn [fst snd]. eexists _, _, _. split; [reflexivity|].
  rewrite rem_nat by assumption. to_Fin Hrnd.
  unfold on_arm. arm_point p.
Qed.

Lemma V1_regular_body_arm p ci co i st rnd k :
  unit_stream rnd -> valid_arms p ->
  exists a b c,
    fst (fst (V1.regular_body p ci co i st rnd k))
    = set3 (fst st) (i * 3) a b c /\ on_arm p 0.3 i a b c.
Proof.
  intros Hrnd (HR & Hb & Hrho & Hrp). destruct st as [pos cols].
  pose proof (branches_nonzero p Hb) as Hb0.
  unfold V1.regular_body, bind, ret, random. cbn [fst snd].
  eexists _, _, _. split; [reflexivity|].
  rewrite rem_nat by assumption. to_Fin Hrnd.
  unfold on_arm. arm_point p.
Qed.

(** *** Lenticular: a bulge and a thin disk *)

Lemma ellipsoid_point_eq (p t r ky kz x y z : R) :
  ky <> 0 -> kz <> 0 ->
  x = sin p * cos t * r -> y = sin p * sin t * r * ky -> z = cos p * r * kz ->
  x * x + (y / ky) * (y / ky) + (z / kz) * (z / kz) = r * r.
Proof.
  intros Hy Hz -> -> ->. apply ellipsoid_point; assumption.
Qed.

(** [i < count * 0.4]: the particle belongs to the bulge. *)
Definition isBulge (count i : nat) : bool := Num i <. Num count *. 0.4.

Definition in_lenticular (p : GalaxyParams) (bulge flat : R) (count i : nat)
  (a b c : num) : Prop :=
  if isBulge count i
  then in_ellipsoid (radius p * bulge) 0.8 1 a b c
  else on_arm p flat i a b c.

Lemma V3_lenticular_body p ci co count i st rnd k :
  (type p === ELLIPTICAL) = false -> (type p === LENTICULAR) = true ->
  unit_stream rnd -> valid_arms p ->
  exists a b c,
    fst (fst (V3.standard_body p ci co count i st rnd k))
    = set3 (fst st) (i * 3) a b c /\ in_lenticular p 0.4 0.1 count i a b c.
Proof.
  intros He Hl Hrnd (HR & Hb & Hrho & Hrp). destruct st as [pos cols].
  pose proof (branches_nonzero p Hb) as Hb0.
  unfold V3.standard_body, bind, ret, random, in_lenticular, isBulge.
  cbn [fst snd]. rewrite He, Hl.
  destruct (Num i <. Num count *. 0.4); cbn [fst snd];
    eexists _, _, _; (split; [reflexivity|]).
  - to_Fin Hrnd.
    match goal with
    | Hv : 0 <= ?v < 1 |- _ => eexists _, _, _, (v * (radius p * 0.4))
    end.
    split; [reflexivity|]. split; [reflexivity|]. split; [reflexivity|].
    split; [nra|].
    eapply ellipsoid_point_eq; [| |reflexivity|reflexivity|]; lra.
  - rewrite rem_nat by assumption. to_Fin Hrnd.
    unfold on_arm. arm_point p.
Qed.

Lemma V2_lenticular_body p ci co count i st rnd k :
  (type p === ELLIPTICAL) = false -> (type p === LENTICULAR) = true ->
  unit_stream rnd -> valid_arms p ->
  exists a b c,
    fst (fst (V2.standard_body p ci co count i st rnd k))
    = set3 (fst st) (i * 3) a b c /\ in_lenticular p 0.35 0.12 count i a b c.
Proof.
  intros He Hl Hrnd (HR & Hb & Hrho & Hrp). destruct st as [pos cols].
  pose proof (branches_nonzero p Hb) as Hb0.
  unfold V2.standard_body, bind, ret, random, in_lenticular, isBulge.
  cbn [fst snd]. rewrite He, Hl. cbv zeta.
  destruct (Num i <. Num count *. 0.4); cbn [fst snd];
    eexists _, _, _; (split; [reflexivity|]).
  - to_Fin Hrnd.
    match goal with
    | Hv : 0 <= ?v < 1 |- _ => eexists _, _, _, (v * (radius p * 0.35))
    end.
    split; [reflexivity|]. split; [reflexivity|]. split; [reflexivity|].
    split; [nra|].
    eapply ellipsoid_point_eq; [| |reflexivity|reflexivity|]; lra.
  - rewrite rem_nat by assumption. to_Fin Hrnd.
    unfold on_arm. arm_point p.
Qed.

Lemma isBulge_spec (count i : nat) :
  isBulge count i = true <-> (5 * i < 2 * count)%nat.
Proof.
  unfold isBulge, Num. cbn [mul]. rewrite lt_Fin.
  destruct (Rlt_dec (INR i) (INR count * 0.4)) as [H|H]; split; intros H';
    try reflexivity; try discriminate.
  - apply INR_lt. rewrite !mult_INR. cbn [INR]. lra.
  - exfalso. apply H. apply lt_INR in H'. rewrite !mult_INR in H'.
    cbn [INR] in H'. lra.
Qed.

Lemma galaxy_not (g h : GalaxyType) :
  g <> h -> (GalaxyType_value g === GalaxyType_value h) = false.
Proof. intros H. destruct g, h; try reflexivity; contradiction. Qed.

(** X2. In a generated spiral, barred-spiral or irregular galaxy (and in
    every galaxy of V1), particle [i] belongs to arm [i mod branches]: it is
    the point at a sampled radius [0 <= r <= radius] and angle
    [r * spin + 2 pi (i mod branches) / branches], displaced by at most
    [randomness * r] along x and z and by at most [0.3 * randomness * r]
    vertically. *)
Theorem spiral_particles_follow_arms
  (nc : string -> THREE.Color.t)
  (oh : THREE.Color.t -> num -> num -> num -> THREE.Color.t)
  (g : GalaxyType) (p : GalaxyParams) (rnd : nat -> R) (k : nat) (sc : Scene) :
  unit_stream rnd -> valid_arms p ->
  g <> ELLIPTICAL -> g <> LENTICULAR ->
  particles (starsCount p)
    (position (fst (V2.generate nc (set_type p g) rnd k))) (on_arm p 0.3) /\
  particles (starsCount p)
    (position (fst (V3.generate nc oh (set_type p g) rnd k))) (on_arm p 0.3) /\
  forall g1 : GalaxyType,
    exists s1,
      stars (fst (V1.generate nc (set_type p g1) sc rnd k)) = Some s1 /\
      particles (starsCount p) (position s1) (on_arm p 0.3).
Proof.
  intros Hrnd Hp Hge Hgl.
  pose proof (galaxy_not g ELLIPTICAL Hge) as He.
  pose proof (galaxy_not g LENTICULAR Hgl) as Hl.
  split; [|split].
  - rewrite V2_generate_galaxy.
    destruct (V2_standard_buffers (set_type p g) (nc (insideColor p))
                (nc (outsideColor p)) rnd k) as [-> _].
    apply (loop_particles fst); [|apply length_new3].
    intros i st k'.
    exact (V2_default_body (set_type p g) _ _ _ i st rnd k' He Hl Hrnd Hp).
  - rewrite V3_generate_galaxy.
    destruct (V3_standard_buffers (set_type p g) (nc (insideColor p))
                (nc (outsideColor p)) rnd k) as [-> _].
    apply (loop_particles fst); [|apply length_new3].
    intros i st k'.
    exact (V3_default_body (set_type p g) _ _ _ i st rnd k' He Hl Hrnd Hp).
  - intros g1. eexists. split; [apply V1_generate_galaxy|].
    destruct (V1_regular_buffers (set_type p g1) (nc (insideColor p))
                (nc (outsideColor p)) rnd k) as [-> _].
    apply (loop_particles fst); [|apply length_new3].
    intros i st k'.
    exact (V1_regular_body_arm (set_type p g1) _ _ i st rnd k' Hrnd Hp).
Qed.

(** X3. In a generated lenticular galaxy the particles with
    [i < 0.4 * starsCount] (that is [5 i < 2 starsCount]) form the bulge:
    each lies on an ellipsoid [x² + (y/0.8)² + z² = rb²] with
    [rb <= bulge * radius] ([bulge] = 0.35 in V2, 0.4 in V3).  The others
    form a disk without bulge: they follow the arm rule with the vertical
    offset scaled by 0.12 (V2) or 0.1 (V3). *)
Theorem lenticular_bulge_and_disk
  (nc : string -> THREE.Color.t)
  (oh : THREE.Color.t -> num -> num -> num -> THREE.Color.t)
  (p : GalaxyParams) (rnd : nat -> R) (k : nat) :
  unit_stream rnd -> valid_arms p ->
  particles (starsCount p)
    (position (fst (V2.generate nc (set_type p LENTICULAR) rnd k)))
    (in_lenticular p 0.35 0.12 (starsCount p)) /\
  particles (starsCount p)
    (position (fst (V3.generate nc oh (set_type p LENTICULAR) rnd k)))
    (in_lenticular p 0.4 0.1 (starsCount p)) /\
  forall i, isBulge (starsCount p) i = true <-> (5 * i < 2 * starsCount p)%nat.
Proof.
  intros Hrnd Hp. split; [|split].
  - rewrite V2_generate_galaxy.
    destruct (V2_standard_buffers (set_type p LENTICULAR) (nc (insideColor p))
                (nc (outsideColor p)) rnd k) as [-> _].
    apply (loop_particles fst); [|apply length_new3].
    intros i st k'.
    exact (V2_lenticular_body (set_type p LENTICULAR) _ _ _ i st rnd k'
             eq_refl eq_refl Hrnd Hp).
  - rewrite V3_generate_galaxy.
    destruct (V3_standard_buffers (set_type p LENTICULAR) (nc (insideColor p))
                (nc (outsideColor p)) rnd k) as [-> _].
    apply (loop_particles fst); [|apply length_new3].
    intros i st k'.
    exact (V3_lenticular_body (set_type p LENTICULAR) _ _ _ i st rnd k'
             eq_refl eq_refl Hrnd Hp).
  - intros i. apply isBulge_spec.
Qed.

(** ** The accretion disk of the quasar *)

(** A particle of a flat ring: planar radius [r] in [lo, hi), height at
    most [h / r]. *)
Definition in_ring (lo hi h : R) (a b c : num) : Prop :=
  exists x y z r : R,
    a = Fin x /\ b = Fin y /\ c = Fin z /\ lo <= r < hi /\
    x * x + z * z = r * r /\ - h <= y * r <= h.

Lemma circle_point (t r : R) :
  (cos t * r) * (cos t * r) + (sin t * r) * (sin t * r) = r * r.
Proof.
  pose proof (sin2_cos2 t) as Ht. unfold Rsqr in Ht.
  replace (cos t * r * (cos t * r) + sin t * r * (sin t * r))
    with (r * r * (sin t * sin t + cos t * cos t)) by ring.
  rewrite Ht. ring.
Qed.

(** The particle of the disk that a round writes when it draws [u] first:
    with the power [w = u^e] of the sample its planar radius is
    [r = r0 + w * span]; it lies on the circle of radius [r] at a height of
    at most [h / r], and its colour is the mix at the fraction [r / div] of
    that same radius.  The fraction is not clamped: it is above 1 as soon
    as [r] is above [div]. *)
Definition ring_particle (e r0 span h div : R) (ir ig ib or og ob : R)
  (u : R)
  (v : (option num * option num * option num)
       * (option num * option num * option num)) : Prop :=
  exists x y z w : R,
    JS.pow (Fin u) (Fin e) = Fin w /\ 0 <= w < 1 /\
    let r := r0 + w * span in
    let alpha := r / div in
    x * x + z * z = r * r /\ - h <= y * r <= h /\
    (div < r -> 1 < alpha) /\
    v = ((Some (Fin x), Some (Fin y), Some (Fin z)),
         (Some (Fin (convex ir or alpha)), Some (Fin (convex ig og alpha)),
          Some (Fin (convex ib ob alpha)))).

(** Every round of the disk loop draws three samples, so round [i] of a
    loop that starts at [k] draws [rnd (k + 3 i)] first. *)
Definition disk_particles (n : nat) (rnd : nat -> R) (k : nat)
  (e r0 span h div : R) (ir ig ib or og ob : R) (s : Points) : Prop :=
  forall i, (i < n)%nat ->
    ring_particle e r0 span h div ir ig ib or og ob (rnd (k + 3 * i)%nat)
      (view6 i (position s, color s)).

Lemma V2_quasar_body_ring ir ig ib or og ob i st rnd k :
  unit_stream rnd ->
  exists a b c,
    fst (fst (V2.quasar_body (rgb ir ig ib) (rgb or og ob) i st rnd k))
    = set3 (fst st) (i * 3) a b c /\ in_ring 0.8 6.8 0.05 a b c.
Proof.
  intros Hrnd. destruct st as [pos cols].
  unfold V2.quasar_body, bind, ret, random. cbn [fst snd].
  unfold Math.pow.
  destruct (pow_unit (rnd k) 1.5 (Hrnd k) ltac:(lra)) as (w & E & Hw).
  eexists _, _, _. split; [reflexivity|]. rewrite E. to_Fin Hrnd.
  eexists _, _, _, (0.8 + w * 6.0).
  split; [reflexivity|]. split; [reflexivity|]. split; [reflexivity|].
  split; [lra|]. split; [apply circle_point|].
  pose proof (Hrnd (Datatypes.S (Datatypes.S k))).
  match goal with
  | |- - _ <= ?u * 0.1 * (1 / ?r) * ?r <= _ =>
      replace (u * 0.1 * (1 / r) * r) with (u * 0.1) by (field; lra)
  end.
  lra.
Qed.

Lemma V3_quasar_body_ring ir ig ib or og ob i st rnd k :
  unit_stream rnd ->
  exists a b c,
    fst (fst (V3.quasar_body (rgb ir ig ib) (rgb or og ob) i st rnd k))
    = set3 (fst st) (i * 3) a b c /\ in_ring 0.5 8.5 0.075 a b c.
Proof.
  intros Hrnd. destruct st as [pos cols].
  unfold V3.quasar_body, bind, ret, random. cbn [fst snd].
  unfold Math.pow.
  destruct (pow_unit (rnd k) 1.2 (Hrnd k) ltac:(lra)) as (w & E & Hw).
  eexists _, _, _. split; [reflexivity|]. rewrite E. to_Fin Hrnd.
  eexists _, _, _, (0.5 + w * 8.0).
  split; [reflexivity|]. split; [reflexivity|]. split; [reflexivity|].
  split; [lra|]. split; [apply circle_point|].
  pose proof (Hrnd (Datatypes.S (Datatypes.S k))).
  match goal with
  | |- - _ <= ?u * 0.15 * (1 / ?r) * ?r <= _ =>
      replace (u * 0.15 * (1 / r) * r) with (u * 0.15) by (field; lra)
  end.
  lra.
Qed.

Lemma view3_written (arr arr0 : list num) (i : nat) :
  view3 i arr = view3 i arr0 -> (i * 3 + 2 < length arr0)%nat ->
  (i * 3 + 2 < length arr)%nat.
Proof.
  intros H Hlen. apply view3_inv in H as (_ & _ & H2).
  destruct (lookup_lt_is_Some_2 arr0 (i * 3 + 2)%nat Hlen) as [q Hq].
  rewrite Hq in H2. eapply lookup_lt_Some. eassumption.
Qed.

Lemma V2_quasar_body_particle ir ig ib or og ob i (st : list num * list num)
  rnd k :
  unit_stream rnd ->
  (i * 3 + 2 < length (fst st))%nat -> (i * 3 + 2 < length (snd st))%nat ->
  ring_particle 1.5 0.8 6 0.05 6 ir ig ib or og ob (rnd k)
    (view6 i (fst (V2.quasar_body (rgb ir ig ib) (rgb or og ob) i st
                     rnd k))).
Proof.
  intros Hrnd. destruct st as [pos cols]. cbn [fst snd]. intros Lp Lc.
  unfold V2.quasar_body, bind, ret, random. cbn [fst snd].
  unfold view6. cbn [fst snd]. rewrite !view3_set3_eq by assumption.
  unfold Math.pow, THREE.Color.clone.
  destruct (pow_unit (rnd k) 1.5 (Hrnd k) ltac:(lra)) as (w & E & Hw).
  rewrite E. to_Fin Hrnd. rewrite lerp_rgb.
  cbn [rgb THREE.Color.r THREE.Color.g THREE.Color.b].
  replace (0.8 + w * 6.0) with (0.8 + w * 6) by lra.
  eexists _, _, _, w. split; [exact E|]. split; [assumption|]. cbv zeta.
  split; [|split; [|split]]; cycle 3.
  - reflexivity.
  - apply circle_point.
  - pose proof (Hrnd (Datatypes.S (Datatypes.S k))).
    match goal with
    | |- - _ <= ?u * 0.1 * (1 / ?r) * ?r' <= _ =>
        replace (u * 0.1 * (1 / r) * r') with (u * 0.1) by (field; lra)
    end.
    lra.
  - intros H. apply (Rmult_lt_reg_r 6); [lra|].
    unfold Rdiv. rewrite Rmult_assoc, Rinv_l by lra. lra.
Qed.

Lemma V3_quasar_body_particle ir ig ib or og ob i (st : list num * list num)
  rnd k :
  unit_stream rnd ->
  (i * 3 + 2 < length (fst st))%nat -> (i * 3 + 2 < length (snd st))%nat ->
  ring_particle 1.2 0.5 8 0.075 8 ir ig ib or og ob (rnd k)
    (view6 i (fst (V3.quasar_body (rgb ir ig ib) (rgb or og ob) i st
                     rnd k))).
Proof.
  intros Hrnd. destruct st as [pos cols]. cbn [fst snd]. intros Lp Lc.
  unfold V3.quasar_body, bind, ret, random. cbn [fst snd].
  unfold view6. cbn [fst snd]. rewrite !view3_set3_eq by assumption.
  unfold Math.pow, THREE.Color.clone.
  destruct (pow_unit (rnd k) 1.2 (Hrnd k) ltac:(lra)) as (w & E & Hw).
  rewrite E. to_Fin Hrnd. rewrite lerp_rgb.
  cbn [rgb THREE.Color.r THREE.Color.g THREE.Color.b].
  replace (0.5 + w * 8.0) with (0.5 + w * 8) by lra.
  eexists _, _, _, w. split; [exact E|]. split; [assumption|]. cbv zeta.
  split; [|split; [|split]]; cycle 3.
  - reflexivity.
  - apply circle_point.
  - pose proof (Hrnd (Datatypes.S (Datatypes.S k))).
    match goal with
    | |- - _ <= ?u * 0.15 * (1 / ?r) * ?r' <= _ =>
        replace (u * 0.15 * (1 / r) * r') with (u * 0.15) by (field; lra)
    end.
    lra.
  - intros H. apply (Rmult_lt_reg_r 8); [lra|].
    unfold Rdiv. rewrite Rmult_assoc, Rinv_l by lra. lra.
Qed.

Lemma V2_quasar_body_draws ci co i st rnd k :
  snd (V2.quasar_body ci co i st rnd k) = (k + 3)%nat.
Proof.
  destruct st as [pos cols]. unfold V2.quasar_body, bind, ret, random.
  cbn [fst snd]. lia.
Qed.

Lemma V3_quasar_body_draws ci co i st rnd k :
  snd (V3.quasar_body ci co i st rnd k) = (k + 3)%nat.
Proof.
  destruct st as [pos cols]. unfold V3.quasar_body, bind, ret, random.
  cbn [fst snd]. lia.
Qed.

Lemma V2_quasar_body_frame ci co i j st rnd k :
  i <> j -> view6 j (fst (V2.quasar_body ci co i st rnd k)) = view6 j st.
Proof. revert st. round_frame V2.quasar_body. Qed.

Lemma V3_quasar_body_frame ci co i j st rnd k :
  i <> j -> view6 j (fst (V3.quasar_body ci co i st rnd k)) = view6 j st.
Proof. revert st. round_frame V3.quasar_body. Qed.

(** A loop of rounds that draw three samples each and write one particle
    each, started on fresh buffers. *)
Lemma loop_disk_particles body (n : nat) rnd (k : nat)
  (Q : R -> (option num * option num * option num)
            * (option num * option num * option num) -> Prop) :
  (forall i st k, snd (body i st rnd k) = (k + 3)%nat) ->
  (forall i j st k,
      i <> j -> view6 j (fst (body i st rnd k)) = view6 j st) ->
  (forall i (st : list num * list num) k,
      (i * 3 + 2 < length (fst st))%nat ->
      (i * 3 + 2 < length (snd st))%nat ->
      Q (rnd k) (view6 i (fst (body i st rnd k)))) ->
  forall i, (i < n)%nat ->
    Q (rnd (k + 3 * i)%nat)
      (view6 i (fst (forR n body
                       (new_Float32Array (n * 3), new_Float32Array (n * 3))
                       rnd k))).
Proof.
  intros Hdraws Hframe Hbody i Hi.
  assert (Hstep : forall i st k',
             (i < n)%nat ->
             view6 i st
             = view6 i (new_Float32Array (n * 3), new_Float32Array (n * 3)) ->
             Q (rnd k') (view6 i (fst (body i st rnd k')))).
  { clear i Hi. intros i st k' Hi Hv.
    apply view6_inv in Hv as [Hp Hc]. cbn [fst snd] in Hp, Hc.
    apply Hbody.
    - apply (view3_written _ _ _ Hp). rewrite length_new_Float32Array. lia.
    - apply (view3_written _ _ _ Hc). rewrite length_new_Float32Array. lia. }
  pose proof (loop_sampled view6 body rnd (fun _ _ => 3%nat) Hdraws Hframe
                (fun _ k' v => Q (rnd k') v) n _ k Hstep i Hi) as H.
  cbv beta in H. rewrite round_start_const in H. exact H.
Qed.

Lemma V2_quasar_buffers ci co rnd k :
  let st := fst (forR V2.quasar_count (V2.quasar_body ci co)
                   (new_Float32Array (V2.quasar_count * 3),
                    new_Float32Array (V2.quasar_count * 3)) rnd k) in
  position (fst (V2.generate_quasar ci co rnd k)) = fst st /\
  color (fst (V2.generate_quasar ci co rnd k)) = snd st.
Proof.
  unfold V2.generate_quasar, bind, ret. cbv zeta.
  destruct (forR _ _ _ rnd k) as [[pos cols] k']. split; reflexivity.
Qed.

Lemma V3_quasar_buffers ci co rnd k :
  let st := fst (forR V3.quasar_count (V3.quasar_body ci co)
                   (new_Float32Array (V3.quasar_count * 3),
                    new_Float32Array (V3.quasar_count * 3)) rnd k) in
  position (fst (V3.generate_quasar ci co rnd k)) = fst st /\
  color (fst (V3.generate_quasar ci co rnd k)) = snd st.
Proof.
  unfold V3.generate_quasar, bind, ret. cbv zeta.
  destruct (forR _ _ _ rnd k) as [[pos cols] k']. split; reflexivity.
Qed.

(** X4. The generated accretion disk is a thin ring around the centre.
    Round [i] of the loop draws the samples [k + 3 i], [k + 3 i + 1] and
    [k + 3 i + 2] of the stream; with [w] the power 1.5 (1.2 in V3) of the
    first one, particle [i] lies on the circle of planar radius
    [r = 0.8 + 6 w] in V2 ([r = 0.5 + 8 w] in V3), so [0.8 <= r < 6.8]
    ([0.5 <= r < 8.5]), at a height of at most [0.05 / r] ([0.075 / r]): the
    disk thins outwards and no particle starts inside the radius 0.8 (0.5).
    The colour of that particle is the mix of the two parsed colours at the
    fraction [r / 6] ([r / 8]) of its own radius, which is not clamped: for
    the particles with [r > 6] ([r > 8]) it is above 1, beyond the outside
    colour. *)
Theorem quasar_disk_is_a_ring
  (nc : string -> THREE.Color.t)
  (oh : THREE.Color.t -> num -> num -> num -> THREE.Color.t)
  (p : GalaxyParams) (rnd : nat -> R) (k : nat) (ir ig ib or og ob : R) :
  unit_stream rnd ->
  nc (insideColor p) = rgb ir ig ib ->
  nc (outsideColor p) = rgb or og ob ->
  let s2 := fst (V2.generate nc (set_type p QUASAR) rnd k) in
  let s3 := fst (V3.generate nc oh (set_type p QUASAR) rnd k) in
  particles V2.quasar_count (position s2) (fun _ => in_ring 0.8 6.8 0.05) /\
  disk_particles V2.quasar_count rnd k 1.5 0.8 6 0.05 6 ir ig ib or og ob
    s2 /\
  particles V3.quasar_count (position s3) (fun _ => in_ring 0.5 8.5 0.075) /\
  disk_particles V3.quasar_count rnd k 1.2 0.5 8 0.075 8 ir ig ib or og ob
    s3.
Proof.
  intros Hrnd Hin Hout s2 s3. unfold s2, s3, V2.generate, V3.generate.
  dispatch. cbn [insideColor outsideColor set_type]. rewrite Hin, Hout.
  unfold disk_particles.
  destruct (V2_quasar_buffers (rgb ir ig ib) (rgb or og ob) rnd k)
    as [-> ->].
  destruct (V3_quasar_buffers (rgb ir ig ib) (rgb or og ob) rnd k)
    as [-> ->].
  split; [|split; [|split]].
  - apply (loop_particles fst); [|apply length_new3].
    intros i st k'. apply V2_quasar_body_ring. assumption.
  - intros i Hi. rewrite <- surjective_pairing.
    apply (loop_disk_particles _ V2.quasar_count rnd k
             (ring_particle 1.5 0.8 6 0.05 6 ir ig ib or og ob));
      [| | |assumption].
    + intros. apply V2_quasar_body_draws.
    + intros. apply V2_quasar_body_frame. assumption.
    + intros. apply V2_quasar_body_particle; assumption.
  - apply (loop_particles fst); [|apply length_new3].
    intros i st k'. apply V3_quasar_body_ring. assumption.
  - intros i Hi. rewrite <- surjective_pairing.
    apply (loop_disk_particles _ V3.quasar_count rnd k
             (ring_particle 1.2 0.5 8 0.075 8 ir ig ib or og ob));
      [| | |assumption].
    + intros. apply V3_quasar_body_draws.
    + intros. apply V3_quasar_body_frame. assumption.
    + intros. apply V3_quasar_body_particle; assumption.
Qed.

(** ** The supernova at generation *)

(** A velocity of magnitude [s] in [lo, hi). *)
Definition has_speed (lo hi : R) (a b c : num) : Prop :=
  exists vx vy vz s : R,
    a = Fin vx /\ b = Fin vy /\ c = Fin vz /\ lo <= s < hi /\
    vx * vx + vy * vy + vz * vz = s * s.

Definition in_cube (h : R) (a b c : num) : Prop :=
  exists x y z : R,
    a = Fin x /\ b = Fin y /\ c = Fin z /\
    - h <= x <= h /\ - h <= y <= h /\ - h <= z <= h.

Definition is_white (a b c : num) : Prop :=
  a = Fin 1 /\ b = Fin 1 /\ c = Fin 1.

Lemma V3_supernova_body_speed i st rnd k :
  unit_stream rnd ->
  (exists a b c,
     snd (fst (V3.supernova_body i st rnd k)) = set3 (snd st) (i * 3) a b c /\
     has_speed 0.2 4.2 a b c) /\
  (exists a b c,
     fst (fst (V3.supernova_body i st rnd k)) = set3 (fst st) (i * 3) a b c /\
     is_white a b c).
Proof.
  intros Hrnd. destruct st as [cols vels].
  unfold V3.supernova_body, bind, ret, random. cbn [fst snd]. split.
  - eexists _, _, _. split; [reflexivity|]. to_Fin Hrnd.
    match goal with
    | Hv : 0 <= ?v < 1 |- _ => eexists _, _, _, (0.2 + v * 4.0)
    end.
    split; [reflexivity|]. split; [reflexivity|]. split; [reflexivity|].
    split; [lra|]. apply sphere_point.
  - eexists _, _, _. split; [reflexivity|]. repeat split.
Qed.

Lemma V2_supernova_body_speed i (st : list num * list num * list num) rnd k :
  unit_stream rnd ->
  (exists a b c,
     snd (fst (V2.supernova_body i st rnd k)) = set3 (snd st) (i * 3) a b c /\
     has_speed 0.8 5.8 a b c) /\
  (exists a b c,
     fst (fst (fst (V2.supernova_body i st rnd k)))
     = set3 (fst (fst st)) (i * 3) a b c /\ in_cube 0.25 a b c) /\
  (exists a b c,
     snd (fst (fst (V2.supernova_body i st rnd k)))
     = set3 (snd (fst st)) (i * 3) a b c /\ is_white a b c).
Proof.
  intros Hrnd. destruct st as [[pos cols] vels].
  unfold V2.supernova_body, bind, ret, random. cbn [fst snd].
  split; [|split].
  - eexists _, _, _. split; [reflexivity|]. to_Fin Hrnd.
    match goal with
    | Hv : 0 <= ?v < 1 |- _ => eexists _, _, _, (0.8 + v * 5.0)
    end.
    split; [reflexivity|]. split; [reflexivity|]. split; [reflexivity|].
    split; [lra|]. apply sphere_point.
  - eexists _, _, _. split; [reflexivity|]. to_Fin Hrnd.
    eexists _, _, _.
    split; [reflexivity|]. split; [reflexivity|]. split; [reflexivity|].
    pose proof (Hrnd (3 + k)%nat). pose proof (Hrnd (4 + k)%nat).
    pose proof (Hrnd (5 + k)%nat). cbn [Nat.add] in *; lra.
  - eexists _, _, _. split; [reflexivity|]. repeat split.
Qed.

Lemma V2_supernova_buffers rnd k :
  let st := fst (forR V2.supernova_count V2.supernova_body
                   (new_Float32Array (V2.supernova_count * 3),
                    new_Float32Array (V2.supernova_count * 3),
                    new_Float32Array (V2.supernova_count * 3)) rnd k) in
  let s := fst (V2.generate_supernova rnd k) in
  position s = fst (fst st) /\ color s = snd (fst st) /\
  velocities (userData s) = Some (snd st).
Proof.
  unfold V2.generate_supernova, bind, ret. cbv zeta.
  destruct (forR _ _ _ rnd k) as [[[pos cols] vels] k'].
  repeat split.
Qed.

Lemma V3_supernova_buffers rnd k :
  let st := fst (forR V3.supernova_count V3.supernova_body
                   (new_Float32Array (V3.supernova_count * 3),
                    new_Float32Array (V3.supernova_count * 3)) rnd k) in
  let s := fst (V3.generate_supernova rnd k) in
  position s = new_Float32Array (V3.supernova_count * 3) /\
  color s = fst st /\ velocities (userData s) = Some (snd st).
Proof.
  unfold V3.generate_supernova, bind, ret. cbv zeta.
  destruct (forR _ _ _ rnd k) as [[cols vels] k'].
  split; [reflexivity|]. split; reflexivity.
Qed.

(** X5. A generated supernova: every particle gets a velocity whose
    magnitude is the sampled speed, [0.8 <= speed < 5.8] in V2 and
    [0.2 <= speed < 4.2] in V3 (the direction is a unit vector), and is
    white.  In V2 it starts within 0.25 of the origin along each axis; in V3
    the position buffer is left at zero. *)
Theorem supernova_is_generated_isotropic
  (nc : string -> THREE.Color.t)
  (oh : THREE.Color.t -> num -> num -> num -> THREE.Color.t)
  (p : GalaxyParams) (rnd : nat -> R) (k : nat) :
  unit_stream rnd ->
  let s2 := fst (V2.generate nc (set_type p SUPERNOVA) rnd k) in
  let s3 := fst (V3.generate nc oh (set_type p SUPERNOVA) rnd k) in
  (exists v, velocities (userData s2) = Some v /\
             particles V2.supernova_count v (fun _ => has_speed 0.8 5.8)) /\
  particles V2.supernova_count (position s2) (fun _ => in_cube 0.25) /\
  particles V2.supernova_count (color s2) (fun _ => is_white) /\
  (exists v, velocities (userData s3) = Some v /\
             particles V3.supernova_count v (fun _ => has_speed 0.2 4.2)) /\
  position s3 = replicate (V3.supernova_count * 3) (Fin 0) /\
  particles V3.supernova_count (color s3) (fun _ => is_white).
Proof.
  intros Hrnd s2 s3. unfold s2, s3, V2.generate, V3.generate. dispatch.
  destruct (V2_supernova_buffers rnd k) as (-> & -> & ->).
  destruct (V3_supernova_buffers rnd k) as (-> & -> & ->).
  split; [|split; [|split; [|split; [|split]]]].
  - eexists. split; [reflexivity|].
    apply (loop_particles snd); [|apply length_new3].
    intros i st k'. apply V2_supernova_body_speed. assumption.
  - apply (loop_particles (fun st => fst (fst st))); [|apply length_new3].
    intros i st k'. apply V2_supernova_body_speed. assumption.
  - apply (loop_particles (fun st => snd (fst st))); [|apply length_new3].
    intros i st k'. apply V2_supernova_body_speed. assumption.
  - eexists. split; [reflexivity|].
    apply (loop_particles snd); [|apply length_new3].
    intros i st k'. apply V3_supernova_body_speed. assumption.
  - reflexivity.
  - apply (loop_particles fst); [|apply length_new3].
    intros i st k'. apply V3_supernova_body_speed. assumption.
Qed.

(** ** The two galaxies of the collision *)

(** Loops that write one flag per round. *)
Section Flag_loop.
Context {S : Type}.
Variable proj : S -> list bool.
Variable body : nat -> S -> Rand S.
Variable rnd : nat -> R.
Variable flag : nat -> bool.

Hypothesis body_flags :
  forall i st k, proj (fst (body i st rnd k)) = <[i := flag i]> (proj st).

Lemma loop_flags (n : nat) (s0 : S) (k : nat) :
  length (proj s0) = n ->
  forall i, (i < n)%nat ->
    proj (fst (forR n body s0 rnd k)) !! i = Some (flag i).
Proof.
  intros Hlen i Hi. unfold forR.
  refine (for_post (fun i (acc : S * nat) => proj (fst acc) !! i)
            (fun i acc => body i (fst acc) rnd (snd acc)) _
            (fun i w => w = Some (flag i))
            n (s0, k) _ i Hi); clear i Hi.
  - intros i j [st k'] Hij. cbn [fst snd]. rewrite body_flags.
    apply list_lookup_insert_ne. assumption.
  - intros i [st k'] Hi Hview. cbn [fst snd] in Hview; cbn [fst snd].
    rewrite body_flags. apply list_lookup_insert_eq.
    destruct (lookup_lt_is_Some_2 (proj s0) i) as [q Hq]; [lia|].
    rewrite Hq in Hview. eapply lookup_lt_Some. eassumption.
Qed.
End Flag_loop.

(** A point of a flat disk: planar radius [w * rad] for a [w] in [0, 1),
    height within [h] of the plane. *)
Definition in_disk (rad h : R) (a b c : num) : Prop :=
  exists x y z w : R,
    a = Fin x /\ b = Fin y /\ c = Fin z /\ 0 <= w < 1 /\
    x * x + z * z = (w * rad) * (w * rad) /\ - h <= y < h.

(** The first half of the indices is galaxy A. *)
Definition isGalaxyA_of (count i : nat) : bool := Num i <. Num count *. 0.5.

Lemma isGalaxyA_of_spec (count i : nat) :
  isGalaxyA_of count i = true <-> (2 * i < count)%nat.
Proof.
  unfold isGalaxyA_of, Num. cbn [mul]. rewrite lt_Fin.
  destruct (Rlt_dec (INR i) (INR count * 0.5)) as [H|H]; split; intros H';
    try reflexivity; try discriminate.
  - apply INR_lt. rewrite !mult_INR. cbn [INR]. lra.
  - exfalso. apply H. apply lt_INR in H'. rewrite !mult_INR in H'.
    cbn [INR] in H'. lra.
Qed.

Lemma V3_collision_body_disk oh p ci co count i
  (st : list num * list num * list bool) rnd k :
  unit_stream rnd ->
  let st' := fst (V3.collision_body oh p ci co count i st rnd k) in
  snd st' = <[i := isGalaxyA_of count i]> (snd st) /\
  exists a b c,
    snd (fst st') = set3 (snd (fst st)) (i * 3) a b c /\
    in_disk (radius p) 0.25 a b c.
Proof.
  intros Hrnd. destruct st as [[cols ip] isA].
  unfold V3.collision_body, bind, ret, random. cbn [fst snd].
  split; [reflexivity|].
  unfold Math.pow.
  destruct (pow_unit (rnd k) 1.5 (Hrnd k) ltac:(lra)) as (w & E & Hw).
  eexists _, _, _. split; [reflexivity|]. rewrite E. to_Fin Hrnd.
  eexists _, _, _, w.
  split; [reflexivity|]. split; [reflexivity|]. split; [reflexivity|].
  split; [assumption|]. split; [apply circle_point|].
  pose proof (Hrnd (Datatypes.S (Datatypes.S k))). lra.
Qed.

Lemma V3_collision_userData oh p ci co rnd k :
  let st := fst (forR V3.collision_count
                   (V3.collision_body oh p ci co V3.collision_count)
                   (new_Float32Array (V3.collision_count * 3),
                    new_Float32Array (V3.collision_count * 3),
                    new_Uint8Array V3.collision_count) rnd k) in
  userData (fst (V3.generate_collision oh p ci co rnd k))
  = {| velocities := None; initialPositions := Some (snd (fst st));
       isGalaxyA := Some (snd st) |}.
Proof.
  unfold V3.generate_collision, bind, ret. cbv zeta.
  destruct (forR _ _ _ rnd k) as [[[cols ip] isA] k']. reflexivity.
Qed.

Lemma collision_loop_disks oh p ci co (n : nat) rnd k :
  unit_stream rnd ->
  let st := fst (forR n (V3.collision_body oh p ci co n)
                   (new_Float32Array (n * 3), new_Float32Array (n * 3),
                    new_Uint8Array n) rnd k) in
  (forall i, (i < n)%nat -> snd st !! i = Some (isGalaxyA_of n i)) /\
  particles n (snd (fst st)) (fun _ => in_disk (radius p) 0.25).
Proof.
  intros Hrnd st. unfold st. split.
  - apply (loop_flags snd); [|apply length_replicate].
    intros i s0 k'.
    exact (proj1 (V3_collision_body_disk oh p ci co n i s0 rnd k' Hrnd)).
  - apply (loop_particles (fun s : list num * list num * list bool =>
                             snd (fst s))); [|apply length_new3].
    intros i s0 k'.
    exact (proj2 (V3_collision_body_disk oh p ci co n i s0 rnd k' Hrnd)).
Qed.

(** X6. The generated collision keeps its particles in [userData]: no
    velocities, one flag per particle, which is set exactly for the first
    half of the indices ([2 i < count]), and for every particle a position
    relative to the centre of its galaxy, in a disk of planar radius below
    [|radius|] and height within 0.25. *)
Theorem collision_generates_two_flagged_disks
  (nc : string -> THREE.Color.t)
  (oh : THREE.Color.t -> num -> num -> num -> THREE.Color.t)
  (p : GalaxyParams) (rnd : nat -> R) (k : nat) :
  unit_stream rnd ->
  let s := fst (V3.generate nc oh (set_type p COLLISION) rnd k) in
  exists (ip : list num) (isA : list bool),
    userData s = {| velocities := None; initialPositions := Some ip;
                    isGalaxyA := Some isA |} /\
    (forall i, (i < V3.collision_count)%nat ->
       exists f, isA !! i = Some f /\
                 (f = true <-> (2 * i < V3.collision_count)%nat)) /\
    particles V3.collision_count ip (fun _ => in_disk (radius p) 0.25).
Proof.
  intros Hrnd s. unfold s, V3.generate. dispatch.
  cbn [insideColor outsideColor set_type].
  rewrite V3_collision_userData.
  destruct (collision_loop_disks oh (set_type p COLLISION)
              (nc (insideColor p)) (nc (outsideColor p))
              V3.collision_count rnd k Hrnd) as [Hf Hd].
  eexists _, _. split; [reflexivity|]. split.
  - intros i Hi. eexists. split; [apply Hf; assumption|].
    apply isGalaxyA_of_spec.
  - exact Hd.
Qed.

(** *** The earlier revision: two disks and a bridge *)

(** The core of the galaxy of particle [i], and the other one. *)
Definition core_of (count i : nat) : R * R * R :=
  if isGalaxyA_of count i then (-4, 0, 0) else (4, 1, 2).
Definition other_core_of (count i : nat) : R * R * R :=
  if isGalaxyA_of count i then (4, 1, 2) else (-4, 0, 0).

(** A round of the collision loop draws four samples: the radius, the
    angle, the height and the test for the bridge; when the test sample is
    above 0.75 it draws a fifth one, the fraction of the way. *)
Definition bridge_draws (rnd : nat -> R) (k : nat) : nat :=
  if Rlt_dec 0.75 (rnd (k + 3)%nat) then 5%nat else 4%nat.

(** The fraction of the way to the other core of the particle whose round
    starts at [k]. *)
Definition bridge_fraction (rnd : nat -> R) (k : nat) : R :=
  if Rlt_dec 0.75 (rnd (k + 3)%nat) then rnd (k + 4)%nat * 0.7 else 0.

(** Particle [i], written by the round that starts at [k], is a point of
    the disk around its core, moved towards the other core by the fraction
    [s] of the way: [s] is 0.7 times the fifth sample of the round when the
    fourth one is above 0.75, and 0 otherwise; [0 <= s < 0.7]. *)
Definition bridged (rnd : nat -> R) (rad : R) (count i k : nat)
  (a b c : num) : Prop :=
  exists lx ly lz : R,
    in_disk rad 0.3 (Fin lx) (Fin ly) (Fin lz) /\
    let s := bridge_fraction rnd k in
    0 <= s < 0.7 /\
    let '(tx, ty, tz) := core_of count i in
    let '(ox, oy, oz) := other_core_of count i in
    a = Fin (lx + tx + (ox - (lx + tx)) * s) /\
    b = Fin (ly + ty + (oy - (ly + ty)) * s) /\
    c = Fin (lz + tz + (oz - (lz + tz)) * s).

Lemma gt_Fin (x y : R) :
  (Fin x >. Fin y) = if Rlt_dec y x then true else false.
Proof. unfold gt. apply lt_Fin. Qed.

Lemma plus_3 (k : nat) :
  (k + 3)%nat = Datatypes.S (Datatypes.S (Datatypes.S k)).
Proof. lia. Qed.

Lemma plus_4 (k : nat) :
  (k + 4)%nat = Datatypes.S (Datatypes.S (Datatypes.S (Datatypes.S k))).
Proof. lia. Qed.

Lemma V2_collision_body_draws p ci co count cA cB i st rnd k :
  snd (V2.collision_body p ci co count cA cB i st rnd k)
  = (k + bridge_draws rnd k)%nat.
Proof.
  destruct st as [pos cols].
  unfold V2.collision_body, bridge_draws, bind, ret, random. cbn [fst snd].
  rewrite gt_Fin, plus_3.
  destruct (Rlt_dec 0.75 _); cbn [fst snd]; lia.
Qed.

Lemma V2_collision_body_bridge p ci co count i
  (st : list num * list num) rnd k :
  unit_stream rnd ->
  exists a b c,
    fst (fst (V2.collision_body p ci co count
                (THREE.Vector3.mk (-4) 0 0) (THREE.Vector3.mk 4 1 2)
                i st rnd k))
    = set3 (fst st) (i * 3) a b c /\
    bridged rnd (radius p) count i k a b c.
Proof.
  intros Hrnd. destruct st as [pos cols].
  unfold V2.collision_body, bind, ret, random. cbn [fst snd].
  unfold Math.pow.
  destruct (pow_unit (rnd k) 1.4 (Hrnd k) ltac:(lra)) as (w & E & Hw).
  rewrite E. fold (isGalaxyA_of count i).
  pose proof (Hrnd (Datatypes.S (Datatypes.S k))) as H3.
  pose proof (Hrnd (Datatypes.S (Datatypes.S (Datatypes.S
                (Datatypes.S k))))) as H5.
  assert (Hdisk : in_disk (radius p) 0.3
                    (Fin (cos (rnd (Datatypes.S k) * PI * 2)
                          * (w * radius p)))
                    (Fin ((rnd (Datatypes.S (Datatypes.S k)) - 0.5) * 0.6))
                    (Fin (sin (rnd (Datatypes.S k) * PI * 2)
                          * (w * radius p)))).
  { eexists _, _, _, w.
    split; [reflexivity|]. split; [reflexivity|]. split; [reflexivity|].
    split; [assumption|]. split; [apply circle_point|]. lra. }
  rewrite gt_Fin. unfold bridged, bridge_fraction.
  rewrite plus_3, plus_4.
  destruct (Rlt_dec 0.75 _) as [Hgt|Hle]; cbn [fst snd];
    eexists _, _, _; (split; [reflexivity|]);
    unfold core_of, other_core_of;
    unfold THREE.Vector3.lerp, THREE.Vector3.add;
    cbn [THREE.Vector3.x THREE.Vector3.y THREE.Vector3.z];
    eexists _, _, _; (split; [exact Hdisk|]); cbv zeta;
    (split; [lra|]);
    destruct (isGalaxyA_of count i);
    cbn [THREE.Vector3.x THREE.Vector3.y THREE.Vector3.z];
    to_Fin Hrnd; repeat split; f_equal; ring.
Qed.

Lemma V2_collision_buffers p ci co rnd k :
  let st := fst (forR (starsCount p)
                   (V2.collision_body p ci co (starsCount p)
                      (THREE.Vector3.mk (-4) 0 0) (THREE.Vector3.mk 4 1 2))
                   (new_Float32Array (starsCount p * 3),
                    new_Float32Array (starsCount p * 3)) rnd k) in
  position (fst (V2.generate_collision p ci co rnd k)) = fst st.
Proof.
  unfold V2.generate_collision, bind, ret. cbv zeta.
  destruct (forR _ _ _ rnd k) as [[pos cols] k']. reflexivity.
Qed.

(** X7. In the earlier revision the collision is generated in place, and
    never animated apart.  Round [i] of the loop starts at the position
    [ki] of the stream that the rounds before it left, each of which drew
    four samples, or five when it bridged.  Particle [i] is a point of the
    disk (planar radius below [|radius|], height within 0.3) around the
    core of its galaxy, [(-4, 0, 0)] for the first half of the indices and
    [(4, 1, 2)] for the rest, moved on the straight line towards the other
    core by the fraction [s] of the way: when the fourth sample of its
    round, [rnd (ki + 3)], is above 0.75, [s] is 0.7 times the fifth one,
    [rnd (ki + 4)]; otherwise [s = 0] and the particle stays in its disk. *)
Theorem V2_collision_disks_and_bridge
  (nc : string -> THREE.Color.t)
  (p : GalaxyParams) (rnd : nat -> R) (k : nat) :
  unit_stream rnd ->
  particles_at (starsCount p)
    (position (fst (V2.generate nc (set_type p COLLISION) rnd k)))
    (round_start (fun _ => bridge_draws rnd) k)
    (bridged rnd (radius p) (starsCount p)).
Proof.
  intros Hrnd. unfold V2.generate. dispatch.
  cbn [insideColor outsideColor set_type].
  rewrite V2_collision_buffers. cbn [starsCount radius].
  apply (loop_particles_at fst); [| |apply length_new3].
  - intros i st k'. apply V2_collision_body_draws.
  - intros i st k'.
    exact (V2_collision_body_bridge (set_type p COLLISION) _ _ _ i st rnd k'
             Hrnd).
Qed.

(** ** Generation followed by a frame *)

Lemma V3_animate_supernova_total (t : num) (s : Points) (v : list num) :
  velocities (userData s) = Some v ->
  exists s', V3.animate_supernova t s = Some s' /\ userData s' = userData s.
Proof.
  intros Hv. unfold V3.animate_supernova. rewrite Hv. cbv zeta.
  cbv beta iota.
  destruct (for_ _ _ _) as [pf cf]. eexists. split; reflexivity.
Qed.

Lemma V2_animate_supernova_total (s : Points) (v : list num) :
  velocities (userData s) = Some v ->
  exists s', V2.animate_supernova s = Some s' /\ userData s' = userData s.
Proof.
  intros Hv. unfold V2.animate_supernova. rewrite Hv. cbv zeta.
  cbv beta iota.
  destruct (for_ _ _ _) as [pf cf]. eexists. split; reflexivity.
Qed.

Lemma V3_animate_collision_total (t : num) (s : Points) ip isA :
  initialPositions (userData s) = Some ip ->
  isGalaxyA (userData s) = Some isA ->
  exists s', V3.animate_collision t s = Some s' /\ userData s' = userData s.
Proof.
  intros Hip HisA. unfold V3.animate_collision. rewrite Hip, HisA. cbv zeta.
  eexists. split; reflexivity.
Qed.

Lemma V3_supernova_userData rnd k :
  exists v,
    velocities (userData (fst (V3.generate_supernova rnd k))) = Some v.
Proof.
  unfold V3.generate_supernova, bind, ret. cbv zeta.
  destruct (forR _ _ _ rnd k) as [[cols vels] k']. eexists. reflexivity.
Qed.

Lemma V2_supernova_userData rnd k :
  exists v,
    velocities (userData (fst (V2.generate_supernova rnd k))) = Some v.
Proof.
  unfold V2.generate_supernova, bind, ret. cbv zeta.
  destruct (forR _ _ _ rnd k) as [[[pos cols] vels] k']. eexists. reflexivity.
Qed.

Lemma V3_collision_ready oh p ci co rnd k :
  exists ip isA,
    initialPositions (userData (fst (V3.generate_collision oh p ci co rnd k)))
    = Some ip /\
    isGalaxyA (userData (fst (V3.generate_collision oh p ci co rnd k)))
    = Some isA.
Proof.
  unfold V3.generate_collision, bind, ret. cbv zeta.
  destruct (forR _ _ _ rnd k) as [[[cols ip] isA] k'].
  eexists _, _. split; reflexivity.
Qed.

Lemma V3_animate_quasar_total (t : num) (s : Points) :
  exists s', V3.animate_quasar t s = Some s' /\ userData s' = userData s.
Proof. eexists. split; reflexivity. Qed.

Lemma V2_animate_quasar_total (t : num) (s : Points) :
  exists s', V2.animate_quasar t s = Some s' /\ userData s' = userData s.
Proof. eexists. split; reflexivity. Qed.

Lemma rotation_total (s : Points) (a : num) :
  exists s',
    Some {| position := position s; color := color s; userData := userData s;
            rotation_y := a; opacity := opacity s |} = Some s' /\
    userData s' = userData s.
Proof. eexists. split; reflexivity. Qed.

(** X8. A frame on what was generated for the same parameters never
    fails, whatever the type, the time (finite or not) and the samples: the
    generator of each event leaves in [userData] what the step of that
    event reads.  The step of every type keeps [userData]. *)
Theorem frame_after_generation_succeeds
  (nc : string -> THREE.Color.t)
  (oh : THREE.Color.t -> num -> num -> num -> THREE.Color.t)
  (p : GalaxyParams) (rnd : nat -> R) (k : nat) (t : num) :
  (exists s',
     V3.animate t p {| stars := Some (fst (V3.generate nc oh p rnd k)) |}
     = Some {| stars := Some s' |} /\
     userData s' = userData (fst (V3.generate nc oh p rnd k))) /\
  (exists s',
     V2.animate t p {| stars := Some (fst (V2.generate nc p rnd k)) |}
     = Some {| stars := Some s' |} /\
     userData s' = userData (fst (V2.generate nc p rnd k))).
Proof.
  split.
  - unfold V3.animate. cbn [stars].
    assert (H : exists s',
               V3.animate_stars t p (fst (V3.generate nc oh p rnd k))
               = Some s' /\
               userData s' = userData (fst (V3.generate nc oh p rnd k))).
    { unfold V3.animate_stars, V3.generate.
      destruct (type p === SUPERNOVA).
      { destruct (V3_supernova_userData rnd k) as [v Hv].
        exact (V3_animate_supernova_total t _ v Hv). }
      destruct (type p === QUASAR); [apply V3_animate_quasar_total|].
      destruct (type p === COLLISION); [|apply rotation_total].
      destruct (V3_collision_ready oh p (nc (insideColor p))
                  (nc (outsideColor p)) rnd k) as (ip & isA & Hip & HisA).
      exact (V3_animate_collision_total t _ ip isA Hip HisA). }
    destruct H as (s' & -> & Hu). exists s'. split; [reflexivity|exact Hu].
  - unfold V2.animate. cbn [stars].
    assert (H : exists s',
               V2.animate_stars t p (fst (V2.generate nc p rnd k)) = Some s' /\
               userData s' = userData (fst (V2.generate nc p rnd k))).
    { unfold V2.animate_stars, V2.generate.
      destruct (type p === SUPERNOVA).
      { destruct (V2_supernova_userData rnd k) as [v Hv].
        exact (V2_animate_supernova_total _ v Hv). }
      destruct (type p === QUASAR); [apply V2_animate_quasar_total|].
      destruct (type p === COLLISION); apply rotation_total. }
    destruct H as (s' & -> & Hu). exists s'. split; [reflexivity|exact Hu].
Qed.

(** * Further properties of the kinematics *)

(** ** The collision step (V3) *)

(** The pull towards the other galaxy: [max(0, 1 - |dist| / 5) * 2]. *)
Lemma pull_bounds (d : R) :
  let pull := Rmax 0 (1 - Rabs d / 5) * 2 in
  0 <= pull <= 2 /\ (5 <= Rabs d -> pull = 0).
Proof.
  cbv zeta. pose proof (Rabs_pos d) as Hd.
  assert (H0 : 0 <= Rmax 0 (1 - Rabs d / 5)) by apply Rmax_l.
  assert (H1 : Rmax 0 (1 - Rabs d / 5) <= 1) by (apply Rmax_lub; lra).
  split; [lra|]. intros H5. rewrite Rmax_left by lra. lra.
Qed.

Lemma V3_collision_step_particle (t : R) ip isA (i : nat) (arr : list num)
  (rx ry rz : R) (f : bool) :
  view3 i ip = (Some (Fin rx), Some (Fin ry), Some (Fin rz)) ->
  isA !! i = Some f ->
  (i * 3 + 2 < length arr)%nat ->
  let d := 8 * cos (t * 0.4) in
  let pull := Rmax 0 (1 - Rabs d / 5) * 2 in
  let cx := if f then d - pull else - d + pull in
  let a := t * 0.5 in
  view3 i (V3.collision_step (Fin t) ip isA
             (THREE.Vector3.mk (V3.collision_dist (Fin t)) 0 0)
             (THREE.Vector3.mk (neg (V3.collision_dist (Fin t))) 0 0)
             (V3.collision_dist (Fin t)) i arr)
  = (Some (Fin (rx * cos a - rz * sin a + cx)),
     Some (Fin (ry + sin (t + rx) * 0.2)),
     Some (Fin (rx * sin a + rz * cos a))).
Proof.
  intros Hip Hf Hlen d pull cx a.
  apply view3_Some_inv in Hip as (H0 & H1 & H2).
  unfold V3.collision_step, V3.collision_dist, rdb. cbv zeta.
  rewrite (rd_Some _ _ _ H0), (rd_Some _ _ _ H1), (rd_Some _ _ _ H2), Hf.
  change (default false (Some f)) with f. unfold view3. through_writes.
  destruct f; cbn [THREE.Vector3.x THREE.Vector3.z mul add sub neg
                     Math.cos Math.sin Math.abs Math.max];
    rewrite div_Fin by lra;
    cbn [mul add sub neg Math.max];
    unfold cx, pull, d, a, Rminus;
    repeat match goal with |- (_, _) = (_, _) => f_equal end;
    first [reflexivity | do 2 f_equal; lra].
Qed.

(** The whole step, seen at particle [i]. *)
Lemma V3_animate_collision_particle (t : R) (s : Points) (ip : list num)
  (isA : list bool) (i : nat) (rx ry rz : R) (f : bool) :
  initialPositions (userData s) = Some ip ->
  isGalaxyA (userData s) = Some isA ->
  view3 i ip = (Some (Fin rx), Some (Fin ry), Some (Fin rz)) ->
  isA !! i = Some f ->
  (i * 3 + 2 < length (position s))%nat ->
  let d := 8 * cos (t * 0.4) in
  let pull := Rmax 0 (1 - Rabs d / 5) * 2 in
  let cx := if f then d - pull else - d + pull in
  let a := t * 0.5 in
  exists s' : Points,
    V3.animate_collision (Fin t) s = Some s' /\
    userData s' = userData s /\
    view3 i (position s')
    = (Some (Fin (rx * cos a - rz * sin a + cx)),
       Some (Fin (ry + sin (t + rx) * 0.2)),
       Some (Fin (rx * sin a + rz * cos a))).
Proof.
  intros Hip HisA Hv Hf Hlen d pull cx a.
  pose proof (thirds_lt _ _ Hlen) as Hi.
  unfold V3.animate_collision. rewrite Hip, HisA. cbv zeta.
  eexists. split; [reflexivity|]. cbn [userData position].
  split; [reflexivity|].
  rewrite (for_local view3 _
             (V3_collision_frame (Fin t) ip isA _ _ _)
             (V3_collision_local (Fin t) ip isA _ _ _) _ _ _ Hi).
  apply (V3_collision_step_particle t ip isA i _ rx ry rz f); assumption.
Qed.

(** X9. One collision step at the time [t] puts particle [i] on the circle
    of its local radius around the centre of its group.  With
    [D = 8 cos(0.4 t)] and [pull = 2 max(0, 1 - |D| / 5)], the centre of
    group A is at [x = D - pull] and that of group B at [x = - D + pull];
    so [0 <= pull <= 2], and [pull = 0] as soon as [|D| >= 5].  The shift
    by [pull] has a fixed direction (A towards negative x, B towards
    positive x) whatever the sign of [D].  The particle is its stored local
    position turned by [t / 2] about the vertical axis and moved to that
    centre, its height is the stored one plus [0.2 sin(t + rx)], and the
    step keeps [userData]. *)
Theorem collision_particles_orbit_their_centre
  (t : R) (s : Points) (ip : list num) (isA : list bool) (i : nat)
  (rx ry rz : R) (f : bool) :
  initialPositions (userData s) = Some ip ->
  isGalaxyA (userData s) = Some isA ->
  view3 i ip = (Some (Fin rx), Some (Fin ry), Some (Fin rz)) ->
  isA !! i = Some f ->
  (i * 3 + 2 < length (position s))%nat ->
  let d := 8 * cos (t * 0.4) in
  let pull := Rmax 0 (1 - Rabs d / 5) * 2 in
  let cx := if f then d - pull else - d + pull in
  let a := t * 0.5 in
  let x := rx * cos a - rz * sin a + cx in
  let y := ry + sin (t + rx) * 0.2 in
  let z := rx * sin a + rz * cos a in
  exists s' : Points,
    V3.animate_collision (Fin t) s = Some s' /\
    userData s' = userData s /\
    view3 i (position s') = (Some (Fin x), Some (Fin y), Some (Fin z)) /\
    0 <= pull <= 2 /\ (5 <= Rabs d -> pull = 0) /\
    (x - cx) * (x - cx) + z * z = rx * rx + rz * rz /\
    - 0.2 <= y - ry <= 0.2.
Proof.
  intros Hip HisA Hv Hf Hlen d pull cx a x y z.
  pose proof (pull_bounds d) as Hpull. cbv zeta in Hpull.
  destruct Hpull as [Hp0 Hp5].
  destruct (V3_animate_collision_particle t s ip isA i rx ry rz f
              Hip HisA Hv Hf Hlen) as (s' & Hs' & Hud & Hview).
  exists s'. split; [assumption|]. split; [assumption|].
  split; [exact Hview|].
  split; [assumption|]. split; [assumption|]. split.
  - unfold x, z.
    replace (rx * cos a - rz * sin a + cx - cx)
      with (rx * cos a - rz * sin a) by ring.
    apply rotation_keeps_norm.
  - unfold y. pose proof (SIN_bound (t + rx)). lra.
Qed.

(** ** The periodic supernova step (V3) *)

Lemma supernova_progress_unit (t : R) :
  0 <= t ->
  exists pr, V3.supernova_progress (Fin t) = Fin pr /\ 0 <= pr < 1.
Proof.
  intros Ht. unfold V3.supernova_progress. cbv zeta.
  rewrite rem_Fin, div_Fin by lra. eexists. split; [reflexivity|].
  unfold trunc.
  destruct (Rle_dec 0 (t / 10)) as [_|N]; [|exfalso; apply N; lra].
  pose proof (base_Int_part (t / 10)). lra.
Qed.

Lemma V3_supernova_step_particle (v p c : list num) (pr : R) (i : nat)
  (vx vy vz : R) :
  view3 i v = (Some (Fin vx), Some (Fin vy), Some (Fin vz)) ->
  (i * 3 + 2 < length p)%nat -> (i * 3 + 2 < length c)%nat ->
  let heat := Rmax 0 (1 - pr * 1.5) in
  view6 i (V3.supernova_step v (Fin pr) i (p, c))
  = ((Some (Fin (vx * (pr * 15))), Some (Fin (vy * (pr * 15))),
      Some (Fin (vz * (pr * 15)))),
     (Some (Fin 1), Some (Fin heat), Some (Fin (heat * heat)))).
Proof.
  intros Hv Hp Hc heat.
  apply view3_Some_inv in Hv as (H0 & H1 & H2).
  unfold V3.supernova_step, view6, view3. cbn [fst snd]. cbv zeta.
  rewrite (rd_Some _ _ _ H0), (rd_Some _ _ _ H1), (rd_Some _ _ _ H2).
  through_writes. unfold Math.pow.
  cbn [mul sub add neg Math.max]. rewrite pow_2. fold (1 - pr * 1.5). fold heat.
  replace (Fin 1.0) with (Fin 1) by (f_equal; lra).
  reflexivity.
Qed.

(** X10. The periodic supernova step at a time [t >= 0], on [n] particles
    with finite velocities: the step succeeds, the progress [pr] lies in
    [0, 1), every particle is at its velocity times [15 pr] (however it was
    placed before), its colour is [(1, heat, heat^2)] with
    [heat = max(0, 1 - 1.5 pr)] in [0, 1], and the opacity of the material
    is [max(0, 1 - 1.1 pr)], in [0, 1]. *)
Theorem supernova_shell_expands (t : R) (s : Points) (v : list num) (n : nat) :
  0 <= t ->
  velocities (userData s) = Some v ->
  Forall finite v ->
  length v = (3 * n)%nat ->
  length (position s) = (3 * n)%nat ->
  length (color s) = (3 * n)%nat ->
  exists (s' : Points) (pr : R),
    V3.animate_supernova (Fin t) s = Some s' /\
    V3.supernova_progress (Fin t) = Fin pr /\ 0 <= pr < 1 /\
    opacity s' = Fin (Rmax 0 (1 - pr * 1.1)) /\
    0 <= Rmax 0 (1 - pr * 1.1) <= 1 /\
    0 <= Rmax 0 (1 - pr * 1.5) <= 1 /\
    forall i, (i < n)%nat ->
      exists vx vy vz : R,
        view3 i v = (Some (Fin vx), Some (Fin vy), Some (Fin vz)) /\
        view3 i (position s')
        = (Some (Fin (vx * (pr * 15))), Some (Fin (vy * (pr * 15))),
           Some (Fin (vz * (pr * 15)))) /\
        view3 i (color s')
        = (Some (Fin 1), Some (Fin (Rmax 0 (1 - pr * 1.5))),
           Some (Fin (Rmax 0 (1 - pr * 1.5) * Rmax 0 (1 - pr * 1.5)))).
Proof.
  intros Ht Hv Hfin Hlv Hlp Hlc.
  destruct (supernova_progress_unit t Ht) as (pr & Hpr & Hpr0 & Hpr1).
  unfold V3.animate_supernova. rewrite Hv, Hpr. cbv zeta.
  set (p0 := if Fin pr <. 0.01
             then for_ (length (position s)) (fun i p => <[i:=Fin 0]> p)
                    (position s)
             else position s).
  assert (Hp0 : length p0 = (3 * n)%nat).
  { unfold p0. destruct (Fin pr <. 0.01); [|assumption].
    rewrite length_zero_loop. assumption. }
  rewrite Hp0, thirds_mul. cbv beta iota. change (default [] (Some v)) with v.
  destruct (V3_supernova_loop_len v (Fin pr) n (p0, color s)) as [L1 L2].
  cbn [fst snd] in L1, L2.
  pose proof (fun i Hi =>
    for_local view6 (V3.supernova_step v (Fin pr))
      (V3_supernova_frame v (Fin pr)) (V3_supernova_local v (Fin pr))
      n i (p0, color s) Hi) as Hloc.
  destruct (for_ n (V3.supernova_step v (Fin pr)) (p0, color s))
    as [pf cf] eqn:Ef.
  cbn [fst snd] in L1, L2.
  eexists _, pr. split; [reflexivity|]. split; [reflexivity|].
  split; [lra|]. cbn [opacity position color].
  split; [reflexivity|].
  split; [split; [apply Rmax_l|apply Rmax_lub; lra]|].
  split; [split; [apply Rmax_l|apply Rmax_lub; lra]|].
  intros i Hi.
  destruct (particle_of_Forall _ _ n i Hlv Hi Hfin)
    as (a & b & d & Hvi & [vx ->] & [vy ->] & [vz ->]).
  exists vx, vy, vz. split; [assumption|].
  specialize (Hloc i Hi).
  rewrite (V3_supernova_step_particle v p0 (color s) pr i vx vy vz Hvi)
    in Hloc by lia.
  unfold view6 in Hloc. cbn [fst snd] in Hloc.
  split; [exact (f_equal fst Hloc)|exact (f_equal snd Hloc)].
Qed.

Lemma thirds_nonempty (A : Type) (l : list A) :
  l <> [] -> exists n, thirds (length l) = Datatypes.S n.
Proof.
  intros Hne. destruct l as [|x l]; [contradiction|].
  cbn [length]. unfold thirds.
  destruct ((Datatypes.S (length l) + 2) / 3)%nat eqn:E; [|eexists; reflexivity].
  apply Nat.div_small_iff in E; lia.
Qed.

(** X11. The step of an event reads what its generator left in [userData]
    and never makes it up: without velocities the supernova step fails as
    soon as the position buffer has an entry, and so does the collision
    step without initial positions or without flags; on an empty buffer
    both succeed and leave it empty. *)
Theorem event_steps_need_their_userData (t : num) (s : Points) :
  (velocities (userData s) = None ->
   (position s <> [] -> V3.animate_supernova t s = None) /\
   (position s = [] ->
    exists s', V3.animate_supernova t s = Some s' /\
               position s' = [] /\ color s' = color s)) /\
  (initialPositions (userData s) = None \/ isGalaxyA (userData s) = None ->
   (position s <> [] -> V3.animate_collision t s = None) /\
   (position s = [] -> V3.animate_collision t s = Some s)).
Proof.
  split.
  - intros Hv. unfold V3.animate_supernova. rewrite Hv. cbv zeta. split.
    + intros Hne.
      set (p0 := if V3.supernova_progress t <. 0.01 then _ else _).
      assert (Hp0 : length p0 = length (position s)).
      { unfold p0. destruct (_ <. _); [apply length_zero_loop|reflexivity]. }
      rewrite Hp0. destruct (thirds_nonempty _ _ Hne) as [n ->]. reflexivity.
    + intros ->. cbn [length]. unfold for_ at 1. cbn [seq fold_left].
      destruct (_ <. _); cbn; eexists; (split; [reflexivity|]);
        split; reflexivity.
  - intros Hu. unfold V3.animate_collision. cbv zeta. split.
    + intros Hne. destruct (thirds_nonempty _ _ Hne) as [n ->].
      destruct Hu as [-> | ->]; [reflexivity|].
      destruct (initialPositions (userData s)); reflexivity.
    + intros ->. cbn [length].
      change (thirds 0) with 0%nat.
      destruct Hu as [-> | ->]; [reflexivity|].
      destruct (initialPositions (userData s)); reflexivity.
Qed.

(** ** The quasar step: differential rotation and height *)

Lemma V3_quasar_step_particle (t : R) (i : nat) (arr : list num) (x z : R) :
  arr !! (i * 3)%nat = Some (Fin x) ->
  arr !! (i * 3 + 2)%nat = Some (Fin z) ->
  let r := sqrt (x * x + z * z) in
  let angle := 0.04 * (4 / (r + 0.3)) in
  view3 i (V3.quasar_step (Fin t) i arr)
  = (Some (Fin (x * cos angle - z * sin angle)),
     Some (Fin (sin (t * 4 + r * 2) * 0.01)),
     Some (Fin (x * sin angle + z * cos angle))).
Proof.
  intros Hx Hz r angle.
  assert (Hr : 0 <= sqrt (x * x + z * z)) by apply sqrt_pos.
  assert (Hl2 : (i * 3 + 2 < length arr)%nat)
    by (eapply lookup_lt_Some; eassumption).
  unfold V3.quasar_step. cbv zeta.
  rewrite (rd_Some _ _ _ Hx), (rd_Some _ _ _ Hz).
  cbn [mul add]. rewrite sqrt_Fin by nra. cbn [add].
  rewrite div_Fin by lra. cbn [mul Math.cos Math.sin sub add neg].
  unfold view3. through_writes. reflexivity.
Qed.

Lemma V2_quasar_step_particle (t : R) (i : nat) (arr : list num)
  (x y z : R) :
  view3 i arr = (Some (Fin x), Some (Fin y), Some (Fin z)) ->
  let r := sqrt (x * x + z * z) in
  let angle := 0.02 * (5 / (r + 0.5)) in
  view3 i (V2.quasar_step (Fin t) i arr)
  = (Some (Fin (x * cos angle - z * sin angle)),
     Some (Fin (y + sin (t * 2 + r) * 0.002)),
     Some (Fin (x * sin angle + z * cos angle))).
Proof.
  intros Hv r angle. apply view3_Some_inv in Hv as (Hx & Hy & Hz).
  assert (Hr : 0 <= sqrt (x * x + z * z)) by apply sqrt_pos.
  assert (Hl2 : (i * 3 + 2 < length arr)%nat)
    by (eapply lookup_lt_Some; eassumption).
  unfold V2.quasar_step. cbv zeta.
  rewrite (rd_Some _ _ _ Hx), (rd_Some _ _ _ Hz).
  cbn [mul add]. rewrite sqrt_Fin by nra. cbn [add].
  rewrite div_Fin by lra. cbn [mul Math.cos Math.sin sub add neg].
  unfold view3. through_writes. rewrite (rd_Some _ _ _ Hy).
  cbn [add]. reflexivity.
Qed.

(** The turn per frame, [c / (r + e)] written as the code writes it. *)
Lemma turn_bounds (a b e r : R) :
  0 < a -> 0 < b -> 0 < e -> 0 <= r ->
  let angle := a * (b / (r + e)) in
  0 < angle <= a * b / e /\ angle * (r + e) = a * b.
Proof.
  intros Ha Hb He Hr angle. unfold angle.
  assert (Hpos : 0 < r + e) by lra.
  assert (Hinv : 0 < / (r + e)) by (apply Rinv_0_lt_compat; assumption).
  assert (Hle : / (r + e) <= / e) by (apply Rinv_le_contravar; lra).
  split; [split|].
  - unfold Rdiv. apply Rmult_lt_0_compat; [assumption|].
    apply Rmult_lt_0_compat; assumption.
  - unfold Rdiv. rewrite Rmult_assoc.
    apply Rmult_le_compat_l; [lra|]. apply Rmult_le_compat_l; lra.
  - field. lra.
Qed.

(** X12. The quasar step of the later revision on a particle with finite
    [x] and [z] at planar radius [r]: [(x, z)] is turned by
    [angle = 0.16 / (r + 0.3)], which does not depend on the time, is
    positive and at most [8 / 15], and the height is overwritten with
    [0.01 sin(4 t + 2 r)], so it lies within 0.01 of the plane whatever it
    was before. *)
Theorem V3_quasar_turns_and_flattens
  (t : R) (s : Points) (i : nat) (x z : R) :
  position s !! (i * 3)%nat = Some (Fin x) ->
  position s !! (i * 3 + 2)%nat = Some (Fin z) ->
  let r := sqrt (x * x + z * z) in
  exists (s' : Points) (angle y' : R),
    V3.animate_quasar (Fin t) s = Some s' /\
    view3 i (position s')
    = (Some (Fin (x * cos angle - z * sin angle)), Some (Fin y'),
       Some (Fin (x * sin angle + z * cos angle))) /\
    angle * (r + 0.3) = 0.16 /\ 0 < angle <= 8 / 15 /\
    y' = sin (t * 4 + r * 2) * 0.01 /\ - 0.01 <= y' <= 0.01.
Proof.
  intros Hx Hz r.
  assert (Hi : (i < thirds (length (position s)))%nat).
  { apply thirds_lt. eapply lookup_lt_Some. eassumption. }
  destruct (turn_bounds 0.04 4 0.3 r) as [[A0 A1] A2];
    [lra|lra|lra|apply sqrt_pos|].
  eexists _, (0.04 * (4 / (r + 0.3))), _.
  split; [reflexivity|]. cbn [position].
  rewrite (for_local view3 (V3.quasar_step (Fin t)) (V3_quasar_frame (Fin t))
             (V3_quasar_local (Fin t)) _ _ (position s) Hi).
  split; [apply V3_quasar_step_particle; assumption|].
  split; [rewrite A2; lra|]. split; [clearbody r; lra|].
  split; [reflexivity|].
  pose proof (SIN_bound (t * 4 + sqrt (x * x + z * z) * 2)). lra.
Qed.

(** X13. The quasar step of the earlier revision on a finite particle at
    planar radius [r]: [(x, z)] is turned by [angle = 0.1 / (r + 0.5)],
    positive and at most [1 / 5], and the height is not reset but moved by
    [0.002 sin(2 t + r)], at most 0.002 per frame. *)
Theorem V2_quasar_turns_and_drifts
  (t : R) (s : Points) (i : nat) (x y z : R) :
  view3 i (position s) = (Some (Fin x), Some (Fin y), Some (Fin z)) ->
  let r := sqrt (x * x + z * z) in
  exists (s' : Points) (angle y' : R),
    V2.animate_quasar (Fin t) s = Some s' /\
    view3 i (position s')
    = (Some (Fin (x * cos angle - z * sin angle)), Some (Fin y'),
       Some (Fin (x * sin angle + z * cos angle))) /\
    angle * (r + 0.5) = 0.1 /\ 0 < angle <= 1 / 5 /\
    y' = y + sin (t * 2 + r) * 0.002 /\ - 0.002 <= y' - y <= 0.002.
Proof.
  intros Hv r.
  assert (Hi : (i < thirds (length (position s)))%nat).
  { apply thirds_lt. apply view3_Some_inv in Hv as (_ & _ & Hz).
    eapply lookup_lt_Some. eassumption. }
  destruct (turn_bounds 0.02 5 0.5 r) as [[A0 A1] A2];
    [lra|lra|lra|apply sqrt_pos|].
  eexists _, (0.02 * (5 / (r + 0.5))), _.
  split; [reflexivity|]. cbn [position].
  rewrite (for_local view3 (V2.quasar_step (Fin t)) (V2_quasar_frame (Fin t))
             (V2_quasar_local (Fin t)) _ _ (position s) Hi).
  split; [exact (V2_quasar_step_particle t i _ x y z Hv)|].
  split; [rewrite A2; lra|]. split; [clearbody r; lra|].
  split; [reflexivity|].
  pose proof (SIN_bound (t * 2 + sqrt (x * x + z * z))). lra.
Qed.

(** ** Collision (V3): what the first step writes *)

Lemma V3_collision_position oh p ci co rnd k :
  position (fst (V3.generate_collision oh p ci co rnd k))
  = new_Float32Array (V3.collision_count * 3).
Proof.
  unfold V3.generate_collision, bind, ret. cbv zeta.
  destruct (forR _ _ _ rnd k) as [[[cols ip] isA] k']. reflexivity.
Qed.

(** The step overwrites the whole buffer: what it leaves there does not
    depend on what the buffer held. *)
Lemma V3_animate_collision_overwrites (t : num) (s : Points)
  (ip : list num) (isA : list bool) (held : list num) :
  initialPositions (userData s) = Some ip ->
  isGalaxyA (userData s) = Some isA ->
  length held = length (position s) ->
  exists s', V3.animate_collision t s = Some s' /\
             position <$> V3.animate_collision t (set_position s held)
             = Some (position s').
Proof.
  intros Hip HisA Hlen.
  unfold V3.animate_collision, set_position.
  cbn [position userData initialPositions isGalaxyA color rotation_y opacity].
  rewrite Hip, HisA. cbv beta iota zeta. rewrite Hlen.
  eexists. split; [reflexivity|].
  cbn [fmap option_fmap option_map position].
  f_equal. apply list_eq. intros idx.
  generalize (V3.collision_dist t). intros dist.
  generalize (THREE.Vector3.mk dist 0 0) (THREE.Vector3.mk (neg dist) 0 0).
  intros cA cB.
  destruct (decide (idx < length held)%nat) as [Hin|Hout].
  - apply lookup_by_view3.
    assert (Hi : (idx / 3 < thirds (length (position s)))%nat).
    { rewrite <- Hlen. apply thirds_div. assumption. }
    rewrite !(for_local view3 _ (V3_collision_frame t ip isA cA cB dist)
                (V3_collision_local t ip isA cA cB dist) _ _ _ Hi).
    apply V3_collision_overwrites. assumption.
  - rewrite !(proj2 (lookup_ge_None _ _)); [reflexivity| |];
      rewrite V3_collision_loop_len; lia.
Qed.

(** What the first step does to a generated set of [n] particles. *)
Lemma V3_collision_first_step oh q ci co (n : nat) rnd k (s : Points) :
  let st := fst (forR n (V3.collision_body oh q ci co n)
                   (new_Float32Array (n * 3), new_Float32Array (n * 3),
                    new_Uint8Array n) rnd k) in
  position s = new_Float32Array (n * 3) ->
  userData s = {| velocities := None; initialPositions := Some (snd (fst st));
                  isGalaxyA := Some (snd st) |} ->
  (forall (t : num) (held : list num),
     length held = length (position s) ->
     exists s', V3.animate_collision t s = Some s' /\
                position <$> V3.animate_collision t (set_position s held)
                = Some (position s')) /\
  (unit_stream rnd ->
   forall (t : R) (held : list num) (i : nat),
     length held = length (position s) ->
     (i < n)%nat ->
     exists (s' : Points) (rx ry rz : R) (f : bool),
       V3.animate_collision (Fin t) (set_position s held) = Some s' /\
       view3 i (snd (fst st))
       = (Some (Fin rx), Some (Fin ry), Some (Fin rz)) /\
       snd st !! i = Some f /\
       (f = true <-> (2 * i < n)%nat) /\
       let d := 8 * cos (t * 0.4) in
       let pull := Rmax 0 (1 - Rabs d / 5) * 2 in
       let cx := if f then d - pull else - d + pull in
       let a := t * 0.5 in
       view3 i (position s')
       = (Some (Fin (rx * cos a - rz * sin a + cx)),
          Some (Fin (ry + sin (t + rx) * 0.2)),
          Some (Fin (rx * sin a + rz * cos a)))).
Proof.
  intros st Hpos Hud.
  assert (Hip : initialPositions (userData s) = Some (snd (fst st)))
    by (rewrite Hud; reflexivity).
  assert (HisA : isGalaxyA (userData s) = Some (snd st))
    by (rewrite Hud; reflexivity).
  split.
  - intros t held Hlen.
    exact (V3_animate_collision_overwrites t s _ _ held Hip HisA Hlen).
  - intros Hrnd t held i Hlen Hi.
    destruct (collision_loop_disks oh q ci co n rnd k Hrnd) as [Hf Hd].
    fold st in Hf, Hd.
    destruct (Hd i Hi) as (a & b & c & Hv & (x & y & z & w & -> & -> & ->
                                              & _)).
    destruct (V3_animate_collision_particle t (set_position s held) _ _ i
                x y z (isGalaxyA_of n i) Hip HisA Hv
                (Hf i Hi)) as (s' & Hs' & _ & Hview).
    { cbn [set_position position].
      rewrite Hlen, Hpos, length_new_Float32Array. lia. }
    exists s', x, y, z, (isGalaxyA_of n i).
    split; [exact Hs'|]. split; [exact Hv|]. split; [apply Hf; assumption|].
    split; [apply isGalaxyA_of_spec|]. exact Hview.
Qed.

(** C9. The collision generator of V3 leaves the position buffer as it was
    allocated, 3 * 150000 zeros: every fresh particle sits at the origin.
    The places are kept in [userData]: the local positions
    [initialPositions] and the group flags [isGalaxyA].  The collision step
    then succeeds, at every time, and overwrites the whole buffer: what it
    leaves there does not depend on what the buffer held.  What it writes
    for particle [i] at the time [t] is computed from the stored local
    position [(rx, ry, rz)] and the flag [f] of the particle (set for the
    first half of the indices): the local position turned by [t / 2] about
    the vertical axis and moved to the centre of its group, at
    [x = D - pull] for group A and [x = - D + pull] for group B, where
    [D = 8 cos(0.4 t)] and [pull = 2 max(0, 1 - |D| / 5)], with the height
    [ry + 0.2 sin(t + rx)]. *)
Theorem collision_positions_start_at_origin
  (new_Color : string -> THREE.Color.t)
  (offsetHSL : THREE.Color.t -> num -> num -> num -> THREE.Color.t)
  (p : GalaxyParams) (rnd : nat -> R) (k : nat) :
  let s := fst (V3.generate new_Color offsetHSL (set_type p COLLISION) rnd k) in
  position s = replicate (V3.collision_count * 3) (Fin 0) /\
  exists ip isA,
    initialPositions (userData s) = Some ip /\
    isGalaxyA (userData s) = Some isA /\
    (forall (t : num) (held : list num),
       length held = length (position s) ->
       exists s', V3.animate_collision t s = Some s' /\
                  position <$> V3.animate_collision t (set_position s held)
                  = Some (position s')) /\
    (unit_stream rnd ->
     forall (t : R) (held : list num) (i : nat),
       length held = length (position s) ->
       (i < V3.collision_count)%nat ->
       exists (s' : Points) (rx ry rz : R) (f : bool),
         V3.animate_collision (Fin t) (set_position s held) = Some s' /\
         view3 i ip = (Some (Fin rx), Some (Fin ry), Some (Fin rz)) /\
         isA !! i = Some f /\
         (f = true <-> (2 * i < V3.collision_count)%nat) /\
         let d := 8 * cos (t * 0.4) in
         let pull := Rmax 0 (1 - Rabs d / 5) * 2 in
         let cx := if f then d - pull else - d + pull in
         let a := t * 0.5 in
         view3 i (position s')
         = (Some (Fin (rx * cos a - rz * sin a + cx)),
            Some (Fin (ry + sin (t + rx) * 0.2)),
            Some (Fin (rx * sin a + rz * cos a)))).
Proof.
  unfold V3.generate. dispatch.
  cbn [insideColor outsideColor set_type].
  pose proof (V3_collision_position offsetHSL (set_type p COLLISION)
                (new_Color (insideColor p)) (new_Color (outsideColor p))
                rnd k) as Hpos.
  pose proof (V3_collision_userData offsetHSL (set_type p COLLISION)
                (new_Color (insideColor p)) (new_Color (outsideColor p))
                rnd k) as Hud.
  pose proof (V3_collision_first_step offsetHSL (set_type p COLLISION)
                (new_Color (insideColor p)) (new_Color (outsideColor p))
                V3.collision_count rnd k _ Hpos Hud) as [Hover Hstep].
  split; [exact Hpos|].
  eexists _, _.
  split; [exact (f_equal initialPositions Hud)|].
  split; [exact (f_equal isGalaxyA Hud)|].
  split; [exact Hover|exact Hstep].
Qed.

(** ** The jets of the quasar *)

(** A particle of a column about the y axis: within [w] of the axis along
    x and z, at a height between [lo] and [hi]. *)
Definition in_column (w lo hi : R) (a b c : num) : Prop :=
  exists x y z : R,
    a = Fin x /\ b = Fin y /\ c = Fin z /\
    - w <= x <= w /\ lo <= y <= hi /\ - w <= z <= w.

Lemma V3_jet_body_column i jPos rnd k :
  unit_stream rnd ->
  exists a b c,
    fst (V3_objects.jet_body i jPos rnd k) = set3 jPos (i * 3) a b c /\
    in_column 0.025 0 20 a b c.
Proof.
  intros Hrnd. unfold V3_objects.jet_body, bind, ret, random. cbn [fst snd].
  eexists _, _, _. split; [reflexivity|]. to_Fin Hrnd.
  eexists _, _, _.
  split; [reflexivity|]. split; [reflexivity|]. split; [reflexivity|].
  pose proof (Hrnd k). pose proof (Hrnd (Datatypes.S k)).
  pose proof (Hrnd (Datatypes.S (Datatypes.S k))). lra.
Qed.

Lemma V2_jet_body_column i jPos rnd k :
  unit_stream rnd ->
  exists a b c,
    fst (V2_objects.jet_body i jPos rnd k) = set3 jPos (i * 3) a b c /\
    in_column 0.03 0 15 a b c.
Proof.
  intros Hrnd. unfold V2_objects.jet_body, bind, ret, random. cbn [fst snd].
  eexists _, _, _. split; [reflexivity|]. to_Fin Hrnd.
  eexists _, _, _.
  split; [reflexivity|]. split; [reflexivity|]. split; [reflexivity|].
  pose proof (Hrnd k). pose proof (Hrnd (Datatypes.S k)).
  pose proof (Hrnd (Datatypes.S (Datatypes.S k))). lra.
Qed.

(** Loops over the particles of one array whose rounds draw samples. *)
Section Particle_rounds.
Variable body : nat -> list num -> Rand (list num).
Variable rnd : nat -> R.
Variable Q : nat -> option num * option num * option num
             -> option num * option num * option num -> Prop.

Hypothesis body_frame :
  forall i j pts k, i <> j -> view3 j (fst (body i pts rnd k)) = view3 j pts.
Hypothesis body_round :
  forall i pts k, Q i (view3 i pts) (view3 i (fst (body i pts rnd k))).

Lemma loop_rounds (n : nat) (pts : list num) (k : nat) :
  forall i, (i < n)%nat ->
    Q i (view3 i pts) (view3 i (fst (forR n body pts rnd k))).
Proof.
  intros i Hi. unfold forR.
  refine (for_post (fun i (acc : list num * nat) => view3 i (fst acc))
            (fun i acc => body i (fst acc) rnd (snd acc)) _
            (fun i w => Q i (view3 i pts) w) n (pts, k) _ i Hi); clear i Hi.
  - intros i j [st k'] Hij. cbn [fst snd]. apply body_frame. assumption.
  - intros i [st k'] Hi Hview. cbn [fst snd] in Hview; cbn [fst snd].
    rewrite <- Hview. apply body_round.
Qed.
End Particle_rounds.

(** A jet particle after a frame: it rose by [speed], or it passed [top]
    and restarts at height 0.5 within 0.025 of the axis. *)
Definition rose_or_restarted (speed top : R)
  (v w : option num * option num * option num) : Prop :=
  forall x y z : R,
    v = (Some (Fin x), Some (Fin y), Some (Fin z)) ->
    (y + speed <= top /\
     w = (Some (Fin x), Some (Fin (y + speed)), Some (Fin z))) \/
    (top < y + speed /\
     exists x' z' : R,
       w = (Some (Fin x'), Some (Fin 0.5), Some (Fin z')) /\
       - 0.025 <= x' <= 0.025 /\ - 0.025 <= z' <= 0.025).

Lemma V3_jet_round_frame i j pts rnd k :
  i <> j -> view3 j (fst (V3_objects.jet_round i pts rnd k)) = view3 j pts.
Proof.
  intros Hij. unfold V3_objects.jet_round, bind, ret, random. cbv zeta.
  destruct (_ >. _); cbn [fst snd]; unfold view3;
    rewrite !list_lookup_insert_ne by lia; reflexivity.
Qed.

Lemma V2_jet_round_frame i j pts rnd k :
  i <> j -> view3 j (fst (V2_objects.jet_round i pts rnd k)) = view3 j pts.
Proof.
  intros Hij. unfold V2_objects.jet_round, bind, ret, random. cbv zeta.
  destruct (_ >. _); cbn [fst snd]; unfold view3;
    rewrite !list_lookup_insert_ne by lia; reflexivity.
Qed.

Lemma V3_jet_round_particle i pts rnd k :
  unit_stream rnd ->
  rose_or_restarted 0.4 20 (view3 i pts)
    (view3 i (fst (V3_objects.jet_round i pts rnd k))).
Proof.
  intros Hrnd x y z Hv. pose proof Hv as Hv'.
  apply view3_Some_inv in Hv' as (H0 & H1 & H2).
  assert (Hl : (i * 3 + 2 < length pts)%nat)
    by (eapply lookup_lt_Some; eassumption).
  unfold V3_objects.jet_round, bind, ret, random. cbv zeta.
  rewrite (rd_Some _ _ _ H1). cbn [add].
  rewrite rd_insert_eq by lia. rewrite gt_Fin.
  pose proof (Hrnd k). pose proof (Hrnd (Datatypes.S k)).
  destruct (Rlt_dec 20 (y + 0.4)) as [Hgt|Hle]; cbn [fst snd].
  - right. split; [assumption|]. to_Fin Hrnd. eexists _, _.
    split; [unfold view3; through_writes; reflexivity|split; lra].
  - left. split; [lra|]. unfold view3. through_writes.
    rewrite H0, H2. reflexivity.
Qed.

Lemma V2_jet_round_particle i pts rnd k :
  unit_stream rnd ->
  rose_or_restarted 0.25 15 (view3 i pts)
    (view3 i (fst (V2_objects.jet_round i pts rnd k))).
Proof.
  intros Hrnd x y z Hv. pose proof Hv as Hv'.
  apply view3_Some_inv in Hv' as (H0 & H1 & H2).
  assert (Hl : (i * 3 + 2 < length pts)%nat)
    by (eapply lookup_lt_Some; eassumption).
  unfold V2_objects.jet_round, bind, ret, random. cbv zeta.
  rewrite (rd_Some _ _ _ H1). cbn [add].
  rewrite rd_insert_eq by lia. rewrite gt_Fin.
  pose proof (Hrnd k). pose proof (Hrnd (Datatypes.S k)).
  destruct (Rlt_dec 15 (y + 0.25)) as [Hgt|Hle]; cbn [fst snd].
  - right. split; [assumption|]. to_Fin Hrnd. eexists _, _.
    split; [unfold view3; through_writes; reflexivity|split; lra].
  - left. split; [lra|]. unfold view3. through_writes.
    rewrite H0, H2. reflexivity.
Qed.

(** X14. One pass of the jet loop over an array, in either revision: a
    particle with finite coordinates either rises by the step (0.4 in V3,
    0.25 in V2) and keeps x and z, or, when that takes it above the top (20
    or 15), restarts at height 0.5 within 0.025 of the axis.  So a particle
    of the column of half-width [w >= 0.025] and heights 0 to the top stays
    in it. *)
Theorem jet_particles_rise_or_restart
  (pts : list num) (rnd : nat -> R) (k i : nat) :
  unit_stream rnd ->
  (i * 3 + 2 < length pts)%nat ->
  let pts3 := fst (V3_objects.animate_quasar_jet pts rnd k) in
  let pts2 := fst (V2_objects.animate_quasar_jet pts rnd k) in
  rose_or_restarted 0.4 20 (view3 i pts) (view3 i pts3) /\
  rose_or_restarted 0.25 15 (view3 i pts) (view3 i pts2) /\
  (forall w a b c, 0.025 <= w ->
     view3 i pts = (Some a, Some b, Some c) ->
     (in_column w 0 20 a b c ->
      exists a' b' c', view3 i pts3 = (Some a', Some b', Some c') /\
                       in_column w 0 20 a' b' c') /\
     (in_column w 0 15 a b c ->
      exists a' b' c', view3 i pts2 = (Some a', Some b', Some c') /\
                       in_column w 0 15 a' b' c')).
Proof.
  intros Hrnd Hlen pts3 pts2.
  pose proof (thirds_lt _ _ Hlen) as Hi.
  assert (H3 : rose_or_restarted 0.4 20 (view3 i pts) (view3 i pts3)).
  { unfold pts3, V3_objects.animate_quasar_jet.
    apply (loop_rounds V3_objects.jet_round rnd
             (fun _ => rose_or_restarted 0.4 20)); [|  |assumption].
    - intros. apply V3_jet_round_frame. assumption.
    - intros. apply V3_jet_round_particle. assumption. }
  assert (H2 : rose_or_restarted 0.25 15 (view3 i pts) (view3 i pts2)).
  { unfold pts2, V2_objects.animate_quasar_jet.
    apply (loop_rounds V2_objects.jet_round rnd
             (fun _ => rose_or_restarted 0.25 15)); [|  |assumption].
    - intros. apply V2_jet_round_frame. assumption.
    - intros. apply V2_jet_round_particle. assumption. }
  split; [exact H3|]. split; [exact H2|].
  intros w a b c Hw Hv. split.
  - intros (x & y & z & -> & -> & -> & Hx & Hy & Hz).
    destruct (H3 x y z Hv) as [[Hle ->]|(Hgt & x' & z' & -> & Hx' & Hz')].
    + eexists _, _, _. split; [reflexivity|].
      eexists _, _, _. repeat split; try reflexivity; lra.
    + eexists _, _, _. split; [reflexivity|].
      eexists _, _, _. repeat split; try reflexivity; lra.
  - intros (x & y & z & -> & -> & -> & Hx & Hy & Hz).
    destruct (H2 x y z Hv) as [[Hle ->]|(Hgt & x' & z' & -> & Hx' & Hz')].
    + eexists _, _, _. split; [reflexivity|].
      eexists _, _, _. repeat split; try reflexivity; lra.
    + eexists _, _, _. split; [reflexivity|].
      eexists _, _, _. repeat split; try reflexivity; lra.
Qed.

(** *** The two jets are one array *)

Lemma array_of_alloc (h : list (list num)) (a : list num) :
  array_of (fst (alloc h a)) (snd (alloc h a)) = a.
Proof.
  unfold array_of, alloc. cbn [fst snd].
  rewrite list_lookup_middle by reflexivity. reflexivity.
Qed.

Section Shared_jets.
Variable f : Object3D.t -> list (list num) -> Rand (Object3D.t * list (list num)).
Variable jet : list num -> Rand (list num).

Hypothesis f_jet :
  forall o h,
    Object3D.name o = "quasar_jet"%string ->
    f o h = (pts <~ jet (array_of h (Object3D.geometry o)) ;;
             ret (o, <[Object3D.geometry o := pts]> h)).
Hypothesis f_other :
  forall o h rnd k,
    Object3D.name o <> "quasar_jet"%string ->
    snd (fst (f o h rnd k)) = h /\ snd (f o h rnd k) = k.

(** The callback over a sphere, a glow and two jets with one geometry:
    the array of the jets gets two passes of the jet loop. *)
Lemma forEach_shared_jets (bh glow jetT jetB : Object3D.t)
  (h : list (list num)) (rnd : nat -> R) (k : nat) :
  Object3D.name bh <> "quasar_jet"%string ->
  Object3D.name glow <> "quasar_jet"%string ->
  Object3D.name jetT = "quasar_jet"%string ->
  Object3D.name jetB = "quasar_jet"%string ->
  Object3D.geometry jetB = Object3D.geometry jetT ->
  (Object3D.geometry jetT < length h)%nat ->
  let a := Object3D.geometry jetT in
  let r1 := jet (array_of h a) rnd k in
  let r2 := jet (fst r1) rnd (snd r1) in
  exists bh' glow',
    forEach f [bh; glow; jetT; jetB] h rnd k
    = ([bh'; glow'; jetT; jetB], <[a := fst r2]> h, snd r2).
Proof.
  intros Hbh Hglow HT HB Hgeo Hlen a r1 r2.
  cbn [forEach]. unfold bind, ret.
  destruct (f_other bh h rnd k Hbh) as [Hs Hk].
  destruct (f bh h rnd k) as [[bh' h1] k1]. cbn [fst snd] in Hs, Hk. subst.
  cbv beta iota. cbn [fst snd].
  destruct (f_other glow h rnd k Hglow) as [Hs Hk].
  destruct (f glow h rnd k) as [[glow' h1] k1]. cbn [fst snd] in Hs, Hk. subst.
  cbv beta iota. cbn [fst snd].
  rewrite (f_jet jetT h HT). unfold bind, ret.
  subst r2 r1. fold a.
  destruct (jet (array_of h a) rnd k) as [p1 k1]. cbn [fst snd].
  rewrite (f_jet jetB _ HB), Hgeo. unfold bind, ret. fold a.
  assert (Ha : array_of (<[a:=p1]> h) a = p1).
  { unfold array_of. rewrite list_lookup_insert_eq by assumption.
    reflexivity. }
  rewrite Ha.
  destruct (jet p1 rnd k1) as [p2 k2]. cbn [fst snd].
  rewrite list_insert_insert_eq. exists bh', glow'. reflexivity.
Qed.
End Shared_jets.

Lemma name_not_jet (o : Object3D.t) :
  (Object3D.name o === "quasar_jet") = false ->
  Object3D.name o <> "quasar_jet"%string.
Proof.
  intros H E. rewrite E in H. discriminate.
Qed.

Lemma V3_animate_jet t o h :
  Object3D.name o = "quasar_jet"%string ->
  V3_objects.animate_object t o h
  = (pts <~ V3_objects.animate_quasar_jet (array_of h (Object3D.geometry o)) ;;
     ret (o, <[Object3D.geometry o := pts]> h)).
Proof. intros H. unfold V3_objects.animate_object. rewrite H. reflexivity. Qed.

Lemma V2_animate_jet t o h :
  Object3D.name o = "quasar_jet"%string ->
  V2_objects.animate_object t o h
  = (pts <~ V2_objects.animate_quasar_jet (array_of h (Object3D.geometry o)) ;;
     ret (o, <[Object3D.geometry o := pts]> h)).
Proof. intros H. unfold V2_objects.animate_object. rewrite H. reflexivity. Qed.

Lemma seq_str_neq (a b : string) : a <> b -> (a === b) = false.
Proof. intros H. apply String.eqb_neq. assumption. Qed.

Lemma V3_animate_other t o h rnd k :
  Object3D.name o <> "quasar_jet"%string ->
  snd (fst (V3_objects.animate_object t o h rnd k)) = h /\
  snd (V3_objects.animate_object t o h rnd k) = k.
Proof.
  intros H. unfold V3_objects.animate_object.
  rewrite (seq_str_neq _ _ H).
  destruct (_ === _); [split; reflexivity|].
  destruct (_ === _); split; reflexivity.
Qed.

Lemma V2_animate_other t o h rnd k :
  Object3D.name o <> "quasar_jet"%string ->
  snd (fst (V2_objects.animate_object t o h rnd k)) = h /\
  snd (V2_objects.animate_object t o h rnd k) = k.
Proof.
  intros H. unfold V2_objects.animate_object.
  rewrite (seq_str_neq _ _ H).
  destruct (_ || _); split; reflexivity.
Qed.

(** The objects of a quasar, as generated: a sphere, a glow and two jets
    named alike that hold the address [a] of one array [jPos]. *)
Definition quasar_objects (objs : list Object3D.t) (h0 h : list (list num))
  (a : nat) (jPos : list num) : Prop :=
  exists bh glow jetT jetB,
    objs = [bh; glow; jetT; jetB] /\
    Object3D.name bh = ""%string /\
    Object3D.name glow = "quasar_core_glow"%string /\
    Object3D.name jetT = "quasar_jet"%string /\
    Object3D.name jetB = "quasar_jet"%string /\
    Object3D.geometry jetT = a /\ Object3D.geometry jetB = a /\
    Object3D.geometry bh <> a /\ Object3D.geometry glow <> a /\
    Object3D.rotation_x jetT = Fin 0 /\ Object3D.rotation_x jetB = Math.PI /\
    a = (length h0 + 2)%nat /\ length h = (length h0 + 3)%nat /\
    h !! a = Some jPos.

Lemma V3_generated_objects sg p h0 rnd k :
  let r := V3_objects.generate_additional sg (set_type p QUASAR) h0 rnd k in
  let j := forR V3_objects.jet_count V3_objects.jet_body
             (new_Float32Array (V3_objects.jet_count * 3)) rnd k in
  quasar_objects (fst (fst r)) h0 (snd (fst r)) (length h0 + 2) (fst j).
Proof.
  unfold V3_objects.generate_additional. dispatch.
  unfold alloc, bind, ret. cbn [fst snd].
  destruct (forR _ _ _ rnd k) as [jPos k']. cbn [fst snd].
  eexists _, _, _, _. split; [reflexivity|].
  cbn [Object3D.name Object3D.geometry Object3D.rotation_x
         Object3D.set_name Object3D.set_rotation_x Object3D.clone
         Object3D.new].
  rewrite !length_app. cbn [length].
  split; [reflexivity|]. split; [reflexivity|]. split; [reflexivity|].
  split; [reflexivity|]. split; [lia|]. split; [lia|]. split; [lia|].
  split; [lia|]. split; [reflexivity|]. split; [reflexivity|].
  split; [reflexivity|]. split; [lia|].
  apply list_lookup_middle. rewrite !length_app. cbn [length]. lia.
Qed.

Lemma V2_generated_objects sg p h0 rnd k :
  let r := V2_objects.generate_additional sg (set_type p QUASAR) h0 rnd k in
  let j := forR V2_objects.jetCount V2_objects.jet_body
             (new_Float32Array (V2_objects.jetCount * 3)) rnd k in
  quasar_objects (fst (fst r)) h0 (snd (fst r)) (length h0 + 2) (fst j).
Proof.
  unfold V2_objects.generate_additional. dispatch.
  unfold alloc, bind, ret. cbn [fst snd].
  destruct (forR _ _ _ rnd k) as [jPos k']. cbn [fst snd].
  eexists _, _, _, _. split; [reflexivity|].
  cbn [Object3D.name Object3D.geometry Object3D.rotation_x
         Object3D.set_name Object3D.set_rotation_x Object3D.clone
         Object3D.new].
  rewrite !length_app. cbn [length].
  split; [reflexivity|]. split; [reflexivity|]. split; [reflexivity|].
  split; [reflexivity|]. split; [lia|]. split; [lia|]. split; [lia|].
  split; [lia|]. split; [reflexivity|]. split; [reflexivity|].
  split; [reflexivity|]. split; [lia|].
  apply list_lookup_middle. rewrite !length_app. cbn [length]. lia.
Qed.

(** What a frame does to the store of a quasar: the one array of the jets
    gets two passes of [jet], the second on the result of the first and on
    the samples after those the first drew. *)
Definition two_passes (jet : list num -> Rand (list num))
  (frame : list Object3D.t -> list (list num)
           -> Rand (list Object3D.t * list (list num)))
  (objs : list Object3D.t) (h : list (list num)) (a : nat) (jPos : list num)
  : Prop :=
  forall (rnd : nat -> R) (k : nat),
    let r1 := jet jPos rnd k in
    let r2 := jet (fst r1) rnd (snd r1) in
    snd (fst (frame objs h rnd k)) = <[a := fst r2]> h /\
    snd (frame objs h rnd k) = snd r2 /\
    array_of (snd (fst (frame objs h rnd k))) a = fst r2.

Lemma quasar_objects_two_passes f jet objs h0 h a jPos :
  (forall o h,
     Object3D.name o = "quasar_jet"%string ->
     f o h = (pts <~ jet (array_of h (Object3D.geometry o)) ;;
              ret (o, <[Object3D.geometry o := pts]> h))) ->
  (forall o h rnd k,
     Object3D.name o <> "quasar_jet"%string ->
     snd (fst (f o h rnd k)) = h /\ snd (f o h rnd k) = k) ->
  quasar_objects objs h0 h a jPos ->
  two_passes jet (forEach f) objs h a jPos.
Proof.
  intros Hjet Hother
    (bh & glow & jetT & jetB & -> & Nb & Ng & NT & NB & GT & GB & _ & _ & _
     & _ & Ha & Hlen & Hj) rnd k.
  destruct (forEach_shared_jets f jet Hjet Hother bh glow jetT jetB h rnd k)
    as (bh' & glow' & E);
    [rewrite Nb; discriminate|rewrite Ng; discriminate|assumption
    |assumption|congruence|lia|].
  cbv zeta in E. rewrite GT in E.
  assert (Hread : array_of h a = jPos).
  { unfold array_of. rewrite Hj. reflexivity. }
  rewrite Hread in E. cbv zeta. rewrite E. cbn [fst snd].
  split; [reflexivity|]. split; [reflexivity|].
  unfold array_of. rewrite list_lookup_insert_eq by lia. reflexivity.
Qed.

(** X15. The generated quasar has four additional objects: the sphere,
    the glow and two jets.  The two jets have the same name and hold the
    same array (the second is a clone of the first, turned by pi about x),
    whose particles start in the column of half-width 0.025 (0.03 in V2) and
    heights 0 to 20 (15).  Since the frame callback treats every object
    named [quasar_jet], the one array gets two passes of the jet loop in
    every frame. *)
Theorem quasar_jets_share_one_array
  (sg : num -> nat -> nat -> list num) (p : GalaxyParams)
  (h0 : list (list num)) (rnd : nat -> R) (k : nat) (t : num) :
  unit_stream rnd ->
  let a := (length h0 + 2)%nat in
  let r3 := V3_objects.generate_additional sg (set_type p QUASAR) h0 rnd k in
  let r2 := V2_objects.generate_additional sg (set_type p QUASAR) h0 rnd k in
  (exists jPos,
     quasar_objects (fst (fst r3)) h0 (snd (fst r3)) a jPos /\
     particles V3_objects.jet_count jPos (fun _ => in_column 0.025 0 20) /\
     two_passes V3_objects.animate_quasar_jet
       (V3_objects.animate_additional t)
       (fst (fst r3)) (snd (fst r3)) a jPos) /\
  (exists jetPos,
     quasar_objects (fst (fst r2)) h0 (snd (fst r2)) a jetPos /\
     particles V2_objects.jetCount jetPos (fun _ => in_column 0.03 0 15) /\
     two_passes V2_objects.animate_quasar_jet
       (V2_objects.animate_additional t)
       (fst (fst r2)) (snd (fst r2)) a jetPos).
Proof.
  intros Hrnd a r3 r2. split.
  - pose proof (V3_generated_objects sg p h0 rnd k) as Hobj.
    cbv zeta in Hobj. eexists. split; [exact Hobj|]. split.
    + apply (loop_particles (fun s : list num => s)); [|apply length_new3].
      intros i st k'. apply V3_jet_body_column. assumption.
    + apply (quasar_objects_two_passes _ _ _ h0); [| |exact Hobj].
      * intros. apply V3_animate_jet. assumption.
      * intros. apply V3_animate_other. assumption.
  - pose proof (V2_generated_objects sg p h0 rnd k) as Hobj.
    cbv zeta in Hobj. eexists. split; [exact Hobj|]. split.
    + apply (loop_particles (fun s : list num => s)); [|apply length_new3].
      intros i st k'. apply V2_jet_body_column. assumption.
    + apply (quasar_objects_two_passes _ _ _ h0); [| |exact Hobj].
      * intros. apply V2_animate_jet. assumption.
      * intros. apply V2_animate_other. assumption.
Qed.

(** *** The core and the glow *)

(** X16. The frame on the core of the supernova (V3), at a time [t >= 0]:
    the scale is [(1 - pr) * 15 * (1 + 0.2 sin(20 t))] on the three axes,
    positive and at most 18, and the opacity is [max(0, 1 - 1.5 pr)], the
    heat of the shell at that time.  On the glow of the quasar the scale is
    [1 + 0.25 sin(12 t)], between 0.75 and 1.25.  In V2 both get the scale
    [1 + 0.2 sin(8 t)], between 0.8 and 1.2, and keep their opacity.  None
    of them touches an array or draws a sample. *)
Theorem core_and_glow_pulse
  (t : R) (o : Object3D.t) (h : list (list num)) (rnd : nat -> R) (k : nat) :
  0 <= t ->
  (Object3D.name o = "supernova_core"%string ->
   exists pr s : R,
     V3.supernova_progress (Fin t) = Fin pr /\ 0 <= pr < 1 /\
     V3_objects.animate_object (Fin t) o h rnd k
     = (Object3D.set_opacity (Object3D.set_scale o (Fin s) (Fin s) (Fin s))
          (Fin (Rmax 0 (1 - pr * 1.5))), h, k) /\
     s = (1 - pr) * 15 * (1 + sin (t * 20) * 0.2) /\ 0 < s <= 18 /\
     0 <= Rmax 0 (1 - pr * 1.5) <= 1) /\
  (Object3D.name o = "quasar_core_glow"%string ->
   exists s : R,
     V3_objects.animate_object (Fin t) o h rnd k
     = (Object3D.set_scale o (Fin s) (Fin s) (Fin s), h, k) /\
     s = 1 + sin (t * 12) * 0.25 /\ 0.75 <= s <= 1.25) /\
  (Object3D.name o = "supernova_core"%string \/
   Object3D.name o = "quasar_core_glow"%string ->
   exists s : R,
     V2_objects.animate_object (Fin t) o h rnd k
     = (Object3D.set_scale o (Fin s) (Fin s) (Fin s), h, k) /\
     s = 1 + sin (t * 8) * 0.2 /\ 0.8 <= s <= 1.2).
Proof.
  intros Ht. split; [|split].
  - intros Hn.
    destruct (supernova_progress_unit t Ht) as (pr & Hpr & Hpr0 & Hpr1).
    exists pr, ((1 - pr) * 15 * (1 + sin (t * 20) * 0.2)).
    split; [assumption|]. split; [lra|].
    unfold V3_objects.animate_object. rewrite Hn. dispatch. cbv zeta.
    unfold V3.supernova_progress in Hpr. cbv zeta in Hpr. rewrite Hpr.
    cbn [mul sub add neg Math.sin Math.max]. unfold ret, Rminus.
    split; [reflexivity|]. split; [reflexivity|].
    pose proof (SIN_bound (t * 20)) as Hs.
    split; [split|split; [apply Rmax_l|apply Rmax_lub; lra]].
    + apply Rmult_lt_0_compat; [|lra].
      apply Rmult_lt_0_compat; lra.
    + assert (H1 : (1 + - pr) * 15 <= 15) by lra.
      assert (H2 : 0 <= (1 + - pr) * 15) by lra.
      assert (H3 : 1 + sin (t * 20) * 0.2 <= 1.2) by lra.
      assert (H4 : 0 <= 1 + sin (t * 20) * 0.2) by lra.
      nra.
  - intros Hn. exists (1 + sin (t * 12) * 0.25).
    unfold V3_objects.animate_object. rewrite Hn. dispatch. cbv zeta.
    cbn [mul add Math.sin]. unfold ret.
    split; [reflexivity|]. split; [reflexivity|].
    pose proof (SIN_bound (t * 12)). lra.
  - intros Hn. exists (1 + sin (t * 8) * 0.2).
    unfold V2_objects.animate_object.
    destruct Hn as [-> | ->]; dispatch; cbn [orb]; cbv zeta;
      cbn [mul add Math.sin]; unfold ret;
      (split; [reflexivity|]); (split; [reflexivity|]);
      pose proof (SIN_bound (t * 8)); lra.
Qed.

(** *** What a frame keeps of the additional objects *)

Lemma V3_animate_object_keeps t o h rnd k :
  let r := fst (V3_objects.animate_object t o h rnd k) in
  Object3D.name (fst r) = Object3D.name o /\
  Object3D.geometry (fst r) = Object3D.geometry o /\
  Object3D.rotation_x (fst r) = Object3D.rotation_x o /\
  length (snd r) = length h.
Proof.
  unfold V3_objects.animate_object, bind, ret.
  destruct (_ === _).
  { destruct (V3_objects.animate_quasar_jet _ rnd k) as [pts k'].
    cbn [fst snd]. rewrite length_insert. repeat split; reflexivity. }
  destruct (_ === _); [repeat split; reflexivity|].
  destruct (_ === _); repeat split; reflexivity.
Qed.

Lemma V2_animate_object_keeps t o h rnd k :
  let r := fst (V2_objects.animate_object t o h rnd k) in
  Object3D.name (fst r) = Object3D.name o /\
  Object3D.geometry (fst r) = Object3D.geometry o /\
  Object3D.rotation_x (fst r) = Object3D.rotation_x o /\
  length (snd r) = length h.
Proof.
  unfold V2_objects.animate_object, bind, ret.
  destruct (_ === _).
  { destruct (V2_objects.animate_quasar_jet _ rnd k) as [pts k'].
    cbn [fst snd]. rewrite length_insert. repeat split; reflexivity. }
  destruct (_ || _); repeat split; reflexivity.
Qed.

(** The name, the geometry and the turn about x of the objects, in order. *)
Definition identity_of (o : Object3D.t) : string * nat * num :=
  (Object3D.name o, Object3D.geometry o, Object3D.rotation_x o).

Lemma forEach_keeps f :
  (forall o h rnd k,
     identity_of (fst (fst (f o h rnd k))) = identity_of o /\
     length (snd (fst (f o h rnd k))) = length h) ->
  forall objs h rnd k,
    identity_of <$> fst (fst (forEach f objs h rnd k)) = identity_of <$> objs /\
    length (snd (fst (forEach f objs h rnd k))) = length h.
Proof.
  intros Hf objs. induction objs as [|o rest IH]; intros h rnd k.
  - split; reflexivity.
  - cbn [forEach]. unfold bind, ret.
    destruct (Hf o h rnd k) as [Hid Hlen].
    destruct (f o h rnd k) as [[o' h1] k1]. cbn [fst snd] in Hid, Hlen.
    cbn [fst snd].
    destruct (IH h1 rnd k1) as [IHid IHlen].
    destruct (forEach f rest h1 rnd k1) as [[rest' h2] k2].
    cbn [fst snd] in IHid, IHlen. cbn [fst snd fmap list_fmap].
    split; [|congruence].
    change (identity_of o' :: (identity_of <$> rest')
            = identity_of o :: (identity_of <$> rest)).
    rewrite Hid, IHid. reflexivity.
Qed.

(** X17. A frame keeps the additional objects what they are: as many
    objects with the same names, the same geometries and the same turn, in
    the same order, and as many arrays in the store.  So a jet stays a jet,
    and what holds of the objects of a quasar in one frame holds in every
    later one. *)
Theorem frame_keeps_the_objects
  (t : num) (objs : list Object3D.t) (h : list (list num))
  (rnd : nat -> R) (k : nat) :
  let r3 := fst (V3_objects.animate_additional t objs h rnd k) in
  let r2 := fst (V2_objects.animate_additional t objs h rnd k) in
  (identity_of <$> fst r3 = identity_of <$> objs /\
   length (fst r3) = length objs /\ length (snd r3) = length h) /\
  (identity_of <$> fst r2 = identity_of <$> objs /\
   length (fst r2) = length objs /\ length (snd r2) = length h).
Proof.
  cbv zeta. split.
  - destruct (forEach_keeps (V3_objects.animate_object t)) with
      (objs := objs) (h := h) (rnd := rnd) (k := k) as [Hid Hlen].
    { intros o h' rnd' k'.
      destruct (V3_animate_object_keeps t o h' rnd' k') as (A & B & C & D).
      unfold identity_of. rewrite A, B, C. split; [reflexivity|exact D]. }
    split; [exact Hid|]. split; [|exact Hlen].
    apply (f_equal length) in Hid. rewrite !length_fmap in Hid. exact Hid.
  - destruct (forEach_keeps (V2_objects.animate_object t)) with
      (objs := objs) (h := h) (rnd := rnd) (k := k) as [Hid Hlen].
    { intros o h' rnd' k'.
      destruct (V2_animate_object_keeps t o h' rnd' k') as (A & B & C & D).
      unfold identity_of. rewrite A, B, C. split; [reflexivity|exact D]. }
    split; [exact Hid|]. split; [|exact Hlen].
    apply (f_equal length) in Hid. rewrite !length_fmap in Hid. exact Hid.
Qed.

(** ** The explosion of V1 *)

(** [n] frames on the explosion. *)
Fixpoint explosion_frames (n : nat) (e : V1_objects.Explosion)
  : V1_objects.Explosion :=
  match n with
  | O => e
  | Datatypes.S n => V1_objects.animate_explosion (explosion_frames n e)
  end.

(** What the two arrays of the loop show of particle [i]. *)
Definition view_exp (i : nat) (st : list num * list num) :=
  (view3 i (fst st), snd st !! i).

Lemma explosion_round_frame v i j st :
  i <> j -> view_exp j (V1_objects.explosion_round v i st) = view_exp j st.
Proof.
  intros Hij. destruct st as [p s].
  unfold V1_objects.explosion_round, view_exp, view3. cbv zeta.
  destruct (_ <. _); cbn [fst snd];
    rewrite !list_lookup_insert_ne by lia; reflexivity.
Qed.

Lemma explosion_round_len v i st :
  length (fst (V1_objects.explosion_round v i st)) = length (fst st) /\
  length (snd (V1_objects.explosion_round v i st)) = length (snd st).
Proof.
  destruct st as [p s]. unfold V1_objects.explosion_round. cbv zeta.
  destruct (_ <. _); cbn [fst snd]; rewrite !length_insert;
    split; reflexivity.
Qed.

Lemma explosion_loop_len v n st :
  length (fst (for_ n (V1_objects.explosion_round v) st)) = length (fst st) /\
  length (snd (for_ n (V1_objects.explosion_round v) st)) = length (snd st).
Proof.
  apply (for_ind (fun _ acc => length (fst acc) = length (fst st) /\
                               length (snd acc) = length (snd st)));
    [split; reflexivity|].
  intros i acc _ [H1 H2].
  destruct (explosion_round_len v i acc) as [L1 L2].
  rewrite L1, L2. split; assumption.
Qed.

Lemma index_in_sizes (i len : nat) :
  (Num (i * 3) /. 3 <. Num len) = true <-> (i < len)%nat.
Proof.
  unfold Num. rewrite div_Fin by lra. rewrite lt_Fin.
  rewrite mult_INR. cbn [INR].
  replace (INR i * (1 + 1 + 1) / 3) with (INR i) by lra.
  destruct (Rlt_dec (INR i) (INR len)) as [H|H]; split; intros H';
    try reflexivity; try discriminate.
  - apply INR_lt. assumption.
  - exfalso. apply H. apply lt_INR. assumption.
Qed.

Lemma explosion_round_particle v i p s (x y z vx vy vz sz : R) :
  view3 i p = (Some (Fin x), Some (Fin y), Some (Fin z)) ->
  view3 i v = (Some (Fin vx), Some (Fin vy), Some (Fin vz)) ->
  s !! i = Some (Fin sz) ->
  view_exp i (V1_objects.explosion_round v i (p, s))
  = ((Some (Fin (x + vx * 0.015)), Some (Fin (y + vy * 0.015)),
      Some (Fin (z + vz * 0.015))),
     Some (Fin (sz * 0.997))).
Proof.
  intros Hp Hv Hs.
  apply view3_Some_inv in Hp as (P0 & P1 & P2).
  apply view3_Some_inv in Hv as (V0 & V1 & V2).
  assert (Hl : (i * 3 + 2 < length p)%nat)
    by (eapply lookup_lt_Some; eassumption).
  assert (Hi : (i < length s)%nat) by (eapply lookup_lt_Some; eassumption).
  unfold V1_objects.explosion_round, view_exp. cbv zeta.
  rewrite (proj2 (index_in_sizes i (length s)) Hi). cbn [fst snd].
  rewrite (rd_Some _ _ _ V0), (rd_Some _ _ _ V1), (rd_Some _ _ _ V2).
  rewrite (rd_Some _ _ _ Hs).
  rewrite (rd_Some _ _ _ P0).
  rewrite (rd_insert_ne p _ (i * 3 + 1)) by lia.
  rewrite (rd_Some _ _ _ P1).
  rewrite !(rd_insert_ne _ _ (i * 3 + 2)) by lia.
  rewrite (rd_Some _ _ _ P2).
  cbn [mul add]. unfold view3. through_writes. reflexivity.
Qed.

Lemma Some_Fin_eq (a b : R) : a = b -> Some (Fin a) = Some (Fin b).
Proof. intros ->. reflexivity. Qed.

Lemma Some_Fin3 (a b c a' b' c' : R) :
  a = a' -> b = b' -> c = c' ->
  (Some (Fin a), Some (Fin b), Some (Fin c))
  = (Some (Fin a'), Some (Fin b'), Some (Fin c')).
Proof. intros -> -> ->. reflexivity. Qed.

(** The explosion has [n] particles: the lengths of its arrays. *)
Definition explosion_of (n : nat) (e : V1_objects.Explosion) : Prop :=
  length (V1_objects.expPos e) = (3 * n)%nat /\
  length (V1_objects.velocities e) = (3 * n)%nat /\
  length (V1_objects.sizes e) = n.

Lemma animate_explosion_keeps n e :
  explosion_of n e ->
  explosion_of n (V1_objects.animate_explosion e) /\
  V1_objects.velocities (V1_objects.animate_explosion e)
  = V1_objects.velocities e /\
  V1_objects.expColors (V1_objects.animate_explosion e)
  = V1_objects.expColors e /\
  V1_objects.material_opacity (V1_objects.animate_explosion e)
  = V1_objects.material_opacity e *. 0.999.
Proof.
  intros (L1 & L2 & L3). unfold V1_objects.animate_explosion, explosion_of.
  destruct (explosion_loop_len (V1_objects.velocities e)
              (thirds (length (V1_objects.expPos e)))
              (V1_objects.expPos e, V1_objects.sizes e)) as [H1 H2].
  destruct (for_ _ _ _) as [p s]. cbn [fst snd] in H1, H2.
  cbn [V1_objects.expPos V1_objects.velocities V1_objects.sizes
         V1_objects.expColors V1_objects.material_opacity].
  repeat split; congruence.
Qed.

Lemma animate_explosion_particle n e i (x y z vx vy vz sz : R) :
  explosion_of n e -> (i < n)%nat ->
  view3 i (V1_objects.expPos e) = (Some (Fin x), Some (Fin y), Some (Fin z)) ->
  view3 i (V1_objects.velocities e)
  = (Some (Fin vx), Some (Fin vy), Some (Fin vz)) ->
  V1_objects.sizes e !! i = Some (Fin sz) ->
  view3 i (V1_objects.expPos (V1_objects.animate_explosion e))
  = (Some (Fin (x + vx * 0.015)), Some (Fin (y + vy * 0.015)),
     Some (Fin (z + vz * 0.015))) /\
  V1_objects.sizes (V1_objects.animate_explosion e) !! i
  = Some (Fin (sz * 0.997)).
Proof.
  intros (L1 & L2 & L3) Hi Hp Hv Hs.
  unfold V1_objects.animate_explosion. rewrite L1, thirds_mul.
  pose proof (for_post view_exp
                (V1_objects.explosion_round (V1_objects.velocities e))
                (explosion_round_frame (V1_objects.velocities e))
                (fun j w => j = i ->
                   w = ((Some (Fin (x + vx * 0.015)),
                         Some (Fin (y + vy * 0.015)),
                         Some (Fin (z + vz * 0.015))),
                        Some (Fin (sz * 0.997))))
                n (V1_objects.expPos e, V1_objects.sizes e)) as Hpost.
  cbv beta in Hpost.
  assert (Hstep : view_exp i
            (for_ n (V1_objects.explosion_round (V1_objects.velocities e))
               (V1_objects.expPos e, V1_objects.sizes e))
          = ((Some (Fin (x + vx * 0.015)), Some (Fin (y + vy * 0.015)),
              Some (Fin (z + vz * 0.015))),
             Some (Fin (sz * 0.997)))).
  { apply Hpost; [|assumption|reflexivity].
    intros j [p s] Hj Hview ->.
    unfold view_exp in Hview. cbn [fst snd] in Hview.
    pose proof (f_equal fst Hview) as H1. pose proof (f_equal snd Hview) as H2.
    cbn [fst snd] in H1, H2.
    apply explosion_round_particle; [| assumption |].
    - rewrite H1. assumption.
    - rewrite H2. assumption. }
  destruct (for_ _ _ _) as [p s].
  cbn [V1_objects.expPos V1_objects.sizes].
  unfold view_exp in Hstep. cbn [fst snd] in Hstep.
  split; [exact (f_equal fst Hstep)|exact (f_equal snd Hstep)].
Qed.

(** X18. The explosion of V1 never recycles a particle: after [n] frames a
    particle with finite position, velocity [v] and size [s] is at its
    start plus [n * 0.015 * v], its size is [s * 0.997^n], and the opacity
    of the material is [0.999^n] times what it was; the velocities and the
    colours are left alone.  So sizes and opacity decay but stay positive,
    and the cloud grows without bound. *)
Theorem explosion_expands_and_fades
  (n : nat) (e : V1_objects.Explosion) (count i : nat)
  (x y z vx vy vz sz op : R) :
  explosion_of count e -> (i < count)%nat ->
  view3 i (V1_objects.expPos e) = (Some (Fin x), Some (Fin y), Some (Fin z)) ->
  view3 i (V1_objects.velocities e)
  = (Some (Fin vx), Some (Fin vy), Some (Fin vz)) ->
  V1_objects.sizes e !! i = Some (Fin sz) ->
  V1_objects.material_opacity e = Fin op ->
  let e' := explosion_frames n e in
  explosion_of count e' /\
  V1_objects.velocities e' = V1_objects.velocities e /\
  V1_objects.expColors e' = V1_objects.expColors e /\
  view3 i (V1_objects.expPos e')
  = (Some (Fin (x + INR n * (vx * 0.015))),
     Some (Fin (y + INR n * (vy * 0.015))),
     Some (Fin (z + INR n * (vz * 0.015)))) /\
  V1_objects.sizes e' !! i = Some (Fin (sz * 0.997 ^ n)) /\
  V1_objects.material_opacity e' = Fin (op * 0.999 ^ n) /\
  (0 < sz -> 0 < sz * 0.997 ^ n) /\ (0 < op -> 0 < op * 0.999 ^ n).
Proof.
  intros He Hi Hp Hv Hs Hop. cbv zeta.
  assert (Hpos : forall a b : R, 0 < b -> 0 < a -> 0 < a * b ^ n).
  { intros a b Hb Ha. apply Rmult_lt_0_compat; [assumption|].
    apply pow_lt. assumption. }
  assert (Hmain :
    explosion_of count (explosion_frames n e) /\
    V1_objects.velocities (explosion_frames n e) = V1_objects.velocities e /\
    V1_objects.expColors (explosion_frames n e) = V1_objects.expColors e /\
    view3 i (V1_objects.expPos (explosion_frames n e))
    = (Some (Fin (x + INR n * (vx * 0.015))),
       Some (Fin (y + INR n * (vy * 0.015))),
       Some (Fin (z + INR n * (vz * 0.015)))) /\
    V1_objects.sizes (explosion_frames n e) !! i
    = Some (Fin (sz * 0.997 ^ n)) /\
    V1_objects.material_opacity (explosion_frames n e)
    = Fin (op * 0.999 ^ n)).
  { induction n as [|n IH].
    - cbn [explosion_frames INR Rpow_def.pow].
      split; [assumption|]. split; [reflexivity|]. split; [reflexivity|].
      split; [rewrite Hp; apply Some_Fin3; ring|].
      split; [rewrite Hs; apply Some_Fin_eq; ring|].
      rewrite Hop. apply (f_equal Fin). ring.
    - destruct IH as (IHe & IHv & IHc & IHp & IHs & IHo).
      { intros a b Hb Ha. apply Rmult_lt_0_compat; [assumption|].
        apply pow_lt. assumption. }
      cbn [explosion_frames].
      destruct (animate_explosion_keeps count _ IHe) as (Ke & Kv & Kc & Ko).
      rewrite <- IHv in Hv.
      destruct (animate_explosion_particle count _ i _ _ _ _ _ _ _
                  IHe Hi IHp Hv IHs) as [Np Ns].
      split; [assumption|]. split; [congruence|]. split; [congruence|].
      rewrite Np, Ns, Ko, IHo. rewrite S_INR. cbn [mul Rpow_def.pow].
      split; [apply Some_Fin3; ring|].
      split; [apply Some_Fin_eq; ring|]. apply (f_equal Fin). ring. }
  destruct Hmain as (A & B & C & D & E & F).
  repeat (split; [assumption|]).
  split; intros H0; apply Hpos; lra.
Qed.

(** Loops that write one entry per round. *)
Section Entry_loop.
Context {S : Type}.
Variable proj : S -> list num.
Variable body : nat -> S -> Rand S.
Variable rnd : nat -> R.
Variable Q : nat -> num -> Prop.

Hypothesis body_entry :
  forall i st k,
    exists x, proj (fst (body i st rnd k)) = <[i := x]> (proj st) /\ Q i x.

Lemma loop_entries (n : nat) (s0 : S) (k : nat) :
  length (proj s0) = n ->
  forall i, (i < n)%nat ->
    exists x, proj (fst (forR n body s0 rnd k)) !! i = Some x /\ Q i x.
Proof.
  intros Hlen i Hi. unfold forR.
  refine (for_post (fun i (acc : S * nat) => proj (fst acc) !! i)
            (fun i acc => body i (fst acc) rnd (snd acc)) _
            (fun i w => exists x, w = Some x /\ Q i x)
            n (s0, k) _ i Hi); clear i Hi.
  - intros i j [st k'] Hij. cbn [fst snd].
    destruct (body_entry i st k') as (x & -> & _).
    apply list_lookup_insert_ne. assumption.
  - intros i [st k'] Hi Hview. cbn [fst snd] in Hview; cbn [fst snd].
    destruct (body_entry i st k') as (x & -> & HQ).
    exists x. split; [|assumption]. apply list_lookup_insert_eq.
    destruct (lookup_lt_is_Some_2 (proj s0) i) as [q Hq]; [lia|].
    rewrite Hq in Hview. eapply lookup_lt_Some. eassumption.
Qed.
End Entry_loop.

(** The point where every particle of the explosion starts. *)
Definition at_start (a b c : num) : Prop :=
  a = Fin 2.5 /\ b = Fin 0.5 /\ c = Fin 1.2.

Definition size_between (lo hi : R) (x : num) : Prop :=
  exists s : R, x = Fin s /\ lo <= s < hi.

Lemma explosion_body_writes sh i
  (st : list num * list num * list num * list num) rnd k :
  unit_stream rnd ->
  let st' := fst (V1_objects.explosion_body sh i st rnd k) in
  (exists a b c,
     fst (fst (fst st')) = set3 (fst (fst (fst st))) (i * 3) a b c /\
     at_start a b c) /\
  (exists a b c,
     snd (fst (fst st')) = set3 (snd (fst (fst st))) (i * 3) a b c /\
     has_speed 4 15 a b c) /\
  (exists x, snd (fst st') = <[i := x]> (snd (fst st)) /\
             size_between 0.05 0.2 x) /\
  length (snd st') = length (snd st).
Proof.
  intros Hrnd. destruct st as [[[p v] s] c].
  unfold V1_objects.explosion_body, bind, ret, random. cbn [fst snd].
  split; [|split; [|split]].
  - eexists _, _, _. split; [reflexivity|]. repeat split.
  - eexists _, _, _. split; [reflexivity|]. rewrite gt_Fin.
    pose proof (Hrnd (Datatypes.S (Datatypes.S k))) as H3.
    destruct (Rlt_dec 0.9 _); to_Fin Hrnd.
    + eexists _, _, _, ((rnd (Datatypes.S (Datatypes.S k)) * 6 + 4) * 1.5).
      split; [reflexivity|]. split; [reflexivity|]. split; [reflexivity|].
      split; [lra|]. apply sphere_point.
    + eexists _, _, _, ((rnd (Datatypes.S (Datatypes.S k)) * 6 + 4) * 1).
      split; [reflexivity|]. split; [reflexivity|]. split; [reflexivity|].
      split; [lra|]. apply sphere_point.
  - eexists. split; [reflexivity|]. to_Fin Hrnd.
    eexists. split; [reflexivity|].
    pose proof (Hrnd (Datatypes.S (Datatypes.S (Datatypes.S
                  (Datatypes.S k))))). lra.
  - rewrite length_set3. reflexivity.
Qed.

Lemma explosion_loop sh (n : nat) rnd k :
  unit_stream rnd ->
  let st := fst (forR n (V1_objects.explosion_body sh)
                   (new_Float32Array (n * 3), new_Float32Array (n * 3),
                    new_Float32Array n, new_Float32Array (n * 3)) rnd k) in
  particles n (fst (fst (fst st))) (fun _ => at_start) /\
  particles n (snd (fst (fst st))) (fun _ => has_speed 4 15) /\
  (forall i, (i < n)%nat ->
     exists x, snd (fst st) !! i = Some x /\ size_between 0.05 0.2 x) /\
  length (fst (fst (fst st))) = (3 * n)%nat /\
  length (snd (fst (fst st))) = (3 * n)%nat /\
  length (snd (fst st)) = n.
Proof.
  intros Hrnd st. unfold st.
  split; [|split; [|split; [|split; [|split]]]].
  - apply (loop_particles
             (fun s : list num * list num * list num * list num =>
                fst (fst (fst s)))); [|apply length_new3].
    intros i s0 k'.
    exact (proj1 (explosion_body_writes sh i s0 rnd k' Hrnd)).
  - apply (loop_particles
             (fun s : list num * list num * list num * list num =>
                snd (fst (fst s)))); [|apply length_new3].
    intros i s0 k'.
    exact (proj1 (proj2 (explosion_body_writes sh i s0 rnd k' Hrnd))).
  - apply (loop_entries
             (fun s : list num * list num * list num * list num =>
                snd (fst s)));
      [|apply length_new_Float32Array].
    intros i s0 k'.
    exact (proj1 (proj2 (proj2 (explosion_body_writes sh i s0 rnd k' Hrnd)))).
  - apply (forR_ind (fun _ s => length (fst (fst (fst s))) = (3 * n)%nat));
      [apply length_new3|].
    intros i s0 k' _ H.
    destruct (explosion_body_writes sh i s0 rnd k' Hrnd)
      as ((a & b & c & -> & _) & _).
    rewrite length_set3. assumption.
  - apply (forR_ind (fun _ s => length (snd (fst (fst s))) = (3 * n)%nat));
      [apply length_new3|].
    intros i s0 k' _ H.
    destruct (explosion_body_writes sh i s0 rnd k' Hrnd)
      as (_ & (a & b & c & -> & _) & _).
    rewrite length_set3. assumption.
  - apply (forR_ind (fun _ s => length (snd (fst s)) = n));
      [apply length_new_Float32Array|].
    intros i s0 k' _ H.
    destruct (explosion_body_writes sh i s0 rnd k' Hrnd)
      as (_ & _ & (x & -> & _) & _).
    rewrite length_insert. assumption.
Qed.

(** X19. The explosion of V1 as generated: every particle starts at the
    one point [(2.5, 0.5, 1.2)], which is not the centre of the scene; its
    velocity has a magnitude [4 <= speed < 15] (the sampled [4..10], times
    1.5 for the samples above 0.9); its size lies in [0.05, 0.2); the opacity
    of the material is 0.9.  The arrays have the lengths the frame
    expects. *)
Theorem explosion_starts_at_one_point
  (sh : num -> num -> num -> THREE.Color.t) (rnd : nat -> R) (k : nat) :
  unit_stream rnd ->
  let e := fst (V1_objects.generate_explosion sh rnd k) in
  explosion_of V1_objects.expCount e /\
  particles V1_objects.expCount (V1_objects.expPos e) (fun _ => at_start) /\
  particles V1_objects.expCount (V1_objects.velocities e)
    (fun _ => has_speed 4 15) /\
  (forall i, (i < V1_objects.expCount)%nat ->
     exists x, V1_objects.sizes e !! i = Some x /\
               size_between 0.05 0.2 x) /\
  V1_objects.material_opacity e = Fin 0.9.
Proof.
  intros Hrnd e. unfold e, V1_objects.generate_explosion, bind, ret.
  cbv zeta.
  pose proof (explosion_loop sh V1_objects.expCount rnd k Hrnd) as H.
  cbv zeta in H.
  destruct (forR _ _ _ rnd k) as [[[[p v] s] c] k'].
  cbn [fst snd] in H. destruct H as (Hp & Hv & Hs & L1 & L2 & L3).
  cbn [fst]. unfold explosion_of.
  cbn [V1_objects.expPos V1_objects.velocities V1_objects.sizes
         V1_objects.material_opacity].
  split; [split; [assumption|split; assumption]|].
  split; [assumption|]. split; [assumption|]. split; [assumption|].
  reflexivity.
Qed.

(** * Properties of the audio service *)

(** ** Samples to 16 bits *)

(** Within the 16-bit range the stored value is the integer part of the
    number, taken towards zero. *)
Lemma ToInt16_in_range (y : R) :
  -32768 <= y < 32768 ->
  exists q : Z,
    GeminiService.ToInt16 (Fin y) = q /\
    (-32768 <= q <= 32767)%Z /\
    (0 <= y -> IZR q <= y < IZR q + 1) /\
    (y < 0 -> IZR q - 1 < y <= IZR q).
Proof.
  intros [Hlo Hhi]. unfold GeminiService.ToInt16, trunc. cbv zeta.
  destruct (Rle_dec 0 y) as [Hy|Hy].
  - pose proof (base_Int_part y) as [B1 B2].
    assert (H0 : (0 <= Int_part y)%Z).
    { apply le_IZR. apply Rnot_lt_le. intros Hn.
      assert (IZR (Int_part y) <= -1).
      { apply IZR_le. apply lt_IZR in Hn. lia. }
      lra. }
    assert (H1 : (Int_part y < 32768)%Z) by (apply lt_IZR; lra).
    rewrite Z.mod_small by lia.
    destruct (32768 <=? Int_part y)%Z eqn:E; [apply Z.leb_le in E; lia|].
    eexists. split; [reflexivity|]. split; [lia|].
    split; [intros _; lra|intros Hn; lra].
  - apply Rnot_le_lt in Hy.
    pose proof (base_Int_part (- y)) as [B1 B2].
    remember (Int_part (- y)) as n eqn:En. clear En.
    assert (H0 : (0 <= n)%Z).
    { apply le_IZR. apply Rnot_lt_le. intros Hn.
      assert (IZR n <= -1).
      { apply IZR_le. apply lt_IZR in Hn. lia. }
      lra. }
    assert (H1 : (n <= 32768)%Z) by (apply le_IZR; lra).
    assert (Hq : IZR (- n) = - IZR n) by apply opp_IZR.
    destruct (Z.eq_dec n 0%Z) as [E0|E0].
    + rewrite E0. change ((- 0) mod 65536)%Z with 0%Z.
      change (32768 <=? 0)%Z with false. cbv iota.
      exists 0%Z. split; [reflexivity|]. split; [lia|].
      rewrite E0 in B1, B2. split; [intros; lra|intros _; lra].
    + assert (Hm : ((- n) mod 65536 = 65536 - n)%Z).
      { symmetry. apply (Z.mod_unique (- n) 65536 (-1)); lia. }
      rewrite Hm.
      destruct (32768 <=? 65536 - n)%Z eqn:E;
        [|apply Z.leb_gt in E; lia].
      exists (- n)%Z. split; [f_equal; lia|]. split; [lia|].
      rewrite Hq. split; [intros; lra|intros _; lra].
Qed.

(** A sample of exactly 1 does not fit: it is stored as the most negative
    value. *)
Lemma ToInt16_full_scale : GeminiService.ToInt16 (Fin 1 *. 32768) = (-32768)%Z.
Proof.
  cbn [mul]. unfold GeminiService.ToInt16, trunc. cbv zeta.
  destruct (Rle_dec 0 (1 * 32768)) as [_|N]; [|exfalso; apply N; lra].
  assert (H : Int_part (1 * 32768) = 32768%Z).
  { symmetry. apply Int_part_spec. lra. }
  rewrite H. reflexivity.
Qed.

Lemma length_createBlob_loop (data : list num) (n : nat) (acc : list Z) :
  length (for_ n
            (fun i int16 =>
               <[i := GeminiService.ToInt16 (rd data i *. 32768)]> int16)
            acc) = length acc.
Proof.
  apply (for_ind (fun _ a => length a = length acc)); [reflexivity|].
  intros i a _ H. rewrite length_insert. assumption.
Qed.

Lemma createBlob_int16_length (data : list num) :
  length (GeminiService.createBlob_int16 data) = length data.
Proof.
  unfold GeminiService.createBlob_int16. cbv zeta.
  rewrite length_createBlob_loop. apply length_replicate.
Qed.

Lemma createBlob_int16_lookup (data : list num) (i : nat) (a : num) :
  data !! i = Some a ->
  GeminiService.createBlob_int16 data !! i
  = Some (GeminiService.ToInt16 (a *. 32768)).
Proof.
  intros Ha. pose proof (lookup_lt_Some _ _ _ Ha) as Hi.
  unfold GeminiService.createBlob_int16. cbv zeta.
  refine (for_post (fun i (l : list Z) => l !! i)
            (fun i int16 =>
               <[i := GeminiService.ToInt16 (rd data i *. 32768)]> int16) _
            (fun j w => j = i ->
               w = Some (GeminiService.ToInt16 (a *. 32768)))
            (length data) (replicate (length data) 0%Z) _ i Hi eq_refl).
  - intros j j' l Hjj. apply list_lookup_insert_ne. assumption.
  - intros j l Hj Hview ->. rewrite (rd_Some _ _ _ Ha).
    apply list_lookup_insert_eq.
    rewrite lookup_replicate_2 in Hview by assumption.
    eapply lookup_lt_Some. eassumption.
Qed.

Lemma createBlob_quantises_by_lookup (data : list num) (i : nat) (x : R) :
  data !! i = Some (Fin x) -> -1 <= x < 1 ->
  exists q : Z,
    GeminiService.createBlob_int16 data !! i = Some q /\
    (-32768 <= q <= 32767)%Z /\
    Rabs (IZR q - x * 32768) < 1 /\ Rabs (IZR q) <= Rabs (x * 32768).
Proof.
  intros Hx Hr.
  destruct (ToInt16_in_range (x * 32768) ltac:(lra))
    as (q & Hq & Hb & Hpos & Hneg).
  exists q. rewrite (createBlob_int16_lookup _ _ _ Hx). cbn [mul].
  split; [f_equal; assumption|]. split; [assumption|].
  destruct (Rle_dec 0 (x * 32768)) as [H0|H0].
  - specialize (Hpos H0).
    assert (0 <= IZR q).
    { apply IZR_le. apply le_IZR. apply Rnot_lt_le. intros Hn.
      assert (IZR q <= -1) by (apply IZR_le; apply lt_IZR in Hn; lia).
      lra. }
    split; [apply Rabs_def1; lra|].
    rewrite !Rabs_pos_eq by lra. lra.
  - apply Rnot_le_lt in H0. specialize (Hneg H0).
    assert (IZR q <= 0).
    { apply IZR_le. apply le_IZR. apply Rnot_lt_le. intros Hn.
      assert (1 <= IZR q) by (apply IZR_le; apply lt_IZR in Hn; lia).
      lra. }
    split; [apply Rabs_def1; lra|].
    rewrite !Rabs_left1 by lra. lra.
Qed.

(** X20. [createBlob] turns a sample [x] with [-1 <= x < 1] into the
    integer part of [32768 x], taken towards zero: a value from -32768 to
    32767 within 1 of [32768 x] and not beyond it.  A sample of exactly 1
    does not fit in 16 bits and is stored as -32768, the opposite end of
    the range.  There are as many 16-bit samples as input samples. *)
Theorem createBlob_quantises_samples (data : list num) (i : nat) (x : R) :
  data !! i = Some (Fin x) ->
  length (GeminiService.createBlob_int16 data) = length data /\
  (-1 <= x < 1 ->
   exists q : Z,
     GeminiService.createBlob_int16 data !! i = Some q /\
     (-32768 <= q <= 32767)%Z /\
     Rabs (IZR q - x * 32768) < 1 /\ Rabs (IZR q) <= Rabs (x * 32768)) /\
  (x = 1 -> GeminiService.createBlob_int16 data !! i = Some (-32768)%Z).
Proof.
  intros Hx. split; [apply createBlob_int16_length|]. split.
  - intros Hr. apply createBlob_quantises_by_lookup; assumption.
  - intros ->. rewrite (createBlob_int16_lookup _ _ _ Hx).
    rewrite ToInt16_full_scale. reflexivity.
Qed.

(** ** Bytes and samples *)

Definition int16_range (v : Z) : Prop := (-32768 <= v <= 32767)%Z.
Definition byte_range (b : Z) : Prop := (0 <= b <= 255)%Z.

Lemma two_bytes (v : Z) :
  int16_range v ->
  let lo := (v mod 256)%Z in
  let hi := ((v / 256) mod 256)%Z in
  byte_range lo /\ byte_range hi /\
  (if (32768 <=? lo + 256 * hi)%Z then (lo + 256 * hi - 65536)%Z
   else (lo + 256 * hi)%Z) = v.
Proof.
  intros [Hlo Hhi] lo hi.
  pose proof (Z.mod_pos_bound v 256 ltac:(lia)) as B1.
  pose proof (Z.mod_pos_bound (v / 256) 256 ltac:(lia)) as B2.
  fold lo in B1. fold hi in B2.
  split; [unfold byte_range; lia|]. split; [unfold byte_range; lia|].
  assert (Hu : (lo + 256 * hi = v mod 65536)%Z).
  { unfold lo, hi. change 65536%Z with (256 * 256)%Z.
    rewrite Z.rem_mul_r by lia. reflexivity. }
  rewrite Hu.
  destruct (Z_lt_le_dec v 0) as [Hn|Hp].
  - assert (Hm : (v mod 65536 = v + 65536)%Z).
    { symmetry. apply (Z.mod_unique v 65536 (-1)); lia. }
    rewrite Hm.
    destruct (32768 <=? v + 65536)%Z eqn:E; [lia|apply Z.leb_gt in E; lia].
  - rewrite Z.mod_small by lia.
    destruct (32768 <=? v)%Z eqn:E; [apply Z.leb_le in E; lia|reflexivity].
Qed.

(** Induction on a list of bytes, two at a time. *)
Lemma pairs_ind (P : list Z -> Prop) :
  P [] -> (forall a, P [a]) -> (forall a b l, P l -> P (a :: b :: l)) ->
  forall l, P l.
Proof.
  intros H0 H1 H2 l.
  assert (H : P l /\ forall a, P (a :: l)).
  { induction l as [|b l [IH1 IH2]]; [split; [exact H0|exact H1]|].
    split; [apply IH2|]. intros a. apply H2. exact IH1. }
  exact (proj1 H).
Qed.

Lemma buffer_round_trip (l : list Z) :
  Forall int16_range l ->
  Forall byte_range (GeminiService.Uint8Array_of_buffer l) /\
  length (GeminiService.Uint8Array_of_buffer l) = (2 * length l)%nat /\
  GeminiService.Int16Array_of_buffer (GeminiService.Uint8Array_of_buffer l)
  = Some l.
Proof.
  induction 1 as [|v l Hv _ (IH1 & IH2 & IH3)].
  - repeat split. constructor.
  - destruct (two_bytes v Hv) as (B1 & B2 & E). cbv zeta in B1, B2, E.
    unfold GeminiService.Uint8Array_of_buffer in IH1, IH2, IH3.
    unfold GeminiService.Uint8Array_of_buffer. cbn [flat_map app].
    split; [constructor; [exact B1|constructor; [exact B2|exact IH1]]|].
    split; [cbn [length]; rewrite IH2; lia|].
    cbn [GeminiService.Int16Array_of_buffer]. cbv zeta.
    rewrite IH3, E. reflexivity.
Qed.

Lemma samples_of_bytes (bytes : list Z) :
  Forall byte_range bytes ->
  forall l, GeminiService.Int16Array_of_buffer bytes = Some l ->
    Forall int16_range l /\ length bytes = (2 * length l)%nat.
Proof.
  induction bytes as [|lo|lo hi rest IH] using pairs_ind; intros HF l Hl.
  - injection Hl as <-. split; [constructor|reflexivity].
  - discriminate.
  - cbn [GeminiService.Int16Array_of_buffer] in Hl. cbv zeta in Hl.
    inversion HF as [|? ? Hlo HF']. subst. inversion HF' as [|? ? Hhi HF''].
    subst.
    destruct (GeminiService.Int16Array_of_buffer rest) as [l'|] eqn:E;
      [|discriminate].
    injection Hl as <-.
    destruct (IH HF'' l' eq_refl) as [F L].
    split; [|cbn [length]; lia].
    constructor; [|assumption].
    unfold byte_range in Hlo, Hhi. unfold int16_range.
    destruct (32768 <=? lo + 256 * hi)%Z eqn:E';
      [apply Z.leb_le in E'|apply Z.leb_gt in E']; lia.
Qed.

Lemma odd_bytes_fail (bytes : list Z) :
  Nat.Odd (length bytes) -> GeminiService.Int16Array_of_buffer bytes = None.
Proof.
  induction bytes as [|lo|lo hi rest IH] using pairs_ind; intros Hodd.
  - destruct Hodd as [m Hm]. cbn [length] in Hm. lia.
  - reflexivity.
  - cbn [GeminiService.Int16Array_of_buffer]. cbv zeta.
    rewrite IH; [reflexivity|].
    destruct Hodd as [m Hm]. cbn [length] in Hm. exists (m - 1)%nat. lia.
Qed.

Lemma channel_mono_lookup (l : list Z) (i : nat) (q : Z) :
  l !! i = Some q ->
  GeminiService.channel_of l 1 (length l) 0 !! i
  = Some (Fin (IZR q / 32768)).
Proof.
  intros Hq. pose proof (lookup_lt_Some _ _ _ Hq) as Hi.
  unfold GeminiService.channel_of.
  replace (Nat.div (length l + 1 - 1) 1) with (length l)
    by (rewrite Nat.add_sub, Nat.div_1_r; reflexivity).
  refine (for_post (fun i (c : list num) => c !! i) _ _
            (fun j w => j = i -> w = Some (Fin (IZR q / 32768)))
            (length l) (new_Float32Array (length l)) _ i Hi eq_refl).
  - intros j j' c Hjj. apply list_lookup_insert_ne. assumption.
  - intros j c Hj Hview ->.
    rewrite Nat.mul_1_r, Nat.add_0_r, Hq.
    rewrite div_Fin by lra.
    replace (IZR q / 32768.0) with (IZR q / 32768) by lra.
    apply list_lookup_insert_eq.
    unfold new_Float32Array in Hview.
    rewrite lookup_replicate_2 in Hview by assumption.
    eapply lookup_lt_Some. eassumption.
Qed.

Lemma channel_mono_length (l : list Z) :
  length (GeminiService.channel_of l 1 (length l) 0) = length l.
Proof.
  unfold GeminiService.channel_of.
  apply (for_ind (fun _ c => length c = length l));
    [apply length_new_Float32Array|].
  intros i c _ H. rewrite length_insert. assumption.
Qed.

Lemma decode_mono (bytes l : list Z) :
  GeminiService.Int16Array_of_buffer bytes = Some l -> l <> [] ->
  GeminiService.decodeAudioData bytes 1
  = Some [GeminiService.channel_of l 1 (length l) 0].
Proof.
  intros Hl Hne. unfold GeminiService.decodeAudioData. rewrite Hl. cbv zeta.
  rewrite Nat.div_1_r. destruct l as [|q l]; [contradiction|].
  reflexivity.
Qed.

(** X21. [decodeAudioData] on one channel of bytes: an odd number of bytes
    fails, and so does no byte at all; [2 n] bytes with [n >= 1] give one
    channel of [n] samples, sample [i] being the signed 16-bit number of
    bytes [2 i] (low) and [2 i + 1] (high) divided by 32768, so every sample
    lies in [-1, 1). *)
Theorem decodeAudioData_scales_to_unit (bytes : list Z) :
  Forall byte_range bytes ->
  (Nat.Odd (length bytes) -> GeminiService.decodeAudioData bytes 1 = None) /\
  (bytes = [] -> GeminiService.decodeAudioData bytes 1 = None) /\
  (forall n, length bytes = (2 * n)%nat -> (1 <= n)%nat ->
     exists (l : list Z) (ch : list num),
       GeminiService.Int16Array_of_buffer bytes = Some l /\
       GeminiService.decodeAudioData bytes 1 = Some [ch] /\
       length l = n /\ length ch = n /\
       forall i q, l !! i = Some q ->
         int16_range q /\
         ch !! i = Some (Fin (IZR q / 32768)) /\
         -1 <= IZR q / 32768 < 1).
Proof.
  intros HF. split; [|split].
  - intros Hodd. unfold GeminiService.decodeAudioData.
    rewrite (odd_bytes_fail _ Hodd). reflexivity.
  - intros ->. reflexivity.
  - intros n Hn H1.
    assert (Hl : exists l, GeminiService.Int16Array_of_buffer bytes = Some l).
    { destruct (GeminiService.Int16Array_of_buffer bytes) as [l|] eqn:E;
        [eexists; reflexivity|].
      exfalso. clear HF H1. revert n Hn E.
      induction bytes as [|lo|lo hi rest IH] using pairs_ind; intros n Hn E.
      - discriminate.
      - cbn [length] in Hn. lia.
      - cbn [GeminiService.Int16Array_of_buffer] in E. cbv zeta in E.
        destruct (GeminiService.Int16Array_of_buffer rest) eqn:E';
          [discriminate|].
        apply (IH (n - 1)%nat); [cbn [length] in Hn; lia|reflexivity]. }
    destruct Hl as [l Hl].
    destruct (samples_of_bytes bytes HF l Hl) as [Hr Hlen].
    assert (Hne : l <> []).
    { intros ->. cbn [length] in Hlen. lia. }
    exists l, (GeminiService.channel_of l 1 (length l) 0).
    split; [assumption|]. split; [apply decode_mono; assumption|].
    split; [lia|]. split; [rewrite channel_mono_length; lia|].
    intros i q Hq.
    assert (Hqr : int16_range q).
    { rewrite Forall_lookup in Hr. eapply Hr. eassumption. }
    split; [assumption|]. split; [apply channel_mono_lookup; assumption|].
    destruct Hqr as [Q1 Q2]. apply IZR_le in Q1. apply IZR_le in Q2.
    lra.
Qed.

(** X22. What [createBlob] makes of samples in [-1, 1) can be read back:
    the bytes of its 16-bit samples, taken as [decodeAudioData] takes them,
    give one channel of as many samples, each within [1 / 32768] of the
    input sample and not beyond it. *)
Theorem pcm_round_trip (data : list num) :
  data <> [] ->
  Forall (fun a => exists x : R, a = Fin x /\ -1 <= x < 1) data ->
  exists ch : list num,
    GeminiService.decodeAudioData
      (GeminiService.Uint8Array_of_buffer
         (GeminiService.createBlob_int16 data)) 1 = Some [ch] /\
    length ch = length data /\
    forall i x, data !! i = Some (Fin x) ->
      exists y : R,
        ch !! i = Some (Fin y) /\
        Rabs (y - x) < 1 / 32768 /\ Rabs y <= Rabs x.
Proof.
  intros Hne HF.
  set (l := GeminiService.createBlob_int16 data).
  assert (Hlen : length l = length data) by apply createBlob_int16_length.
  assert (Hq : forall i x, data !! i = Some (Fin x) ->
             exists q, l !! i = Some q /\ int16_range q /\
                       Rabs (IZR q - x * 32768) < 1 /\
                       Rabs (IZR q) <= Rabs (x * 32768)).
  { intros i x Hx.
    assert (Hr : -1 <= x < 1).
    { rewrite Forall_lookup in HF. destruct (HF i _ Hx) as (x' & E & Hr).
      injection E as <-. assumption. }
    destruct (createBlob_quantises_by_lookup data i x Hx Hr)
      as (q & E & B & D1 & D2).
    exists q. repeat split; assumption || apply B. }
  assert (Hrange : Forall int16_range l).
  { apply Forall_lookup. intros i q Hi.
    pose proof (lookup_lt_Some _ _ _ Hi) as Hlt. rewrite Hlen in Hlt.
    destruct (lookup_lt_is_Some_2 data i Hlt) as [a Ha].
    rewrite Forall_lookup in HF. destruct (HF i a Ha) as (x & -> & Hr).
    destruct (Hq i x Ha) as (q' & E & B & _). congruence. }
  destruct (buffer_round_trip l Hrange) as (_ & _ & Hback).
  assert (Hlne : l <> []).
  { intros E. rewrite E in Hlen. destruct data; [contradiction|discriminate]. }
  exists (GeminiService.channel_of l 1 (length l) 0).
  split; [apply decode_mono; assumption|].
  split; [rewrite channel_mono_length; assumption|].
  intros i x Hx. destruct (Hq i x Hx) as (q & E & B & D1 & D2).
  exists (IZR q / 32768). split; [apply channel_mono_lookup; assumption|].
  assert (H32 : 0 < 32768) by lra.
  split.
  - replace (IZR q / 32768 - x) with ((IZR q - x * 32768) / 32768)
      by (field; lra).
    unfold Rdiv. rewrite Rabs_mult, (Rabs_pos_eq (/ 32768));
      [|left; apply Rinv_0_lt_compat; assumption].
    apply Rmult_lt_compat_r; [apply Rinv_0_lt_compat|]; assumption.
  - unfold Rdiv. rewrite Rabs_mult, (Rabs_pos_eq (/ 32768));
      [|left; apply Rinv_0_lt_compat; assumption].
    rewrite Rabs_mult, (Rabs_pos_eq 32768) in D2 by lra.
    apply (Rmult_le_reg_r 32768); [assumption|].
    rewrite Rmult_assoc, Rinv_l, Rmult_1_r by lra. assumption.
Qed.

(** ** Bytes through base64 *)

(** The binary string of some bytes, one character per byte. *)
Fixpoint binary_of (bytes : list Z) : string :=
  match bytes with
  | [] => EmptyString
  | b :: rest => String (Ascii.ascii_of_N (Z.to_N b)) (binary_of rest)
  end.

Lemma binary_of_snoc (l : list Z) (b : Z) :
  binary_of (l ++ [b])
  = String.append (binary_of l) (GeminiService.fromCharCode b).
Proof.
  induction l as [|a l IH]; [reflexivity|].
  cbn [app binary_of String.append]. rewrite IH. reflexivity.
Qed.

Lemma encode_loop (bytes : list Z) (n : nat) :
  (n <= length bytes)%nat ->
  for_ n
    (fun i binary =>
       String.append binary
         (GeminiService.fromCharCode (default 0%Z (bytes !! i))))
    EmptyString
  = binary_of (take n bytes).
Proof.
  induction n as [|n IH]; intros Hn.
  - rewrite take_0. reflexivity.
  - rewrite for_S, IH by lia.
    destruct (lookup_lt_is_Some_2 bytes n ltac:(lia)) as [b Hb].
    rewrite Hb. rewrite (take_S_r _ _ _ Hb), binary_of_snoc. reflexivity.
Qed.

Lemma binary_of_length (bytes : list Z) :
  String.length (binary_of bytes) = length bytes.
Proof.
  induction bytes as [|b l IH]; [reflexivity|].
  cbn [binary_of String.length length]. rewrite IH. reflexivity.
Qed.

Lemma charCodeAt_binary (bytes : list Z) (i : nat) (b : Z) :
  Forall byte_range bytes -> bytes !! i = Some b ->
  GeminiService.charCodeAt (binary_of bytes) i = b.
Proof.
  intros HF. revert i. induction HF as [|a l Ha _ IH]; intros i Hb.
  - discriminate.
  - destruct i as [|i].
    + injection Hb as <-. unfold GeminiService.charCodeAt.
      cbn [binary_of String.get].
      rewrite Ascii.N_ascii_embedding.
      * apply Z2N.id. destruct Ha. assumption.
      * destruct Ha as [A1 A2]. apply N2Z.inj_lt. rewrite Z2N.id by lia.
        change (Z.of_N 256) with 256%Z. lia.
    + cbn [lookup list_lookup] in Hb. unfold GeminiService.charCodeAt.
      cbn [binary_of String.get]. apply IH. assumption.
Qed.

(** X23. What [encode] makes of bytes, [decode] reads back, when [atob]
    undoes [btoa] as base64 does: the binary string carries one character
    per byte, and a character code is its byte.  [decode] fails where
    [atob] does. *)
Theorem base64_round_trip
  (btoa : string -> string) (atob : string -> option string)
  (bytes : list Z) :
  (forall s, atob (btoa s) = Some s) ->
  Forall byte_range bytes ->
  GeminiService.encode btoa bytes = btoa (binary_of bytes) /\
  GeminiService.decode atob (GeminiService.encode btoa bytes) = Some bytes /\
  (forall s, atob s = None -> GeminiService.decode atob s = None).
Proof.
  intros Hinv HF.
  assert (He : GeminiService.encode btoa bytes = btoa (binary_of bytes)).
  { unfold GeminiService.encode. cbv zeta.
    rewrite encode_loop by lia. rewrite firstn_all. reflexivity. }
  split; [exact He|]. split.
  - rewrite He. unfold GeminiService.decode. rewrite Hinv. cbv zeta.
    rewrite binary_of_length. f_equal.
    apply list_eq. intros i.
    destruct (decide (i < length bytes)%nat) as [Hi|Hi].
    + destruct (lookup_lt_is_Some_2 bytes i Hi) as [b Hb]. rewrite Hb.
      refine (for_post (fun i (l : list Z) => l !! i)
                (fun i bytes' =>
                   <[i := GeminiService.charCodeAt (binary_of bytes) i]>
                     bytes') _
                (fun j w => j = i -> w = Some b)
                (length bytes) (replicate (length bytes) 0%Z) _ i Hi
                eq_refl).
      * intros j j' l Hjj. apply list_lookup_insert_ne. assumption.
      * intros j l Hj Hview ->.
        rewrite (charCodeAt_binary bytes i b HF Hb).
        apply list_lookup_insert_eq.
        rewrite lookup_replicate_2 in Hview by assumption.
        eapply lookup_lt_Some. eassumption.
    + rewrite (lookup_ge_None_2 bytes) by lia.
      apply lookup_ge_None_2.
      match goal with
      | |- (length (for_ ?n ?f ?a) <= _)%nat =>
          assert (Hl : length (for_ n f a) = length a)
      end.
      { apply (for_ind (fun _ l =>
                 length l = length (replicate (length bytes) 0%Z)));
          [reflexivity|].
        intros j l _ H. rewrite length_insert. assumption. }
      rewrite Hl, length_replicate. lia.
  - intros s Hs. unfold GeminiService.decode. rewrite Hs. reflexivity.
Qed.

(** * Properties of the player *)

(** The two characters of a number of seconds. *)
Definition two_digits (r : Z) : string :=
  String (Ascii.ascii_of_N (48 + Z.to_N (r / 10)))
    (String (Ascii.ascii_of_N (48 + Z.to_N (r mod 10))) EmptyString).

Definition padded_seconds (r : nat) : bool :=
  String.eqb
    (App.padStart (NilZero.string_of_int (Z.to_int (Z.of_nat r))) 2 "0")
    (two_digits (Z.of_nat r)).

Lemma padded_seconds_all : forallb padded_seconds (seq 0 60) = true.
Proof. vm_compute. reflexivity. Qed.

Lemma padStart_seconds (r : Z) :
  (0 <= r <= 59)%Z ->
  App.padStart (NilZero.string_of_int (Z.to_int r)) 2 "0" = two_digits r.
Proof.
  intros Hr. pose proof padded_seconds_all as H.
  rewrite forallb_forall in H.
  specialize (H (Z.to_nat r)). unfold padded_seconds in H.
  rewrite Z2Nat.id in H by lia.
  apply String.eqb_eq. apply H. apply in_seq. lia.
Qed.

Lemma Int_part_IZR_id (z : Z) : Int_part (IZR z) = z.
Proof. symmetry. apply Int_part_spec. lra. Qed.

Lemma toString_integer other (z : Z) :
  Rabs (IZR z) < 10 ^ 21 ->
  App.toString other (Fin (IZR z)) = NilZero.string_of_int (Z.to_int z).
Proof.
  intros Hz. unfold App.toString, is_int. rewrite Int_part_IZR_id.
  destruct (Req_dec_T (IZR z) (IZR z)) as [_|N]; [|contradiction].
  destruct (Rlt_dec _ _) as [_|N]; [reflexivity|contradiction].
Qed.

Lemma big_enough : 60 < 10 ^ 21.
Proof. simpl Rpow_def.pow. lra. Qed.

(** X24. [formatTime] of a time [s >= 0]: the minutes [m] and the seconds
    [r] it prints are integers with [0 <= r <= 59] and [60 m + r] the
    whole seconds of [s]; below 1e21 minutes the text is the decimal [m],
    a colon and the two digits of [r].  Of [NaN] it prints [NaN:NaN]. *)
Theorem formatTime_minutes_and_seconds (other : R -> string) (s : R) :
  0 <= s ->
  App.formatTime other NaN = "NaN:NaN"%string /\
  exists m r : Z,
    (0 <= m)%Z /\ (0 <= r <= 59)%Z /\ Int_part s = (60 * m + r)%Z /\
    (IZR m < 10 ^ 21 ->
     App.formatTime other (Fin s)
     = String.append (NilZero.string_of_int (Z.to_int m))
         (String.append ":" (two_digits r))) /\
    String.length (two_digits r) = 2%nat.
Proof.
  intros Hs. split; [reflexivity|].
  pose proof (base_Int_part (s / 60)) as [M1 M2].
  set (m := Int_part (s / 60)).
  fold m in M1, M2.
  assert (Hm : (0 <= m)%Z).
  { apply le_IZR. apply Rnot_lt_le. intros Hn.
    assert (IZR m <= -1) by (apply IZR_le; apply lt_IZR in Hn; lia).
    lra. }
  pose proof (base_Int_part (s - 60 * IZR m)) as [R1 R2].
  set (r := Int_part (s - 60 * IZR m)).
  fold r in R1, R2.
  assert (Hr0 : (0 <= r)%Z).
  { apply le_IZR. apply Rnot_lt_le. intros Hn.
    assert (IZR r <= -1) by (apply IZR_le; apply lt_IZR in Hn; lia).
    lra. }
  assert (Hr1 : (r <= 59)%Z).
  { assert (Hlt : (r < 60)%Z) by (apply lt_IZR; lra). lia. }
  exists m, r. split; [assumption|]. split; [lia|]. split.
  - symmetry. apply Int_part_spec.
    rewrite plus_IZR, mult_IZR. lra.
  - split; [|reflexivity]. intros Hbig.
    unfold App.formatTime. cbv zeta.
    rewrite div_Fin, rem_Fin by lra.
    assert (Ht : trunc (s / 60) = m).
    { unfold trunc. destruct (Rle_dec 0 (s / 60)) as [_|N];
        [reflexivity|exfalso; apply N; lra]. }
    rewrite Ht. unfold App.Math_floor. fold m. fold r.
    rewrite !toString_integer.
    + rewrite padStart_seconds by lia. reflexivity.
    + apply IZR_le in Hr0. apply IZR_le in Hr1.
      rewrite Rabs_pos_eq by lra. pose proof big_enough. lra.
    + apply IZR_le in Hm. rewrite Rabs_pos_eq by lra. assumption.
Qed.

(** ** The audio player *)

Lemma le_Fin (x y : R) :
  App.le (Fin x) (Fin y) = if Rle_dec x y then true else false.
Proof. reflexivity. Qed.

(** A player that is playing a buffer of [d] seconds started at [s0]. *)
Definition playing (d s0 : R) (p : App.Player) : Prop :=
  App.context p = true /\ App.source p = true /\
  App.buffer p = Some (Fin d) /\ App.startedAt p = Fin s0 /\
  App.isPlaying p = true.

(** X25. A progress update while a buffer of [d > 0] seconds plays, at a
    clock [now] not before the start [s0]: up to the end the state gets the
    elapsed time [now - s0] and the progress [100 (now - s0) / d]; past the
    end it gets the duration, the progress 100, and stops playing.  Either
    way [0 <= currentTime <= d] and [0 <= progress <= 100].  Without a
    source (paused or stopped) the update changes nothing. *)
Theorem updateProgress_stays_in_range (now d s0 : R) (p : App.Player) :
  0 < d -> s0 <= now -> playing d s0 p ->
  let p' := App.updateProgress (Fin now) p in
  (exists t g : R,
     App.currentTime p' = Fin t /\ App.progress p' = Fin g /\
     0 <= t <= d /\ 0 <= g <= 100 /\
     (now - s0 <= d ->
      t = now - s0 /\ g = (now - s0) / d * 100 /\ App.isPlaying p' = true) /\
     (d < now - s0 -> t = d /\ g = 100 /\ App.isPlaying p' = false)) /\
  (forall q : App.Player,
     App.source q = false -> App.updateProgress (Fin now) q = q).
Proof.
  intros Hd Hnow (Hc & Hs & Hb & Hst & Hpl). cbv zeta. split.
  - unfold App.updateProgress. rewrite Hc, Hb, Hs, Hst. cbv zeta.
    cbn [sub add neg]. rewrite div_Fin by lra. cbn [mul App.Math_min].
    rewrite le_Fin. fold (now - s0).
    assert (H0 : 0 <= (now - s0) / d).
    { apply Rmult_le_pos; [lra|]. left. apply Rinv_0_lt_compat. assumption. }
    destruct (Rle_dec (now - s0) d) as [Hle|Hgt].
    + assert (H1 : (now - s0) / d <= 1).
      { apply (Rmult_le_reg_r d); [assumption|].
        unfold Rdiv. rewrite Rmult_assoc, Rinv_l by lra. lra. }
      exists (now - s0), ((now - s0) / d * 100).
      cbn [App.currentTime App.progress App.isPlaying].
      split; [reflexivity|].
      split; [rewrite Rmin_left by lra; reflexivity|].
      split; [lra|]. split; [lra|].
      split; [intros _; repeat split; assumption|intros; lra].
    + exists d, 100.
      cbn [App.currentTime App.progress App.isPlaying].
      split; [reflexivity|]. split; [reflexivity|].
      split; [lra|]. split; [lra|].
      split; [intros; lra|intros _; repeat split].
  - intros q Hq. unfold App.updateProgress. rewrite Hq.
    destruct (App.context q); [|reflexivity].
    destruct (App.buffer q); reflexivity.
Qed.

Lemma lt_abs_Fin (x y b : R) :
  (Math.abs (Fin x -. Fin y) <. Fin b)
  = if Rlt_dec (Rabs (x - y)) b then true else false.
Proof. cbn [sub add neg Math.abs]. apply lt_Fin. Qed.

(** X26. Pause and resume.  Pausing at clock [c] a player that started at
    [s0] stops the source; the stop ends the source, so its [onended]
    handler runs next, with the time [h] it closed over when the source was
    made.  After both the player is paused at [c - s0], and the progress
    updates change nothing until the next toggle.

    When [h] is at least 0.2 s from the duration [d], the handler changes
    nothing, and resuming at [c'] gives a player that plays again, started
    at [c' - (c - s0)]: a progress update at a later clock [c''] shows the
    elapsed time [(c - s0) + (c'' - c')], so the time spent paused does not
    count.

    When [h] is within 0.2 s of [d], the handler sets the progress to 100,
    and the next toggle does not resume: it restarts from 0.  This is the
    case of every source made after a playback that ran to the end: the
    update past the end leaves [currentTime = d], the toggle then restarts
    from 0, and the handler of that new source closes over [d]. *)
Theorem pause_and_resume_keep_the_position
  (c c' c'' d s0 g h : R) (cached : option num) (p : App.Player) :
  0 < d -> playing d s0 p -> App.progress p = Fin g -> g < 100 ->
  App.captured p = Fin h ->
  s0 <= c -> c' <= c'' -> (c - s0) + (c'' - c') <= d ->
  exists stopped : App.Player,
    App.togglePlayPause cached (Fin c) p = App.Done stopped /\
    let paused := App.onended (App.captured p) stopped in
    App.isPlaying paused = false /\
    App.pausedAt paused = Fin (c - s0) /\
    App.updateProgress (Fin c') paused = paused /\
    (0.2 <= Rabs (h - d) ->
     paused = stopped /\
     exists resumed : App.Player,
       App.togglePlayPause cached (Fin c') paused = App.Done resumed /\
       playing d (c' - (c - s0)) resumed /\
       App.currentTime (App.updateProgress (Fin c'') resumed)
       = Fin ((c - s0) + (c'' - c'))) /\
    (Rabs (h - d) < 0.2 ->
     App.progress paused = Fin 100 /\
     exists restarted : App.Player,
       App.togglePlayPause cached (Fin c') paused = App.Done restarted /\
       playing d (c' - 0) restarted /\
       App.currentTime (App.updateProgress (Fin c'') restarted)
       = Fin (c'' - c')) /\
    (forall (q : App.Player) (e : R),
       playing d s0 q -> d < e - s0 ->
       let q' := App.updateProgress (Fin e) q in
       App.togglePlayPause cached (Fin c') q'
       = App.Done (App.playAudio (Fin 0) (Fin c') q') /\
       App.captured (App.playAudio (Fin 0) (Fin c') q') = Fin d).
Proof.
  intros Hd (Hc & Hs & Hb & Hst & Hpl) Hg Hg100 Hh Hc0 Hc1 Hend.
  eexists. split.
  { unfold App.togglePlayPause. rewrite Hb, Hpl, Hc, Hst.
    cbn [sub add neg]. fold (c - s0). reflexivity. }
  cbv zeta. unfold App.onended. cbn [App.buffer]. rewrite ?Hb, Hh, lt_abs_Fin.
  destruct (Rlt_dec (Rabs (h - d)) 0.2) as [Hnear|Hfar].
  - cbn [App.isPlaying App.pausedAt App.progress App.duration
           App.currentTime App.context App.source App.buffer App.startedAt
           App.captured].
    split; [reflexivity|]. split; [reflexivity|].
    split; [unfold App.updateProgress;
            cbn [App.context App.buffer App.source]; rewrite ?Hb;
            reflexivity|].
    split; [intros Hfar; exfalso; lra|].
    split.
    + intros _. split; [reflexivity|]. eexists. split.
      { unfold App.togglePlayPause.
        cbn [App.buffer App.isPlaying App.progress App.pausedAt].
        rewrite ?Hb, le_Fin.
        destruct (Rle_dec 100 100) as [_|N]; [|exfalso; lra].
        unfold App.playAudio. cbn [App.buffer App.context]. rewrite ?Hb.
        cbn [sub add neg]. fold (c' - 0). reflexivity. }
      split; [repeat split; assumption|].
      unfold App.updateProgress.
      cbn [App.context App.buffer App.source App.startedAt]. rewrite ?Hb.
      cbv zeta. cbn [sub add neg]. rewrite le_Fin.
      destruct (Rle_dec (c'' + - (c' - 0)) d) as [_|N];
        [|exfalso; apply N; lra].
      cbn [App.currentTime]. f_equal. lra.
    + intros q e (Qc & Qs & Qb & Qst & _) He. cbv zeta.
      unfold App.updateProgress. rewrite Qc, Qb, Qs, Qst. cbv zeta.
      cbn [sub add neg]. rewrite le_Fin.
      destruct (Rle_dec (e + - s0) d) as [H|_]; [lra|].
      unfold App.togglePlayPause.
      cbn [App.buffer App.isPlaying App.progress]. rewrite ?Qb, le_Fin.
      destruct (Rle_dec 100 100) as [_|N]; [|exfalso; lra].
      split; [reflexivity|].
      unfold App.playAudio. cbn [App.buffer App.context]. rewrite ?Qb.
      reflexivity.
  - cbn [App.isPlaying App.pausedAt].
    split; [reflexivity|]. split; [reflexivity|].
    split; [unfold App.updateProgress;
            cbn [App.context App.buffer App.source]; rewrite ?Hb;
            reflexivity|].
    split.
    + intros _. split; [reflexivity|]. eexists. split.
      { unfold App.togglePlayPause.
        cbn [App.buffer App.isPlaying App.progress App.pausedAt].
        rewrite ?Hb, Hg, le_Fin.
        destruct (Rle_dec 100 g) as [H|_]; [exfalso; lra|].
        unfold App.playAudio. cbn [App.buffer App.context]. rewrite ?Hb.
        cbn [sub add neg]. fold (c' - (c - s0)). reflexivity. }
      split; [repeat split; assumption|].
      unfold App.updateProgress.
      cbn [App.context App.buffer App.source App.startedAt]. rewrite ?Hb.
      cbv zeta. cbn [sub add neg]. rewrite le_Fin.
      destruct (Rle_dec (c'' + - (c' - (c - s0))) d) as [_|N];
        [|exfalso; apply N; lra].
      cbn [App.currentTime]. f_equal. lra.
    + split; [intros Hnear; exfalso; lra|].
      intros q e (Qc & Qs & Qb & Qst & _) He. cbv zeta.
      unfold App.updateProgress. rewrite Qc, Qb, Qs, Qst. cbv zeta.
      cbn [sub add neg]. rewrite le_Fin.
      destruct (Rle_dec (e + - s0) d) as [H|_]; [lra|].
      unfold App.togglePlayPause.
      cbn [App.buffer App.isPlaying App.progress]. rewrite ?Qb, le_Fin.
      destruct (Rle_dec 100 100) as [_|N]; [|exfalso; lra].
      split; [reflexivity|].
      unfold App.playAudio. cbn [App.buffer App.context]. rewrite ?Qb.
      reflexivity.
Qed.

(** X27. Stopping resets the position whatever the state was, and a toggle
    without a buffer starts a load when nothing is cached and otherwise
    plays the cached buffer from 0 with its duration; pausing without an
    audio context fails. *)
Theorem stop_and_first_toggle (now : num) (p : App.Player) (d : num) :
  (let q := App.stopAudio p in
   App.isPlaying q = false /\ App.progress q = Fin 0 /\
   App.currentTime q = Fin 0 /\ App.duration q = Fin 0 /\
   App.source q = false /\ App.startedAt q = Fin 0 /\
   App.pausedAt q = Fin 0 /\ App.buffer q = App.buffer p /\
   App.updateProgress now q = q) /\
  (App.buffer p = None ->
   App.togglePlayPause None now p = App.Loading /\
   exists q, App.togglePlayPause (Some d) now p = App.Done q /\
             App.buffer q = Some d /\ App.duration q = d /\
             (App.context p = true ->
              App.isPlaying q = true /\ App.source q = true /\
              App.startedAt q = now -. 0)) /\
  (App.buffer p <> None -> App.isPlaying p = true -> App.context p = false ->
   forall cached, App.togglePlayPause cached now p = App.Throw).
Proof.
  split; [|split].
  - cbv zeta. unfold App.stopAudio.
    cbn [App.isPlaying App.progress App.currentTime App.duration App.source
           App.startedAt App.pausedAt App.buffer].
    repeat (split; [reflexivity|]).
    unfold App.updateProgress. cbn [App.context App.buffer App.source].
    destruct (App.context p); [|reflexivity].
    destruct (App.buffer p); reflexivity.
  - intros Hb. unfold App.togglePlayPause. rewrite Hb.
    split; [reflexivity|]. eexists. split; [reflexivity|].
    unfold App.playAudio. cbn [App.buffer App.context].
    destruct (App.context p);
      cbn [App.buffer App.duration App.isPlaying App.source App.startedAt];
      (split; [reflexivity|]); (split; [reflexivity|]).
    + intros _. repeat split.
    + intros H. discriminate.
  - intros Hb Hpl Hc cached. unfold App.togglePlayPause.
    destruct (App.buffer p); [|contradiction].
    rewrite Hpl, Hc. reflexivity.
Qed.

(** ** The two systems of the collision of V1 *)

(** A particle of the disk around [(off, 0, 0)]: planar distance
    [w * rad] from the centre for a [w] in [0, 1), height within 0.6. *)
Definition around (off rad : R) (a b c : num) : Prop :=
  exists x y z w : R,
    a = Fin x /\ b = Fin y /\ c = Fin z /\ 0 <= w < 1 /\
    (x - off) * (x - off) + z * z = (w * rad) * (w * rad) /\
    - 0.6 <= y <= 0.6.

Lemma system_body_around p (off sd : R) cIn cOut i
  (st : list num * list num) rnd k :
  unit_stream rnd -> radius p <> 0 ->
  let st' := fst (V1_objects.system_body p (Fin off) (Fin sd) cIn cOut i st
                    rnd k) in
  (exists a b c,
     fst st' = set3 (fst st) (i * 3) a b c /\ around off (radius p) a b c) /\
  length (snd st') = length (snd st).
Proof.
  intros Hrnd Hrad. destruct st as [pos cols].
  unfold V1_objects.system_body, bind, ret, random. cbn [fst snd].
  split; [|rewrite length_set3; reflexivity].
  unfold Math.pow.
  destruct (pow_unit (rnd k) 1.5 (Hrnd k) ltac:(lra)) as (w & E & Hw).
  rewrite E. cbn [mul]. rewrite div_Fin by assumption.
  replace (w * radius p / radius p) with w by (field; assumption).
  destruct (pow_unit w 3 Hw ltac:(lra)) as (v & E3 & Hv).
  rewrite E3.
  eexists _, _, _. split; [reflexivity|].
  cbn [mul add sub neg Math.cos Math.sin Math.PI].
  unfold Math.PI. cbn [mul add sub neg Math.cos Math.sin].
  eexists _, _, _, w.
  split; [reflexivity|]. split; [reflexivity|]. split; [reflexivity|].
  split; [assumption|]. split.
  - match goal with
    | |- (cos ?t * ?r + off - off) * _ + _ = _ =>
        replace (cos t * r + off - off) with (cos t * r) by ring;
        apply circle_point
    end.
  - pose proof (Hrnd (Datatypes.S (Datatypes.S k))) as H3.
    remember (rnd (Datatypes.S (Datatypes.S k))) as u eqn:Eu. clear Eu.
    split; nra.
Qed.

Lemma createSystem_lengths nc p off sd colors rnd k :
  let s := fst (V1_objects.createSystem nc p off sd colors rnd k) in
  length (V1_objects.pos s) = Nat.div (starsCount p * 3) 2 /\
  length (V1_objects.cols s) = Nat.div (starsCount p * 3) 2 /\
  V1_objects.spinDir s = sd /\ V1_objects.rotation_y s = Fin 0.
Proof.
  unfold V1_objects.createSystem, bind, ret. cbv zeta.
  pose proof (forR_ind
                (fun _ (st : list num * list num) =>
                   length (fst st) = Nat.div (starsCount p * 3) 2 /\
                   length (snd st) = Nat.div (starsCount p * 3) 2)
                (Nat.div (starsCount p + 1) 2)
                (V1_objects.system_body p off sd (nc (fst colors))
                   (nc (snd colors)))
                (new_Float32Array (Nat.div (starsCount p * 3) 2),
                 new_Float32Array (Nat.div (starsCount p * 3) 2)) rnd k) as H.
  destruct (forR _ _ _ rnd k) as [[pos cols] k'].
  cbn [fst snd] in H.
  cbn [fst snd V1_objects.pos V1_objects.cols V1_objects.spinDir
         V1_objects.rotation_y].
  destruct H as [H1 H2].
  - cbn [fst snd]. rewrite !length_new_Float32Array. split; reflexivity.
  - intros i [pos' cols'] k'' _ [L1 L2].
    unfold V1_objects.system_body, bind, ret, random. cbn [fst snd].
    rewrite !length_set3. split; assumption.
  - repeat split; assumption.
Qed.

Lemma createSystem_even nc p (off sd : R) colors rnd k (n : nat) :
  unit_stream rnd -> radius p <> 0 -> starsCount p = (2 * n)%nat ->
  particles n
    (V1_objects.pos (fst (V1_objects.createSystem nc p (Fin off) (Fin sd)
                            colors rnd k)))
    (fun _ => around off (radius p)).
Proof.
  intros Hrnd Hrad Hn. unfold V1_objects.createSystem, bind, ret. cbv zeta.
  rewrite Hn.
  replace (Nat.div (2 * n + 1) 2) with n
    by (apply (Nat.div_unique _ 2 n 1); lia).
  replace (Nat.div (2 * n * 3) 2) with (n * 3)%nat
    by (apply (Nat.div_unique _ 2 (n * 3) 0); lia).
  pose proof (loop_particles fst
                (V1_objects.system_body p (Fin off) (Fin sd)
                   (nc (fst colors)) (nc (snd colors)))
                rnd (fun _ => around off (radius p))) as H.
  specialize (H (fun i st k' =>
                   proj1 (system_body_around p off sd _ _ i st rnd k'
                            Hrnd Hrad))
                n (new_Float32Array (n * 3), new_Float32Array (n * 3)) k
                (length_new3 n)).
  destruct (forR _ _ _ rnd k) as [[pos cols] k'].
  cbn [fst snd] in H. cbn [fst snd V1_objects.pos]. exact H.
Qed.

Lemma or_else_nonzero (x : R) :
  x <> 0 -> V1_objects.or_else (Fin x) 1 = Fin x.
Proof.
  intros Hx. unfold V1_objects.or_else.
  destruct (Req_dec_T x 0) as [E|_]; [contradiction|reflexivity].
Qed.

(** X28. The collision of V1 is two systems of [starsCount / 2] particles
    each.  With an even [starsCount = 2 n], radius not 0 and samples in
    [0, 1), each has [n] particles in a disk of planar radius below
    [|radius|] and height within 0.6 around [(-4, 0, 0)] and [(4, 0, 0)].
    With an odd [starsCount = 2 n + 1] the count is not an integer and each
    array has [3 n + 1] entries, one more than [n] particles take.  A frame
    at time [t] turns the first system to [0.1 t] and the second to
    [- 0.1 t]; a [spinDir] of 0 counts as 1. *)
Theorem V1_collision_systems
  (nc : string -> THREE.Color.t) (p : GalaxyParams)
  (rnd : nat -> R) (k : nat) (t : R) :
  unit_stream rnd -> radius p <> 0 ->
  let sys := fst (V1_objects.generate_systems nc p rnd k) in
  (forall n, starsCount p = (2 * n)%nat ->
     particles n (V1_objects.pos (fst sys))
       (fun _ => around (-4) (radius p)) /\
     particles n (V1_objects.pos (snd sys))
       (fun _ => around 4 (radius p))) /\
  (forall n, starsCount p = (2 * n + 1)%nat ->
     length (V1_objects.pos (fst sys)) = (3 * n + 1)%nat /\
     length (V1_objects.pos (snd sys)) = (3 * n + 1)%nat) /\
  V1_objects.rotation_y (V1_objects.animate_system (Fin t) (fst sys))
  = Fin (t * 0.1) /\
  V1_objects.rotation_y (V1_objects.animate_system (Fin t) (snd sys))
  = Fin (- (t * 0.1)) /\
  (forall s, V1_objects.spinDir s = Fin 0 ->
     V1_objects.rotation_y (V1_objects.animate_system (Fin t) s)
     = Fin (t * 0.1)).
Proof.
  intros Hrnd Hrad sys. unfold sys, V1_objects.generate_systems, bind, ret.
  pose proof (createSystem_lengths nc p (Fin (-4)) (Fin 1)
                ("#4cc9f0", "#4361ee")%string rnd k) as L1.
  pose proof (fun n => createSystem_even nc p (-4) 1
                ("#4cc9f0", "#4361ee")%string rnd k n Hrnd Hrad) as E1.
  cbv zeta in L1.
  destruct (V1_objects.createSystem nc p (Fin (-4)) (Fin 1) _ rnd k)
    as [sys1 k1].
  pose proof (createSystem_lengths nc p (Fin 4) (Fin (-1))
                ("#f72585", "#b5179e")%string rnd k1) as L2.
  pose proof (fun n => createSystem_even nc p 4 (-1)
                ("#f72585", "#b5179e")%string rnd k1 n Hrnd Hrad) as E2.
  cbv zeta in L2.
  destruct (V1_objects.createSystem nc p (Fin 4) (Fin (-1)) _ rnd k1)
    as [sys2 k2].
  cbn [fst snd] in L1, L2, E1, E2. cbn [fst snd].
  destruct L1 as (P1 & _ & S1 & _). destruct L2 as (P2 & _ & S2 & _).
  split; [intros n Hn; split; [apply E1|apply E2]; assumption|].
  split.
  { intros n Hn. rewrite P1, P2, Hn.
    assert (H : Nat.div ((2 * n + 1) * 3) 2 = (3 * n + 1)%nat).
    { symmetry. apply (Nat.div_unique _ 2 (3 * n + 1) 1); lia. }
    rewrite H. split; reflexivity. }
  unfold V1_objects.animate_system. cbn [V1_objects.rotation_y].
  rewrite S1, S2, !or_else_nonzero by lra. cbn [mul].
  split; [f_equal; lra|]. split; [f_equal; lra|].
  intros s Hs. rewrite Hs. unfold V1_objects.or_else.
  destruct (Req_dec_T 0 0) as [_|N]; [|contradiction].
  cbn [mul]. f_equal. lra.
Qed.

(** ** The overlays of the quasar of V1 *)

(** A particle of a flat ring: planar radius in [lo, hi), height within
    [h]. *)
Definition flat_ring (lo hi h : R) (a b c : num) : Prop :=
  exists x y z r : R,
    a = Fin x /\ b = Fin y /\ c = Fin z /\ lo <= r < hi /\
    x * x + z * z = r * r /\ - h <= y <= h.

Lemma V1_disk_body_ring hex i (st : list num * list num) rnd k :
  unit_stream rnd ->
  exists a b c,
    fst (fst (V1_objects.disk_body hex i st rnd k))
    = set3 (fst st) (i * 3) a b c /\ flat_ring 0.15 1.95 0.01 a b c.
Proof.
  intros Hrnd. destruct st as [pos cols].
  unfold V1_objects.disk_body, bind, ret, random. cbn [fst snd].
  unfold Math.pow.
  destruct (pow_unit (rnd k) 0.5 (Hrnd k) ltac:(lra)) as (w & E & Hw).
  rewrite E. eexists _, _, _. split; [reflexivity|]. to_Fin Hrnd.
  eexists _, _, _, (w * 1.8 + 0.15).
  split; [reflexivity|]. split; [reflexivity|]. split; [reflexivity|].
  split; [lra|]. split; [apply circle_point|].
  pose proof (Hrnd (Datatypes.S (Datatypes.S k))). lra.
Qed.

Lemma V1_jet_body_column i jetPos rnd k :
  unit_stream rnd ->
  exists a b c,
    fst (V1_objects.jet_body i jetPos rnd k) = set3 jetPos (i * 3) a b c /\
    in_column 0.075 0 12 a b c.
Proof.
  intros Hrnd. unfold V1_objects.jet_body, bind, ret, random. cbn [fst snd].
  eexists _, _, _. split; [reflexivity|]. to_Fin Hrnd.
  eexists _, _, _.
  split; [reflexivity|]. split; [reflexivity|]. split; [reflexivity|].
  pose proof (Hrnd k). pose proof (Hrnd (Datatypes.S k)).
  pose proof (Hrnd (Datatypes.S (Datatypes.S k))). lra.
Qed.

(** A jet particle of V1 after a pass at time [t]: it rose by 0.15 and
    moved by 0.02 in the direction of the angle [5 t + y], or it passed
    12 and restarts at height 0 within 0.05 of the axis. *)
Definition spiralled_or_restarted (t : R)
  (v w : option num * option num * option num) : Prop :=
  forall x y z : R,
    v = (Some (Fin x), Some (Fin y), Some (Fin z)) ->
    (y + 0.15 <= 12 /\
     w = (Some (Fin (x + sin (t * 5 + (y + 0.15)) * 0.02)),
          Some (Fin (y + 0.15)),
          Some (Fin (z + cos (t * 5 + (y + 0.15)) * 0.02)))) \/
    (12 < y + 0.15 /\
     exists x' z' : R,
       w = (Some (Fin x'), Some (Fin 0), Some (Fin z')) /\
       - 0.05 <= x' <= 0.05 /\ - 0.05 <= z' <= 0.05).

Lemma V1_jet_round_frame t i j pts rnd k :
  i <> j -> view3 j (fst (V1_objects.jet_round t i pts rnd k)) = view3 j pts.
Proof.
  intros Hij. unfold V1_objects.jet_round, bind, ret, random. cbv zeta.
  destruct (_ >. _); cbn [fst snd]; unfold view3;
    rewrite !list_lookup_insert_ne by lia; reflexivity.
Qed.

Lemma V1_jet_round_particle (t : R) i pts rnd k :
  unit_stream rnd ->
  spiralled_or_restarted t (view3 i pts)
    (view3 i (fst (V1_objects.jet_round (Fin t) i pts rnd k))).
Proof.
  intros Hrnd x y z Hv. pose proof Hv as Hv'.
  apply view3_Some_inv in Hv' as (H0 & H1 & H2).
  assert (Hl : (i * 3 + 2 < length pts)%nat)
    by (eapply lookup_lt_Some; eassumption).
  unfold V1_objects.jet_round, bind, ret, random. cbv zeta.
  rewrite (rd_Some _ _ _ H1). cbn [add].
  rewrite (rd_insert_ne pts _ (i * 3)) by lia.
  rewrite (rd_Some _ _ _ H0).
  rewrite (rd_insert_eq pts) by lia.
  rewrite !(rd_insert_ne _ _ (i * 3 + 2)) by lia.
  rewrite (rd_Some _ _ _ H2).
  rewrite !(rd_insert_ne _ _ (i * 3 + 1)) by lia.
  rewrite (rd_insert_eq pts) by lia.
  cbn [mul add Math.sin Math.cos]. rewrite gt_Fin.
  pose proof (Hrnd k). pose proof (Hrnd (Datatypes.S k)).
  destruct (Rlt_dec 12 (y + 0.15)) as [Hgt|Hle]; cbn [fst snd].
  - right. split; [assumption|]. to_Fin Hrnd. eexists _, _.
    split; [unfold view3; through_writes; reflexivity|split; lra].
  - left. split; [lra|]. unfold view3. through_writes. reflexivity.
Qed.

(** X29. The overlays of the quasar of V1, for samples in [0, 1).  The
    accretion disk is generated as a flat ring: planar radius
    [0.15 <= r < 1.95], height within 0.01; its frame sets the rotation to
    [8 t].  The jet starts in the column of half-width 0.075 and heights 0
    to 12.  One pass of the jet loop at time [t] moves a finite particle up
    by 0.15 and sideways by exactly 0.02, in the direction of the angle
    [5 t + y] of its new height, or, when it passed 12, restarts it at
    height 0 within 0.05 of the axis; so the heights stay between 0 and
    12, while the distance from the axis is not bounded by the pass. *)
Theorem V1_quasar_overlays
  (hex : N -> THREE.Color.t) (rnd : nat -> R) (k : nat) (t : R)
  (pts : list num) (i : nat) :
  unit_stream rnd ->
  (i * 3 + 2 < length pts)%nat ->
  particles V1_objects.diskCount
    (fst (fst (V1_objects.generate_disk hex rnd k)))
    (fun _ => flat_ring 0.15 1.95 0.01) /\
  V1_objects.animate_disk (Fin t) = Fin (t * 8) /\
  particles V1_objects.jetCount (fst (V1_objects.generate_jet rnd k))
    (fun _ => in_column 0.075 0 12) /\
  (let pts' := fst (V1_objects.animate_quasar_jet (Fin t) pts rnd k) in
   spiralled_or_restarted t (view3 i pts) (view3 i pts') /\
   forall x y z x' y' z' : R,
     view3 i pts = (Some (Fin x), Some (Fin y), Some (Fin z)) ->
     view3 i pts' = (Some (Fin x'), Some (Fin y'), Some (Fin z')) ->
     (0 <= y <= 12 -> 0 <= y' <= 12) /\
     (y + 0.15 <= 12 ->
      (x' - x) * (x' - x) + (z' - z) * (z' - z) = 0.02 * 0.02)).
Proof.
  intros Hrnd Hlen. split; [|split; [|split]].
  - unfold V1_objects.generate_disk.
    apply (loop_particles fst); [|apply length_new3].
    intros j st k'. apply V1_disk_body_ring. assumption.
  - reflexivity.
  - unfold V1_objects.generate_jet.
    apply (loop_particles (fun s : list num => s)); [|apply length_new3].
    intros j st k'. apply V1_jet_body_column. assumption.
  - cbv zeta. pose proof (thirds_lt _ _ Hlen) as Hi.
    assert (H : spiralled_or_restarted t (view3 i pts)
                  (view3 i (fst (V1_objects.animate_quasar_jet (Fin t) pts
                                   rnd k)))).
    { unfold V1_objects.animate_quasar_jet.
      apply (loop_rounds (V1_objects.jet_round (Fin t)) rnd
               (fun _ => spiralled_or_restarted t)); [| |assumption].
      - intros. apply V1_jet_round_frame. assumption.
      - intros. apply V1_jet_round_particle. assumption. }
    split; [exact H|].
    intros x y z x' y' z' Hv Hv'.
    destruct (H x y z Hv) as [[Hle E]|(Hgt & a & c & E & Ha & Hc)];
      rewrite E in Hv'.
    + assert (Ex : x' = x + sin (t * 5 + (y + 0.15)) * 0.02).
      { pose proof (f_equal (fun v => fst (fst v)) Hv') as Q.
        cbn [fst] in Q. injection Q as Q. lra. }
      assert (Ey : y' = y + 0.15).
      { pose proof (f_equal (fun v => snd (fst v)) Hv') as Q.
        cbn [fst snd] in Q. injection Q as Q. lra. }
      assert (Ez : z' = z + cos (t * 5 + (y + 0.15)) * 0.02).
      { pose proof (f_equal snd Hv') as Q.
        cbn [snd] in Q. injection Q as Q. lra. }
      split; [intros; lra|]. intros _. rewrite Ex, Ez.
      pose proof (sin2_cos2 (t * 5 + (y + 0.15))) as Hsc.
      unfold Rsqr in Hsc.
      replace ((x + sin (t * 5 + (y + 0.15)) * 0.02 - x)
               * (x + sin (t * 5 + (y + 0.15)) * 0.02 - x)
               + (z + cos (t * 5 + (y + 0.15)) * 0.02 - z)
                 * (z + cos (t * 5 + (y + 0.15)) * 0.02 - z))
        with (0.02 * 0.02
              * (sin (t * 5 + (y + 0.15)) * sin (t * 5 + (y + 0.15))
                 + cos (t * 5 + (y + 0.15)) * cos (t * 5 + (y + 0.15))))
        by ring.
      rewrite Hsc. ring.
    + assert (Ey : y' = 0).
      { pose proof (f_equal (fun v => snd (fst v)) Hv') as Q.
        cbn [fst snd] in Q. injection Q as Q. lra. }
      split; [intros; lra|intros; lra].
Qed.

(** ** The further properties at concrete inputs *)

(** One particle of galaxy A, at [(3, 0, 4)] from its centre. *)
Definition one_of_galaxy_A : Points :=
  {| position := [Fin 0; Fin 0; Fin 0];
     color := [Fin 1; Fin 1; Fin 1];
     userData := {| velocities := None;
                    initialPositions := Some [Fin 3; Fin 0; Fin 4];
                    isGalaxyA := Some [true] |};
     rotation_y := Fin 0;
     opacity := Fin 0.8 |}.

Lemma example_params_valid_arms : valid_arms example_params.
Proof.
  unfold valid_arms. cbn. split; [lra|]. split; [lia|]. split; lra.
Defined.

Lemma elliptical_fills_ellipsoid_witness :
  unit_stream halves /\ 0 <= radius example_params /\
  particles (starsCount example_params)
    (position (fst (V2.generate white (set_type example_params ELLIPTICAL)
                      halves 0%nat)))
    (fun _ => in_ellipsoid (radius example_params) 0.7 0.85).
Proof.
  split; [exact halves_unit|]. split; [cbn; lra|].
  exact (proj1 (elliptical_fills_ellipsoid white keep_hue example_params
                  halves 0%nat halves_unit ltac:(cbn; lra))).
Defined.

Lemma spiral_particles_follow_arms_witness :
  unit_stream halves /\ valid_arms example_params /\
  SPIRAL <> ELLIPTICAL /\ SPIRAL <> LENTICULAR /\
  particles (starsCount example_params)
    (position (fst (V2.generate white (set_type example_params SPIRAL)
                      halves 0%nat)))
    (on_arm example_params 0.3).
Proof.
  split; [exact halves_unit|]. split; [exact example_params_valid_arms|].
  split; [discriminate|]. split; [discriminate|].
  exact (proj1 (spiral_particles_follow_arms white keep_hue SPIRAL
                  example_params halves 0%nat empty_scene halves_unit
                  example_params_valid_arms ltac:(discriminate)
                  ltac:(discriminate))).
Defined.

Lemma lenticular_bulge_and_disk_witness :
  unit_stream halves /\ valid_arms example_params /\
  particles (starsCount example_params)
    (position (fst (V2.generate white (set_type example_params LENTICULAR)
                      halves 0%nat)))
    (in_lenticular example_params 0.35 0.12 (starsCount example_params)).
Proof.
  split; [exact halves_unit|]. split; [exact example_params_valid_arms|].
  exact (proj1 (lenticular_bulge_and_disk white keep_hue example_params
                  halves 0%nat halves_unit example_params_valid_arms)).
Defined.

Lemma quasar_disk_is_a_ring_witness :
  unit_stream halves /\
  two_tone (insideColor example_params) = rgb 1 0 0 /\
  two_tone (outsideColor example_params) = rgb 0 0 1 /\
  disk_particles V2.quasar_count halves 0 1.5 0.8 6 0.05 6 1 0 0 0 0 1
    (fst (V2.generate two_tone (set_type example_params QUASAR)
            halves 0%nat)).
Proof.
  split; [exact halves_unit|]. split; [reflexivity|]. split; [reflexivity|].
  exact (proj1 (proj2 (quasar_disk_is_a_ring two_tone keep_hue example_params
                         halves 0%nat 1 0 0 0 0 1 halves_unit eq_refl
                         eq_refl))).
Defined.

Lemma supernova_is_generated_isotropic_witness :
  unit_stream halves /\
  exists v,
    velocities (userData (fst (V2.generate white
                                 (set_type example_params SUPERNOVA)
                                 halves 0%nat))) = Some v /\
    particles V2.supernova_count v (fun _ => has_speed 0.8 5.8).
Proof.
  split; [exact halves_unit|].
  exact (proj1 (supernova_is_generated_isotropic white keep_hue
                  example_params halves 0%nat halves_unit)).
Defined.

Lemma collision_generates_two_flagged_disks_witness :
  unit_stream halves /\
  exists (ip : list num) (isA : list bool),
    userData (fst (V3.generate white keep_hue
                     (set_type example_params COLLISION) halves 0%nat))
    = {| velocities := None; initialPositions := Some ip;
         isGalaxyA := Some isA |} /\
    (forall i, (i < V3.collision_count)%nat ->
       exists f, isA !! i = Some f /\
                 (f = true <-> (2 * i < V3.collision_count)%nat)) /\
    particles V3.collision_count ip
      (fun _ => in_disk (radius example_params) 0.25).
Proof.
  split; [exact halves_unit|].
  exact (collision_generates_two_flagged_disks white keep_hue example_params
           halves 0%nat halves_unit).
Defined.

Lemma V2_collision_disks_and_bridge_witness :
  unit_stream halves /\
  particles_at (starsCount example_params)
    (position (fst (V2.generate white (set_type example_params COLLISION)
                      halves 0%nat)))
    (round_start (fun _ => bridge_draws halves) 0)
    (bridged halves (radius example_params) (starsCount example_params)).
Proof.
  split; [exact halves_unit|].
  exact (V2_collision_disks_and_bridge white example_params halves 0%nat
           halves_unit).
Defined.

Lemma collision_particles_orbit_their_centre_witness :
  initialPositions (userData one_of_galaxy_A) = Some [Fin 3; Fin 0; Fin 4] /\
  isGalaxyA (userData one_of_galaxy_A) = Some [true] /\
  view3 0 [Fin 3; Fin 0; Fin 4] = (Some (Fin 3), Some (Fin 0), Some (Fin 4)) /\
  [true] !! 0%nat = Some true /\
  (0 * 3 + 2 < length (position one_of_galaxy_A))%nat /\
  exists s' : Points,
    V3.animate_collision (Fin 1) one_of_galaxy_A = Some s' /\
    userData s' = userData one_of_galaxy_A /\
    view3 0 (position s')
    = (Some (Fin (3 * cos (1 * 0.5) - 4 * sin (1 * 0.5)
                  + (8 * cos (1 * 0.4)
                     - Rmax 0 (1 - Rabs (8 * cos (1 * 0.4)) / 5) * 2))),
       Some (Fin (0 + sin (1 + 3) * 0.2)),
       Some (Fin (3 * sin (1 * 0.5) + 4 * cos (1 * 0.5)))).
Proof.
  split; [reflexivity|]. split; [reflexivity|]. split; [reflexivity|].
  split; [reflexivity|]. split; [cbn; lia|].
  destruct (collision_particles_orbit_their_centre 1 one_of_galaxy_A
              [Fin 3; Fin 0; Fin 4] [true] 0 3 0 4 true eq_refl eq_refl
              eq_refl eq_refl ltac:(cbn; lia))
    as (s' & H1 & H2 & H3 & _).
  exists s'. split; [exact H1|]. split; [exact H2|exact H3].
Defined.

(** A buffer that holds ones where the generated one holds zeros. *)
Definition ones : list num := replicate (V3.collision_count * 3) (Fin 1).

Lemma collision_positions_start_at_origin_witness :
  let s := fst (V3.generate white keep_hue
                  (set_type example_params COLLISION) halves 0%nat) in
  unit_stream halves /\
  length ones = length (position s) /\
  (0 < V3.collision_count)%nat /\
  position s = replicate (V3.collision_count * 3) (Fin 0) /\
  exists ip isA,
    initialPositions (userData s) = Some ip /\
    isGalaxyA (userData s) = Some isA /\
    (exists s', V3.animate_collision (Fin 1) s = Some s' /\
                position <$> V3.animate_collision (Fin 1)
                               (set_position s ones)
                = Some (position s')) /\
    exists (s' : Points) (rx ry rz : R) (f : bool),
      V3.animate_collision (Fin 1) (set_position s ones) = Some s' /\
      view3 0 ip = (Some (Fin rx), Some (Fin ry), Some (Fin rz)) /\
      isA !! 0%nat = Some f /\
      (f = true <-> (2 * 0 < V3.collision_count)%nat) /\
      view3 0 (position s')
      = (Some (Fin (rx * cos (1 * 0.5) - rz * sin (1 * 0.5)
                    + (if f
                       then 8 * cos (1 * 0.4)
                            - Rmax 0 (1 - Rabs (8 * cos (1 * 0.4)) / 5) * 2
                       else - (8 * cos (1 * 0.4))
                            + Rmax 0 (1 - Rabs (8 * cos (1 * 0.4)) / 5) * 2))),
         Some (Fin (ry + sin (1 + rx) * 0.2)),
         Some (Fin (rx * sin (1 * 0.5) + rz * cos (1 * 0.5)))).
Proof.
  intros s.
  destruct (collision_positions_start_at_origin white keep_hue example_params
              halves 0%nat)
    as (Hzero & ip & isA & Hip & HisA & Hover & Hstep).
  fold s in Hzero, Hip, HisA, Hover, Hstep.
  assert (Hlen : length ones = length (position s)).
  { rewrite Hzero. unfold ones. rewrite !length_replicate. reflexivity. }
  assert (Hpos : (0 < V3.collision_count)%nat).
  { unfold V3.collision_count. lia. }
  split; [exact halves_unit|]. split; [exact Hlen|]. split; [exact Hpos|].
  split; [exact Hzero|].
  exists ip, isA. split; [exact Hip|]. split; [exact HisA|].
  split; [exact (Hover (Fin 1) ones Hlen)|].
  exact (Hstep halves_unit 1 ones 0%nat Hlen Hpos).
Defined.

Lemma supernova_shell_expands_witness :
  0 <= 1 /\
  velocities (userData one_particle) = Some [Fin 1; Fin 0; Fin 0] /\
  Forall finite [Fin 1; Fin 0; Fin 0] /\
  length [Fin 1; Fin 0; Fin 0] = (3 * 1)%nat /\
  length (position one_particle) = (3 * 1)%nat /\
  length (color one_particle) = (3 * 1)%nat /\
  exists (s' : Points) (pr : R),
    V3.animate_supernova (Fin 1) one_particle = Some s' /\
    V3.supernova_progress (Fin 1) = Fin pr /\ 0 <= pr < 1 /\
    opacity s' = Fin (Rmax 0 (1 - pr * 1.1)).
Proof.
  split; [lra|]. split; [reflexivity|]. split; [apply Forall_finite_3|].
  split; [reflexivity|]. split; [reflexivity|]. split; [reflexivity|].
  destruct (supernova_shell_expands 1 one_particle [Fin 1; Fin 0; Fin 0] 1
              ltac:(lra) eq_refl (Forall_finite_3 1 0 0) eq_refl eq_refl
              eq_refl) as (s' & pr & H1 & H2 & H3 & H4 & _).
  exists s', pr. split; [exact H1|]. split; [exact H2|].
  split; [exact H3|exact H4].
Defined.

Lemma event_steps_need_their_userData_witness :
  velocities (userData elliptical_stars) = None /\
  position elliptical_stars <> [] /\
  V3.animate_supernova (Fin 1) elliptical_stars = None.
Proof.
  split; [reflexivity|]. split; [discriminate|].
  exact (proj1 (proj1 (event_steps_need_their_userData (Fin 1)
                         elliptical_stars) eq_refl)
           ltac:(discriminate)).
Defined.

Lemma V3_quasar_turns_and_flattens_witness :
  position one_particle !! (0 * 3)%nat = Some (Fin 3) /\
  position one_particle !! (0 * 3 + 2)%nat = Some (Fin 4) /\
  exists (s' : Points) (angle y' : R),
    V3.animate_quasar (Fin 1) one_particle = Some s' /\
    view3 0 (position s')
    = (Some (Fin (3 * cos angle - 4 * sin angle)), Some (Fin y'),
       Some (Fin (3 * sin angle + 4 * cos angle))) /\
    angle * (sqrt (3 * 3 + 4 * 4) + 0.3) = 0.16 /\ 0 < angle <= 8 / 15 /\
    y' = sin (1 * 4 + sqrt (3 * 3 + 4 * 4) * 2) * 0.01 /\
    - 0.01 <= y' <= 0.01.
Proof.
  split; [reflexivity|]. split; [reflexivity|].
  exact (V3_quasar_turns_and_flattens 1 one_particle 0 3 4 eq_refl eq_refl).
Defined.

Lemma V2_quasar_turns_and_drifts_witness :
  view3 0 (position one_particle)
  = (Some (Fin 3), Some (Fin 0), Some (Fin 4)) /\
  exists (s' : Points) (angle y' : R),
    V2.animate_quasar (Fin 1) one_particle = Some s' /\
    view3 0 (position s')
    = (Some (Fin (3 * cos angle - 4 * sin angle)), Some (Fin y'),
       Some (Fin (3 * sin angle + 4 * cos angle))) /\
    angle * (sqrt (3 * 3 + 4 * 4) + 0.5) = 0.1 /\ 0 < angle <= 1 / 5 /\
    y' = 0 + sin (1 * 2 + sqrt (3 * 3 + 4 * 4)) * 0.002 /\
    - 0.002 <= y' - 0 <= 0.002.
Proof.
  split; [reflexivity|].
  exact (V2_quasar_turns_and_drifts 1 one_particle 0 3 0 4 eq_refl).
Defined.

(** One jet particle on the axis, at height 1. *)
Definition one_jet_particle : list num := [Fin 0; Fin 1; Fin 0].

(** A sphere without vertices, for the black hole. *)
Definition no_sphere : num -> nat -> nat -> list num := fun _ _ _ => [].

Definition a_glow : Object3D.t :=
  Object3D.set_name (Object3D.new 0 (Fin 1)) "quasar_core_glow".

(** An explosion of one particle at the start point, moving along x. *)
Definition one_spark : V1_objects.Explosion :=
  {| V1_objects.expPos := [Fin 2.5; Fin 0.5; Fin 1.2];
     V1_objects.expColors := [Fin 1; Fin 1; Fin 1];
     V1_objects.sizes := [Fin 0.1];
     V1_objects.velocities := [Fin 4; Fin 0; Fin 0];
     V1_objects.material_opacity := Fin 0.9 |}.

Lemma jet_particles_rise_or_restart_witness :
  unit_stream halves /\
  (0 * 3 + 2 < length one_jet_particle)%nat /\
  rose_or_restarted 0.4 20 (view3 0 one_jet_particle)
    (view3 0 (fst (V3_objects.animate_quasar_jet one_jet_particle halves
                     0%nat))).
Proof.
  split; [exact halves_unit|]. split; [cbn; lia|].
  exact (proj1 (jet_particles_rise_or_restart one_jet_particle halves 0 0
                  halves_unit ltac:(cbn; lia))).
Defined.

Lemma quasar_jets_share_one_array_witness :
  unit_stream halves /\
  exists jPos,
    quasar_objects
      (fst (fst (V3_objects.generate_additional no_sphere
                   (set_type example_params QUASAR) [] halves 0%nat))) []
      (snd (fst (V3_objects.generate_additional no_sphere
                   (set_type example_params QUASAR) [] halves 0%nat)))
      (length (@nil (list num)) + 2) jPos /\
    particles V3_objects.jet_count jPos (fun _ => in_column 0.025 0 20) /\
    two_passes V3_objects.animate_quasar_jet
      (V3_objects.animate_additional (Fin 1))
      (fst (fst (V3_objects.generate_additional no_sphere
                   (set_type example_params QUASAR) [] halves 0%nat)))
      (snd (fst (V3_objects.generate_additional no_sphere
                   (set_type example_params QUASAR) [] halves 0%nat)))
      (length (@nil (list num)) + 2) jPos.
Proof.
  split; [exact halves_unit|].
  exact (proj1 (quasar_jets_share_one_array no_sphere example_params []
                  halves 0%nat (Fin 1) halves_unit)).
Defined.

Lemma core_and_glow_pulse_witness :
  0 <= 1 /\
  Object3D.name a_glow = "quasar_core_glow"%string /\
  exists s : R,
    V3_objects.animate_object (Fin 1) a_glow [] halves 0%nat
    = (Object3D.set_scale a_glow (Fin s) (Fin s) (Fin s), [], 0%nat) /\
    s = 1 + sin (1 * 12) * 0.25 /\ 0.75 <= s <= 1.25.
Proof.
  split; [lra|]. split; [reflexivity|].
  exact (proj1 (proj2 (core_and_glow_pulse 1 a_glow [] halves 0%nat
                         ltac:(lra))) eq_refl).
Defined.

Lemma one_spark_is_an_explosion : explosion_of 1 one_spark.
Proof. unfold explosion_of. cbn. repeat split. Defined.

Lemma explosion_expands_and_fades_witness :
  explosion_of 1 one_spark /\ (0 < 1)%nat /\
  view3 0 (V1_objects.expPos one_spark)
  = (Some (Fin 2.5), Some (Fin 0.5), Some (Fin 1.2)) /\
  view3 0 (V1_objects.velocities one_spark)
  = (Some (Fin 4), Some (Fin 0), Some (Fin 0)) /\
  V1_objects.sizes one_spark !! 0%nat = Some (Fin 0.1) /\
  V1_objects.material_opacity one_spark = Fin 0.9 /\
  view3 0 (V1_objects.expPos (explosion_frames 100 one_spark))
  = (Some (Fin (2.5 + INR 100 * (4 * 0.015))),
     Some (Fin (0.5 + INR 100 * (0 * 0.015))),
     Some (Fin (1.2 + INR 100 * (0 * 0.015)))).
Proof.
  split; [exact one_spark_is_an_explosion|]. split; [lia|].
  split; [reflexivity|]. split; [reflexivity|]. split; [reflexivity|].
  split; [reflexivity|].
  destruct (explosion_expands_and_fades 100 one_spark 1 0
              2.5 0.5 1.2 4 0 0 0.1 0.9 one_spark_is_an_explosion
              ltac:(lia) eq_refl eq_refl eq_refl eq_refl)
    as (_ & _ & _ & H & _).
  exact H.
Defined.

Lemma explosion_starts_at_one_point_witness :
  unit_stream halves /\
  particles V1_objects.expCount
    (V1_objects.expPos (fst (V1_objects.generate_explosion
                               (fun _ _ _ => rgb 1 1 1) halves 0%nat)))
    (fun _ => at_start).
Proof.
  split; [exact halves_unit|].
  destruct (explosion_starts_at_one_point (fun _ _ _ => rgb 1 1 1) halves
              0%nat halves_unit) as (_ & H & _).
  exact H.
Defined.

(** One sample at half scale, and the two bytes of 16384. *)
Definition half_scale : list num := [Fin 0.5].
Definition half_scale_bytes : list Z := [0%Z; 64%Z].

Lemma half_scale_in_range :
  Forall (fun a => exists x : R, a = Fin x /\ -1 <= x < 1) half_scale.
Proof.
  constructor; [|constructor]. exists 0.5. split; [reflexivity|lra].
Defined.

Lemma half_scale_bytes_range : Forall byte_range half_scale_bytes.
Proof. repeat constructor; unfold byte_range; lia. Defined.

Lemma createBlob_quantises_samples_witness :
  half_scale !! 0%nat = Some (Fin 0.5) /\
  length (GeminiService.createBlob_int16 half_scale) = length half_scale.
Proof.
  split; [reflexivity|].
  exact (proj1 (createBlob_quantises_samples half_scale 0 0.5 eq_refl)).
Defined.

Lemma decodeAudioData_scales_to_unit_witness :
  Forall byte_range half_scale_bytes /\
  (half_scale_bytes = [] ->
   GeminiService.decodeAudioData half_scale_bytes 1 = None).
Proof.
  split; [exact half_scale_bytes_range|].
  exact (proj1 (proj2 (decodeAudioData_scales_to_unit half_scale_bytes
                         half_scale_bytes_range))).
Defined.

Lemma pcm_round_trip_witness :
  half_scale <> [] /\
  Forall (fun a => exists x : R, a = Fin x /\ -1 <= x < 1) half_scale /\
  exists ch : list num,
    GeminiService.decodeAudioData
      (GeminiService.Uint8Array_of_buffer
         (GeminiService.createBlob_int16 half_scale)) 1 = Some [ch] /\
    length ch = length half_scale /\
    forall i x, half_scale !! i = Some (Fin x) ->
      exists y : R,
        ch !! i = Some (Fin y) /\
        Rabs (y - x) < 1 / 32768 /\ Rabs y <= Rabs x.
Proof.
  split; [discriminate|]. split; [exact half_scale_in_range|].
  exact (pcm_round_trip half_scale ltac:(discriminate) half_scale_in_range).
Defined.

Lemma base64_round_trip_witness :
  (forall s : string, Some ((fun x : string => x) s) = Some s) /\
  Forall byte_range half_scale_bytes /\
  GeminiService.decode Some
    (GeminiService.encode (fun x => x) half_scale_bytes)
  = Some half_scale_bytes.
Proof.
  split; [reflexivity|]. split; [exact half_scale_bytes_range|].
  exact (proj1 (proj2 (base64_round_trip (fun x => x) Some half_scale_bytes
                         (fun s => eq_refl) half_scale_bytes_range))).
Defined.

Lemma formatTime_minutes_and_seconds_witness :
  0 <= 125 /\
  App.formatTime (fun _ => EmptyString) NaN = "NaN:NaN"%string.
Proof.
  split; [lra|].
  exact (proj1 (formatTime_minutes_and_seconds (fun _ => EmptyString) 125
                  ltac:(lra))).
Defined.

(** A player ten seconds into nothing yet: a buffer of 10 s, started at
    clock 2. *)
Definition a_player : App.Player :=
  {| App.isPlaying := true; App.progress := Fin 0; App.duration := Fin 10;
     App.currentTime := Fin 0; App.context := true; App.source := true;
     App.buffer := Some (Fin 10); App.startedAt := Fin 2;
     App.pausedAt := Fin 0; App.captured := Fin 0 |}.

Lemma a_player_is_playing : playing 10 2 a_player.
Proof. repeat split. Defined.

Lemma updateProgress_stays_in_range_witness :
  0 < 10 /\ 2 <= 5 /\ playing 10 2 a_player /\
  exists t g : R,
    App.currentTime (App.updateProgress (Fin 5) a_player) = Fin t /\
    App.progress (App.updateProgress (Fin 5) a_player) = Fin g /\
    0 <= t <= 10 /\ 0 <= g <= 100 /\
    (5 - 2 <= 10 ->
     t = 5 - 2 /\ g = (5 - 2) / 10 * 100 /\
     App.isPlaying (App.updateProgress (Fin 5) a_player) = true) /\
    (10 < 5 - 2 ->
     t = 10 /\ g = 100 /\
     App.isPlaying (App.updateProgress (Fin 5) a_player) = false).
Proof.
  split; [lra|]. split; [lra|]. split; [exact a_player_is_playing|].
  exact (proj1 (updateProgress_stays_in_range 5 10 2 a_player ltac:(lra)
                  ltac:(lra) a_player_is_playing)).
Defined.

Lemma pause_and_resume_keep_the_position_witness :
  0 < 10 /\ playing 10 2 a_player /\ App.progress a_player = Fin 0 /\
  0 < 100 /\ App.captured a_player = Fin 0 /\
  2 <= 5 /\ 7 <= 8 /\ (5 - 2) + (8 - 7) <= 10 /\
  exists stopped resumed : App.Player,
    App.togglePlayPause None (Fin 5) a_player = App.Done stopped /\
    App.onended (App.captured a_player) stopped = stopped /\
    App.pausedAt stopped = Fin (5 - 2) /\
    App.togglePlayPause None (Fin 7) stopped = App.Done resumed /\
    playing 10 (7 - (5 - 2)) resumed /\
    App.currentTime (App.updateProgress (Fin 8) resumed)
    = Fin ((5 - 2) + (8 - 7)).
Proof.
  split; [lra|]. split; [exact a_player_is_playing|]. split; [reflexivity|].
  split; [lra|]. split; [reflexivity|].
  split; [lra|]. split; [lra|]. split; [lra|].
  destruct (pause_and_resume_keep_the_position 5 7 8 10 2 0 0 None a_player
              ltac:(lra) a_player_is_playing eq_refl ltac:(lra) eq_refl
              ltac:(lra) ltac:(lra) ltac:(lra))
    as (stopped & H1 & _ & H3 & _ & Hfar & _).
  assert (H : 0.2 <= Rabs (0 - 10)).
  { rewrite Rabs_left by lra. lra. }
  destruct (Hfar H) as (E & resumed & H5 & H6 & H7).
  exists stopped, resumed. rewrite E in H3, H5.
  split; [exact H1|]. split; [exact E|]. split; [exact H3|].
  split; [exact H5|]. split; [exact H6|exact H7].
Defined.

Lemma V1_collision_systems_witness :
  unit_stream halves /\ radius example_params <> 0 /\
  particles 1
    (V1_objects.pos (fst (fst (V1_objects.generate_systems white
                                 example_params halves 0%nat))))
    (fun _ => around (-4) (radius example_params)).
Proof.
  split; [exact halves_unit|]. split; [cbn; lra|].
  exact (proj1 (proj1 (V1_collision_systems white example_params halves
                         0%nat 1 halves_unit ltac:(cbn; lra))
                  1%nat eq_refl)).
Defined.

Lemma V1_quasar_overlays_witness :
  unit_stream halves /\
  (0 * 3 + 2 < length one_jet_particle)%nat /\
  particles V1_objects.jetCount (fst (V1_objects.generate_jet halves 0%nat))
    (fun _ => in_column 0.075 0 12).
Proof.
  split; [exact halves_unit|]. split; [cbn; lia|].
  exact (proj1 (proj2 (proj2 (V1_quasar_overlays (fun _ => rgb 1 1 1) halves
                                0%nat 1 one_jet_particle 0 halves_unit
                                ltac:(cbn; lia))))).
Defined.
